(** * TETRIS-99: board engine, piece generator and AI move search

    A shallow embedding of [js/tetris-pieces.js] (piece catalog, bag
    generator, wall-kick tables), of the [TetrisGameEngine] class and of the
    move search of the [AIPlayer] class, followed by the properties of the
    specification that concern them.

    Conventions.
    - JavaScript numbers that hold integers (coordinates, rotation indices,
      counters, scores, milliseconds) are [Z]; [%] is the truncating
      remainder [Z.rem]; [Math.floor(a / b)] on integers is [Z.div].
    - The weights and scores of the AI are not integers: they are IEEE 754
      binary64 numbers, Rocq's primitive [float]s, with the addition,
      multiplication and comparison of the processor.
    - [null] is [None]; an array is a [list], read with stdpp's [!!].
    - A run of a method either completes, raises a [TypeError] (reading a
      property of [undefined] or [null], or calling what is not a
      function), or does not finish within the
      fuel given to its [while] loops: see [Res].
    - [Math.random] is a global source: [Random] holds the infinite sequence
      of samples and the number of samples consumed so far.
    - The engine owns its board and its pieces and is the only one to
      write them: an [Engine] is the record of its fields, and a method is
      a function from the engine before the call to the result and the
      engine after it.  The move search of the AI works on copies of the
      board and of the piece; to say that it writes nothing else, its
      model runs on a store of objects ([HM]). *)

From Stdlib Require Import ZArith QArith Qround Lia Floats.
From stdpp Require Import base tactics option list strings.

Local Open Scope Z_scope.

(** ** Outcomes of a run *)

Inductive Res (A : Type) : Type :=
| Ok (a : A)
| TypeError
| OutOfFuel.
Arguments Ok {A} a.
Arguments TypeError {A}.
Arguments OutOfFuel {A}.

Definition bindRes {A B} (m : Res A) (k : A -> Res B) : Res B :=
  match m with
  | Ok a => k a
  | TypeError => TypeError
  | OutOfFuel => OutOfFuel
  end.

Notation "'do' x <- m ; k" := (bindRes m (fun x => k))
  (at level 10, x pattern, m at level 100, k at level 200,
   format "'[v' 'do'  x  <-  m ; '/' k ']'").

(** [a[i]] for a JavaScript array and an integer index: [undefined] (here
    [None]) outside the array. *)
Definition js_get {A} (a : list A) (i : Z) : option A :=
  if i <? 0 then None else a !! Z.to_nat i.

(** [a[i] = v] for an index inside the array.  The engine writes cells
    under a bounds check against [width] and [height], and every row of
    its board has [width] cells; outside the array JavaScript would extend
    it, which no run of the engine does. *)
Definition js_set {A} (a : list A) (i : Z) (v : A) : list A :=
  if i <? 0 then a else <[Z.to_nat i := v]> a.

(** ** Piece catalog ([js/tetris-pieces.js]) *)

Module Ty.
Inductive t := I | O | T | S | Z | J | L.
End Ty.

Definition PieceType_eqb (a b : Ty.t) : bool :=
  match a, b with
  | Ty.I, Ty.I | Ty.O, Ty.O | Ty.T, Ty.T | Ty.S, Ty.S
  | Ty.Z, Ty.Z | Ty.J, Ty.J | Ty.L, Ty.L => true
  | _, _ => false
  end.

Definition PIECE_COLORS (t : Ty.t) : string :=
  match t with
  | Ty.I => "#00ffff"
  | Ty.O => "#ffff00"
  | Ty.T => "#800080"
  | Ty.S => "#00ff00"
  | Ty.Z => "#ff0000"
  | Ty.J => "#0000ff"
  | Ty.L => "#ffa500"
  end.

Abbreviation Shape := (list (list Z)).

Definition PIECE_SHAPES (t : Ty.t) : list Shape :=
  match t with
  | Ty.I =>
    [ [ [0; 0; 0; 0];
        [1; 1; 1; 1];
        [0; 0; 0; 0];
        [0; 0; 0; 0] ];
      [ [0; 0; 1; 0];
        [0; 0; 1; 0];
        [0; 0; 1; 0];
        [0; 0; 1; 0] ];
      [ [0; 0; 0; 0];
        [0; 0; 0; 0];
        [1; 1; 1; 1];
        [0; 0; 0; 0] ];
      [ [0; 1; 0; 0];
        [0; 1; 0; 0];
        [0; 1; 0; 0];
        [0; 1; 0; 0] ] ]
  | Ty.O =>
    [ [ [0; 0; 0; 0];
        [0; 1; 1; 0];
        [0; 1; 1; 0];
        [0; 0; 0; 0] ] ]
  | Ty.T =>
    [ [ [0; 0; 0; 0];
        [0; 1; 0; 0];
        [1; 1; 1; 0];
        [0; 0; 0; 0] ];
      [ [0; 0; 0; 0];
        [0; 1; 0; 0];
        [0; 1; 1; 0];
        [0; 1; 0; 0] ];
      [ [0; 0; 0; 0];
        [0; 0; 0; 0];
        [1; 1; 1; 0];
        [0; 1; 0; 0] ];
      [ [0; 0; 0; 0];
        [0; 1; 0; 0];
        [1; 1; 0; 0];
        [0; 1; 0; 0] ] ]
  | Ty.S =>
    [ [ [0; 0; 0; 0];
        [0; 1; 1; 0];
        [1; 1; 0; 0];
        [0; 0; 0; 0] ];
      [ [0; 0; 0; 0];
        [0; 1; 0; 0];
        [0; 1; 1; 0];
        [0; 0; 1; 0] ];
      [ [0; 0; 0; 0];
        [0; 0; 0; 0];
        [0; 1; 1; 0];
        [1; 1; 0; 0] ];
      [ [0; 0; 0; 0];
        [1; 0; 0; 0];
        [1; 1; 0; 0];
        [0; 1; 0; 0] ] ]
  | Ty.Z =>
    [ [ [0; 0; 0; 0];
        [1; 1; 0; 0];
        [0; 1; 1; 0];
        [0; 0; 0; 0] ];
      [ [0; 0; 0; 0];
        [0; 0; 1; 0];
        [0; 1; 1; 0];
        [0; 1; 0; 0] ];
      [ [0; 0; 0; 0];
        [0; 0; 0; 0];
        [1; 1; 0; 0];
        [0; 1; 1; 0] ];
      [ [0; 0; 0; 0];
        [0; 1; 0; 0];
        [1; 1; 0; 0];
        [1; 0; 0; 0] ] ]
  | Ty.J =>
    [ [ [0; 0; 0; 0];
        [1; 0; 0; 0];
        [1; 1; 1; 0];
        [0; 0; 0; 0] ];
      [ [0; 0; 0; 0];
        [0; 1; 1; 0];
        [0; 1; 0; 0];
        [0; 1; 0; 0] ];
      [ [0; 0; 0; 0];
        [0; 0; 0; 0];
        [1; 1; 1; 0];
        [0; 0; 1; 0] ];
      [ [0; 0; 0; 0];
        [0; 1; 0; 0];
        [0; 1; 0; 0];
        [1; 1; 0; 0] ] ]
  | Ty.L =>
    [ [ [0; 0; 0; 0];
        [0; 0; 1; 0];
        [1; 1; 1; 0];
        [0; 0; 0; 0] ];
      [ [0; 0; 0; 0];
        [0; 1; 0; 0];
        [0; 1; 0; 0];
        [0; 1; 1; 0] ];
      [ [0; 0; 0; 0];
        [0; 0; 0; 0];
        [1; 1; 1; 0];
        [1; 0; 0; 0] ];
      [ [0; 0; 0; 0];
        [1; 1; 0; 0];
        [0; 1; 0; 0];
        [0; 1; 0; 0] ] ]
  end.

(** A cell of the board: [null] or an object [{color, type}] whose [type]
    is a piece letter or the marker ['garbage']. *)
Inductive CellType := PieceCell (t : Ty.t) | garbage.

Record Cell := { color : string; type : CellType }.

Abbreviation Row := (list (option Cell)).
Abbreviation Board := (list (list (option Cell))).

(** [class TetrisPiece].  The fields [color] and [shape] are set once by the
    constructor from the type ([PIECE_COLORS[type]], [PIECE_SHAPES[type]])
    and never assigned again: they are read through [pieceColor] and
    [shape]. *)
Record TetrisPiece := {
  ptype : Ty.t;
  x : Z;
  y : Z;
  rotation : Z
}.

Definition newTetrisPiece (t : Ty.t) (x0 y0 : Z) : TetrisPiece :=
  {| ptype := t; x := x0; y := y0; rotation := 0 |}.

(** [new TetrisPiece(type)] with the default arguments [x = 3, y = 0]. *)
Definition newTetrisPiece0 (t : Ty.t) : TetrisPiece := newTetrisPiece t 3 0.

Definition pieceColor (p : TetrisPiece) : string := PIECE_COLORS (ptype p).
Definition shape (p : TetrisPiece) : list Shape := PIECE_SHAPES (ptype p).

(** [this.shape.length] *)
Definition shapeLength (p : TetrisPiece) : Z := Z.of_nat (length (shape p)).

Definition getCurrentShape (p : TetrisPiece) : option Shape :=
  js_get (shape p) (rotation p).

Definition move (dx dy : Z) (p : TetrisPiece) : TetrisPiece :=
  {| ptype := ptype p; x := x p + dx; y := y p + dy; rotation := rotation p |}.

(** [rotate(direction)] *)
Definition rotate (direction : Z) (p : TetrisPiece) : TetrisPiece :=
  {| ptype := ptype p; x := x p; y := y p;
     rotation := Z.rem (rotation p + direction + shapeLength p) (shapeLength p) |}.

Record Block := { bx : Z; by_ : Z }.

(** [shape[row][col]] is truthy *)
Definition shapeCell (s : Shape) (row col : nat) : bool :=
  match s !! row with
  | Some r => match r !! col with Some v => negb (v =? 0) | None => false end
  | None => false
  end.

Definition blocksOf (s : Shape) (px py : Z) : list Block :=
  flat_map (fun row =>
    flat_map (fun col =>
      if shapeCell s row col
      then [ {| bx := px + Z.of_nat col; by_ := py + Z.of_nat row |} ]
      else [])
      (seq 0 4))
    (seq 0 4).

(** [getBlocks()]: a [TypeError] when the rotation index selects no shape
    ([shape[row]] of [undefined]). *)
Definition getBlocks (p : TetrisPiece) : Res (list Block) :=
  match getCurrentShape p with
  | Some s => Ok (blocksOf s (x p) (y p))
  | None => TypeError
  end.

(** [clone()]: a new piece object with the same type, position and
    rotation.  In this value model the copy is the value itself. *)
Definition clone (p : TetrisPiece) : TetrisPiece :=
  {| ptype := ptype p; x := x p; y := y p; rotation := rotation p |}.

(** [board[corner.y] && board[corner.y][corner.x]] is truthy *)
Definition cornerOccupied (board : Board) (cx cy : Z) : bool :=
  match js_get board cy with
  | Some row => match js_get row cx with Some (Some _) => true | _ => false end
  | None => false
  end.

(** [isTSpin(board)]: three of the four corners of the 3x3 box of a T
    piece are outside the 10x20 field or occupied. *)
Definition isTSpin (p : TetrisPiece) (board : Board) : bool :=
  if negb (PieceType_eqb (ptype p) Ty.T) then false
  else
    let corners :=
      [ (x p, y p); (x p + 2, y p); (x p, y p + 2); (x p + 2, y p + 2) ] in
    let occupiedCorners :=
      fold_left (fun n (c : Z * Z) =>
        let (cx, cy) := c in
        if (cx <? 0) || (cx >=? 10) || (cy <? 0) || (cy >=? 20)
           || cornerOccupied board cx cy
        then n + 1 else n) corners 0 in
    occupiedCorners >=? 3.

(** ** The random source *)

Record Random := { samples : nat -> Q; used : nat }.

(** The fractional part: every sequence of rationals then denotes a legal
    run of [Math.random], whose results lie in [0, 1); a sample already in
    that interval is returned as it is (up to the representation of the
    fraction). *)
Definition frac (q : Q) : Q := (q - inject_Z (Qfloor q))%Q.

(** [Math.random()] *)
Definition Math_random (r : Random) : Q * Random :=
  (frac (samples r (used r)),
   {| samples := samples r; used := Datatypes.S (used r) |}).

(** [Math.floor(Math.random() * n)] *)
Definition randomBelow (n : Z) (r : Random) : Z * Random :=
  let (u, r') := Math_random r in
  (Qfloor (u * inject_Z n), r').

(** ** Piece generator (7-bag) *)

Definition pieces : list Ty.t :=
  [Ty.I; Ty.O; Ty.T; Ty.S; Ty.Z; Ty.J; Ty.L].

(** [[a[i], a[j]] = [a[j], a[i]]], for two indices inside the array (the
    shuffles draw [j] in [0 .. i]). *)
Definition swap {A} (a : list A) (i j : Z) : list A :=
  match js_get a i, js_get a j with
  | Some vi, Some vj => js_set (js_set a i vj) j vi
  | _, _ => a
  end.

(** The Fisher-Yates loop [for (i = n; i > 0; i--)], by recursion on the
    number [n] of indices still to visit. *)
Fixpoint shuffleFrom {A} (n : nat) (bag : list A) (r : Random)
  : list A * Random :=
  match n with
  | O => (bag, r)
  | Datatypes.S n' =>
    let i := Z.of_nat n in
    let (j, r1) := randomBelow (i + 1) r in
    shuffleFrom n' (swap bag i j) r1
  end.

(** The shuffle of [refillBag] and of [preview], from the last index down. *)
Definition shuffle {A} (bag : list A) (r : Random) : list A * Random :=
  shuffleFrom (length bag - 1) bag r.

Record PieceGenerator := { bag : list Ty.t }.

(** [refillBag()] *)
Definition refillBag (g : PieceGenerator) (r : Random)
  : PieceGenerator * Random :=
  let (b, r') := shuffle pieces r in
  ({| bag := b |}, r').

(** [this.bag.pop()] removes and returns the last element. *)
Definition pop {A} (a : list A) : option A * list A :=
  (last a, removelast a).

(** [getNext()].  [pop()] on an empty array would give [undefined]; the
    bag is never empty there ([getNext_Some] below). *)
Definition getNext (g : PieceGenerator) (r : Random)
  : option TetrisPiece * PieceGenerator * Random :=
  let (g1, r1) :=
    if (length (bag g) =? 0)%nat then refillBag g r else (g, r) in
  let (t, b) := pop (bag g1) in
  (newTetrisPiece0 <$> t, {| bag := b |}, r1).

(** [preview(count)]: the loop body, [count] times, on the copy [tempBag]
    of the bag and the list [preview] built so far. *)
Fixpoint previewLoop (count : nat) (tempBag : list Ty.t)
  (preview : list (option Ty.t)) (r : Random)
  : list (option Ty.t) * Random :=
  match count with
  | O => (preview, r)
  | Datatypes.S count' =>
    let (tempBag1, r1) :=
      if (length tempBag =? 0)%nat
      then shuffle (tempBag ++ pieces) r
      else (tempBag, r) in
    let (t, tempBag2) := pop tempBag1 in
    previewLoop count' tempBag2 (preview ++ [t]) r1
  end.

(** [preview(count)]: the previewed types, the generator, whose bag is
    only copied, and the random source after the call. *)
Definition preview (count : nat) (g : PieceGenerator) (r : Random)
  : list (option Ty.t) * PieceGenerator * Random :=
  let (pv, r') := previewLoop count (bag g) [] r in
  (pv, g, r').

(** ** Wall-kick data *)

Abbreviation Kick := (Z * Z)%type.

Definition WALL_KICK_JLSTZ (from to : Z) : option (list Kick) :=
  match from, to with
  | 0, 1 => Some [(-1, 0); (-1, 1); (0, -2); (-1, -2)]
  | 1, 0 => Some [(1, 0); (1, -1); (0, 2); (1, 2)]
  | 1, 2 => Some [(1, 0); (1, -1); (0, 2); (1, 2)]
  | 2, 1 => Some [(-1, 0); (-1, 1); (0, -2); (-1, -2)]
  | 2, 3 => Some [(1, 0); (1, 1); (0, -2); (1, -2)]
  | 3, 2 => Some [(-1, 0); (-1, -1); (0, 2); (-1, 2)]
  | 3, 0 => Some [(-1, 0); (-1, -1); (0, 2); (-1, 2)]
  | 0, 3 => Some [(1, 0); (1, 1); (0, -2); (1, -2)]
  | _, _ => None
  end.

Definition WALL_KICK_I (from to : Z) : option (list Kick) :=
  match from, to with
  | 0, 1 => Some [(-2, 0); (1, 0); (-2, -1); (1, 2)]
  | 1, 0 => Some [(2, 0); (-1, 0); (2, 1); (-1, -2)]
  | 1, 2 => Some [(-1, 0); (2, 0); (-1, 2); (2, -1)]
  | 2, 1 => Some [(1, 0); (-2, 0); (1, -2); (-2, 1)]
  | 2, 3 => Some [(2, 0); (-1, 0); (2, 1); (-1, -2)]
  | 3, 2 => Some [(-2, 0); (1, 0); (-2, -1); (1, 2)]
  | 3, 0 => Some [(1, 0); (-2, 0); (1, -2); (-2, 1)]
  | 0, 3 => Some [(-1, 0); (2, 0); (-1, 2); (2, -1)]
  | _, _ => None
  end.

Definition getWallKickData (pieceType : Ty.t) (fromRotation toRotation : Z)
  : list Kick :=
  if PieceType_eqb pieceType Ty.O then [(0, 0)]
  else
    let table :=
      if PieceType_eqb pieceType Ty.I then WALL_KICK_I else WALL_KICK_JLSTZ in
    (0, 0) :: default [] (table fromRotation toRotation).

(** ** The board engine ([class TetrisGameEngine]) *)

Record Stats := {
  totalPieces : Z;
  totalLines : Z;
  singles : Z;
  doubles : Z;
  triples : Z;
  tetrises : Z;
  tSpins : Z;
  perfectClears : Z
}.

(** The fields of the engine.  [heldPiece] is the field [this.holdPiece],
    an own property of every instance ([null] or a piece), which hides the
    method of the same name of the prototype; [random] is the
    state of the global [Math.random] as this engine sees it.  Times are
    whole milliseconds.  The sound callback [onSoundEffect] and
    [window.audioManager] receive a sound name or a line count only and
    are left out. *)
Record Engine := {

  width : Z;
  height : Z;
  board : Board;
  currentPiece : option TetrisPiece;
  nextPiece : option TetrisPiece;
  heldPiece : option TetrisPiece;
  canHold : bool;
  pieceGenerator : PieceGenerator;
  score : Z;
  level : Z;
  lines : Z;
  combo : Z;
  lastClearWasTSpin : bool;
  gameOver : bool;
  dropTimer : Z;
  dropInterval : Z;
  lockDelay : Z;
  lockTimer : Z;
  isLocking : bool;
  stats : Stats;
  random : Random

}.


(** Field assignments. *)

Definition set_width (v : Z) (e : Engine) : Engine :=
  {| width := v; height := height e; board := board e;
     currentPiece := currentPiece e; nextPiece := nextPiece e;
     heldPiece := heldPiece e; canHold := canHold e;
     pieceGenerator := pieceGenerator e; score := score e; level := level e;
     lines := lines e; combo := combo e;
     lastClearWasTSpin := lastClearWasTSpin e; gameOver := gameOver e;
     dropTimer := dropTimer e; dropInterval := dropInterval e;
     lockDelay := lockDelay e; lockTimer := lockTimer e;
     isLocking := isLocking e; stats := stats e; random := random e |}.

Definition set_height (v : Z) (e : Engine) : Engine :=
  {| width := width e; height := v; board := board e;
     currentPiece := currentPiece e; nextPiece := nextPiece e;
     heldPiece := heldPiece e; canHold := canHold e;
     pieceGenerator := pieceGenerator e; score := score e; level := level e;
     lines := lines e; combo := combo e;
     lastClearWasTSpin := lastClearWasTSpin e; gameOver := gameOver e;
     dropTimer := dropTimer e; dropInterval := dropInterval e;
     lockDelay := lockDelay e; lockTimer := lockTimer e;
     isLocking := isLocking e; stats := stats e; random := random e |}.

Definition set_board (v : Board) (e : Engine) : Engine :=
  {| width := width e; height := height e; board := v;
     currentPiece := currentPiece e; nextPiece := nextPiece e;
     heldPiece := heldPiece e; canHold := canHold e;
     pieceGenerator := pieceGenerator e; score := score e; level := level e;
     lines := lines e; combo := combo e;
     lastClearWasTSpin := lastClearWasTSpin e; gameOver := gameOver e;
     dropTimer := dropTimer e; dropInterval := dropInterval e;
     lockDelay := lockDelay e; lockTimer := lockTimer e;
     isLocking := isLocking e; stats := stats e; random := random e |}.

Definition set_currentPiece (v : option TetrisPiece) (e : Engine) : Engine :=
  {| width := width e; height := height e; board := board e;
     currentPiece := v; nextPiece := nextPiece e; heldPiece := heldPiece e;
     canHold := canHold e; pieceGenerator := pieceGenerator e;
     score := score e; level := level e; lines := lines e; combo := combo e;
     lastClearWasTSpin := lastClearWasTSpin e; gameOver := gameOver e;
     dropTimer := dropTimer e; dropInterval := dropInterval e;
     lockDelay := lockDelay e; lockTimer := lockTimer e;
     isLocking := isLocking e; stats := stats e; random := random e |}.

Definition set_nextPiece (v : option TetrisPiece) (e : Engine) : Engine :=
  {| width := width e; height := height e; board := board e;
     currentPiece := currentPiece e; nextPiece := v;
     heldPiece := heldPiece e; canHold := canHold e;
     pieceGenerator := pieceGenerator e; score := score e; level := level e;
     lines := lines e; combo := combo e;
     lastClearWasTSpin := lastClearWasTSpin e; gameOver := gameOver e;
     dropTimer := dropTimer e; dropInterval := dropInterval e;
     lockDelay := lockDelay e; lockTimer := lockTimer e;
     isLocking := isLocking e; stats := stats e; random := random e |}.

Definition set_heldPiece (v : option TetrisPiece) (e : Engine) : Engine :=
  {| width := width e; height := height e; board := board e;
     currentPiece := currentPiece e; nextPiece := nextPiece e;
     heldPiece := v; canHold := canHold e;
     pieceGenerator := pieceGenerator e; score := score e; level := level e;
     lines := lines e; combo := combo e;
     lastClearWasTSpin := lastClearWasTSpin e; gameOver := gameOver e;
     dropTimer := dropTimer e; dropInterval := dropInterval e;
     lockDelay := lockDelay e; lockTimer := lockTimer e;
     isLocking := isLocking e; stats := stats e; random := random e |}.

Definition set_canHold (v : bool) (e : Engine) : Engine :=
  {| width := width e; height := height e; board := board e;
     currentPiece := currentPiece e; nextPiece := nextPiece e;
     heldPiece := heldPiece e; canHold := v;
     pieceGenerator := pieceGenerator e; score := score e; level := level e;
     lines := lines e; combo := combo e;
     lastClearWasTSpin := lastClearWasTSpin e; gameOver := gameOver e;
     dropTimer := dropTimer e; dropInterval := dropInterval e;
     lockDelay := lockDelay e; lockTimer := lockTimer e;
     isLocking := isLocking e; stats := stats e; random := random e |}.

Definition set_pieceGenerator (v : PieceGenerator) (e : Engine) : Engine :=
  {| width := width e; height := height e; board := board e;
     currentPiece := currentPiece e; nextPiece := nextPiece e;
     heldPiece := heldPiece e; canHold := canHold e; pieceGenerator := v;
     score := score e; level := level e; lines := lines e; combo := combo e;
     lastClearWasTSpin := lastClearWasTSpin e; gameOver := gameOver e;
     dropTimer := dropTimer e; dropInterval := dropInterval e;
     lockDelay := lockDelay e; lockTimer := lockTimer e;
     isLocking := isLocking e; stats := stats e; random := random e |}.

Definition set_score (v : Z) (e : Engine) : Engine :=
  {| width := width e; height := height e; board := board e;
     currentPiece := currentPiece e; nextPiece := nextPiece e;
     heldPiece := heldPiece e; canHold := canHold e;
     pieceGenerator := pieceGenerator e; score := v; level := level e;
     lines := lines e; combo := combo e;
     lastClearWasTSpin := lastClearWasTSpin e; gameOver := gameOver e;
     dropTimer := dropTimer e; dropInterval := dropInterval e;
     lockDelay := lockDelay e; lockTimer := lockTimer e;
     isLocking := isLocking e; stats := stats e; random := random e |}.

Definition set_level (v : Z) (e : Engine) : Engine :=
  {| width := width e; height := height e; board := board e;
     currentPiece := currentPiece e; nextPiece := nextPiece e;
     heldPiece := heldPiece e; canHold := canHold e;
     pieceGenerator := pieceGenerator e; score := score e; level := v;
     lines := lines e; combo := combo e;
     lastClearWasTSpin := lastClearWasTSpin e; gameOver := gameOver e;
     dropTimer := dropTimer e; dropInterval := dropInterval e;
     lockDelay := lockDelay e; lockTimer := lockTimer e;
     isLocking := isLocking e; stats := stats e; random := random e |}.

Definition set_lines (v : Z) (e : Engine) : Engine :=
  {| width := width e; height := height e; board := board e;
     currentPiece := currentPiece e; nextPiece := nextPiece e;
     heldPiece := heldPiece e; canHold := canHold e;
     pieceGenerator := pieceGenerator e; score := score e; level := level e;
     lines := v; combo := combo e; lastClearWasTSpin := lastClearWasTSpin e;
     gameOver := gameOver e; dropTimer := dropTimer e;
     dropInterval := dropInterval e; lockDelay := lockDelay e;
     lockTimer := lockTimer e; isLocking := isLocking e; stats := stats e;
     random := random e |}.

Definition set_combo (v : Z) (e : Engine) : Engine :=
  {| width := width e; height := height e; board := board e;
     currentPiece := currentPiece e; nextPiece := nextPiece e;
     heldPiece := heldPiece e; canHold := canHold e;
     pieceGenerator := pieceGenerator e; score := score e; level := level e;
     lines := lines e; combo := v; lastClearWasTSpin := lastClearWasTSpin e;
     gameOver := gameOver e; dropTimer := dropTimer e;
     dropInterval := dropInterval e; lockDelay := lockDelay e;
     lockTimer := lockTimer e; isLocking := isLocking e; stats := stats e;
     random := random e |}.

Definition set_lastClearWasTSpin (v : bool) (e : Engine) : Engine :=
  {| width := width e; height := height e; board := board e;
     currentPiece := currentPiece e; nextPiece := nextPiece e;
     heldPiece := heldPiece e; canHold := canHold e;
     pieceGenerator := pieceGenerator e; score := score e; level := level e;
     lines := lines e; combo := combo e; lastClearWasTSpin := v;
     gameOver := gameOver e; dropTimer := dropTimer e;
     dropInterval := dropInterval e; lockDelay := lockDelay e;
     lockTimer := lockTimer e; isLocking := isLocking e; stats := stats e;
     random := random e |}.

Definition set_gameOver (v : bool) (e : Engine) : Engine :=
  {| width := width e; height := height e; board := board e;
     currentPiece := currentPiece e; nextPiece := nextPiece e;
     heldPiece := heldPiece e; canHold := canHold e;
     pieceGenerator := pieceGenerator e; score := score e; level := level e;
     lines := lines e; combo := combo e;
     lastClearWasTSpin := lastClearWasTSpin e; gameOver := v;
     dropTimer := dropTimer e; dropInterval := dropInterval e;
     lockDelay := lockDelay e; lockTimer := lockTimer e;
     isLocking := isLocking e; stats := stats e; random := random e |}.

Definition set_dropTimer (v : Z) (e : Engine) : Engine :=
  {| width := width e; height := height e; board := board e;
     currentPiece := currentPiece e; nextPiece := nextPiece e;
     heldPiece := heldPiece e; canHold := canHold e;
     pieceGenerator := pieceGenerator e; score := score e; level := level e;
     lines := lines e; combo := combo e;
     lastClearWasTSpin := lastClearWasTSpin e; gameOver := gameOver e;
     dropTimer := v; dropInterval := dropInterval e;
     lockDelay := lockDelay e; lockTimer := lockTimer e;
     isLocking := isLocking e; stats := stats e; random := random e |}.

Definition set_dropInterval (v : Z) (e : Engine) : Engine :=
  {| width := width e; height := height e; board := board e;
     currentPiece := currentPiece e; nextPiece := nextPiece e;
     heldPiece := heldPiece e; canHold := canHold e;
     pieceGenerator := pieceGenerator e; score := score e; level := level e;
     lines := lines e; combo := combo e;
     lastClearWasTSpin := lastClearWasTSpin e; gameOver := gameOver e;
     dropTimer := dropTimer e; dropInterval := v; lockDelay := lockDelay e;
     lockTimer := lockTimer e; isLocking := isLocking e; stats := stats e;
     random := random e |}.

Definition set_lockDelay (v : Z) (e : Engine) : Engine :=
  {| width := width e; height := height e; board := board e;
     currentPiece := currentPiece e; nextPiece := nextPiece e;
     heldPiece := heldPiece e; canHold := canHold e;
     pieceGenerator := pieceGenerator e; score := score e; level := level e;
     lines := lines e; combo := combo e;
     lastClearWasTSpin := lastClearWasTSpin e; gameOver := gameOver e;
     dropTimer := dropTimer e; dropInterval := dropInterval e;
     lockDelay := v; lockTimer := lockTimer e; isLocking := isLocking e;
     stats := stats e; random := random e |}.

Definition set_lockTimer (v : Z) (e : Engine) : Engine :=
  {| width := width e; height := height e; board := board e;
     currentPiece := currentPiece e; nextPiece := nextPiece e;
     heldPiece := heldPiece e; canHold := canHold e;
     pieceGenerator := pieceGenerator e; score := score e; level := level e;
     lines := lines e; combo := combo e;
     lastClearWasTSpin := lastClearWasTSpin e; gameOver := gameOver e;
     dropTimer := dropTimer e; dropInterval := dropInterval e;
     lockDelay := lockDelay e; lockTimer := v; isLocking := isLocking e;
     stats := stats e; random := random e |}.

Definition set_isLocking (v : bool) (e : Engine) : Engine :=
  {| width := width e; height := height e; board := board e;
     currentPiece := currentPiece e; nextPiece := nextPiece e;
     heldPiece := heldPiece e; canHold := canHold e;
     pieceGenerator := pieceGenerator e; score := score e; level := level e;
     lines := lines e; combo := combo e;
     lastClearWasTSpin := lastClearWasTSpin e; gameOver := gameOver e;
     dropTimer := dropTimer e; dropInterval := dropInterval e;
     lockDelay := lockDelay e; lockTimer := lockTimer e; isLocking := v;
     stats := stats e; random := random e |}.

Definition set_stats (v : Stats) (e : Engine) : Engine :=
  {| width := width e; height := height e; board := board e;
     currentPiece := currentPiece e; nextPiece := nextPiece e;
     heldPiece := heldPiece e; canHold := canHold e;
     pieceGenerator := pieceGenerator e; score := score e; level := level e;
     lines := lines e; combo := combo e;
     lastClearWasTSpin := lastClearWasTSpin e; gameOver := gameOver e;
     dropTimer := dropTimer e; dropInterval := dropInterval e;
     lockDelay := lockDelay e; lockTimer := lockTimer e;
     isLocking := isLocking e; stats := v; random := random e |}.

Definition set_random (v : Random) (e : Engine) : Engine :=
  {| width := width e; height := height e; board := board e;
     currentPiece := currentPiece e; nextPiece := nextPiece e;
     heldPiece := heldPiece e; canHold := canHold e;
     pieceGenerator := pieceGenerator e; score := score e; level := level e;
     lines := lines e; combo := combo e;
     lastClearWasTSpin := lastClearWasTSpin e; gameOver := gameOver e;
     dropTimer := dropTimer e; dropInterval := dropInterval e;
     lockDelay := lockDelay e; lockTimer := lockTimer e;
     isLocking := isLocking e; stats := stats e; random := v |}.

Definition set_totalPieces (v : Z) (s : Stats) : Stats :=
  {| totalPieces := v; totalLines := totalLines s; singles := singles s;
     doubles := doubles s; triples := triples s; tetrises := tetrises s;
     tSpins := tSpins s; perfectClears := perfectClears s |}.

Definition set_totalLines (v : Z) (s : Stats) : Stats :=
  {| totalPieces := totalPieces s; totalLines := v; singles := singles s;
     doubles := doubles s; triples := triples s; tetrises := tetrises s;
     tSpins := tSpins s; perfectClears := perfectClears s |}.

Definition set_singles (v : Z) (s : Stats) : Stats :=
  {| totalPieces := totalPieces s; totalLines := totalLines s; singles := v;
     doubles := doubles s; triples := triples s; tetrises := tetrises s;
     tSpins := tSpins s; perfectClears := perfectClears s |}.

Definition set_doubles (v : Z) (s : Stats) : Stats :=
  {| totalPieces := totalPieces s; totalLines := totalLines s;
     singles := singles s; doubles := v; triples := triples s;
     tetrises := tetrises s; tSpins := tSpins s;
     perfectClears := perfectClears s |}.

Definition set_triples (v : Z) (s : Stats) : Stats :=
  {| totalPieces := totalPieces s; totalLines := totalLines s;
     singles := singles s; doubles := doubles s; triples := v;
     tetrises := tetrises s; tSpins := tSpins s;
     perfectClears := perfectClears s |}.

Definition set_tetrises (v : Z) (s : Stats) : Stats :=
  {| totalPieces := totalPieces s; totalLines := totalLines s;
     singles := singles s; doubles := doubles s; triples := triples s;
     tetrises := v; tSpins := tSpins s; perfectClears := perfectClears s |}.

Definition set_tSpins (v : Z) (s : Stats) : Stats :=
  {| totalPieces := totalPieces s; totalLines := totalLines s;
     singles := singles s; doubles := doubles s; triples := triples s;
     tetrises := tetrises s; tSpins := v; perfectClears := perfectClears s |}.

Definition set_perfectClears (v : Z) (s : Stats) : Stats :=
  {| totalPieces := totalPieces s; totalLines := totalLines s;
     singles := singles s; doubles := doubles s; triples := triples s;
     tetrises := tetrises s; tSpins := tSpins s; perfectClears := v |}.

Definition emptyRow (e : Engine) : Row :=
  replicate (Z.to_nat (width e)) None.

(** [createEmptyBoard()] *)
Definition createEmptyBoard (e : Engine) : Board :=
  replicate (Z.to_nat (height e)) (emptyRow e).

(** [isColliding(piece)] reads the fields [width], [height] and [board] of
    the engine: [collides] is its body as a function of the three.

    [blockCollides] is one turn of its loop: [Some b] when the loop returns
    [b] at this block, [None] when it goes on to the next block. *)
Definition blockCollides (w h : Z) (bd : Board) (b : Block)
  : Res (option bool) :=
  if (bx b <? 0) || (bx b >=? w) || (by_ b <? 0) || (by_ b >=? h)
  then Ok (Some true)
  else
    match js_get bd (by_ b) with
    | None => TypeError
    | Some row =>
      match js_get row (bx b) with
      | Some None => Ok None
      | _ => Ok (Some true)
      end
    end.

Fixpoint collidingLoop (w h : Z) (bd : Board) (blocks : list Block)
  : Res bool :=
  match blocks with
  | [] => Ok false
  | b :: rest =>
    do r <- blockCollides w h bd b;
    match r with
    | Some v => Ok v
    | None => collidingLoop w h bd rest
    end
  end.

Definition collides (w h : Z) (bd : Board) (piece : TetrisPiece) : Res bool :=
  do blocks <- getBlocks piece;
  collidingLoop w h bd blocks.

Definition isColliding (e : Engine) (piece : TetrisPiece) : Res bool :=
  collides (width e) (height e) (board e) piece.

Definition resetLockTimer (e : Engine) : Engine :=
  set_isLocking false (set_lockTimer 0 e).

(** [spawnNewPiece()]: [isColliding(null)] raises a [TypeError]. *)
Definition spawnNewPiece (e : Engine) : Res Engine :=
  let e1 := set_currentPiece (nextPiece e) e in
  let '(p, g, r) := getNext (pieceGenerator e1) (random e1) in
  let e2 := set_random r (set_pieceGenerator g (set_nextPiece p e1)) in
  let e3 := set_lockTimer 0 (set_isLocking false (set_canHold true e2)) in
  let e4 := set_stats (set_totalPieces (totalPieces (stats e3) + 1) (stats e3)) e3 in
  match currentPiece e4 with
  | None => TypeError
  | Some cur =>
    do c <- isColliding e4 cur;
    if c then Ok (set_gameOver true e4) else Ok e4
  end.

(** [initializeGame()] *)
Definition initializeGame (e : Engine) : Res Engine :=
  let e1 := set_board (createEmptyBoard e) e in
  let '(p, g, r) := getNext (pieceGenerator e1) (random e1) in
  spawnNewPiece (set_random r (set_pieceGenerator g (set_nextPiece p e1))).

Definition emptyStats : Stats :=
  {| totalPieces := 0; totalLines := 0; singles := 0; doubles := 0;
     triples := 0; tetrises := 0; tSpins := 0; perfectClears := 0 |}.

(** [new PieceGenerator()] *)
Definition newPieceGenerator (r : Random) : PieceGenerator * Random :=
  refillBag {| bag := [] |} r.

(** The fields as the constructor sets them before [initializeGame()]. *)
Definition blankEngine (w h : Z) (g : PieceGenerator) (r : Random) : Engine :=
  let e0 :=
    {| width := w; height := h; board := []; currentPiece := None;
       nextPiece := None; heldPiece := None; canHold := true;
       pieceGenerator := g; score := 0; level := 1; lines := 0; combo := 0;
       lastClearWasTSpin := false; gameOver := false; dropTimer := 0;
       dropInterval := 1000; lockDelay := 500; lockTimer := 0;
       isLocking := false; stats := emptyStats; random := r |} in
  set_board (createEmptyBoard e0) e0.

(** [new TetrisGameEngine(width, height)] *)
Definition newEngine (w h : Z) (r : Random) : Res Engine :=
  let (g, r1) := newPieceGenerator r in
  initializeGame (blankEngine w h g r1).

(** [movePiece(dx, dy)] *)
Definition movePiece (dx dy : Z) (e : Engine) : Res (bool * Engine) :=
  match currentPiece e with
  | None => Ok (false, e)
  | Some cur =>
    if gameOver e then Ok (false, e)
    else
      let originalX := x cur in
      let originalY := y cur in
      let moved := move dx dy cur in
      do c <- isColliding e moved;
      if c then
        Ok (false,
            set_currentPiece
              (Some {| ptype := ptype moved; x := originalX; y := originalY;
                       rotation := rotation moved |}) e)
      else
        let e1 := set_currentPiece (Some moved) e in
        Ok (true, if dy =? 0 then resetLockTimer e1 else e1)
  end.

(** The wall-kick loop of [rotatePiece] on the current piece [cur], whose
    rotation is already the new one: [Some p] when the loop returns [true]
    with the piece left as [p], [None] with the piece as it stands after
    the last turn when every offset collides. *)
Fixpoint kickLoop (e : Engine) (cur : TetrisPiece) (kickData : list Kick)
  : Res (bool * TetrisPiece) :=
  match kickData with
  | [] => Ok (false, cur)
  | (dx, dy) :: rest =>
    let cur1 := move dx dy cur in
    do c <- isColliding e cur1;
    if negb c then Ok (true, cur1)
    else kickLoop e (move (- dx) (- dy) cur1) rest
  end.

Definition set_rotation (v : Z) (p : TetrisPiece) : TetrisPiece :=
  {| ptype := ptype p; x := x p; y := y p; rotation := v |}.

(** [rotatePiece(direction)] *)
Definition rotatePiece (direction : Z) (e : Engine) : Res (bool * Engine) :=
  match currentPiece e with
  | None => Ok (false, e)
  | Some cur =>
    if gameOver e then Ok (false, e)
    else
      let originalRotation := rotation cur in
      let newRotation :=
        Z.rem (originalRotation + direction + shapeLength cur) (shapeLength cur) in
      let kickData := getWallKickData (ptype cur) originalRotation newRotation in
      do r <- kickLoop e (set_rotation newRotation cur) kickData;
      let (found, cur1) := r in
      if found then
        Ok (true, resetLockTimer (set_currentPiece (Some cur1) e))
      else
        Ok (false, set_currentPiece (Some (set_rotation originalRotation cur1)) e)
  end.

(** The body of the [forEach] of [lockPiece] for one block.  The write is
    made under a bounds check against [width] and [height]; a board with
    fewer than [height] rows raises a [TypeError] ([board[y]] is
    [undefined]). *)
Definition placeBlock (e : Engine) (cell : Cell) (bd : Board) (b : Block)
  : Res Board :=
  if (by_ b >=? 0) && (by_ b <? height e) && (bx b >=? 0) && (bx b <? width e)
  then
    match js_get bd (by_ b) with
    | None => TypeError
    | Some row => Ok (js_set bd (by_ b) (js_set row (bx b) (Some cell)))
    end
  else Ok bd.

Fixpoint placeBlocks (e : Engine) (cell : Cell) (bd : Board)
  (blocks : list Block) : Res Board :=
  match blocks with
  | [] => Ok bd
  | b :: rest =>
    do bd1 <- placeBlock e cell bd b;
    placeBlocks e cell bd1 rest
  end.

(** [row.every(cell => cell !== null)] *)
Definition rowFull (row : Row) : bool := forallb (fun c => bool_decide (c <> None)) row.

(** [row.every(cell => cell === null)] *)
Definition rowEmpty (row : Row) : bool := forallb (fun c => bool_decide (c = None)) row.

(** [isPerfectClear()] *)
Definition isPerfectClear (e : Engine) : bool := forallb rowEmpty (board e).

(** The scan of [clearLines] over [y = 0 .. height - 1]. *)
Fixpoint fullRowsLoop (bd : Board) (ys : list nat) (fullRows : list nat)
  : Res (list nat) :=
  match ys with
  | [] => Ok fullRows
  | y0 :: rest =>
    match bd !! y0 with
    | None => TypeError
    | Some row =>
      fullRowsLoop bd rest (if rowFull row then fullRows ++ [y0] else fullRows)
    end
  end.

(** [board.splice(row, 1); board.unshift(Array(width).fill(null))] *)
Definition removeRow (e : Engine) (bd : Board) (row : nat) : Board :=
  emptyRow e :: delete row bd.

(** [updateLevel()] *)
Definition updateLevel (e : Engine) : Engine :=
  let newLevel := lines e / 10 + 1 in
  if newLevel >? level e then
    let e1 := set_level newLevel e in
    set_dropInterval (Z.max 50 (1000 - (level e1 - 1) * 50)) e1
  else e.

Definition bumpLineStat (n : Z) (s : Stats) : Stats :=
  match n with
  | 1 => set_singles (singles s + 1) s
  | 2 => set_doubles (doubles s + 1) s
  | 3 => set_triples (triples s + 1) s
  | 4 => set_tetrises (tetrises s + 1) s
  | _ => s
  end.

(** [clearLines()] *)
Definition clearLines (e : Engine) : Res (Z * Engine) :=
  do fullRows <- fullRowsLoop (board e) (seq 0 (Z.to_nat (height e))) [];
  if (length fullRows =? 0)%nat then Ok (0, set_combo 0 e)
  else
    let n := Z.of_nat (length fullRows) in
    let e1 := set_board (fold_left (removeRow e) fullRows (board e)) e in
    let e2 := set_lines (lines e1 + n) e1 in
    let e3 := set_stats (set_totalLines (totalLines (stats e2) + n) (stats e2)) e2 in
    let e4 := set_combo (combo e3 + 1) e3 in
    let e5 := set_stats (bumpLineStat n (stats e4)) e4 in
    let e6 :=
      if isPerfectClear e5
      then set_stats (set_perfectClears (perfectClears (stats e5) + 1) (stats e5)) e5
      else e5 in
    Ok (n, updateLevel e6).

(** [calculateScore(lines, isTSpin)] *)
Definition calculateScore (cleared : Z) (tspin : bool) (e : Engine) : Engine :=
  let '(baseScore, e1) :=
    if tspin then
      let e1 :=
        set_lastClearWasTSpin true
          (set_stats (set_tSpins (tSpins (stats e) + 1) (stats e)) e) in
      (match cleared with
       | 0 => 400
       | 1 => 800
       | 2 => 1200
       | 3 => 1600
       | _ => 0
       end, e1)
    else
      (match cleared with
       | 1 => 100
       | 2 => 300
       | 3 => 500
       | 4 => 800
       | _ => 0
       end, set_lastClearWasTSpin false e) in
  let baseScore1 :=
    if combo e1 >? 1 then baseScore + 50 * (combo e1 - 1) else baseScore in
  let baseScore2 :=
    if isPerfectClear e1 then baseScore1 * 10 else baseScore1 in
  set_score (score e1 + baseScore2 * level e1) e1.

(** [lockPiece()] *)
Definition lockPiece (e : Engine) : Res Engine :=
  match currentPiece e with
  | None => Ok e
  | Some cur =>
    do blocks <- getBlocks cur;
    let cell := {| color := pieceColor cur; type := PieceCell (ptype cur) |} in
    do bd <- placeBlocks e cell (board e) blocks;
    let e1 := set_board bd e in
    let tspin := isTSpin cur (board e1) in
    do r <- clearLines e1;
    let (clearedLines, e2) := r in
    spawnNewPiece (calculateScore clearedLines tspin e2)
  end.

(** The loop [while (this.movePiece(0, 1)) dropDistance++] of [hardDrop]. *)
Fixpoint dropLoop (fuel : nat) (dropDistance : Z) (e : Engine)
  : Res (Z * Engine) :=
  match fuel with
  | O => OutOfFuel
  | Datatypes.S fuel' =>
    do r <- movePiece 0 1 e;
    let (moved, e1) := r in
    if moved then dropLoop fuel' (dropDistance + 1) e1
    else Ok (dropDistance, e1)
  end.

(** [hardDrop()] *)
Definition hardDrop (fuel : nat) (e : Engine) : Res (Z * Engine) :=
  match currentPiece e with
  | None => Ok (0, e)
  | Some _ =>
    if gameOver e then Ok (0, e)
    else
      do r <- dropLoop fuel 0 e;
      let (dropDistance, e1) := r in
      do e2 <- lockPiece e1;
      Ok (dropDistance, set_score (score e2 + dropDistance * 2) e2)
  end.

(** [softDrop()] *)
Definition softDrop (e : Engine) : Res (bool * Engine) := movePiece 0 1 e.

(** The method [holdPiece()] of the prototype (part_003:222-248), as its
    body would run on an engine, with [heldPiece] for the field
    [this.holdPiece].  No call of the program runs it: see [holdPiece]
    below. *)
Module Prototype.

Definition holdPiece (e : Engine) : Res (bool * Engine) :=
  match currentPiece e with
  | None => Ok (false, e)
  | Some cur =>
    if negb (canHold e) || gameOver e then Ok (false, e)
    else
      let currentType := ptype cur in
      do e1 <-
        match heldPiece e with
        | Some held =>
          let holdType := ptype held in
          let e1 := set_heldPiece (Some (newTetrisPiece0 currentType)) e in
          let fresh := newTetrisPiece0 holdType in
          Ok (set_currentPiece
                (Some {| ptype := ptype fresh; x := width e1 / 2 - 2; y := 0;
                         rotation := rotation fresh |}) e1)
        | None =>
          spawnNewPiece (set_heldPiece (Some (newTetrisPiece0 currentType)) e)
        end;
      Ok (true, set_canHold false e1)
  end.

End Prototype.

(** What the property [holdPiece] of an engine can hold: the constructor
    (part_003:19) and [reset()] (part_003:529) assign [null] to it, the
    body of the method assigns a piece, and the method of the prototype is
    found only on an object without the own property. *)
Inductive Property :=
  | NullValue
  | PieceValue (p : TetrisPiece)
  | FunctionValue (m : Engine -> Res (bool * Engine)).

(** [engine.holdPiece]: the own property of the instance, always there. *)
Definition getHoldPiece (e : Engine) : Property :=
  match heldPiece e with
  | None => NullValue
  | Some p => PieceValue p
  end.

(** [f()] on an engine: anything that is not a function raises a
    [TypeError]. *)
Definition invoke (f : Property) (e : Engine) : Res (bool * Engine) :=
  match f with
  | FunctionValue m => m e
  | NullValue | PieceValue _ => TypeError
  end.

(** [engine.holdPiece()], the call of part_004:181 and part_000:425. *)
Definition holdPiece (e : Engine) : Res (bool * Engine) :=
  invoke (getHoldPiece e) e.

(** [update(deltaTime)] *)
Definition update (deltaTime : Z) (e : Engine) : Res Engine :=
  match currentPiece e with
  | None => Ok e
  | Some _ =>
    if gameOver e then Ok e
    else
      let e1 := set_dropTimer (dropTimer e + deltaTime) e in
      do e2 <-
        (if dropTimer e1 >=? dropInterval e1 then
           do r <- movePiece 0 1 e1;
           let (moved, e2) := r in
           let e3 :=
             if negb moved && negb (isLocking e2)
             then set_lockTimer 0 (set_isLocking true e2)
             else e2 in
           Ok (set_dropTimer 0 e3)
         else Ok e1);
      if isLocking e2 then
        let e3 := set_lockTimer (lockTimer e2 + deltaTime) e2 in
        if lockTimer e3 >=? lockDelay e3 then lockPiece e3 else Ok e3
      else Ok e2
  end.

(** [getAttackLines(lines, isTSpin)] *)
Definition getAttackLines (cleared : Z) (tspin : bool) (e : Engine) : Z :=
  let attack :=
    if tspin then
      match cleared with
      | 0 => 0
      | 1 => 2
      | 2 => 4
      | 3 => 6
      | _ => 0
      end
    else
      match cleared with
      | 1 => 0
      | 2 => 1
      | 3 => 2
      | 4 => 4
      | _ => 0
      end in
  let attack1 :=
    if combo e >? 1 then attack + Z.min (combo e - 1) 4 else attack in
  if isPerfectClear e then attack1 + 10 else attack1.

Definition garbageCell : Cell := {| color := "#666666"; type := garbage |}.

(** One turn of the second loop of [receiveAttack]: a row filled with the
    garbage cell, one random column set to [null], pushed at the bottom. *)
Definition pushGarbageLine (e : Engine) : Engine :=
  let garbageLine := replicate (Z.to_nat (width e)) (Some garbageCell) in
  let (hole, r) := randomBelow (width e) (random e) in
  set_random r (set_board (board e ++ [js_set garbageLine hole None]) e).

(** [receiveAttack(lines)] for a whole number of lines.  [shift()] on an
    empty array removes nothing. *)
Definition receiveAttack (n : Z) (e : Engine) : Res Engine :=
  if n <=? 0 then Ok e
  else
    let e1 := set_board (Nat.iter (Z.to_nat n) (@tail Row) (board e)) e in
    let e2 := Nat.iter (Z.to_nat n) pushGarbageLine e1 in
    match currentPiece e2 with
    | None => Ok e2
    | Some cur =>
      do c <- isColliding e2 cur;
      if c then Ok (set_gameOver true e2) else Ok e2
    end.

(** The loop [while (!this.isColliding(ghost)) ghost.y++] of
    [getGhostPiece]. *)
Fixpoint ghostLoop (fuel : nat) (e : Engine) (ghost : TetrisPiece)
  : Res TetrisPiece :=
  match fuel with
  | O => OutOfFuel
  | Datatypes.S fuel' =>
    do c <- isColliding e ghost;
    if negb c then
      ghostLoop fuel' e
        {| ptype := ptype ghost; x := x ghost; y := y ghost + 1;
           rotation := rotation ghost |}
    else Ok ghost
  end.

(** [getGhostPiece()] *)
Definition getGhostPiece (fuel : nat) (e : Engine) : Res (option TetrisPiece) :=
  match currentPiece e with
  | None => Ok None
  | Some cur =>
    do ghost <- ghostLoop fuel e (clone cur);
    Ok (Some {| ptype := ptype ghost; x := x ghost; y := y ghost - 1;
                rotation := rotation ghost |})
  end.

(** [reset()] *)
Definition reset (e : Engine) : Res Engine :=
  let e1 := set_board (createEmptyBoard e) e in
  let e2 := set_canHold true
              (set_heldPiece None (set_nextPiece None (set_currentPiece None e1))) in
  let (g, r) := newPieceGenerator (random e2) in
  let e3 := set_random r (set_pieceGenerator g e2) in
  let e4 := set_combo 0 (set_lines 0 (set_level 1 (set_score 0 e3))) in
  let e5 := set_gameOver false (set_lastClearWasTSpin false e4) in
  let e6 := set_lockDelay 500 (set_dropInterval 1000 (set_dropTimer 0 e5)) in
  let e7 := set_isLocking false (set_lockTimer 0 e6) in
  initializeGame (set_stats emptyStats e7).

(** ** The AI player ([class AIPlayer]): executing a move *)

(** A move candidate [{x, y, rotation, score}]. *)
Record Move := { mx : Z; my : Z; mrotation : Z; mscore : float }.

(** The loop [while (currentPiece.rotation !== move.rotation)
    this.gameEngine.rotatePiece(1)].  [currentPiece] is the object the
    engine holds as its current piece, which [rotatePiece] updates in
    place. *)
Fixpoint rotateLoop (fuel : nat) (target : Z) (e : Engine) : Res Engine :=
  match fuel with
  | O => OutOfFuel
  | Datatypes.S fuel' =>
    match currentPiece e with
    | None => TypeError
    | Some cur =>
      if negb (rotation cur =? target) then
        do r <- rotatePiece 1 e;
        rotateLoop fuel' target (snd r)
      else Ok e
    end
  end.

(** [executeBestMove(move)] *)
Definition executeBestMove (fuel : nat) (m : Move) (e : Engine) : Res Engine :=
  match currentPiece e with
  | None => Ok e
  | Some _ =>
    do e1 <- rotateLoop fuel (mrotation m) e;
    match currentPiece e1 with
    | None => TypeError
    | Some cur =>
      let dx := mx m - x cur in
      do e2 <- (if negb (dx =? 0)
                then do r <- movePiece dx 0 e1; Ok (snd r)
                else Ok e1);
      do r <- hardDrop fuel e2;
      Ok (snd r)
    end
  end.

(** ** The AI player: the move search, on a store of objects

    The search clones the current piece and copies the board row by row
    before it writes.  To state what it leaves untouched, the arrays, cell
    objects and pieces it works on live in a store: an array holds [null]s
    and references, a row of the board is an array of cells, the board an
    array of rows. *)

Abbreviation loc := nat (only parsing).

Inductive Val := Null | Ref (l : loc).

(** What the search reads of the engine [this.gameEngine]: the fields
    [board], [currentPiece], [width] and [height]. *)
Record EngineObj := {
  boardRef : loc;
  currentPieceRef : Val;
  widthOf : Z;
  heightOf : Z
}.

Inductive Obj :=
| OArray (elems : list Val)
| OCell (c : Cell)
| OPiece (p : TetrisPiece)
| OEngine (g : EngineObj).

Abbreviation Heap := (list Obj).

(** A computation on the store. *)
Definition HM (A : Type) : Type := Heap -> Res (A * Heap).

Definition retH {A} (a : A) : HM A := fun h => Ok (a, h).

Definition bindH {A B} (m : HM A) (k : A -> HM B) : HM B :=
  fun h => match m h with
           | Ok (a, h1) => k a h1
           | TypeError => TypeError
           | OutOfFuel => OutOfFuel
           end.

Notation "'doH' x <- m ; k" := (bindH m (fun x => k))
  (at level 10, x pattern, m at level 100, k at level 200,
   format "'[v' 'doH'  x  <-  m ; '/' k ']'").

Definition liftRes {A} (r : Res A) : HM A :=
  fun h => match r with
           | Ok a => Ok (a, h)
           | TypeError => TypeError
           | OutOfFuel => OutOfFuel
           end.

Definition throwH {A} : HM A := fun _ => TypeError.

(** A new object: its reference is the next free address. *)
Definition alloc (o : Obj) : HM loc := fun h => Ok (length h, h ++ [o]).

Definition load (l : loc) : HM Obj :=
  fun h => match h !! l with Some o => Ok (o, h) | None => TypeError end.

Definition store (l : loc) (o : Obj) : HM unit :=
  fun h => if (l <? length h)%nat then Ok (tt, <[l := o]> h) else TypeError.

Definition loadArray (l : loc) : HM (list Val) :=
  doH o <- load l;
  match o with OArray elems => retH elems | _ => throwH end.

Definition loadPiece (l : loc) : HM TetrisPiece :=
  doH o <- load l;
  match o with OPiece p => retH p | _ => throwH end.

Definition loadEngine (l : loc) : HM EngineObj :=
  doH o <- load l;
  match o with OEngine g => retH g | _ => throwH end.

Fixpoint mapH {A B} (f : A -> HM B) (l : list A) : HM (list B) :=
  match l with
  | [] => retH []
  | a :: rest =>
    doH b <- f a;
    doH bs <- mapH f rest;
    retH (b :: bs)
  end.

(** Reading a cell, a row and a whole board out of the store. *)
Definition readCell (v : Val) : HM (option Cell) :=
  match v with
  | Null => retH None
  | Ref l =>
    doH o <- load l;
    match o with OCell c => retH (Some c) | _ => throwH end
  end.

Definition readRow (v : Val) : HM Row :=
  match v with
  | Null => throwH
  | Ref l => doH elems <- loadArray l; mapH readCell elems
  end.

Definition readBoard (b : loc) : HM Board :=
  doH rows <- loadArray b;
  mapH readRow rows.

(** [this.gameEngine.isColliding(piece)]: the engine reads its fields, the
    blocks of the piece and the cells of its board. *)
Definition isCollidingH (gameEngine : loc) (piece : loc) : HM bool :=
  doH g <- loadEngine gameEngine;
  doH p <- loadPiece piece;
  doH bd <- readBoard (boardRef g);
  liftRes (collides (widthOf g) (heightOf g) bd p).

(** [piece.clone()] *)
Definition cloneH (piece : loc) : HM loc :=
  doH p <- loadPiece piece;
  alloc (OPiece (clone p)).

(** An assignment to the fields of a piece object. *)
Definition modifyPiece (piece : loc) (f : TetrisPiece -> TetrisPiece)
  : HM unit :=
  doH p <- loadPiece piece;
  store piece (OPiece (f p)).

Definition set_x (v : Z) (p : TetrisPiece) : TetrisPiece :=
  {| ptype := ptype p; x := v; y := y p; rotation := rotation p |}.

Definition set_y (v : Z) (p : TetrisPiece) : TetrisPiece :=
  {| ptype := ptype p; x := x p; y := v; rotation := rotation p |}.

(** [board.map(row => [...row])]: a new array of new rows. *)
Definition copyRow (v : Val) : HM Val :=
  match v with
  | Null => throwH
  | Ref l => doH elems <- loadArray l; doH l1 <- alloc (OArray elems); retH (Ref l1)
  end.

Definition copyBoard (b : loc) : HM loc :=
  doH rows <- loadArray b;
  doH rows1 <- mapH copyRow rows;
  alloc (OArray rows1).

(** [tempBoard[block.y][block.x] = { color: piece.color, type: piece.type }]
    under the bounds check of [evaluatePosition]. *)
Definition placeBlockAt (g : EngineObj) (p : TetrisPiece) (tempBoard : loc)
  (b : Block) : HM unit :=
  if (by_ b >=? 0) && (by_ b <? heightOf g) && (bx b >=? 0) && (bx b <? widthOf g)
  then
    doH c <- alloc (OCell {| color := pieceColor p; type := PieceCell (ptype p) |});
    doH rows <- loadArray tempBoard;
    match js_get rows (by_ b) with
    | Some (Ref r) =>
      doH elems <- loadArray r;
      store r (OArray (js_set elems (bx b) (Ref c)))
    | _ => throwH
    end
  else retH tt.

Definition placeBlockH (gameEngine : loc) (p : TetrisPiece) (tempBoard : loc)
  (b : Block) : HM unit :=
  doH g <- loadEngine gameEngine;
  placeBlockAt g p tempBoard b.

Fixpoint forEachH {A} (f : A -> HM unit) (l : list A) : HM unit :=
  match l with
  | [] => retH tt
  | a :: rest => doH _ <- f a; forEachH f rest
  end.

(** The difficulty profile.  A decimal literal is the binary64 number
    nearest to it, in JavaScript as here. *)
Record AIParams := {
  lookAhead : Z;
  heightWeight : float;
  linesWeight : float;
  holesWeight : float;
  bumpinessWeight : float;
  aggregateHeightWeight : float;
  errorRate : float
}.

#[local] Set Warnings "-inexact-float".

Definition mediumParams : AIParams :=
  {| lookAhead := 2; heightWeight := -0.7; linesWeight := 1.0;
     holesWeight := -0.5; bumpinessWeight := -0.2;
     aggregateHeightWeight := -0.2; errorRate := 0.08 |}.

(** [getAIParams(difficulty)] *)
Definition getAIParams (difficulty : string) : AIParams :=
  if String.eqb difficulty "easy" then
    {| lookAhead := 1; heightWeight := -0.5; linesWeight := 0.8;
       holesWeight := -0.3; bumpinessWeight := -0.1;
       aggregateHeightWeight := -0.1; errorRate := 0.15 |}
  else if String.eqb difficulty "medium" then mediumParams
  else if String.eqb difficulty "hard" then
    {| lookAhead := 3; heightWeight := -0.9; linesWeight := 1.2;
       holesWeight := -0.7; bumpinessWeight := -0.3;
       aggregateHeightWeight := -0.3; errorRate := 0.03 |}
  else if String.eqb difficulty "expert" then
    {| lookAhead := 4; heightWeight := -1.0; linesWeight := 1.5;
       holesWeight := -1.0; bumpinessWeight := -0.4;
       aggregateHeightWeight := -0.4; errorRate := 0.01 |}
  else mediumParams.

(** The measures of [evaluatePosition] only read the board they are given:
    they are functions of its contents. *)

(** [countClearedLines(board)] *)
Definition countClearedLines (bd : Board) : Z :=
  fold_left (fun n row => if rowFull row then n + 1 else n) bd 0.

(** [row.some(cell => cell !== null)] *)
Definition rowSome (row : Row) : bool :=
  existsb (fun c => bool_decide (c <> None)) row.

Fixpoint maxHeightLoop (rows : list Row) (len y0 : Z) : Z :=
  match rows with
  | [] => 0
  | row :: rest => if rowSome row then len - y0 else maxHeightLoop rest len (y0 + 1)
  end.

(** [getMaxHeight(board)] *)
Definition getMaxHeight (bd : Board) : Z :=
  maxHeightLoop bd (Z.of_nat (length bd)) 0.

(** [board[y][x] !== null] *)
Definition occupiedAt (bd : Board) (y0 x0 : nat) : Res bool :=
  match bd !! y0 with
  | None => TypeError
  | Some row => Ok (match row !! x0 with Some None => false | _ => true end)
  end.

Fixpoint holesInColumn (bd : Board) (x0 : nat) (ys : list nat)
  (foundBlock : bool) (holes : Z) : Res Z :=
  match ys with
  | [] => Ok holes
  | y0 :: rest =>
    do o <- occupiedAt bd y0 x0;
    if o then holesInColumn bd x0 rest true holes
    else holesInColumn bd x0 rest foundBlock
           (if foundBlock then holes + 1 else holes)
  end.

Fixpoint countHolesLoop (bd : Board) (xs : list nat) (h : nat) (holes : Z)
  : Res Z :=
  match xs with
  | [] => Ok holes
  | x0 :: rest =>
    do holes1 <- holesInColumn bd x0 (seq 0 h) false holes;
    countHolesLoop bd rest h holes1
  end.

(** [countHoles(board)] *)
Definition countHoles (w h : Z) (bd : Board) : Res Z :=
  countHolesLoop bd (seq 0 (Z.to_nat w)) (Z.to_nat h) 0.

(** The inner loop of [getBumpiness] and [getAggregateHeight]: the value
    [height - y] at the first occupied cell of the column, [0] when the
    loop ends without one. *)
Fixpoint columnHeight (bd : Board) (x0 : nat) (ys : list nat) (h : Z)
  : Res Z :=
  match ys with
  | [] => Ok 0
  | y0 :: rest =>
    do o <- occupiedAt bd y0 x0;
    if o then Ok (h - Z.of_nat y0) else columnHeight bd x0 rest h
  end.

Fixpoint heightsLoop (bd : Board) (xs : list nat) (h : Z) : Res (list Z) :=
  match xs with
  | [] => Ok []
  | x0 :: rest =>
    do c <- columnHeight bd x0 (seq 0 (Z.to_nat h)) h;
    do cs <- heightsLoop bd rest h;
    Ok (c :: cs)
  end.

Fixpoint bumpinessLoop (heights : list Z) (bumpiness : Z) : Z :=
  match heights with
  | a :: ((b :: _) as rest) => bumpinessLoop rest (bumpiness + Z.abs (a - b))
  | _ => bumpiness
  end.

(** [getBumpiness(board)] *)
Definition getBumpiness (w h : Z) (bd : Board) : Res Z :=
  do heights <- heightsLoop bd (seq 0 (Z.to_nat w)) h;
  Ok (bumpinessLoop heights 0).

(** [getAggregateHeight(board)] *)
Definition getAggregateHeight (w h : Z) (bd : Board) : Res Z :=
  do heights <- heightsLoop bd (seq 0 (Z.to_nat w)) h;
  Ok (fold_left Z.add heights 0).

(** [isPerfectClear(board)] of the AI player *)
Definition isPerfectClearBoard (bd : Board) : bool := forallb rowEmpty bd.

(** [board.filter(row => !row.every(cell => cell !== null))] *)
Fixpoint filterRowsH (rows : list Val) : HM (list Val) :=
  match rows with
  | [] => retH []
  | v :: rest =>
    doH row <- readRow v;
    doH kept <- filterRowsH rest;
    retH (if negb (rowFull row) then v :: kept else kept)
  end.

(** [while (newBoard.length < height) newBoard.unshift(Array(width).fill(null))] *)
Fixpoint unshiftLoop (fuel : nat) (gameEngine : loc) (newBoard : loc)
  : HM unit :=
  match fuel with
  | O => fun _ => OutOfFuel
  | Datatypes.S fuel' =>
    doH rows <- loadArray newBoard;
    doH g <- loadEngine gameEngine;
    if Z.of_nat (length rows) <? heightOf g then
      doH r <- alloc (OArray (replicate (Z.to_nat (widthOf g)) Null));
      doH _ <- store newBoard (OArray (Ref r :: rows));
      unshiftLoop fuel' gameEngine newBoard
    else retH tt
  end.

(** [removeClearedLines(board)] *)
Definition removeClearedLinesH (fuel : nat) (gameEngine : loc) (b : loc)
  : HM loc :=
  doH rows <- loadArray b;
  doH kept <- filterRowsH rows;
  doH newBoard <- alloc (OArray kept);
  doH _ <- unshiftLoop fuel gameEngine newBoard;
  retH newBoard.

(** An integer as a number: the measures of a board are counters and
    differences of indices, which JavaScript holds as binary64 numbers
    too.  The conversion is exact up to [2^53] and rounds to the nearest
    number beyond. *)
Definition numberOf (z : Z) : float :=
  SF2Prim (binary_normalize prec emax z 0 false).

(** [evaluatePosition(piece)] *)
Definition evaluatePositionH (fuel : nat) (a : AIParams) (gameEngine : loc)
  (piece : loc) : HM float :=
  doH g <- loadEngine gameEngine;
  doH tempBoard <- copyBoard (boardRef g);
  doH p <- loadPiece piece;
  doH blocks <- liftRes (getBlocks p);
  doH _ <- forEachH (placeBlockH gameEngine p tempBoard) blocks;
  doH tb <- readBoard tempBoard;
  let clearedLines := countClearedLines tb in
  doH boardAfterClear <- removeClearedLinesH fuel gameEngine tempBoard;
  doH bac <- readBoard boardAfterClear;
  let height := getMaxHeight bac in
  doH holes <- liftRes (countHoles (widthOf g) (heightOf g) bac);
  doH bumpiness <- liftRes (getBumpiness (widthOf g) (heightOf g) bac);
  doH aggregateHeight <- liftRes (getAggregateHeight (widthOf g) (heightOf g) bac);
  let score0 := 0%float in
  let score1 :=
    (score0 + linesWeight a * numberOf clearedLines * numberOf clearedLines)%float in
  let score2 := (score1 + heightWeight a * numberOf height)%float in
  let score3 := (score2 + holesWeight a * numberOf holes)%float in
  let score4 := (score3 + bumpinessWeight a * numberOf bumpiness)%float in
  let score5 :=
    (score4 + aggregateHeightWeight a * numberOf aggregateHeight)%float in
  doH live <- readBoard (boardRef g);
  let score6 :=
    if PieceType_eqb (ptype p) Ty.T && isTSpin p live
    then (score5 + 100)%float else score5 in
  let score7 :=
    if isPerfectClearBoard bac then (score6 + 1000)%float else score6 in
  retH score7.

(** [while (!this.gameEngine.isColliding(testPiece)) testPiece.y++] *)
Fixpoint dropTestPiece (fuel : nat) (gameEngine : loc) (testPiece : loc)
  : HM unit :=
  match fuel with
  | O => fun _ => OutOfFuel
  | Datatypes.S fuel' =>
    doH c <- isCollidingH gameEngine testPiece;
    if negb c then
      doH _ <- modifyPiece testPiece (fun p => set_y (y p + 1) p);
      dropTestPiece fuel' gameEngine testPiece
    else retH tt
  end.

(** [score > bestScore].  [None] is the [-Infinity] that [bestScore] holds
    until a candidate is taken: a score, a sum of products of weights and
    measures, is above it. *)
Definition scoreGt (score : float) (bestScore : option float) : bool :=
  match bestScore with
  | None => true
  | Some b => PrimFloat.ltb b score
  end.

(** The body of the inner loop of [findBestMove], on the variables
    [bestMove] and [bestScore]. *)
Definition tryPlacement (fuel : nat) (a : AIParams) (gameEngine : loc)
  (currentPiece0 : loc) (rot : Z) (best : option Move * option float) (x0 : Z)
  : HM (option Move * option float) :=
  doH testPiece <- cloneH currentPiece0;
  doH _ <- modifyPiece testPiece (set_rotation rot);
  doH _ <- modifyPiece testPiece (set_x x0);
  doH _ <- modifyPiece testPiece (set_y 0);
  doH _ <- dropTestPiece fuel gameEngine testPiece;
  doH _ <- modifyPiece testPiece (fun p => set_y (y p - 1) p);
  doH c <- isCollidingH gameEngine testPiece;
  if c then retH best
  else
    doH score0 <- evaluatePositionH fuel a gameEngine testPiece;
    if scoreGt score0 (snd best) then
      doH p <- loadPiece testPiece;
      retH (Some {| mx := x p; my := y p; mrotation := rot; mscore := score0 |},
            Some score0)
    else retH best.

Fixpoint foldH {A B} (f : B -> A -> HM B) (l : list A) (b : B) : HM B :=
  match l with
  | [] => retH b
  | a :: rest => doH b1 <- f b a; foldH f rest b1
  end.

(** The integers [lo, lo + 1, ..., lo + n - 1]. *)
Definition zrange (lo : Z) (n : nat) : list Z :=
  map (fun i => lo + Z.of_nat i) (seq 0 n).

(** [findBestMove()] *)
Definition findBestMoveH (fuel : nat) (a : AIParams) (gameEngine : loc)
  : HM (option Move) :=
  doH g <- loadEngine gameEngine;
  match currentPieceRef g with
  | Null => retH None
  | Ref currentPiece0 =>
    doH p <- loadPiece currentPiece0;
    doH best <-
      foldH (fun best rot =>
               foldH (tryPlacement fuel a gameEngine currentPiece0 rot)
                     (zrange (-2) (Z.to_nat (widthOf g + 4))) best)
            (zrange 0 (length (shape p))) (None, None);
    retH (fst best)
  end.

(** An engine as objects of the store: its cells, rows, board array and
    current piece, and the engine object that refers to them. *)
Definition allocCell (c : option Cell) : HM Val :=
  match c with
  | None => retH Null
  | Some c0 => doH l <- alloc (OCell c0); retH (Ref l)
  end.

Definition allocRow (r : Row) : HM Val :=
  doH vs <- mapH allocCell r;
  doH l <- alloc (OArray vs);
  retH (Ref l).

Definition allocEngine (e : Engine) : HM loc :=
  doH rows <- mapH allocRow (board e);
  doH b <- alloc (OArray rows);
  doH p <- match currentPiece e with
           | None => retH Null
           | Some p0 => doH l <- alloc (OPiece p0); retH (Ref l)
           end;
  alloc (OEngine {| boardRef := b; currentPieceRef := p;
                    widthOf := width e; heightOf := height e |}).

(** [findBestMove()] of an AI player whose engine is [e]. *)
Definition findBestMove (fuel : nat) (a : AIParams) (e : Engine)
  : Res (option Move) :=
  match (doH gameEngine <- allocEngine e;
         findBestMoveH fuel a gameEngine) [] with
  | Ok (m, _) => Ok m
  | TypeError => TypeError
  | OutOfFuel => OutOfFuel
  end.

(** ** The AI player: choosing a target ([selectTarget]) *)

(** What [selectTarget] reads of a player object: [id], [isAlive],
    [targetPlayer] (a player id or [null]) and [koCount]. *)
Record Player := {
  playerId : Z;
  isAlive : bool;
  targetPlayer : option Z;
  koCount : Z
}.

(** [players.filter(p => p.isAlive && p.id !== this.id)] *)
Definition alivePlayersOf (self : Z) (players : list Player) : list Player :=
  List.filter (fun p => isAlive p && negb (playerId p =? self)) players.

(** [l[Math.floor(Math.random() * l.length)].id] *)
Definition pickRandom (l : list Player) (r : Random) : Res (option Z * Random) :=
  let (i, r') := randomBelow (Z.of_nat (length l)) r in
  match js_get l i with
  | Some p => Ok (Some (playerId p), r')
  | None => TypeError
  end.

(** [selectTarget(players, 'random')] *)
Definition selectTargetRandom (self : Z) (players : list Player) (r : Random)
  : Res (option Z * Random) :=
  let alivePlayers := alivePlayersOf self players in
  if (length alivePlayers =? 0)%nat then Ok (None, r)
  else pickRandom alivePlayers r.

(** [alivePlayers.reduce((max, p) => p.koCount > max.koCount ? p : max)] *)
Definition strongestOf (first : Player) (rest : list Player) : Player :=
  fold_left (fun max p => if koCount p >? koCount max then p else max) rest first.

(** [selectTarget(players, strategy)] of the AI player with id [self].
    The callback of the ['ko'] case calls [p.gameEngine.getMaxHeight],
    which [TetrisGameEngine] does not have ([getMaxHeight] is a method of
    [AIPlayer]): [reduce] returns the only element of a one-element array
    without calling it, and the first call raises a [TypeError]. *)
Definition selectTarget (self : Z) (players : list Player) (strategy : string)
  (r : Random) : Res (option Z * Random) :=
  let alivePlayers := alivePlayersOf self players in
  if (length alivePlayers =? 0)%nat then Ok (None, r)
  else if String.eqb strategy "random" then pickRandom alivePlayers r
  else if String.eqb strategy "attacker" then
    let attackers :=
      List.filter (fun p => match targetPlayer p with
                            | Some t => t =? self
                            | None => false
                            end) alivePlayers in
    if (0 <? length attackers)%nat then pickRandom attackers r
    else selectTargetRandom self players r
  else if String.eqb strategy "ko" then
    match alivePlayers with
    | [p] => Ok (Some (playerId p), r)
    | _ => TypeError
    end
  else if String.eqb strategy "badge" then
    match alivePlayers with
    | first :: rest => Ok (Some (playerId (strongestOf first rest)), r)
    | [] => TypeError
    end
  else selectTargetRandom self players r.

(** ** The spectator view ([class SpectatorSystem]) *)

(** What the spectator view reads of a player object: [id] and
    [gameOver]. *)
Record Spectated := { sid : Z; sGameOver : bool }.

(** The fields of the view that its methods read and write.  Of each of
    the three page elements the model keeps the [style.display] value,
    [None] while the element has not been made; [allPlayers] is
    [undefined] until [startSpectating] sets it.  The two callbacks are
    [null] after the constructor and nothing in the repository sets them:
    the model is of a view without callbacks. *)
Record SpectatorSystem := {
  isSpectating : bool;
  spectatingPlayerId : option Z;
  spectatorCanvas : option string;
  spectatorInfo : option string;
  spectatorControls : option string;
  autoSwitchEnabled : bool;
  spectatingHistory : list Z;
  maxHistoryLength : Z;
  allPlayers : option (list Spectated)
}.

(** [new SpectatorSystem()] *)
Definition newSpectatorSystem : SpectatorSystem :=
  {| isSpectating := false; spectatingPlayerId := None;
     spectatorCanvas := None; spectatorInfo := None;
     spectatorControls := None; autoSwitchEnabled := false;
     spectatingHistory := []; maxHistoryLength := 10; allPlayers := None |}.

(** [initialize(canvas)]: [createSpectatorCanvas], [createSpectatorUI] and
    [createSpectatorControls] make the three elements, each hidden. *)
Definition initialize (s : SpectatorSystem) : SpectatorSystem :=
  {| isSpectating := isSpectating s;
     spectatingPlayerId := spectatingPlayerId s;
     spectatorCanvas := Some "none"%string;
     spectatorInfo := Some "none"%string;
     spectatorControls := Some "none"%string;
     autoSwitchEnabled := autoSwitchEnabled s;
     spectatingHistory := spectatingHistory s;
     maxHistoryLength := maxHistoryLength s;
     allPlayers := allPlayers s |}.

(** [a.slice(0, end)]: a negative [end] counts from the end of the
    array. *)
Definition slice0 {A} (a : list A) (end_ : Z) : list A :=
  if end_ <? 0 then take (Z.to_nat (Z.of_nat (length a) + end_)) a
  else take (Z.to_nat end_) a.

(** [addToHistory(playerId)] *)
Definition addToHistory (playerId0 : Z) (s : SpectatorSystem)
  : SpectatorSystem :=
  let filtered :=
    List.filter (fun id => negb (id =? playerId0)) (spectatingHistory s) in
  let unshifted := playerId0 :: filtered in
  let history :=
    if Z.of_nat (length unshifted) >? maxHistoryLength s
    then slice0 unshifted (maxHistoryLength s)
    else unshifted in
  {| isSpectating := isSpectating s;
     spectatingPlayerId := spectatingPlayerId s;
     spectatorCanvas := spectatorCanvas s;
     spectatorInfo := spectatorInfo s;
     spectatorControls := spectatorControls s;
     autoSwitchEnabled := autoSwitchEnabled s;
     spectatingHistory := history;
     maxHistoryLength := maxHistoryLength s;
     allPlayers := allPlayers s |}.

(** The three assignments to [style.display], in the order canvas, info,
    controls; an element that has not been made raises a [TypeError]. *)
Definition setDisplay (v : string) (s : SpectatorSystem)
  : Res SpectatorSystem :=
  match spectatorCanvas s, spectatorInfo s, spectatorControls s with
  | Some _, Some _, Some _ =>
    Ok {| isSpectating := isSpectating s;
          spectatingPlayerId := spectatingPlayerId s;
          spectatorCanvas := Some v;
          spectatorInfo := Some v;
          spectatorControls := Some v;
          autoSwitchEnabled := autoSwitchEnabled s;
          spectatingHistory := spectatingHistory s;
          maxHistoryLength := maxHistoryLength s;
          allPlayers := allPlayers s |}
  | _, _, _ => TypeError
  end.

(** [startSpectating(playerId, allPlayers)] *)
Definition startSpectating (playerId0 : Z) (players : list Spectated)
  (s : SpectatorSystem) : Res (bool * SpectatorSystem) :=
  match List.find (fun p => sid p =? playerId0) players with
  | None => Ok (false, s)
  | Some player =>
    if sGameOver player then Ok (false, s)
    else
      let s1 :=
        {| isSpectating := true;
           spectatingPlayerId := Some playerId0;
           spectatorCanvas := spectatorCanvas s;
           spectatorInfo := spectatorInfo s;
           spectatorControls := spectatorControls s;
           autoSwitchEnabled := autoSwitchEnabled s;
           spectatingHistory := spectatingHistory s;
           maxHistoryLength := maxHistoryLength s;
           allPlayers := Some players |} in
      do s2 <- setDisplay "block" s1;
      Ok (true, addToHistory playerId0 s2)
  end.

(** [stopSpectating()] *)
Definition stopSpectating (s : SpectatorSystem) : Res SpectatorSystem :=
  setDisplay "none"
    {| isSpectating := false;
       spectatingPlayerId := None;
       spectatorCanvas := spectatorCanvas s;
       spectatorInfo := spectatorInfo s;
       spectatorControls := spectatorControls s;
       autoSwitchEnabled := false;
       spectatingHistory := spectatingHistory s;
       maxHistoryLength := maxHistoryLength s;
       allPlayers := allPlayers s |}.

(** [this.allPlayers.filter(p => !p.gameOver)] *)
Definition alivePlayers (players : list Spectated) : list Spectated :=
  List.filter (fun p => negb (sGameOver p)) players.

(** [p.id === this.spectatingPlayerId] *)
Definition isSpectated (current : option Z) (p : Spectated) : bool :=
  match current with
  | Some id => sid p =? id
  | None => false
  end.

(** [alivePlayers.findIndex(p => p.id === this.spectatingPlayerId)], the
    index counted from [i]. *)
Fixpoint findIndexFrom (current : option Z) (l : list Spectated) (i : Z) : Z :=
  match l with
  | [] => -1
  | p :: rest =>
    if isSpectated current p then i else findIndexFrom current rest (i + 1)
  end.

(** The assignments at the end of both switches. *)
Definition spectate (p : Spectated) (s : SpectatorSystem) : SpectatorSystem :=
  addToHistory (sid p)
    {| isSpectating := isSpectating s;
       spectatingPlayerId := Some (sid p);
       spectatorCanvas := spectatorCanvas s;
       spectatorInfo := spectatorInfo s;
       spectatorControls := spectatorControls s;
       autoSwitchEnabled := autoSwitchEnabled s;
       spectatingHistory := spectatingHistory s;
       maxHistoryLength := maxHistoryLength s;
       allPlayers := allPlayers s |}.

(** [switchToNextPlayer()] *)
Definition switchToNextPlayer (s : SpectatorSystem) : Res SpectatorSystem :=
  match allPlayers s with
  | None => Ok s
  | Some players =>
    if negb (isSpectating s) then Ok s
    else
      let alive := alivePlayers players in
      if (length alive =? 0)%nat then stopSpectating s
      else
        let currentIndex := findIndexFrom (spectatingPlayerId s) alive 0 in
        let nextIndex := Z.rem (currentIndex + 1) (Z.of_nat (length alive)) in
        match js_get alive nextIndex with
        | None => TypeError
        | Some nextPlayer => Ok (spectate nextPlayer s)
        end
  end.

(** [switchToPreviousPlayer()] *)
Definition switchToPreviousPlayer (s : SpectatorSystem) : Res SpectatorSystem :=
  match allPlayers s with
  | None => Ok s
  | Some players =>
    if negb (isSpectating s) then Ok s
    else
      let alive := alivePlayers players in
      if (length alive =? 0)%nat then stopSpectating s
      else
        let currentIndex := findIndexFrom (spectatingPlayerId s) alive 0 in
        let prevIndex :=
          if currentIndex =? 0 then Z.of_nat (length alive) - 1
          else currentIndex - 1 in
        match js_get alive prevIndex with
        | None => TypeError
        | Some prevPlayer => Ok (spectate prevPlayer s)
        end
  end.

(** [cell === 0] for a cell of an engine board, which is [null] or a cell
    object, never the number 0. *)
Definition cellIsZero (c : option Cell) : bool :=
  match c with
  | None => false
  | Some _ => false
  end.

(** The loop of [calculatePlayerHealth]: the number of leading rows all
    of whose cells are [=== 0]. *)
Fixpoint emptyRowsLoop (rows : list Row) (emptyRows : Z) : Z :=
  match rows with
  | [] => emptyRows
  | row :: rest =>
    if forallb cellIsZero row then emptyRowsLoop rest (emptyRows + 1)
    else emptyRows
  end.

(** [calculatePlayerHealth(player)], given [player.gameEngine].  The
    result is [emptyRows / height]; [None] stands for the [NaN] of
    [0 / 0]. *)
Definition calculatePlayerHealth (gameEngine : option Engine) : option Q :=
  match gameEngine with
  | None => Some 1%Q
  | Some e =>
    let height0 := Z.of_nat (length (board e)) in
    let emptyRows := emptyRowsLoop (board e) 0 in
    if height0 =? 0 then None
    else Some (emptyRows # Z.to_pos height0)%Q
  end.

(** ** Badges ([class BadgeSystem]) *)

Module Badges.

(** [this.badgeTypes], in the order of its keys. *)
Inductive BadgeType := ATTACKER | SPEED | DEFENSE | COMBO.

Definition badgeTypes : list BadgeType := [ATTACKER; SPEED; DEFENSE; COMBO].

Definition BadgeType_eqb (a b : BadgeType) : bool :=
  match a, b with
  | ATTACKER, ATTACKER | SPEED, SPEED | DEFENSE, DEFENSE | COMBO, COMBO => true
  | _, _ => false
  end.

(** [player.stats].  The counters are whole numbers; [gameTime] is the
    number handed to [updatePlayerStat]. *)
Record PlayerStats := {
  koCount : Z;
  pps : Q;
  blockedAttacks : Z;
  maxCombo : Z;
  totalPieces : Z;
  gameTime : Q
}.

(** [player.badges], an object from badge type to level, as the list of
    its properties in the order they were added. *)
Definition BadgeMap := list (BadgeType * Z).

(** What the badge system reads and writes of a player object; [None] is
    a property that is not there. *)
Record BadgePlayer := {
  badges : option BadgeMap;
  stats : option PlayerStats
}.

(** The object [updatePlayerBadges] assigns to [player.stats] when the
    player has none. *)
Definition zeroStats : PlayerStats :=
  {| koCount := 0; pps := 0; blockedAttacks := 0; maxCombo := 0;
     totalPieces := 0; gameTime := 0 |}.

(** [this.badgeColors[level]] *)
Definition badgeColors (level : Z) : option string :=
  match level with
  | 1 => Some "#CD7F32"%string
  | 2 => Some "#C0C0C0"%string
  | 3 => Some "#FFD700"%string
  | 4 => Some "#E5E4E2"%string
  | _ => None
  end.

(** The thresholds of [this.badgeConditions], by level. *)
Definition koCountCondition (level : Z) : option Z :=
  match level with 1 => Some 1 | 2 => Some 3 | 3 => Some 6 | 4 => Some 10
  | _ => None end.

Definition ppsCondition (level : Z) : option Q :=
  match level with
  | 1 => Some (3 # 2)%Q | 2 => Some 2%Q | 3 => Some (5 # 2)%Q | 4 => Some 3%Q
  | _ => None
  end.

Definition blockedAttacksCondition (level : Z) : option Z :=
  match level with 1 => Some 10 | 2 => Some 25 | 3 => Some 50 | 4 => Some 100
  | _ => None end.

Definition maxComboCondition (level : Z) : option Z :=
  match level with 1 => Some 4 | 2 => Some 6 | 3 => Some 8 | 4 => Some 10
  | _ => None end.

(** [badges[badgeType]] *)
Fixpoint getBadge (t : BadgeType) (m : BadgeMap) : option Z :=
  match m with
  | [] => None
  | (k, v) :: rest => if BadgeType_eqb k t then Some v else getBadge t rest
  end.

(** [badges[badgeType] = level]: an existing property keeps its place, a
    new one is added at the end. *)
Fixpoint setBadge (t : BadgeType) (level : Z) (m : BadgeMap) : BadgeMap :=
  match m with
  | [] => [(t, level)]
  | (k, v) :: rest =>
    if BadgeType_eqb k t then (k, level) :: rest
    else (k, v) :: setBadge t level rest
  end.

(** [player.badges[badgeType] || 0] *)
Definition currentLevelOf (t : BadgeType) (m : BadgeMap) : Z :=
  match getBadge t m with
  | Some v => v
  | None => 0
  end.

Section Numbers.

(** The division of two numbers, rounded as the machine rounds it. *)
Variable divide : Q -> Q -> Q.

(** The [pps] of [meetsBadgeCondition]. *)
Definition piecesPerSecond (s : PlayerStats) : Q :=
  if Qlt_le_dec 0 (gameTime s)
  then divide (inject_Z (totalPieces s)) (divide (gameTime s) 1000)
  else 0%Q.

(** [meetsBadgeCondition(player, badgeType, level)]: reading a field of
    [player.stats] or of the condition raises a [TypeError] when that
    object is not there. *)
Definition meetsBadgeCondition (p : BadgePlayer) (t : BadgeType) (level : Z)
  : Res bool :=
  match stats p with
  | None => TypeError
  | Some s =>
    match t with
    | ATTACKER =>
      match koCountCondition level with
      | Some c => Ok (koCount s >=? c)
      | None => TypeError
      end
    | SPEED =>
      match ppsCondition level with
      | Some c => Ok (Qle_bool c (piecesPerSecond s))
      | None => TypeError
      end
    | DEFENSE =>
      match blockedAttacksCondition level with
      | Some c => Ok (blockedAttacks s >=? c)
      | None => TypeError
      end
    | COMBO =>
      match maxComboCondition level with
      | Some c => Ok (maxCombo s >=? c)
      | None => TypeError
      end
    end
  end.

(** The loop of [checkBadgeLevel], over the levels still to try. *)
Fixpoint checkLevels (p : BadgePlayer) (t : BadgeType) (levels : list Z)
  : Res Z :=
  match levels with
  | [] => Ok 0
  | i :: rest =>
    do met <- meetsBadgeCondition p t i;
    if met then Ok i else checkLevels p t rest
  end.

(** [checkBadgeLevel(player, badgeType)] *)
Definition checkBadgeLevel (p : BadgePlayer) (t : BadgeType) : Res Z :=
  checkLevels p t [4; 3; 2; 1].

(** A badge reported by [updatePlayerBadges]. *)
Record NewBadge := {
  nbType : BadgeType;
  nbLevel : Z;
  nbColor : option string
}.

(** The body of the [forEach] of [updatePlayerBadges], on the badges of
    the player and the array [newBadges]. *)
Definition updateBadge (p : BadgePlayer) (acc : BadgeMap * list NewBadge)
  (t : BadgeType) : Res (BadgeMap * list NewBadge) :=
  let currentLevel := currentLevelOf t acc.1 in
  do newLevel <- checkBadgeLevel p t;
  if newLevel >? currentLevel
  then Ok (setBadge t newLevel acc.1,
           acc.2 ++ [ {| nbType := t; nbLevel := newLevel;
                         nbColor := badgeColors newLevel |} ])
  else Ok acc.

Fixpoint updateBadges (p : BadgePlayer) (types : list BadgeType)
  (acc : BadgeMap * list NewBadge) : Res (BadgeMap * list NewBadge) :=
  match types with
  | [] => Ok acc
  | t :: rest => do acc1 <- updateBadge p acc t; updateBadges p rest acc1
  end.

(** [updatePlayerBadges(player)]: the new badges and the player after the
    call. *)
Definition updatePlayerBadges (p : BadgePlayer)
  : Res (list NewBadge * BadgePlayer) :=
  let badges0 := match badges p with Some m => m | None => [] end in
  let stats0 := match stats p with Some s => s | None => zeroStats end in
  let p1 := {| badges := Some badges0; stats := Some stats0 |} in
  do r <- updateBadges p1 badgeTypes (badges0, []);
  Ok (r.2, {| badges := Some r.1; stats := Some stats0 |}).

End Numbers.

End Badges.

(** [evaluatePosition(piece)] of an AI player whose engine is [e], for a
    piece object that holds [p]. *)
Definition evaluatePosition (fuel : nat) (a : AIParams) (e : Engine)
  (p : TetrisPiece) : Res float :=
  match (doH gameEngine <- allocEngine e;
         doH piece <- alloc (OPiece p);
         evaluatePositionH fuel a gameEngine piece) [] with
  | Ok (score0, _) => Ok score0
  | TypeError => TypeError
  | OutOfFuel => OutOfFuel
  end.

(** * Vocabulary of the properties *)

(** ** Well-formed engines *)

(** A rotation index that selects a shape of the piece. *)
Definition validPiece (p : TetrisPiece) : Prop :=
  0 <= rotation p < shapeLength p.

(** Every row has [w] cells and there are [h] rows. *)
Definition rectangular (w h : Z) (bd : Board) : bool :=
  (length bd =? Z.to_nat h)%nat
  && forallb (fun row : Row => (length row =? Z.to_nat w)%nat) bd.

Definition validOption (p : option TetrisPiece) : Prop :=
  match p with Some q => validPiece q | None => True end.

(** The states the engine keeps itself in while a game runs: a board of
    [height] rows of [width] cells, a next piece, and rotation indices
    inside the shape tables. *)
Record wfEngine (e : Engine) : Prop := {
  wf_width : 0 < width e;
  wf_height : 0 <= height e;
  wf_board : rectangular (width e) (height e) (board e) = true;
  wf_current : validOption (currentPiece e);
  wf_next : exists np, nextPiece e = Some np /\ validPiece np
}.

(** ** Concrete engines *)

(** A source of samples and a scripted play used for the concrete runs
    below. *)
Definition demoRandom : Random :=
  {| samples := fun i => (Z.of_nat (i * 37 mod 100) # 100)%Q; used := 0 |}.

Fixpoint hardDrops (n : nat) (e : Engine) : Res Engine :=
  match n with
  | O => Ok e
  | Datatypes.S n' => do r <- hardDrop 30 e; hardDrops n' (snd r)
  end.

(** The result of a run that completes. *)
Definition orElse {A} (r : Res A) (d : A) : A :=
  match r with Ok a => a | _ => d end.

(** The engine after [new TetrisGameEngine(10, 20)]. *)
Definition freshEngine : Engine :=
  orElse (newEngine 10 20 demoRandom) (blankEngine 10 20 {| bag := [] |} demoRandom).

(** The engine after [new TetrisGameEngine(10, 20)] and ten calls of
    [hardDrop()]: the pieces pile up in the middle columns and the tenth
    spawn collides. *)
Definition toppedOut : Engine :=
  orElse (hardDrops 10 freshEngine) freshEngine.

(** A board with four rows that are full but for column 0 under one
    stray cell, and a vertical I piece standing in column 0. *)
Definition tetrisReady : Engine :=
  set_currentPiece (Some {| ptype := Ty.I; x := -2; y := 16; rotation := 1 |})
    (set_board
       (replicate 15%nat (replicate 10%nat None)
        ++ [ <[5%nat := Some garbageCell]> (replicate 10%nat None) ]
        ++ replicate 4%nat
             (<[0%nat := None]> (replicate 10%nat (Some garbageCell))))
       freshEngine).

(** The engine after the lock of [tetrisReady]: four lines cleared, combo
    1, one cell left on the board. *)
Definition afterTetris : Engine := orElse (lockPiece tetrisReady) tetrisReady.

(** A tower in column 3 that reaches row 2, an O piece moved to the right
    edge, and a T piece in the hold slot: the state a swap of the hold
    would start from.  The slot is filled by hand: no call fills it. *)
Definition holdReady : Engine :=
  set_heldPiece (Some (newTetrisPiece0 Ty.T))
    (set_currentPiece (Some {| ptype := Ty.O; x := 6; y := 0; rotation := 0 |})
       (set_board
          (replicate 2%nat (replicate 10%nat None)
           ++ replicate 18%nat
                (<[3%nat := Some garbageCell]> (replicate 10%nat None)))
          freshEngine)).

(** Four uneven rows under a J piece that has just spawned.  Two places
    of the piece have the same score in exact arithmetic, [-15.9], and
    scores one unit in the last place apart in binary64. *)
Definition unevenRows : Engine :=
  let o : option Cell := None in
  let g := Some garbageCell in
  set_currentPiece (Some (newTetrisPiece0 Ty.J))
    (set_board
       (replicate 16%nat (replicate 10%nat None)
        ++ [ [o; o; o; g; o; o; g; o; g; g];
             [o; g; g; g; o; o; g; o; g; g];
             [o; g; g; g; g; g; o; g; g; g];
             [o; o; g; g; o; o; o; o; o; o] ])
       freshEngine).

(** A pile that reaches row 2 in every column but column 0, under the I
    piece that has just spawned. *)
Definition wellBlocked : Engine :=
  set_board
    (replicate 2%nat (replicate 10%nat None)
     ++ replicate 18%nat
          (<[0%nat := None]> (replicate 10%nat (Some garbageCell))))
    freshEngine.

(** A small engine for a run of the search: four columns, six rows, two
    cells on the floor, and an O piece. *)
Definition smallEngine : Engine :=
  set_currentPiece (Some (newTetrisPiece Ty.O 0 0))
    (set_board
       (replicate 5%nat (replicate 4%nat None)
        ++ [ [Some garbageCell; Some garbageCell; None; None] ])
       (blankEngine 4 6 {| bag := [] |} demoRandom)).

(** [smallEngine] as objects of a store, and the address of the engine
    object. *)
Definition smallStore : loc * Heap := orElse (allocEngine smallEngine []) (0%nat, []).

(** ** Rotation *)

(** The piece [cur] in rotation [target], shifted by the offset [k]. *)
Definition kicked (cur : TetrisPiece) (target : Z) (k : Kick) : TetrisPiece :=
  {| ptype := ptype cur; x := x cur + k.1; y := y cur + k.2; rotation := target |}.

(** ** Locking, line clears and scoring *)

(** A run that completes with [true]. *)
Definition yields (r : Res bool) : bool :=
  match r with Ok b => b | _ => false end.

(** What [spawnNewPiece] keeps: everything the lock computed. *)
Record sameTallies (e e' : Engine) : Prop := {
  same_width : width e' = width e;
  same_height : height e' = height e;
  same_board : board e' = board e;
  same_score : score e' = score e;
  same_level : level e' = level e;
  same_lines : lines e' = lines e;
  same_combo : combo e' = combo e;
  same_totalLines : totalLines (stats e') = totalLines (stats e)
}.

(** What [clearLines] leaves alone. *)
Record sameSetting (e e' : Engine) : Prop := {
  setting_width : width e' = width e;
  setting_height : height e' = height e;
  setting_score : score e' = score e;
  setting_current : currentPiece e' = currentPiece e;
  setting_next : nextPiece e' = nextPiece e
}.

(** The rows of [clearLines]: the indices of the full rows of [bd], in
    increasing order, counted from [p]. *)
Fixpoint fullRowsFrom (p : nat) (bd : Board) : list nat :=
  match bd with
  | [] => []
  | row :: rest =>
    if rowFull row then p :: fullRowsFrom (Datatypes.S p) rest
    else fullRowsFrom (Datatypes.S p) rest
  end.

Definition notFull (row : Row) : bool := negb (rowFull row).

(** The number of rows of [bd] in which every cell is occupied. *)
Definition fullRowCount (bd : Board) : Z :=
  Z.of_nat (length (List.filter rowFull bd)).

(** The cell a piece leaves on the board when it locks. *)
Definition cellOf (cur : TetrisPiece) : Cell :=
  {| color := pieceColor cur; type := PieceCell (ptype cur) |}.

(** The scoring table of the specification: the base score of a lock by
    the number of lines it clears and whether it is a special spin. *)
Definition specBaseScore (cleared : Z) (specialSpin : bool) : Z :=
  if specialSpin then
    (if cleared =? 0 then 400 else if cleared =? 1 then 800
     else if cleared =? 2 then 1200 else if cleared =? 3 then 1600 else 0)
  else
    (if cleared =? 1 then 100 else if cleared =? 2 then 300
     else if cleared =? 3 then 500 else if cleared =? 4 then 800 else 0).

(** The attack table of the specification. *)
Definition specAttackTable (cleared : Z) (specialSpin : bool) : Z :=
  if specialSpin then
    (if cleared =? 1 then 2 else if cleared =? 2 then 4
     else if cleared =? 3 then 6 else 0)
  else
    (if cleared =? 2 then 1 else if cleared =? 3 then 2
     else if cleared =? 4 then 4 else 0).

(** ** Garbage rows *)

Definition occupied (c : option Cell) : bool :=
  match c with Some _ => true | None => false end.

Definition countOccupied (row : Row) : nat := length (List.filter occupied row).

Definition countEmpty (row : Row) : nat :=
  length (List.filter (fun c => negb (occupied c)) row).

(** The hole of the [i]-th garbage row pushed on the engine [e], and the
    row: the [i]-th sample not yet consumed, scaled to the width. *)
Definition holeAt (e : Engine) (i : nat) : Z :=
  Qfloor (frac (samples (random e) (used (random e) + i)) * inject_Z (width e)).

Definition garbageRowAt (e : Engine) (i : nat) : Row :=
  js_set (replicate (Z.to_nat (width e)) (Some garbageCell)) (holeAt e i) None.

(** The shape of a garbage row on a board of width [w]. *)
Definition garbageShaped (w : Z) (row : Row) : Prop :=
  length row = Z.to_nat w
  /\ countOccupied row = (Z.to_nat w - 1)%nat
  /\ countEmpty row = 1%nat.

(** C4 as the specification states it, for an attack of [n] lines on the
    engine [e]: [n] rows leave at the top, [n] garbage rows arrive at the
    bottom. *)
Definition removesAndAppends (n : Z) (e : Engine) : Prop :=
  exists e' removed kept garbageRows,
    receiveAttack n e = Ok e'
    /\ board e = removed ++ kept
    /\ length removed = Z.to_nat n
    /\ board e' = kept ++ garbageRows
    /\ length garbageRows = Z.to_nat n
    /\ Forall (garbageShaped (width e)) garbageRows.

(** ** Draws of the generator *)

(** The types of the pieces of [n] successive calls of [getNext()]. *)
Fixpoint nextTypes (n : nat) (g : PieceGenerator) (r : Random)
  : list (option Ty.t) * PieceGenerator * Random :=
  match n with
  | O => ([], g, r)
  | Datatypes.S n' =>
    let '(p, g1, r1) := getNext g r in
    let '(ts, g2, r2) := nextTypes n' g1 r1 in
    ((ptype <$> p) :: ts, g2, r2)
  end.

(** ** Runs on the store *)

(** Every object of [h] is an object of [h'], at the same address. *)
Definition agree (h h' : Heap) : Prop :=
  forall l o, h !! l = Some o -> h' !! l = Some o.

(** From [h] to [h']: nothing is freed, and the objects at the first [n0]
    addresses are the same. *)
Definition keeps (n0 : nat) (h h' : Heap) : Prop :=
  (length h <= length h')%nat
  /\ forall l, (l < n0)%nat -> h' !! l = h !! l.

(** A run of [m] from a store with at least [n0] objects that satisfies
    [P], when it completes, keeps the first [n0] objects and ends with a
    result and a store that satisfy [Q]. *)
Definition hoare {A} (n0 : nat) (P : Heap -> Prop) (m : HM A)
  (Q : A -> Heap -> Prop) : Prop :=
  forall h, (n0 <= length h)%nat -> P h ->
  forall a h', m h = Ok (a, h') -> keeps n0 h h' /\ Q a h'.

(** [m] only reads the store: a run that completes leaves the store as it
    is, and gives the same result on every store that has the same objects
    at the same addresses. *)
Definition reads {A} (m : HM A) : Prop :=
  forall h a h1, m h = Ok (a, h1) ->
  h1 = h /\ forall h', agree h h' -> m h' = Ok (a, h').

(** A computation that keeps the first [n0] objects, whatever it finds. *)
Definition framed {A} (n0 : nat) (m : HM A) : Prop :=
  hoare n0 (fun _ => True) m (fun _ _ => True).

(** A reference made after the first [n0] objects and before [top]. *)
Definition freshRef (n0 top : nat) (v : Val) : Prop :=
  match v with
  | Ref r => (n0 <= r < top)%nat
  | Null => True
  end.

(** The scratch board of [evaluatePosition]: the array at [tb] holds rows
    that were all made by this call. *)
Definition scratch (n0 tb : nat) (h : Heap) : Prop :=
  exists rows, h !! tb = Some (OArray rows) /\ Forall (freshRef n0 tb) rows.

(** ** Pieces and kicks *)

(** The opposite offset. *)
Definition negKick (k : Kick) : Kick := (- k.1, - k.2).

(** The block [b] shifted by [(dx, dy)]. *)
Definition shiftBlock (dx dy : Z) (b : Block) : Block :=
  {| bx := bx b + dx; by_ := by_ b + dy |}.

(** A block inside the 4x4 box whose top left corner is [(px, py)]. *)
Definition inBox (px py : Z) (b : Block) : Prop :=
  px <= bx b < px + 4 /\ py <= by_ b < py + 4.

(** ** Collisions *)

(** The cell [(cx, cy)] of the board holds a block. *)
Definition cellTaken (bd : Board) (cx cy : Z) : bool :=
  match js_get bd cy with
  | Some row => match js_get row cx with Some (Some _) => true | _ => false end
  | None => false
  end.

(** The block [b] is outside the field or on a cell that is taken. *)
Definition blocked (e : Engine) (b : Block) : bool :=
  (bx b <? 0) || (bx b >=? width e) || (by_ b <? 0) || (by_ b >=? height e)
  || cellTaken (board e) (bx b) (by_ b).

(** ** Falling *)

(** The piece [cur] can fall [d] rows and no further. *)
Definition landsAfter (e : Engine) (cur : TetrisPiece) (d : Z) : Prop :=
  0 <= d
  /\ (forall k, 0 <= k <= d -> isColliding e (move 0 k cur) = Ok false)
  /\ isColliding e (move 0 (d + 1) cur) = Ok true.

(** ** Tallies *)

(** What the engine keeps true of its board and counters between calls:
    no completed row stays on the board, the line total is the sum of the
    singles, doubles, triples and tetrises, the level is at least 1, the
    drop interval is the one of the level, and the combo is not
    negative. *)
Record tallied (e : Engine) : Prop := {
  tally_rows : Forall (fun row : Row => rowFull row = false) (board e);
  tally_lines :
    totalLines (stats e)
    = singles (stats e) + 2 * doubles (stats e) + 3 * triples (stats e)
      + 4 * tetrises (stats e);
  tally_level : 1 <= level e;
  tally_interval : dropInterval e = Z.max 50 (1000 - (level e - 1) * 50);
  tally_combo : 0 <= combo e
}.

(** From [e] to [e'] nothing that counts progress went back. *)
Record advances (e e' : Engine) : Prop := {
  adv_width : width e' = width e;
  adv_height : height e' = height e;
  adv_over : gameOver e = true -> gameOver e' = true;
  adv_score : score e <= score e';
  adv_level : level e <= level e';
  adv_lines : lines e <= lines e';
  adv_interval : dropInterval e' <= dropInterval e;
  adv_pieces : totalPieces (stats e) <= totalPieces (stats e')
}.

(** ** Sequences of calls *)

(** A call of a method of the engine by the game: the inputs of the
    player, the clock, and an attack.  [hardDrop] gets fuel for more
    turns of its loop than the field has rows. *)
Inductive Call :=
| MovePiece (dx dy : Z)
| RotatePiece (clockwise : bool)
| SoftDrop
| HardDrop
| HoldPiece
| Update (deltaTime : Z)
| LockPiece
| ReceiveAttack (n : Z).

Definition dropFuel (e : Engine) : nat := (Z.to_nat (height e) + 5)%nat.

Definition call (c : Call) (e : Engine) : Res Engine :=
  match c with
  | MovePiece dx dy => do r <- movePiece dx dy e; Ok r.2
  | RotatePiece clockwise =>
    do r <- rotatePiece (if clockwise then 1 else -1) e; Ok r.2
  | SoftDrop => do r <- softDrop e; Ok r.2
  | HardDrop => do r <- hardDrop (dropFuel e) e; Ok r.2
  | HoldPiece => do r <- holdPiece e; Ok r.2
  | Update deltaTime => update deltaTime e
  | LockPiece => lockPiece e
  | ReceiveAttack n => receiveAttack n e
  end.

Fixpoint calls (cs : list Call) (e : Engine) : Res Engine :=
  match cs with
  | [] => Ok e
  | c :: rest => do e1 <- call c e; calls rest e1
  end.

(** An attack of no more lines than the field has rows. *)
Definition attackFits (h : Z) (c : Call) : Prop :=
  match c with
  | ReceiveAttack n => n <= h
  | _ => True
  end.

(** The fields on which [tallied] and [advances] depend. *)
Record sameCounts (e e' : Engine) : Prop := {
  counts_width : width e' = width e;
  counts_height : height e' = height e;
  counts_board : board e' = board e;
  counts_score : score e <= score e';
  counts_level : level e' = level e;
  counts_lines : lines e' = lines e;
  counts_combo : combo e' = combo e;
  counts_interval : dropInterval e' = dropInterval e;
  counts_stats : exists n, stats e' = set_totalPieces (totalPieces (stats e) + n) (stats e) /\ 0 <= n;
  counts_over : gameOver e = true -> gameOver e' = true
}.

(** The hold slot is as it was, and hold has not been switched off. *)
Definition holdKept (e e' : Engine) : Prop :=
  heldPiece e' = heldPiece e /\ (canHold e = true -> canHold e' = true).



(** ** Placements *)

(** The piece [cur] put where the move [m] says. *)
Definition placedAt (cur : TetrisPiece) (m : Move) : TetrisPiece :=
  {| ptype := ptype cur; x := mx m; y := my m; rotation := mrotation m |}.

(** The move [m] puts the piece [cur] on a free place of the field
    [(w, h, bd)] from which it cannot fall further, in a rotation state
    of its shape table and in a column the search visits. *)
Definition restingMove (w h : Z) (bd : Board) (cur : TetrisPiece) (m : Move)
  : Prop :=
  0 <= mrotation m < shapeLength cur
  /\ -2 <= mx m < w + 2
  /\ collides w h bd (placedAt cur m) = Ok false
  /\ collides w h bd (move 0 1 (placedAt cur m)) = Ok true.

(** The best candidate of a search so far, if there is one, is such a
    move. *)
Definition restingBest (w h : Z) (bd : Board) (cur : TetrisPiece)
  (best : option Move * option float) : Prop :=
  match best.1 with
  | Some m => restingMove w h bd cur m
  | None => True
  end.

(** ** Boards in the store *)

(** A value that reads as a cell: [null] or a reference to a cell
    object. *)
Definition cellRef (h : Heap) (v : Val) : Prop :=
  match v with
  | Null => True
  | Ref c => exists cell, h !! c = Some (OCell cell)
  end.

(** A reference to an array of [w] cells that was made after the first
    [n0] objects and is not the array at [b]. *)
Definition rowRef (n0 b w : nat) (h : Heap) (v : Val) : Prop :=
  match v with
  | Null => False
  | Ref r =>
    (n0 <= r)%nat /\ r <> b
    /\ exists elems, h !! r = Some (OArray elems) /\ length elems = w
                     /\ Forall (cellRef h) elems
  end.

(** At [b] stands a board of [n] rows of [w] cells, made after the first
    [n0] objects. *)
Definition boardAt (n0 w n : nat) (h : Heap) (b : loc) : Prop :=
  (n0 <= b)%nat
  /\ exists rows, h !! b = Some (OArray rows) /\ length rows = n
                  /\ Forall (rowRef n0 b w h) rows.

(** ** Candidates of the move search *)

(** The piece [cur] in rotation state [rot] at [(x0, y0)]. *)
Definition candidate (cur : TetrisPiece) (rot x0 y0 : Z) : TetrisPiece :=
  {| ptype := ptype cur; x := x0; y := y0; rotation := rot |}.


(** ** The spectator view *)

(** The ids of the players still in the game. *)
Definition aliveIds (players : list Spectated) : list Z :=
  map sid (alivePlayers players).

(** Five players, the second and the fourth out of the game. *)
Definition fivePlayers : list Spectated :=
  [ {| sid := 0; sGameOver := false |}; {| sid := 1; sGameOver := true |};
    {| sid := 2; sGameOver := false |}; {| sid := 3; sGameOver := true |};
    {| sid := 4; sGameOver := false |} ].

(** A view that was initialized and then set on player [id] of
    [fivePlayers]. *)
Definition viewOf (id : Z) : SpectatorSystem :=
  {| isSpectating := true; spectatingPlayerId := Some id;
     spectatorCanvas := Some "block"%string;
     spectatorInfo := Some "block"%string;
     spectatorControls := Some "block"%string;
     autoSwitchEnabled := false;
     spectatingHistory := [id]; maxHistoryLength := 10;
     allPlayers := Some fivePlayers |}.

(** The view is in order: its history lists each player once, the last
    one watched first, in no more than [maxHistoryLength] entries, and
    while it is spectating it is set on the player at the head of the
    history. *)
Record viewInOrder (s : SpectatorSystem) : Prop := {
  view_max : 0 < maxHistoryLength s;
  view_nodup : NoDup (spectatingHistory s);
  view_length : Z.of_nat (length (spectatingHistory s)) <= maxHistoryLength s;
  view_head :
    isSpectating s = true ->
    exists id, spectatingPlayerId s = Some id
               /\ head (spectatingHistory s) = Some id
}.

(** ** Badges *)

(** The level [checkBadgeLevel] finds, 0 where it raises an error. *)
Definition earnedLevel (divide : Q -> Q -> Q) (p : Badges.BadgePlayer)
  (t : Badges.BadgeType) : Z :=
  match Badges.checkBadgeLevel divide p t with
  | Ok l => l
  | _ => 0
  end.

(** The entry [updatePlayerBadges] reports for a badge of type [t] at
    level [l]. *)
Definition reported (t : Badges.BadgeType) (l : Z) : Badges.NewBadge :=
  {| Badges.nbType := t; Badges.nbLevel := l;
     Badges.nbColor := Badges.badgeColors l |}.

(** A player with six KOs, a combo of five and 60 pieces in 30 seconds,
    who holds a bronze attacker badge and a gold combo badge. *)
Definition veteran : Badges.BadgePlayer :=
  {| Badges.badges := Some [(Badges.ATTACKER, 1); (Badges.COMBO, 3)];
     Badges.stats :=
       Some {| Badges.koCount := 6; Badges.pps := 0;
               Badges.blockedAttacks := 12; Badges.maxCombo := 5;
               Badges.totalPieces := 60; Badges.gameTime := 30000 |} |}.

(** ** What the store holds *)

(** The value [v] reads as the cell [c]. *)
Definition cellReads (h : Heap) (v : Val) (c : option Cell) : Prop :=
  match v, c with
  | Null, None => True
  | Ref l, Some cell => h !! l = Some (OCell cell)
  | _, _ => False
  end.

(** The value [v] is a reference to an array that reads as the row
    [row]; the array was made after the first [n0] objects and is not the
    one at [b]. *)
Definition rowReads (n0 b : nat) (h : Heap) (v : Val) (row : Row) : Prop :=
  match v with
  | Null => False
  | Ref r =>
    (n0 <= r)%nat /\ r <> b
    /\ exists elems, h !! r = Some (OArray elems)
                     /\ Forall2 (cellReads h) elems row
  end.

(** At [b] stands an array of distinct rows that reads as the board
    [bd]. *)
Definition boardReads (n0 : nat) (h : Heap) (b : loc) (bd : Board) : Prop :=
  (n0 <= b)%nat
  /\ exists rows, h !! b = Some (OArray rows) /\ NoDup rows
                  /\ Forall2 (rowReads n0 b h) rows bd.

(** ** The score of a position *)

(** The sum of [evaluatePosition], from the number of cleared lines, the
    board after the clear, the board of the engine and the piece. *)
Definition scoreOf (a : AIParams) (w h : Z) (clearedLines : Z)
  (bac live : Board) (p : TetrisPiece) : Res float :=
  let height := getMaxHeight bac in
  do holes <- countHoles w h bac;
  do bumpiness <- getBumpiness w h bac;
  do aggregateHeight <- getAggregateHeight w h bac;
  let score0 := 0%float in
  let score1 :=
    (score0 + linesWeight a * numberOf clearedLines * numberOf clearedLines)%float in
  let score2 := (score1 + heightWeight a * numberOf height)%float in
  let score3 := (score2 + holesWeight a * numberOf holes)%float in
  let score4 := (score3 + bumpinessWeight a * numberOf bumpiness)%float in
  let score5 :=
    (score4 + aggregateHeightWeight a * numberOf aggregateHeight)%float in
  let score6 :=
    if PieceType_eqb (ptype p) Ty.T && isTSpin p live
    then (score5 + 100)%float else score5 in
  let score7 :=
    if isPerfectClearBoard bac then (score6 + 1000)%float else score6 in
  Ok score7.

(** The board after the full rows of [bd] are taken out and as many
    empty rows are put on top. *)
Definition compacted (e : Engine) (bd : Board) : Board :=
  replicate (Z.to_nat (height e) - length (List.filter notFull bd))
    (emptyRow e)
  ++ List.filter notFull bd.

(** The score of the piece [p] on the engine [e]: the piece is put on
    the board, the full rows are cleared, and the result is scored. *)
Definition positionScore (a : AIParams) (e : Engine) (p : TetrisPiece)
  : Res float :=
  do blocks <- getBlocks p;
  do bd1 <- placeBlocks e (cellOf p) (board e) blocks;
  scoreOf a (width e) (height e) (fullRowCount bd1) (compacted e bd1)
    (board e) p.

(** ** The best move *)

(** The candidate in rotation state [rot] and column [x0] comes to rest
    at row [yy] when the search drops it from row 0: it is free on the
    rows from 0 to [yy] and at [yy], and collides one row further down.
    A candidate that collides at row 0 is tried at row -1. *)
Definition searchLanding (e : Engine) (cur : TetrisPiece) (rot x0 yy : Z)
  : Prop :=
  -1 <= yy
  /\ (forall k, 0 <= k <= yy ->
        isColliding e (candidate cur rot x0 k) = Ok false)
  /\ isColliding e (candidate cur rot x0 yy) = Ok false
  /\ isColliding e (candidate cur rot x0 (yy + 1)) = Ok true.

(** The best move so far is a candidate with its score. *)
Definition bestScored (a : AIParams) (e : Engine) (cur : TetrisPiece)
  (best : option Move * option float) : Prop :=
  match best with
  | (Some m, Some b) =>
    b = mscore m /\ 0 <= mrotation m < shapeLength cur
    /\ searchLanding e cur (mrotation m) (mx m) (my m)
    /\ positionScore a e (placedAt cur m) = Ok (mscore m)
  | (None, None) => True
  | _ => False
  end.

(** The best score is the same or has gone up. *)
Definition notBelow (best best' : option Move * option float) : Prop :=
  forall b, best.2 = Some b ->
    exists b', best'.2 = Some b' /\ (b' = b \/ PrimFloat.ltb b b' = true).

(** The score of the candidate in rotation state [rot] and column [x0],
    where that candidate comes to rest, is not above the best score. *)
Definition outscored (a : AIParams) (e : Engine) (cur : TetrisPiece)
  (rot x0 : Z) (best : option Move * option float) : Prop :=
  forall yy, searchLanding e cur rot x0 yy ->
    exists s b, positionScore a e (candidate cur rot x0 yy) = Ok s
                /\ best.2 = Some b /\ PrimFloat.ltb b s = false.

(** * Properties *)

Arguments PIECE_SHAPES : simpl never.
Arguments getBlocks : simpl never.
Arguments collides : simpl never.
Arguments isColliding : simpl never.
Arguments getNext : simpl never.
Arguments spawnNewPiece : simpl never.
Arguments clearLines : simpl never.
Arguments calculateScore : simpl never.
Arguments lockPiece : simpl never.
Arguments isTSpin : simpl never.

(** ** Well-formed engines *)

Ltac solve_wfEngine :=
  constructor;
  [ vm_compute; reflexivity
  | vm_compute; congruence
  | vm_compute; reflexivity
  | vm_compute; split; congruence
  | eexists; split; [vm_compute; reflexivity | vm_compute; split; congruence] ].

Ltac unfold_setters :=
  unfold resetLockTimer, set_width, set_height, set_board, set_currentPiece,
    set_nextPiece, set_heldPiece, set_canHold, set_pieceGenerator, set_score,
    set_level, set_lines, set_combo, set_lastClearWasTSpin, set_gameOver,
    set_dropTimer, set_dropInterval, set_lockDelay, set_lockTimer,
    set_isLocking, set_stats, set_random in *.

(** Reading a field through field assignments, and nothing else. *)
Ltac esimpl :=
  cbn [width height board currentPiece nextPiece heldPiece canHold
       pieceGenerator score level lines combo lastClearWasTSpin gameOver
       dropTimer dropInterval lockDelay lockTimer isLocking stats random
       resetLockTimer set_width set_height set_board set_currentPiece
       set_nextPiece set_heldPiece set_canHold set_pieceGenerator set_score
       set_level set_lines set_combo set_lastClearWasTSpin set_gameOver
       set_dropTimer set_dropInterval set_lockDelay set_lockTimer
       set_isLocking set_stats set_random bindRes fst snd] in *.

(** ** Basic facts about pieces and collisions *)

Lemma move_back dx dy p : move (- dx) (- dy) (move dx dy p) = p.
Proof.
  destruct p as [t px py r]. unfold move. simpl. f_equal; lia.
Qed.

Lemma set_currentPiece_same e p :
  currentPiece e = Some p -> set_currentPiece (Some p) e = e.
Proof.
  destruct e. simpl. intros ->. reflexivity.
Qed.

Lemma js_get_Some {A} (a : list A) (i : Z) :
  0 <= i -> (Z.to_nat i < length a)%nat -> exists v, js_get a i = Some v.
Proof.
  intros Hi Hlt. unfold js_get.
  destruct (Z.ltb_spec i 0) as [?|_]; [lia|].
  destruct (lookup_lt_is_Some_2 a (Z.to_nat i) Hlt) as [v Hv]. eauto.
Qed.

Lemma blockCollides_total w h bd b :
  (Z.to_nat h <= length bd)%nat -> exists r, blockCollides w h bd b = Ok r.
Proof.
  intros Hlen. unfold blockCollides.
  destruct (_ || _) eqn:Hb; [eauto|].
  repeat (apply orb_false_elim in Hb; destruct Hb as [Hb ?]).
  destruct (js_get_Some bd (by_ b)) as [row Hrow]; [lia | lia |].
  rewrite Hrow. destruct (js_get row (bx b)) as [[c|]|]; eauto.
Qed.

Lemma collidingLoop_total w h bd blocks :
  (Z.to_nat h <= length bd)%nat -> exists r, collidingLoop w h bd blocks = Ok r.
Proof.
  intros Hlen. induction blocks as [|b rest IH]; simpl; [eauto|].
  destruct (blockCollides_total w h bd b Hlen) as [[v|] ->]; simpl; eauto.
Qed.

Lemma getBlocks_valid p :
  validPiece p -> exists s, getCurrentShape p = Some s /\ getBlocks p = Ok (blocksOf s (x p) (y p)).
Proof.
  intros [Hlo Hhi]. unfold getBlocks, getCurrentShape.
  destruct (js_get_Some (shape p) (rotation p)) as [s Hs]; [lia | |].
  - unfold shapeLength in Hhi. lia.
  - rewrite Hs. eauto.
Qed.

(** On a board with at least [height] rows, [isColliding] answers for every
    piece whose rotation index is in range. *)
Lemma collides_total w h bd p :
  validPiece p -> (Z.to_nat h <= length bd)%nat ->
  exists r, collides w h bd p = Ok r.
Proof.
  intros Hp Hlen. unfold collides.
  destruct (getBlocks_valid p Hp) as (s & _ & ->). simpl.
  apply collidingLoop_total, Hlen.
Qed.

Lemma rectangular_length w h bd :
  rectangular w h bd = true -> length bd = Z.to_nat h.
Proof.
  unfold rectangular. intros H. apply andb_true_iff in H as [H _].
  apply Nat.eqb_eq in H. exact H.
Qed.

Lemma rectangular_rows w h bd row :
  rectangular w h bd = true -> In row bd -> length row = Z.to_nat w.
Proof.
  unfold rectangular. intros H Hin. apply andb_true_iff in H as [_ H].
  rewrite forallb_forall in H. apply Nat.eqb_eq, H, Hin.
Qed.

Lemma isColliding_total e p :
  wfEngine e -> validPiece p -> exists r, isColliding e p = Ok r.
Proof.
  intros Hwf Hp. apply collides_total; [exact Hp|].
  rewrite (rectangular_length _ _ _ (wf_board e Hwf)). lia.
Qed.

(** ** Rotation with wall kicks *)

Lemma set_rotation_back cur target :
  set_rotation (rotation cur) (set_rotation target cur) = cur.
Proof. destruct cur. reflexivity. Qed.

Lemma kickLoop_first_fit e q kickData :
  wfEngine e -> validPiece q ->
  (exists pre k post,
      kickData = pre ++ k :: post
      /\ Forall (fun k' : Kick => isColliding e (move k'.1 k'.2 q) = Ok true) pre
      /\ isColliding e (move k.1 k.2 q) = Ok false
      /\ kickLoop e q kickData = Ok (true, move k.1 k.2 q))
  \/ (Forall (fun k' : Kick => isColliding e (move k'.1 k'.2 q) = Ok true) kickData
      /\ kickLoop e q kickData = Ok (false, q)).
Proof.
  intros Hwf Hq. induction kickData as [|[dx dy] rest IH].
  - right. split; [constructor | reflexivity].
  - simpl.
    destruct (isColliding_total e (move dx dy q) Hwf) as [c Hc]; [exact Hq|].
    rewrite Hc. simpl. destruct c; simpl.
    + rewrite move_back.
      destruct IH as [(pre & k & post & -> & Hpre & Hk & Hrun) | [Hall Hrun]].
      * left. exists ((dx, dy) :: pre), k, post.
        repeat split; [constructor; assumption | assumption | assumption].
      * right. split; [constructor; assumption | assumption].
    + left. exists [], (dx, dy), rest.
      repeat split; [constructor | exact Hc].
Qed.

Lemma rotation_target r d n :
  0 <= r < n -> d = 1 \/ d = -1 ->
  Z.rem (r + d + n) n = (r + d) mod n /\ 0 <= (r + d) mod n < n.
Proof.
  intros Hr Hd. split.
  - rewrite Z.rem_mod_nonneg by lia.
    rewrite <- (Z.mul_1_l n) at 1. apply Z_mod_plus_full.
  - apply Z.mod_pos_bound. lia.
Qed.

Lemma getWallKickData_head t from to :
  head (getWallKickData t from to) = Some (0, 0).
Proof.
  unfold getWallKickData. destruct (PieceType_eqb t Ty.O); reflexivity.
Qed.

(** C2.  [rotatePiece(direction)], for [direction] 1 or -1.  Without a
    current piece or after game over it returns [false] and changes
    nothing.  Otherwise the target index is [(rotation + direction) mod
    shape.length]; the offsets of [getWallKickData] start with (0,0) and are
    tried in order; the first one whose placement does not collide is
    applied and the call returns [true] (the lock timer is reset, nothing
    else changes); when every offset collides the call returns [false] and
    the engine, in particular the rotation, x and y of the piece, is
    exactly as before. *)
Theorem rotatePiece_first_fit_or_unchanged (e : Engine) (direction : Z) :
  wfEngine e -> direction = 1 \/ direction = -1 ->
  match currentPiece e with
  | None => rotatePiece direction e = Ok (false, e)
  | Some cur =>
    if gameOver e then rotatePiece direction e = Ok (false, e)
    else
      let target := (rotation cur + direction) mod shapeLength cur in
      let kickData := getWallKickData (ptype cur) (rotation cur) target in
      0 <= target < shapeLength cur
      /\ head kickData = Some (0, 0)
      /\ ((exists pre k post,
              kickData = pre ++ k :: post
              /\ Forall (fun k' => isColliding e (kicked cur target k') = Ok true) pre
              /\ isColliding e (kicked cur target k) = Ok false
              /\ rotatePiece direction e
                 = Ok (true,
                       resetLockTimer (set_currentPiece (Some (kicked cur target k)) e)))
          \/ (Forall (fun k' => isColliding e (kicked cur target k') = Ok true) kickData
              /\ rotatePiece direction e = Ok (false, e)))
  end.
Proof.
  intros Hwf Hd. unfold rotatePiece.
  destruct (currentPiece e) as [cur|] eqn:Hcur; [|reflexivity].
  destruct (gameOver e); [reflexivity|].
  pose proof (wf_current e Hwf) as Hvalid. rewrite Hcur in Hvalid. simpl in Hvalid.
  destruct (rotation_target (rotation cur) direction (shapeLength cur) Hvalid Hd)
    as [Hrem Hrange].
  rewrite Hrem. cbv zeta.
  set (target := (rotation cur + direction) mod shapeLength cur) in *.
  split; [exact Hrange|]. split; [apply getWallKickData_head|].
  assert (Hq : validPiece (set_rotation target cur)) by exact Hrange.
  destruct (kickLoop_first_fit e (set_rotation target cur)
              (getWallKickData (ptype cur) (rotation cur) target) Hwf Hq)
    as [(pre & k & post & Hsplit & Hpre & Hk & Hrun) | [Hall Hrun]].
  - left. exists pre, k, post. rewrite Hrun. simpl.
    repeat split; assumption.
  - right. rewrite Hrun. simpl. split; [exact Hall|].
    rewrite set_rotation_back, (set_currentPiece_same e cur Hcur). reflexivity.
Qed.

Lemma freshEngine_wf : wfEngine freshEngine.
Proof. solve_wfEngine. Qed.

Lemma rotatePiece_first_fit_or_unchanged_witness :
  wfEngine freshEngine /\ (1 = 1 \/ 1 = -1)
  /\ match currentPiece freshEngine with
     | None => rotatePiece 1 freshEngine = Ok (false, freshEngine)
     | Some cur =>
       if gameOver freshEngine
       then rotatePiece 1 freshEngine = Ok (false, freshEngine)
       else
         let target := (rotation cur + 1) mod shapeLength cur in
         let kickData := getWallKickData (ptype cur) (rotation cur) target in
         0 <= target < shapeLength cur
         /\ head kickData = Some (0, 0)
         /\ ((exists pre k post,
                 kickData = pre ++ k :: post
                 /\ Forall (fun k' => isColliding freshEngine (kicked cur target k') = Ok true) pre
                 /\ isColliding freshEngine (kicked cur target k) = Ok false
                 /\ rotatePiece 1 freshEngine
                    = Ok (true,
                          resetLockTimer
                            (set_currentPiece (Some (kicked cur target k)) freshEngine)))
             \/ (Forall (fun k' => isColliding freshEngine (kicked cur target k') = Ok true) kickData
                 /\ rotatePiece 1 freshEngine = Ok (false, freshEngine)))
     end.
Proof.
  split; [exact freshEngine_wf|]. split; [left; reflexivity|].
  apply (rotatePiece_first_fit_or_unchanged freshEngine 1 freshEngine_wf).
  left; reflexivity.
Defined.

(** ** The generator always has a next piece *)

Lemma js_set_length {A} (a : list A) i v : length (js_set a i v) = length a.
Proof. unfold js_set. destruct (i <? 0); [reflexivity | apply length_insert]. Qed.

Lemma swap_length {A} (a : list A) i j : length (swap a i j) = length a.
Proof.
  unfold swap. destruct (js_get a i); [|reflexivity].
  destruct (js_get a j); [|reflexivity].
  rewrite !js_set_length. reflexivity.
Qed.

Lemma shuffleFrom_length {A} n : forall (a : list A) r,
  length (shuffleFrom n a r).1 = length a.
Proof.
  induction n as [|n IH]; intros a r; [reflexivity|].
  cbn [shuffleFrom]. unfold randomBelow, Math_random.
  rewrite IH. apply swap_length.
Qed.

Lemma newTetrisPiece0_valid t : validPiece (newTetrisPiece0 t).
Proof. destruct t; vm_compute; split; congruence. Qed.

(** [getNext()] never returns [null]: it returns a piece of some type at
    the spawn position, in rotation 0. *)
Lemma getNext_Some g r :
  exists t g' r', getNext g r = (Some (newTetrisPiece0 t), g', r').
Proof.
  unfold getNext, pop.
  set (gr := if (length (bag g) =? 0)%nat then refillBag g r else (g, r)).
  assert (Hne : bag gr.1 <> []).
  { unfold gr. destruct (Nat.eqb_spec (length (bag g)) 0) as [Hz|Hnz].
    - unfold refillBag, shuffle.
      pose proof (shuffleFrom_length (length pieces - 1) pieces r) as Hlen.
      destruct (shuffleFrom _ pieces r) as [b r1]. cbn [fst bag] in *.
      intros ->. discriminate Hlen.
    - cbn [fst]. intros Hnil. rewrite Hnil in Hnz. apply Hnz. reflexivity. }
  destruct gr as [g1 r1]. cbn [fst] in Hne.
  destruct (proj2 (last_is_Some (bag g1)) Hne) as [t Ht].
  rewrite Ht. cbn [fmap option_fmap option_map]. eauto.
Qed.

(** ** Locking, line clears and scoring *)

Lemma spawnNewPiece_runs e np :
  nextPiece e = Some np -> validPiece np ->
  (Z.to_nat (height e) <= length (board e))%nat ->
  exists e',
    spawnNewPiece e = Ok e' /\ sameTallies e e'
    /\ currentPiece e' = Some np
    /\ gameOver e' = gameOver e || yields (isColliding e np)
    /\ exists t, nextPiece e' = Some (newTetrisPiece0 t).
Proof.
  intros Hnext Hnp Hlen. unfold spawnNewPiece.
  destruct (getNext_Some (pieceGenerator (set_currentPiece (nextPiece e) e))
              (random (set_currentPiece (nextPiece e) e)))
    as (t & g & r & ->).
  esimpl. rewrite Hnext. unfold isColliding. esimpl.
  destruct (collides_total (width e) (height e) (board e) np Hnp Hlen) as [c Hc].
  rewrite Hc. esimpl.
  destruct c; eexists; (split; [reflexivity|]); esimpl;
    (split; [constructor; reflexivity|]); (split; [reflexivity|]);
    (split; [|exists t; reflexivity]).
  - apply eq_sym, orb_true_r.
  - apply eq_sym, orb_false_r.
Qed.

Lemma rectangular_js_set w h bd i row :
  rectangular w h bd = true -> length row = Z.to_nat w ->
  rectangular w h (js_set bd i row) = true.
Proof.
  unfold rectangular. intros H Hrow. apply andb_true_iff in H as [Hlen Hrows].
  apply andb_true_iff. split.
  - rewrite js_set_length. exact Hlen.
  - rewrite forallb_forall in *. intros r Hin.
    unfold js_set in Hin. destruct (i <? 0); [apply Hrows, Hin|].
    apply list_elem_of_In, list_elem_of_lookup in Hin as [j Hj].
    destruct (decide (Z.to_nat i = j)) as [<-|Hne].
    + destruct (decide (Z.to_nat i < length bd)%nat) as [Hlt|Hge].
      * rewrite list_lookup_insert_eq in Hj by exact Hlt.
        injection Hj as <-. apply Nat.eqb_eq, Hrow.
      * rewrite list_insert_ge in Hj by lia.
        apply Hrows, list_elem_of_In, list_elem_of_lookup. eauto.
    + rewrite list_lookup_insert_ne in Hj by exact Hne.
      apply Hrows, list_elem_of_In, list_elem_of_lookup. eauto.
Qed.

Lemma js_get_In {A} (a : list A) i v : js_get a i = Some v -> In v a.
Proof.
  unfold js_get. destruct (i <? 0); [discriminate|].
  intros H. apply list_elem_of_In, list_elem_of_lookup. eauto.
Qed.

Lemma placeBlock_rectangular e cell bd b :
  rectangular (width e) (height e) bd = true ->
  exists bd1, placeBlock e cell bd b = Ok bd1
              /\ rectangular (width e) (height e) bd1 = true.
Proof.
  intros Hrect. unfold placeBlock.
  destruct (_ && _) eqn:Hin; [|eauto].
  repeat (apply andb_true_iff in Hin; destruct Hin as [Hin ?]).
  destruct (js_get_Some bd (by_ b)) as [row Hrow];
    [lia | rewrite (rectangular_length _ _ _ Hrect); lia |].
  rewrite Hrow. eexists. split; [reflexivity|].
  apply rectangular_js_set; [exact Hrect|].
  rewrite js_set_length. eapply rectangular_rows; [exact Hrect|].
  eapply js_get_In, Hrow.
Qed.

Lemma placeBlocks_rectangular e cell blocks : forall bd,
  rectangular (width e) (height e) bd = true ->
  exists bd1, placeBlocks e cell bd blocks = Ok bd1
              /\ rectangular (width e) (height e) bd1 = true.
Proof.
  induction blocks as [|b rest IH]; intros bd Hrect; simpl; [eauto|].
  destruct (placeBlock_rectangular e cell bd b Hrect) as (bd1 & -> & Hrect1).
  simpl. apply IH, Hrect1.
Qed.

Lemma fullRowsFrom_length p bd :
  length (fullRowsFrom p bd) = length (List.filter rowFull bd).
Proof.
  revert p. induction bd as [|row rest IH]; intros p; simpl; [reflexivity|].
  destruct (rowFull row); simpl; [f_equal|]; apply IH.
Qed.

Lemma fullRowsLoop_scan pre bd acc :
  fullRowsLoop (pre ++ bd) (seq (length pre) (length bd)) acc
  = Ok (acc ++ fullRowsFrom (length pre) bd).
Proof.
  revert pre acc. induction bd as [|row rest IH]; intros pre acc; simpl.
  - rewrite app_nil_r. reflexivity.
  - rewrite lookup_app_r by lia. rewrite Nat.sub_diag. simpl.
    replace (pre ++ row :: rest) with ((pre ++ [row]) ++ rest)
      by (rewrite <- app_assoc; reflexivity).
    replace (Datatypes.S (length pre)) with (length (pre ++ [row]))
      by (rewrite length_app; simpl; lia).
    rewrite IH. destruct (rowFull row); [|reflexivity].
    rewrite <- app_assoc. reflexivity.
Qed.

(** Removing the full rows one by one, lowest index first, each time
    putting an empty row on top, leaves the other rows in their order under
    as many empty rows as were removed. *)
Lemma delete_middle {A} (pre : list A) a rest :
  delete (length pre) (pre ++ a :: rest) = pre ++ rest.
Proof.
  induction pre as [|b pre IH]; simpl; [reflexivity|]. f_equal. exact IH.
Qed.

Lemma removeRows_compacts e pre bd :
  fold_left (removeRow e) (fullRowsFrom (length pre) bd) (pre ++ bd)
  = replicate (length (fullRowsFrom (length pre) bd)) (emptyRow e)
    ++ pre ++ List.filter notFull bd.
Proof.
  revert pre. induction bd as [|row rest IH]; intros pre; simpl.
  - reflexivity.
  - unfold notFull at 1. destruct (rowFull row) eqn:Hfull; simpl.
    + unfold removeRow at 2. rewrite delete_middle.
      change (emptyRow e :: pre ++ rest) with ((emptyRow e :: pre) ++ rest).
      change (Datatypes.S (length pre)) with (length (emptyRow e :: pre)).
      rewrite IH. simpl.
      rewrite cons_middle, app_assoc, <- replicate_S_end. reflexivity.
    + replace (pre ++ row :: rest) with ((pre ++ [row]) ++ rest)
        by (rewrite <- app_assoc; reflexivity).
      replace (Datatypes.S (length pre)) with (length (pre ++ [row]))
        by (rewrite length_app; simpl; lia).
      rewrite IH. rewrite <- !app_assoc. reflexivity.
Qed.

Lemma filter_notFull_id (bd : Board) :
  List.filter rowFull bd = [] -> List.filter notFull bd = bd.
Proof.
  induction bd as [|row rest IH]; [reflexivity|].
  simpl. unfold notFull at 1. destruct (rowFull row); simpl; [discriminate|].
  intros H. f_equal. apply IH, H.
Qed.

Lemma length_filter_split (bd : Board) :
  (length (List.filter rowFull bd) + length (List.filter notFull bd)
   = length bd)%nat.
Proof.
  induction bd as [|row rest IH]; [reflexivity|].
  simpl. unfold notFull at 1. destruct (rowFull row); simpl; lia.
Qed.

Lemma updateLevel_level e :
  level (updateLevel e) = Z.max (level e) (lines e / 10 + 1).
Proof.
  unfold updateLevel. destruct (Z.gtb_spec (lines e / 10 + 1) (level e)).
  - esimpl. lia.
  - lia.
Qed.

Lemma updateLevel_fields e :
  board (updateLevel e) = board e /\ lines (updateLevel e) = lines e
  /\ combo (updateLevel e) = combo e /\ stats (updateLevel e) = stats e
  /\ sameSetting e (updateLevel e).
Proof.
  unfold updateLevel. destruct (_ >? _); esimpl;
    repeat split; reflexivity.
Qed.

Lemma clearLines_runs e :
  length (board e) = Z.to_nat (height e) ->
  let k := fullRowCount (board e) in
  exists e',
    clearLines e = Ok (k, e')
    /\ board e' = replicate (Z.to_nat k) (emptyRow e)
                  ++ List.filter notFull (board e)
    /\ lines e' = lines e + k
    /\ combo e' = (if k =? 0 then 0 else combo e + 1)
    /\ level e' = (if k =? 0 then level e
                   else Z.max (level e) ((lines e + k) / 10 + 1))
    /\ totalLines (stats e') = totalLines (stats e) + k
    /\ sameSetting e e'.
Proof.
  intros Hlen k. unfold clearLines.
  rewrite <- Hlen.
  pose proof (fullRowsLoop_scan [] (board e) []) as Hscan.
  cbn [app length] in Hscan. rewrite Hscan. cbn [bindRes].
  pose proof (fullRowsFrom_length 0 (board e)) as Hcount.
  pose proof (removeRows_compacts e [] (board e)) as Hrm.
  cbn [app length] in Hrm.
  set (fr := fullRowsFrom 0 (board e)) in *.
  destruct (Nat.eqb_spec (length fr) 0) as [Hz|Hnz].
  - assert (Hk : k = 0) by (unfold k, fullRowCount; lia).
    eexists. split; [rewrite Hk; reflexivity|].
    rewrite Hk. esimpl.
    split.
    { symmetry. apply filter_notFull_id, length_zero_iff_nil. lia. }
    repeat split; try reflexivity; lia.
  - assert (Hk : Z.of_nat (length fr) = k)
      by (unfold k, fullRowCount; lia).
    rewrite Hk.
    assert (Hkpos : (k =? 0) = false) by (apply Z.eqb_neq; lia).
    rewrite Hkpos.
    eexists. split; [reflexivity|].
    match goal with
    | |- context [updateLevel ?s] =>
      destruct (updateLevel_fields s) as (Hb & Hl & Hc & Hst & [Hw Hh Hs Hcur Hnx]);
      pose proof (updateLevel_level s) as Hlvl;
      rewrite Hb, Hl, Hc, Hlvl, Hst
    end.
    assert (Hboard : fold_left (removeRow e) fr (board e)
                     = replicate (Z.to_nat k) (emptyRow e)
                       ++ List.filter notFull (board e)).
    { rewrite Hrm. f_equal. f_equal. lia. }
    assert (Hbump : forall s0, totalLines (bumpLineStat k s0) = totalLines s0).
    { intros s0. unfold bumpLineStat.
      destruct k as [|q|q]; try reflexivity;
        do 3 (try destruct q as [q|q|]; try reflexivity). }
    destruct (isPerfectClear _); esimpl; cbn [totalLines set_perfectClears];
      rewrite Hbump; cbn [totalLines set_totalLines].
    all: (split; [exact Hboard|]).
    all: repeat split; try reflexivity.
    all: first [ rewrite Hw | rewrite Hh | rewrite Hs | rewrite Hcur | rewrite Hnx ];
      reflexivity.
Qed.

Lemma calculateScore_table (cleared : Z) (tspin : bool) :
  (if tspin
   then match cleared with 0 => 400 | 1 => 800 | 2 => 1200 | 3 => 1600 | _ => 0 end
   else match cleared with 1 => 100 | 2 => 300 | 3 => 500 | 4 => 800 | _ => 0 end)
  = specBaseScore cleared tspin.
Proof.
  unfold specBaseScore.
  destruct tspin; destruct cleared as [|p|p]; try reflexivity;
    do 3 (try destruct p as [p|p|]; try reflexivity).
Qed.

Lemma calculateScore_runs (cleared : Z) (tspin : bool) (e : Engine) :
  let e' := calculateScore cleared tspin e in
  score e'
  = score e
    + (specBaseScore cleared tspin
       + (if combo e >? 1 then 50 * (combo e - 1) else 0))
      * (if isPerfectClear e then 10 else 1) * level e
  /\ sameTallies e (set_score (score e) e')
  /\ nextPiece e' = nextPiece e /\ currentPiece e' = currentPiece e
  /\ lastClearWasTSpin e' = tspin.
Proof.
  unfold calculateScore. rewrite <- calculateScore_table.
  destruct tspin; unfold_setters; unfold isPerfectClear; simpl;
    destruct (forallb rowEmpty (board e)); destruct (combo e >? 1);
    (split; [lia|]); (split; [constructor; reflexivity|]);
    repeat split.
Qed.

(** The anatomy of a lock on a well-formed engine: the blocks are written
    into a board [bd1] of the same dimensions, [clearLines] removes its
    [k] full rows, [calculateScore] adds the score, and the next piece
    spawns. *)
Lemma lockPiece_runs e cur :
  wfEngine e -> currentPiece e = Some cur ->
  exists blocks bd1 e',
    getBlocks cur = Ok blocks
    /\ placeBlocks e (cellOf cur) (board e) blocks = Ok bd1
    /\ rectangular (width e) (height e) bd1 = true
    /\ lockPiece e = Ok e'
    /\ let k := fullRowCount bd1 in
       board e' = replicate (Z.to_nat k) (emptyRow e) ++ List.filter notFull bd1
       /\ lines e' = lines e + k
       /\ combo e' = (if k =? 0 then 0 else combo e + 1)
       /\ level e' = (if k =? 0 then level e
                      else Z.max (level e) ((lines e + k) / 10 + 1))
       /\ score e'
          = score e
            + (specBaseScore k (isTSpin cur bd1)
               + (if combo e' >? 1 then 50 * (combo e' - 1) else 0))
              * (if isPerfectClear e' then 10 else 1) * level e'
       /\ width e' = width e /\ height e' = height e
       /\ currentPiece e' = nextPiece e
       /\ (exists t, nextPiece e' = Some (newTetrisPiece0 t))
       /\ totalLines (stats e') = totalLines (stats e) + k.
Proof.
  intros Hwf Hcur. unfold lockPiece. rewrite Hcur.
  pose proof (wf_current e Hwf) as Hvalid. rewrite Hcur in Hvalid.
  destruct (getBlocks_valid cur Hvalid) as (s & _ & Hblocks).
  rewrite Hblocks. simpl.
  destruct (placeBlocks_rectangular e (cellOf cur) (blocksOf s (x cur) (y cur))
              (board e) (wf_board e Hwf)) as (bd1 & Hplace & Hrect).
  fold (cellOf cur). rewrite Hplace. simpl.
  destruct (clearLines_runs (set_board bd1 e)) as
    (e2 & Hclear & Hbd2 & Hlines2 & Hcombo2 & Hlevel2 & Htotal2 & Hset2).
  { simpl. apply (rectangular_length _ _ _ Hrect). }
  simpl in Hclear, Hbd2, Hlines2, Hcombo2, Hlevel2, Htotal2.
  rewrite Hclear. simpl.
  set (k := fullRowCount bd1) in *.
  destruct (calculateScore_runs k (isTSpin cur bd1) e2)
    as (Hscore & Hsame3 & Hnext3 & _ & _).
  set (e3 := calculateScore k (isTSpin cur bd1) e2) in *.
  destruct Hsame3 as [Hw3 Hh3 Hb3 _ Hl3 Hli3 Hc3 Ht3]. simpl in *.
  destruct Hset2 as [Hw2 Hh2 Hs2 _ Hn2]. simpl in *.
  destruct (wf_next e Hwf) as (np & Hnp & Hnpvalid).
  destruct (spawnNewPiece_runs e3 np) as (e' & Hspawn & Hsame & Hcur' & _ & t & Hnext').
  { rewrite Hnext3, Hn2. exact Hnp. }
  { exact Hnpvalid. }
  { rewrite Hh3, Hh2, Hb3, Hbd2, length_app, length_replicate.
    pose proof (length_filter_split bd1) as Hsplit.
    pose proof (rectangular_length _ _ _ Hrect) as Hlen1.
    unfold k, fullRowCount. lia. }
  destruct Hsame as [Hw Hh Hb Hs Hl Hli Hc Ht].
  exists (blocksOf s (x cur) (y cur)), bd1, e'.
  split; [reflexivity|]. split; [exact Hplace|]. split; [exact Hrect|].
  split; [exact Hspawn|]. cbv zeta.
  assert (Hpc : isPerfectClear e' = isPerfectClear e2)
    by (unfold isPerfectClear; rewrite Hb, Hb3; reflexivity).
  rewrite Hb, Hb3, Hli, Hli3, Hc, Hc3, Hl, Hl3, Hs, Hscore, Hpc, Hw, Hw3, Hh, Hh3.
  rewrite Hs2, Hw2, Hh2, Hcur', Hnp, Ht, Ht3.
  repeat split; try assumption. exists t. exact Hnext'.
Qed.

Lemma rectangular_compact w h (bd : Board) :
  rectangular w h bd = true ->
  rectangular w h
    (replicate (length (List.filter rowFull bd)) (replicate (Z.to_nat w) None)
     ++ List.filter notFull bd) = true.
Proof.
  intros Hrect. pose proof (rectangular_length _ _ _ Hrect) as Hlen.
  pose proof (length_filter_split bd) as Hsplit.
  unfold rectangular. apply andb_true_iff. split.
  - apply Nat.eqb_eq. rewrite length_app, length_replicate. lia.
  - apply forallb_forall. intros row Hin. apply Nat.eqb_eq.
    apply in_app_or in Hin as [Hin|Hin].
    + apply list_elem_of_In, elem_of_replicate_inv in Hin. subst row.
      apply length_replicate.
    + apply List.filter_In in Hin as [Hin _].
      exact (rectangular_rows _ _ _ _ Hrect Hin).
Qed.



(** C3.  Locking the current piece on a well-formed engine: the blocks are
    written into the board, giving [bd1]; with [k] the number of full rows
    of [bd1], the board after the lock has as many rows as before and is
    [k] empty rows on top of the rows of [bd1] that are not full, in their
    order; the lines counter, and the total in the statistics, grow by
    exactly [k]; the combo counter is incremented when [k >= 1] and is 0
    when [k = 0]. *)
Theorem lockPiece_clears_full_rows (e : Engine) (cur : TetrisPiece) :
  wfEngine e -> currentPiece e = Some cur ->
  exists blocks bd1 e',
    getBlocks cur = Ok blocks
    /\ placeBlocks e (cellOf cur) (board e) blocks = Ok bd1
    /\ lockPiece e = Ok e'
    /\ let k := fullRowCount bd1 in
       length bd1 = length (board e)
       /\ length (board e') = length (board e)
       /\ board e' = replicate (Z.to_nat k) (emptyRow e) ++ List.filter notFull bd1
       /\ lines e' = lines e + k
       /\ totalLines (stats e') = totalLines (stats e) + k
       /\ (1 <= k -> combo e' = combo e + 1)
       /\ (k = 0 -> combo e' = 0).
Proof.
  intros Hwf Hcur.
  destruct (lockPiece_runs e cur Hwf Hcur)
    as (blocks & bd1 & e' & Hblocks & Hplace & Hrect & Hlock & Hk).
  cbv zeta in Hk.
  destruct Hk as (Hboard & Hlines & Hcombo & _ & _ & _ & _ & _ & _ & Htotal).
  exists blocks, bd1, e'.
  split; [exact Hblocks|]. split; [exact Hplace|]. split; [exact Hlock|].
  cbv zeta.
  pose proof (rectangular_length _ _ _ Hrect) as Hlen1.
  pose proof (rectangular_length _ _ _ (wf_board e Hwf)) as Hlen0.
  pose proof (length_filter_split bd1) as Hsplit.
  split; [lia|]. split.
  { rewrite Hboard, length_app, length_replicate.
    unfold fullRowCount. lia. }
  split; [exact Hboard|]. split; [exact Hlines|]. split; [exact Htotal|]. split.
  - intros Hpos. rewrite Hcombo.
    destruct (Z.eqb_spec (fullRowCount bd1) 0); [lia | reflexivity].
  - intros Hzero. rewrite Hcombo, Hzero. reflexivity.
Qed.

(** C6.  A lock on a well-formed engine that clears [k] lines adds
    [base * level] to the score, where [base] is the table value for [k]
    and the special-spin flag (100/300/500/800, or 400/800/1200/1600),
    plus [50 * (combo - 1)] when [combo > 1], the sum times 10 when no
    cell is left on the board; [level] and [combo] are the values after
    this clear.  In particular a lock that is not a special spin, clears 4
    rows and ends at level 1 with combo 1 and a board that is not empty
    adds 800. *)
Theorem lockPiece_score (e : Engine) (cur : TetrisPiece) :
  wfEngine e -> currentPiece e = Some cur ->
  exists blocks bd1 e',
    getBlocks cur = Ok blocks
    /\ placeBlocks e (cellOf cur) (board e) blocks = Ok bd1
    /\ lockPiece e = Ok e'
    /\ let k := fullRowCount bd1 in
       let spin := isTSpin cur bd1 in
       score e'
       = score e
         + (specBaseScore k spin
            + (if combo e' >? 1 then 50 * (combo e' - 1) else 0))
           * (if isPerfectClear e' then 10 else 1) * level e'
       /\ specBaseScore 1 false = 100 /\ specBaseScore 2 false = 300
       /\ specBaseScore 3 false = 500 /\ specBaseScore 4 false = 800
       /\ specBaseScore 0 true = 400 /\ specBaseScore 1 true = 800
       /\ specBaseScore 2 true = 1200 /\ specBaseScore 3 true = 1600
       /\ (k = 4 -> spin = false -> level e' = 1 -> combo e' = 1 ->
           isPerfectClear e' = false -> score e' = score e + 800).
Proof.
  intros Hwf Hcur.
  destruct (lockPiece_runs e cur Hwf Hcur)
    as (blocks & bd1 & e' & Hblocks & Hplace & Hrect & Hlock & Hk).
  cbv zeta in Hk.
  destruct Hk as (_ & _ & _ & _ & Hscore & _).
  exists blocks, bd1, e'.
  split; [exact Hblocks|]. split; [exact Hplace|]. split; [exact Hlock|].
  cbv zeta. split; [exact Hscore|].
  repeat (split; [reflexivity|]).
  intros Hk4 Hspin Hlevel Hcombo Hpc.
  rewrite Hscore, Hk4, Hspin, Hlevel, Hcombo, Hpc. reflexivity.
Qed.

Lemma tetrisReady_wf : wfEngine tetrisReady.
Proof. solve_wfEngine. Qed.

Example tetrisReady_lock :
  exists e', lockPiece tetrisReady = Ok e'
             /\ lines e' = 4 /\ combo e' = 1 /\ level e' = 1
             /\ score e' = score tetrisReady + 800
             /\ fullRowCount (board e') = 0
             /\ length (board e') = 20%nat.
Proof. eexists. split; [vm_compute; reflexivity|]. vm_compute. tauto. Qed.

Lemma lockPiece_clears_full_rows_witness :
  wfEngine tetrisReady
  /\ currentPiece tetrisReady
     = Some {| ptype := Ty.I; x := -2; y := 16; rotation := 1 |}
  /\ exists blocks bd1 e',
      getBlocks {| ptype := Ty.I; x := -2; y := 16; rotation := 1 |} = Ok blocks
      /\ placeBlocks tetrisReady
           (cellOf {| ptype := Ty.I; x := -2; y := 16; rotation := 1 |})
           (board tetrisReady) blocks = Ok bd1
      /\ lockPiece tetrisReady = Ok e'
      /\ let k := fullRowCount bd1 in
         length bd1 = length (board tetrisReady)
         /\ length (board e') = length (board tetrisReady)
         /\ board e'
            = replicate (Z.to_nat k) (emptyRow tetrisReady)
              ++ List.filter notFull bd1
         /\ lines e' = lines tetrisReady + k
         /\ totalLines (stats e') = totalLines (stats tetrisReady) + k
         /\ (1 <= k -> combo e' = combo tetrisReady + 1)
         /\ (k = 0 -> combo e' = 0).
Proof.
  split; [exact tetrisReady_wf|]. split; [reflexivity|].
  apply (lockPiece_clears_full_rows tetrisReady _ tetrisReady_wf).
  reflexivity.
Defined.

Lemma lockPiece_score_witness :
  wfEngine tetrisReady
  /\ currentPiece tetrisReady
     = Some {| ptype := Ty.I; x := -2; y := 16; rotation := 1 |}
  /\ exists blocks bd1 e',
      getBlocks {| ptype := Ty.I; x := -2; y := 16; rotation := 1 |} = Ok blocks
      /\ placeBlocks tetrisReady
           (cellOf {| ptype := Ty.I; x := -2; y := 16; rotation := 1 |})
           (board tetrisReady) blocks = Ok bd1
      /\ lockPiece tetrisReady = Ok e'
      /\ let k := fullRowCount bd1 in
         let spin := isTSpin {| ptype := Ty.I; x := -2; y := 16; rotation := 1 |} bd1 in
         score e'
         = score tetrisReady
           + (specBaseScore k spin
              + (if combo e' >? 1 then 50 * (combo e' - 1) else 0))
             * (if isPerfectClear e' then 10 else 1) * level e'
         /\ specBaseScore 1 false = 100 /\ specBaseScore 2 false = 300
         /\ specBaseScore 3 false = 500 /\ specBaseScore 4 false = 800
         /\ specBaseScore 0 true = 400 /\ specBaseScore 1 true = 800
         /\ specBaseScore 2 true = 1200 /\ specBaseScore 3 true = 1600
         /\ (k = 4 -> spin = false -> level e' = 1 -> combo e' = 1 ->
             isPerfectClear e' = false -> score e' = score tetrisReady + 800).
Proof.
  split; [exact tetrisReady_wf|]. split; [reflexivity|].
  apply (lockPiece_score tetrisReady _ tetrisReady_wf).
  reflexivity.
Defined.

(** ** Attack lines *)

(** C5.  [getAttackLines(lines, wasSpecialSpin)] is the table value (0, 1,
    2, 4 for 1, 2, 3, 4 lines; 0, 2, 4, 6 for 0, 1, 2, 3 lines of a
    special spin), plus [min(combo - 1, 4)] when the combo counter exceeds
    1, plus 10 when the board is entirely empty.  In particular, when
    neither bonus applies, [getAttackLines(4, false)] is 4 and
    [getAttackLines(1, true)] is 2. *)
Theorem getAttackLines_table_and_bonuses (e : Engine) :
  let bonus :=
    (if combo e >? 1 then Z.min (combo e - 1) 4 else 0)
    + (if isPerfectClear e then 10 else 0) in
  (forall cleared spin,
      getAttackLines cleared spin e = specAttackTable cleared spin + bonus)
  /\ getAttackLines 1 false e = 0 + bonus
  /\ getAttackLines 2 false e = 1 + bonus
  /\ getAttackLines 3 false e = 2 + bonus
  /\ getAttackLines 4 false e = 4 + bonus
  /\ getAttackLines 0 true e = 0 + bonus
  /\ getAttackLines 1 true e = 2 + bonus
  /\ getAttackLines 2 true e = 4 + bonus
  /\ getAttackLines 3 true e = 6 + bonus
  /\ (combo e <= 1 -> isPerfectClear e = false ->
      getAttackLines 4 false e = 4 /\ getAttackLines 1 true e = 2).
Proof.
  cbv zeta.
  assert (Hgen : forall cleared spin,
             getAttackLines cleared spin e
             = specAttackTable cleared spin
               + ((if combo e >? 1 then Z.min (combo e - 1) 4 else 0)
                  + (if isPerfectClear e then 10 else 0))).
  { intros cleared spin. unfold getAttackLines, specAttackTable.
    destruct spin; destruct cleared as [|p|p];
      try (destruct (combo e >? 1); destruct (isPerfectClear e); cbn; lia);
      do 3 (try destruct p as [p|p|];
            try (destruct (combo e >? 1); destruct (isPerfectClear e); cbn; lia)). }
  split; [exact Hgen|].
  repeat (split; [apply Hgen|]).
  intros Hcombo Hpc. rewrite !Hgen, Hpc.
  destruct (Z.gtb_spec (combo e) 1); [lia|]. split; reflexivity.
Qed.

Lemma getAttackLines_table_and_bonuses_witness :
  combo afterTetris <= 1 /\ isPerfectClear afterTetris = false
  /\ getAttackLines 4 false afterTetris = 4
  /\ getAttackLines 1 true afterTetris = 2.
Proof.
  assert (Hcombo : combo afterTetris <= 1) by (vm_compute; congruence).
  assert (Hpc : isPerfectClear afterTetris = false) by (vm_compute; reflexivity).
  split; [exact Hcombo|]. split; [exact Hpc|].
  destruct (getAttackLines_table_and_bonuses afterTetris)
    as (_ & _ & _ & _ & _ & _ & _ & _ & _ & Hparticular).
  exact (Hparticular Hcombo Hpc).
Defined.

(** On a newly created engine the board is empty, and the perfect-clear
    bonus is part of every answer. *)
Example getAttackLines_on_empty_board :
  getAttackLines 4 false freshEngine = 14.
Proof. vm_compute. reflexivity. Qed.

(** ** Hold *)

(** The call raises on every engine: the property is [null] or a piece. *)
Lemma holdPiece_raises e : holdPiece e = TypeError.
Proof. unfold holdPiece, getHoldPiece. destruct (heldPiece e); reflexivity. Qed.

(** The body of the method, had a call reached it with a current piece, a
    held piece, [canHold] and no game over: it returns [true], the held
    slot takes a new piece of the current type, the current piece becomes
    a new piece of the held type at [(floor(width / 2) - 2, 0)] in
    rotation 0, [canHold] becomes false, and nothing else changes; no
    collision is tested. *)
Lemma method_swaps_unchecked (e : Engine) (cur held : TetrisPiece) :
  currentPiece e = Some cur -> heldPiece e = Some held ->
  canHold e = true -> gameOver e = false ->
  let swapped :=
    {| ptype := ptype held; x := width e / 2 - 2; y := 0; rotation := 0 |} in
  Prototype.holdPiece e
  = Ok (true,
        set_canHold false
          (set_currentPiece (Some swapped)
             (set_heldPiece (Some (newTetrisPiece0 (ptype cur))) e))).
Proof.
  intros Hcur Hheld Hcan Hover. cbv zeta.
  unfold Prototype.holdPiece. rewrite Hcur, Hcan, Hover, Hheld. reflexivity.
Qed.

(** C10.  [holdPiece()] swaps nothing and does not return [true]: the
    call raises a [TypeError].  The property [holdPiece] that the call
    finds on an engine is the field assigned by the constructor and by
    [reset()], [null] or a piece, never the method: so the call raises on
    every engine, on a new one ([freshEngine]) as in the state of the
    claim ([holdReady]: a current piece, a held piece, [canHold], no game
    over), where the body of the method, were it reached, would return
    [true] with the swapped-in piece overlapping the board and [gameOver]
    still false. *)
Theorem holdPiece_call_raises_TypeError :
  (forall e, holdPiece e = TypeError)
  /\ getHoldPiece freshEngine = NullValue
  /\ holdPiece freshEngine = TypeError
  /\ (exists cur held,
        currentPiece holdReady = Some cur /\ heldPiece holdReady = Some held
        /\ getHoldPiece holdReady = PieceValue held)
  /\ canHold holdReady = true /\ gameOver holdReady = false
  /\ holdPiece holdReady = TypeError
  /\ exists e' swapped,
       Prototype.holdPiece holdReady = Ok (true, e')
       /\ currentPiece e' = Some swapped
       /\ isColliding e' swapped = Ok true
       /\ gameOver e' = false.
Proof.
  split; [exact holdPiece_raises|].
  split; [vm_compute; reflexivity|].
  split; [apply holdPiece_raises|].
  split; [eexists _, _; repeat split; reflexivity|].
  split; [reflexivity|]. split; [reflexivity|].
  split; [apply holdPiece_raises|].
  eexists _, _.
  split; [exact (method_swaps_unchecked holdReady _ _ eq_refl eq_refl eq_refl eq_refl)|].
  split; [reflexivity|]. split; vm_compute; reflexivity.
Qed.

(** ** After game over *)

Lemma update_after_gameOver deltaTime e :
  gameOver e = true -> update deltaTime e = Ok e.
Proof.
  intros H. unfold update. rewrite H. destruct (currentPiece e); reflexivity.
Qed.

Lemma movePiece_after_gameOver dx dy e :
  gameOver e = true -> movePiece dx dy e = Ok (false, e).
Proof.
  intros H. unfold movePiece. rewrite H. destruct (currentPiece e); reflexivity.
Qed.

(** C1, at the engine [toppedOut]: the game is over (the L piece spawned
    on top of the pile), [update] and [movePiece] change nothing, and
    [lockPiece()], which tests only that there is a current piece, writes
    the L piece into rows 1 and 2 of the board. *)
Theorem lockPiece_after_gameOver_writes_board :
  gameOver toppedOut = true
  /\ update 16 toppedOut = Ok toppedOut
  /\ movePiece 0 1 toppedOut = Ok (false, toppedOut)
  /\ exists e', lockPiece toppedOut = Ok e'
                /\ board e' <> board toppedOut
                /\ js_get (board toppedOut) 1 = Some (replicate 10%nat None)
                /\ js_get (board e') 1
                   = Some (<[5%nat := Some (cellOf (newTetrisPiece0 Ty.L))]>
                             (replicate 10%nat None)).
Proof.
  assert (Hover : gameOver toppedOut = true) by (vm_compute; reflexivity).
  split; [exact Hover|].
  split; [apply update_after_gameOver, Hover|].
  split; [apply movePiece_after_gameOver, Hover|].
  eexists. split; [vm_compute; reflexivity|].
  split; [|split; vm_compute; reflexivity].
  intros Heq. apply (f_equal (fun b => js_get b 1)) in Heq.
  vm_compute in Heq. discriminate Heq.
Qed.

(** ** Garbage rows *)

Lemma frac_range q : (0 <= frac q)%Q /\ (frac q < 1)%Q.
Proof.
  unfold frac. pose proof (Qfloor_le q) as Hlo. pose proof (Qlt_floor q) as Hhi.
  rewrite inject_Z_plus in Hhi. split.
  - apply (Qplus_le_l _ _ (inject_Z (Qfloor q))). ring_simplify. exact Hlo.
  - apply (Qplus_lt_l _ _ (inject_Z (Qfloor q))). ring_simplify. exact Hhi.
Qed.

(** [Math.floor(Math.random() * n)] is one of [0 .. n - 1]. *)
Lemma randomBelow_range n r : 0 < n -> 0 <= fst (randomBelow n r) < n.
Proof.
  intros Hn. unfold randomBelow, Math_random. cbn [fst].
  destruct (frac_range (samples r (used r))) as [Hlo Hhi].
  set (u := frac (samples r (used r))) in *.
  assert (Hn' : (inject_Z 0 < inject_Z n)%Q) by (rewrite <- Zlt_Qlt; exact Hn).
  split.
  - rewrite <- (Qfloor_Z 0). apply Qfloor_resp_le.
    apply Qmult_le_0_compat; [exact Hlo | apply Qlt_le_weak, Hn'].
  - rewrite Zlt_Qlt. eapply Qle_lt_trans; [apply Qfloor_le|].
    rewrite <- (Qmult_1_l (inject_Z n)) at 2.
    apply Qmult_lt_r; assumption.
Qed.

Lemma holeAt_range e i : 0 < width e -> 0 <= holeAt e i < width e.
Proof.
  intros Hw.
  exact (randomBelow_range (width e)
           {| samples := samples (random e); used := used (random e) + i |} Hw).
Qed.

Lemma filter_occupied_replicate n c :
  List.filter occupied (replicate n (Some c)) = replicate n (Some c)
  /\ List.filter (fun c => negb (occupied c)) (replicate n (Some c)) = [].
Proof.
  induction n as [|n [IH1 IH2]]; simpl; [split; reflexivity|].
  rewrite IH1, IH2. split; reflexivity.
Qed.

(** A garbage row has [width] cells: one [null] at the hole, the garbage
    cell everywhere else. *)
Lemma garbageRowAt_shape e i :
  0 < width e ->
  let row := garbageRowAt e i in
  length row = Z.to_nat (width e)
  /\ countOccupied row = (Z.to_nat (width e) - 1)%nat
  /\ countEmpty row = 1%nat
  /\ js_get row (holeAt e i) = Some None
  /\ (forall j, 0 <= j < width e -> j <> holeAt e i ->
        js_get row j = Some (Some garbageCell)).
Proof.
  intros Hw. pose proof (holeAt_range e i Hw) as Hh.
  cbv zeta. unfold garbageRowAt, js_set, js_get.
  destruct (Z.ltb_spec (holeAt e i) 0) as [?|_]; [lia|].
  set (h := Z.to_nat (holeAt e i)). set (w := Z.to_nat (width e)).
  assert (Hlt : (h < w)%nat) by (unfold h, w; lia).
  split; [rewrite length_insert, length_replicate; reflexivity|].
  split; [|split; [|split]].
  - unfold countOccupied. rewrite (insert_replicate_lt _ _ _ _ Hlt).
    rewrite List.filter_app. simpl.
    rewrite !(proj1 (filter_occupied_replicate _ _)).
    rewrite length_app, !length_replicate. lia.
  - unfold countEmpty. rewrite (insert_replicate_lt _ _ _ _ Hlt).
    rewrite List.filter_app. simpl.
    rewrite !(proj2 (filter_occupied_replicate _ _)). reflexivity.
  - apply list_lookup_insert_eq. rewrite length_replicate. exact Hlt.
  - intros j Hj Hne. destruct (Z.ltb_spec j 0) as [?|_]; [lia|].
    rewrite list_lookup_insert_ne by (unfold h; lia).
    apply lookup_replicate_2. unfold w. lia.
Qed.

Lemma iter_tail {A} (m : nat) (l : list A) : Nat.iter m (@tail A) l = drop m l.
Proof.
  induction m as [|m IH]; [reflexivity|].
  simpl. rewrite IH. clear IH. revert l.
  induction m as [|m IH]; intros [|a l]; try reflexivity. simpl. apply IH.
Qed.

(** What the second loop of [receiveAttack] does in [m] turns. *)
Lemma pushGarbageLine_iter e m :
  let e' := Nat.iter m pushGarbageLine e in
  board e' = board e ++ map (garbageRowAt e) (seq 0 m)
  /\ samples (random e') = samples (random e)
  /\ used (random e') = (used (random e) + m)%nat
  /\ width e' = width e /\ height e' = height e
  /\ currentPiece e' = currentPiece e /\ gameOver e' = gameOver e
  /\ nextPiece e' = nextPiece e.
Proof.
  induction m as [|m IH]; cbv zeta in *.
  - cbn [Nat.iter seq map]. rewrite app_nil_r, Nat.add_0_r. repeat split.
  - change (Nat.iter (Datatypes.S m) pushGarbageLine e)
      with (pushGarbageLine (Nat.iter m pushGarbageLine e)).
    set (em := Nat.iter m pushGarbageLine e) in *.
    destruct IH as (Hb & Hs & Hu & Hw & Hh & Hc & Hg & Hn).
    unfold pushGarbageLine, randomBelow, Math_random. esimpl. cbn [used samples].
    rewrite Hb, Hs, Hu, Hw, Hh, Hc, Hg, Hn.
    split; [|repeat split; lia].
    rewrite seq_S, map_app, app_assoc. reflexivity.
Qed.

(** An attack of 21 lines on a board of 20 rows cannot remove 21 rows: the
    20 rows go, 21 garbage rows are pushed, and the board has 21 rows. *)
Lemma receiveAttack_more_than_height :
  ~ removesAndAppends 21 freshEngine
  /\ exists e', receiveAttack 21 freshEngine = Ok e'
                /\ length (board freshEngine) = 20%nat
                /\ length (board e') = 21%nat.
Proof.
  split.
  - intros (e' & removed & kept & rows & _ & Hsplit & Hlen & _).
    apply (f_equal (@length _)) in Hsplit.
    rewrite length_app, Hlen in Hsplit.
    vm_compute in Hsplit. discriminate Hsplit.
  - eexists. split; [vm_compute; reflexivity|].
    split; vm_compute; reflexivity.
Qed.

(** C4, amended.  On a well-formed engine and for [0 < n <= height],
    [receiveAttack(n)] removes the [n] top rows and appends [n] garbage
    rows; the board keeps its height; the [i]-th garbage row has the
    garbage cell everywhere but at column
    [Math.floor(Math.random() * width)] for a sample of its own, so
    [width - 1] occupied cells and one empty cell; [gameOver] becomes true
    when the current piece collides with the new board and is otherwise as
    before.  For [n <= 0] the engine is unchanged. *)
Theorem receiveAttack_garbage_rows (e : Engine) (n : Z) :
  wfEngine e -> 0 < n <= height e ->
  exists e',
    receiveAttack n e = Ok e'
    /\ board e'
       = drop (Z.to_nat n) (board e)
         ++ map (garbageRowAt e) (seq 0 (Z.to_nat n))
    /\ length (board e') = length (board e)
    /\ Forall (garbageShaped (width e))
              (map (garbageRowAt e) (seq 0 (Z.to_nat n)))
    /\ (forall i, 0 <= holeAt e i < width e
                  /\ js_get (garbageRowAt e i) (holeAt e i) = Some None)
    /\ gameOver e'
       = match currentPiece e with
         | Some cur =>
           gameOver e || yields (collides (width e) (height e) (board e') cur)
         | None => gameOver e
         end
    /\ (forall n', n' <= 0 -> receiveAttack n' e = Ok e).
Proof.
  intros Hwf Hn.
  pose proof (wf_width e Hwf) as Hw.
  pose proof (rectangular_length _ _ _ (wf_board e Hwf)) as Hlen.
  set (m := Z.to_nat n).
  set (e1 := set_board (Nat.iter m (@tail Row) (board e)) e).
  destruct (pushGarbageLine_iter e1 m)
    as (Hb & Hs & Hu & Hw2 & Hh2 & Hc2 & Hg2 & _).
  cbv zeta in *. set (e2 := Nat.iter m pushGarbageLine e1) in *.
  assert (Hrows : map (garbageRowAt e1) (seq 0 m) = map (garbageRowAt e) (seq 0 m))
    by reflexivity.
  assert (Hb2 : board e2 = drop m (board e) ++ map (garbageRowAt e) (seq 0 m)).
  { rewrite Hb, Hrows. unfold e1. esimpl. rewrite iter_tail. reflexivity. }
  assert (Hlen2 : length (board e2) = length (board e)).
  { rewrite Hb2, length_app, length_drop, length_map, length_seq.
    unfold m. lia. }
  assert (Hshape : Forall (garbageShaped (width e)) (map (garbageRowAt e) (seq 0 m))).
  { apply Forall_forall. intros row Hin.
    apply list_elem_of_In, in_map_iff in Hin as (i & <- & _).
    destruct (garbageRowAt_shape e i Hw) as (H1 & H2 & H3 & _).
    repeat split; assumption. }
  assert (Hholes : forall i, 0 <= holeAt e i < width e
                             /\ js_get (garbageRowAt e i) (holeAt e i) = Some None).
  { intros i. split; [apply holeAt_range, Hw|].
    apply (garbageRowAt_shape e i Hw). }
  assert (Hnop : forall n', n' <= 0 -> receiveAttack n' e = Ok e).
  { intros n' Hn'. unfold receiveAttack.
    destruct (Z.leb_spec n' 0); [reflexivity | lia]. }
  assert (Hrun : receiveAttack n e
                 = match currentPiece e2 with
                   | None => Ok e2
                   | Some cur =>
                     do c <- isColliding e2 cur;
                     if c then Ok (set_gameOver true e2) else Ok e2
                   end).
  { unfold receiveAttack. destruct (Z.leb_spec n 0); [lia | reflexivity]. }
  rewrite Hrun, Hc2. unfold e1 at 1. esimpl.
  destruct (currentPiece e) as [cur|] eqn:Hcur.
  - pose proof (wf_current e Hwf) as Hvalid. rewrite Hcur in Hvalid.
    unfold isColliding. rewrite Hw2, Hh2. unfold e1 at 1 2. esimpl.
    destruct (collides_total (width e) (height e) (board e2) cur Hvalid)
      as [c Hc]; [rewrite Hlen2; lia|].
    rewrite Hc. esimpl.
    destruct c; eexists; (split; [reflexivity|]); esimpl;
      rewrite ?Hc; cbn [yields];
      (split; [exact Hb2|]); (split; [exact Hlen2|]);
      (split; [exact Hshape|]); (split; [exact Hholes|]);
      (split; [|exact Hnop]); rewrite ?Hg2; unfold e1; esimpl.
    + rewrite orb_true_r. reflexivity.
    + rewrite orb_false_r. reflexivity.
  - exists e2. split; [reflexivity|].
    split; [exact Hb2|]. split; [exact Hlen2|].
    split; [exact Hshape|]. split; [exact Hholes|].
    split; [|exact Hnop]. rewrite Hg2. reflexivity.
Qed.

Lemma receiveAttack_garbage_rows_witness :
  wfEngine freshEngine /\ 0 < 2 <= height freshEngine
  /\ exists e',
      receiveAttack 2 freshEngine = Ok e'
      /\ board e'
         = drop (Z.to_nat 2) (board freshEngine)
           ++ map (garbageRowAt freshEngine) (seq 0 (Z.to_nat 2))
      /\ length (board e') = length (board freshEngine)
      /\ Forall (garbageShaped (width freshEngine))
                (map (garbageRowAt freshEngine) (seq 0 (Z.to_nat 2)))
      /\ (forall i, 0 <= holeAt freshEngine i < width freshEngine
                    /\ js_get (garbageRowAt freshEngine i) (holeAt freshEngine i)
                       = Some None)
      /\ gameOver e'
         = match currentPiece freshEngine with
           | Some cur =>
             gameOver freshEngine
             || yields (collides (width freshEngine) (height freshEngine)
                          (board e') cur)
           | None => gameOver freshEngine
           end
      /\ (forall n', n' <= 0 -> receiveAttack n' freshEngine = Ok freshEngine).
Proof.
  assert (Hn : 0 < 2 <= height freshEngine) by (vm_compute; split; congruence).
  split; [exact freshEngine_wf|]. split; [exact Hn|].
  exact (receiveAttack_garbage_rows freshEngine 2 freshEngine_wf Hn).
Defined.

(** ** The engine keeps itself well formed *)

Lemma lockPiece_wf e e' : wfEngine e -> lockPiece e = Ok e' -> wfEngine e'.
Proof.
  intros Hwf Hlock. destruct (currentPiece e) as [cur|] eqn:Hcur.
  - destruct (lockPiece_runs e cur Hwf Hcur)
      as (blocks & bd1 & e1 & _ & _ & Hrect & Hlock1 & Hk).
    cbv zeta in Hk.
    destruct Hk as (Hboard & _ & _ & _ & _ & Hw & Hh & Hcur' & (t & Hnext') & _).
    rewrite Hlock in Hlock1. injection Hlock1 as <-.
    destruct (wf_next e Hwf) as (np & Hnp & Hnpvalid).
    constructor.
    + rewrite Hw. exact (wf_width e Hwf).
    + rewrite Hh. exact (wf_height e Hwf).
    + rewrite Hw, Hh, Hboard. unfold fullRowCount, emptyRow.
      rewrite Nat2Z.id. apply rectangular_compact, Hrect.
    + rewrite Hcur', Hnp. exact Hnpvalid.
    + exists (newTetrisPiece0 t). split; [exact Hnext' | apply newTetrisPiece0_valid].
  - unfold lockPiece in Hlock. rewrite Hcur in Hlock. injection Hlock as <-.
    exact Hwf.
Qed.

Lemma wfEngine_ext e e' :
  width e' = width e -> height e' = height e -> board e' = board e ->
  currentPiece e' = currentPiece e -> nextPiece e' = nextPiece e ->
  wfEngine e -> wfEngine e'.
Proof.
  intros Hw Hh Hb Hc Hn [H1 H2 H3 H4 H5].
  constructor; rewrite ?Hw, ?Hh, ?Hb, ?Hc, ?Hn; assumption.
Qed.

Lemma wfEngine_set_currentPiece e p :
  wfEngine e -> validPiece p -> wfEngine (set_currentPiece (Some p) e).
Proof.
  intros [H1 H2 H3 H4 H5] Hp. constructor; esimpl; assumption.
Qed.

Lemma movePiece_wf dx dy e moved e' :
  wfEngine e -> movePiece dx dy e = Ok (moved, e') -> wfEngine e'.
Proof.
  intros Hwf Hrun. unfold movePiece in Hrun.
  destruct (currentPiece e) as [cur|] eqn:Hcur;
    [|injection Hrun as _ <-; exact Hwf].
  destruct (gameOver e); [injection Hrun as _ <-; exact Hwf|].
  pose proof (wf_current e Hwf) as Hvalid. rewrite Hcur in Hvalid.
  destruct (isColliding e (move dx dy cur)) as [c| |]; try discriminate Hrun.
  cbn [bindRes] in Hrun. destruct c; injection Hrun as _ <-.
  - apply wfEngine_set_currentPiece; [exact Hwf | exact Hvalid].
  - assert (Hwf1 : wfEngine (set_currentPiece (Some (move dx dy cur)) e))
      by (apply wfEngine_set_currentPiece; [exact Hwf | exact Hvalid]).
    destruct (dy =? 0); [|exact Hwf1].
    eapply wfEngine_ext; [..|exact Hwf1]; reflexivity.
Qed.

Lemma rotatePiece_wf direction e rotated e' :
  direction = 1 \/ direction = -1 ->
  wfEngine e -> rotatePiece direction e = Ok (rotated, e') -> wfEngine e'.
Proof.
  intros Hd Hwf Hrun. unfold rotatePiece in Hrun.
  destruct (currentPiece e) as [cur|] eqn:Hcur;
    [|injection Hrun as _ <-; exact Hwf].
  destruct (gameOver e); [injection Hrun as _ <-; exact Hwf|].
  pose proof (wf_current e Hwf) as Hvalid. rewrite Hcur in Hvalid.
  cbn [validOption] in Hvalid.
  destruct (rotation_target (rotation cur) direction (shapeLength cur) Hvalid Hd)
    as [Hrem Hrange].
  rewrite Hrem in Hrun.
  set (target := (rotation cur + direction) mod shapeLength cur) in *.
  assert (Hq : validPiece (set_rotation target cur)) by exact Hrange.
  destruct (kickLoop_first_fit e (set_rotation target cur)
              (getWallKickData (ptype cur) (rotation cur) target) Hwf Hq)
    as [(pre & k & post & _ & _ & _ & Hloop) | [_ Hloop]];
    rewrite Hloop in Hrun; cbn [bindRes] in Hrun; injection Hrun as _ <-.
  - eapply wfEngine_ext;
      [..|exact (wfEngine_set_currentPiece e _ Hwf
                   (Hq : validPiece (move k.1 k.2 (set_rotation target cur))))];
      reflexivity.
  - rewrite set_rotation_back, (set_currentPiece_same e cur Hcur). exact Hwf.
Qed.

Lemma rectangular_createEmptyBoard e :
  rectangular (width e) (height e) (createEmptyBoard e) = true.
Proof.
  unfold rectangular, createEmptyBoard, emptyRow. apply andb_true_iff. split.
  - apply Nat.eqb_eq, length_replicate.
  - apply forallb_forall. intros row Hin.
    apply list_elem_of_In, elem_of_replicate_inv in Hin. subst row.
    apply Nat.eqb_eq, length_replicate.
Qed.

(** [new TetrisGameEngine(width, height)] completes and gives a
    well-formed engine. *)
Lemma newEngine_wf w h r :
  0 < w -> 0 <= h -> exists e, newEngine w h r = Ok e /\ wfEngine e.
Proof.
  intros Hw Hh. unfold newEngine, newPieceGenerator, initializeGame.
  destruct (refillBag _ r) as [g r1].
  set (e1 := set_board _ (blankEngine w h g r1)).
  destruct (getNext_Some (pieceGenerator e1) (random e1)) as (t & g2 & r2 & ->).
  set (e2 := set_random r2 (set_pieceGenerator g2 (set_nextPiece _ e1))).
  assert (Hrect : rectangular (width e2) (height e2) (board e2) = true)
    by exact (rectangular_createEmptyBoard (blankEngine w h g r1)).
  destruct (spawnNewPiece_runs e2 (newTetrisPiece0 t) eq_refl
              (newTetrisPiece0_valid t))
    as (e' & Hspawn & [Hw' Hh' Hb' _ _ _ _ _] & Hcur & _ & t' & Hnext).
  { rewrite (rectangular_length _ _ _ Hrect). lia. }
  exists e'. split; [exact Hspawn|]. constructor.
  - rewrite Hw'. exact Hw.
  - rewrite Hh'. exact Hh.
  - rewrite Hw', Hh', Hb'. exact Hrect.
  - rewrite Hcur. apply newTetrisPiece0_valid.
  - exists (newTetrisPiece0 t'). split; [exact Hnext | apply newTetrisPiece0_valid].
Qed.

Lemma rectangular_garbage e (n : Z) :
  wfEngine e -> 0 < n <= height e ->
  rectangular (width e) (height e)
    (drop (Z.to_nat n) (board e)
     ++ map (garbageRowAt e) (seq 0 (Z.to_nat n))) = true.
Proof.
  intros Hwf Hn. pose proof (wf_board e Hwf) as Hrect.
  pose proof (rectangular_length _ _ _ Hrect) as Hlen.
  unfold rectangular. apply andb_true_iff. split.
  - apply Nat.eqb_eq.
    rewrite length_app, length_drop, length_map, length_seq. lia.
  - apply forallb_forall. intros row Hin. apply Nat.eqb_eq.
    apply in_app_or in Hin as [Hin|Hin].
    + apply (rectangular_rows _ _ _ _ Hrect).
      apply list_elem_of_In, (subseteq_drop (Z.to_nat n) (board e)).
      apply list_elem_of_In, Hin.
    + apply in_map_iff in Hin as (i & <- & _).
      apply (garbageRowAt_shape e i (wf_width e Hwf)).
Qed.

Lemma receiveAttack_wf (n : Z) e e' :
  wfEngine e -> n <= height e -> receiveAttack n e = Ok e' -> wfEngine e'.
Proof.
  intros Hwf Hn Hrun. unfold receiveAttack in Hrun.
  destruct (Z.leb_spec n 0) as [|Hpos]; [injection Hrun as <-; exact Hwf|].
  set (m := Z.to_nat n) in *.
  set (e1 := set_board (Nat.iter m (@tail Row) (board e)) e) in *.
  destruct (pushGarbageLine_iter e1 m)
    as (Hb & _ & _ & Hw2 & Hh2 & Hc2 & _ & Hn2).
  cbv zeta in *. set (e2 := Nat.iter m pushGarbageLine e1) in *.
  assert (Hwf2 : wfEngine e2).
  { destruct Hwf as [H1 H2 H3 H4 H5]. constructor.
    - rewrite Hw2. exact H1.
    - rewrite Hh2. exact H2.
    - rewrite Hw2, Hh2, Hb. unfold e1 at 1 2 3. esimpl. rewrite iter_tail.
      apply (rectangular_garbage e n); [constructor; assumption | lia].
    - rewrite Hc2. exact H4.
    - rewrite Hn2. exact H5. }
  destruct (currentPiece e2) as [cur|]; [|injection Hrun as <-; exact Hwf2].
  destruct (isColliding e2 cur) as [c| |]; try discriminate Hrun.
  cbn [bindRes] in Hrun. destruct c; injection Hrun as <-; [|exact Hwf2].
  eapply wfEngine_ext; [..|exact Hwf2]; reflexivity.
Qed.

Lemma spawnNewPiece_wf e e' : wfEngine e -> spawnNewPiece e = Ok e' -> wfEngine e'.
Proof.
  intros Hwf Hrun. destruct (wf_next e Hwf) as (np & Hnp & Hnpvalid).
  destruct (spawnNewPiece_runs e np Hnp Hnpvalid)
    as (e1 & Hspawn & [Hw Hh Hb _ _ _ _ _] & Hcur & _ & t & Hnext).
  { rewrite (rectangular_length _ _ _ (wf_board e Hwf)). lia. }
  rewrite Hrun in Hspawn. injection Hspawn as <-.
  destruct Hwf as [H1 H2 H3 H4 H5]. constructor.
  - rewrite Hw. exact H1.
  - rewrite Hh. exact H2.
  - rewrite Hw, Hh, Hb. exact H3.
  - rewrite Hcur. exact Hnpvalid.
  - exists (newTetrisPiece0 t). split; [exact Hnext | apply newTetrisPiece0_valid].
Qed.

Lemma dropLoop_wf fuel : forall d e d' e',
  wfEngine e -> dropLoop fuel d e = Ok (d', e') -> wfEngine e'.
Proof.
  induction fuel as [|fuel IH]; intros d e d' e' Hwf Hrun; [discriminate Hrun|].
  cbn [dropLoop] in Hrun.
  destruct (movePiece 0 1 e) as [[moved e1]| |] eqn:Hmove; try discriminate Hrun.
  cbn [bindRes] in Hrun. pose proof (movePiece_wf _ _ _ _ _ Hwf Hmove) as Hwf1.
  destruct moved; [exact (IH _ _ _ _ Hwf1 Hrun)|].
  injection Hrun as _ <-. exact Hwf1.
Qed.

Lemma hardDrop_wf fuel e d e' :
  wfEngine e -> hardDrop fuel e = Ok (d, e') -> wfEngine e'.
Proof.
  intros Hwf Hrun. unfold hardDrop in Hrun.
  destruct (currentPiece e); [|injection Hrun as _ <-; exact Hwf].
  destruct (gameOver e); [injection Hrun as _ <-; exact Hwf|].
  destruct (dropLoop fuel 0 e) as [[d1 e1]| |] eqn:Hdrop; try discriminate Hrun.
  cbn [bindRes] in Hrun.
  destruct (lockPiece e1) as [e2| |] eqn:Hlock; try discriminate Hrun.
  cbn [bindRes] in Hrun. injection Hrun as _ <-.
  pose proof (lockPiece_wf _ _ (dropLoop_wf _ _ _ _ _ Hwf Hdrop) Hlock) as Hwf2.
  eapply wfEngine_ext; [..|exact Hwf2]; reflexivity.
Qed.

Lemma update_wf deltaTime e e' :
  wfEngine e -> update deltaTime e = Ok e' -> wfEngine e'.
Proof.
  intros Hwf Hrun. unfold update in Hrun.
  destruct (currentPiece e); [|injection Hrun as <-; exact Hwf].
  destruct (gameOver e); [injection Hrun as <-; exact Hwf|].
  set (e1 := set_dropTimer (dropTimer e + deltaTime) e) in *.
  assert (Hwf1 : wfEngine e1)
    by (eapply wfEngine_ext; [..|exact Hwf]; reflexivity).
  match type of Hrun with
  | bindRes ?m _ = _ => destruct m as [e2| |] eqn:Hstep; try discriminate Hrun
  end.
  cbn [bindRes] in Hrun.
  assert (Hwf2 : wfEngine e2).
  { destruct (dropTimer e1 >=? dropInterval e1).
    - destruct (movePiece 0 1 e1) as [[moved e3]| |] eqn:Hmove;
        try discriminate Hstep.
      cbn [bindRes] in Hstep. injection Hstep as <-.
      pose proof (movePiece_wf _ _ _ _ _ Hwf1 Hmove) as Hwf3.
      destruct (negb moved && negb (isLocking e3));
        (eapply wfEngine_ext; [..|exact Hwf3]; reflexivity).
    - injection Hstep as <-. exact Hwf1. }
  destruct (isLocking e2); [|injection Hrun as <-; exact Hwf2].
  set (e3 := set_lockTimer (lockTimer e2 + deltaTime) e2) in *.
  assert (Hwf3 : wfEngine e3)
    by (eapply wfEngine_ext; [..|exact Hwf2]; reflexivity).
  destruct (lockTimer e3 >=? lockDelay e3).
  - exact (lockPiece_wf _ _ Hwf3 Hrun).
  - injection Hrun as <-. exact Hwf3.
Qed.

(** ** Preview of the next pieces *)

Lemma length_removelast {A} (l : list A) :
  length (removelast l) = (length l - 1)%nat.
Proof.
  induction l as [|a [|b l] IH]; try reflexivity.
  change (removelast (a :: b :: l)) with (a :: removelast (b :: l)).
  cbn [length] in *. lia.
Qed.

(** Within the bag, [preview] reads what [getNext] will pop, draws no
    sample and leaves the generator as it is. *)
Lemma preview_within_bag n : forall g acc r,
  (n <= length (bag g))%nat ->
  previewLoop n (bag g) acc r = (acc ++ (nextTypes n g r).1.1, r)
  /\ (nextTypes n g r).2 = r.
Proof.
  induction n as [|n IH]; intros g acc r Hn.
  - cbn. rewrite app_nil_r. split; reflexivity.
  - cbn [previewLoop nextTypes]. unfold getNext, pop.
    destruct (Nat.eqb_spec (length (bag g)) 0) as [Hz|_]; [lia|].
    destruct (IH {| bag := removelast (bag g) |} (acc ++ [last (bag g)]) r)
      as [Hpv Hr].
    { cbn [bag]. rewrite length_removelast. lia. }
    cbn [bag] in Hpv. rewrite Hpv.
    destruct (nextTypes n {| bag := removelast (bag g) |} r) as [[ts g2] r2].
    cbn [fst snd] in *. subst r2. split; [|reflexivity].
    rewrite <- app_assoc. cbn [app]. do 3 f_equal.
    destruct (last (bag g)); reflexivity.
Qed.

Lemma preview_agrees_within_bag n g r :
  (n <= length (bag g))%nat ->
  preview n g r = ((nextTypes n g r).1.1, g, r).
Proof.
  intros Hn. unfold preview.
  destruct (preview_within_bag n g [] r Hn) as [-> _]. reflexivity.
Qed.

(** C7, at the generator of [freshEngine], whose bag holds five pieces.
    [preview(5)] agrees with the next five draws.  [preview(7)] leaves the
    bag as it is but shuffles a bag of its own with six samples of
    [Math.random]; the refill of the sixth real draw shuffles with the six
    samples after those, and the sixth and seventh pieces drawn (S, Z) are
    not the ones previewed (O, S). *)
Theorem preview_past_bag_disagrees_with_draws :
  let g := pieceGenerator freshEngine in
  let r := random freshEngine in
  bag g = [Ty.Z; Ty.J; Ty.O; Ty.L; Ty.S]
  /\ (preview 5 g r).1.1 = (nextTypes 5 g (preview 5 g r).2).1.1
  /\ (preview 7 g r).1.2 = g
  /\ used (preview 7 g r).2 = (used r + 6)%nat
  /\ (preview 7 g r).1.1
     = [Some Ty.S; Some Ty.L; Some Ty.O; Some Ty.J; Some Ty.Z; Some Ty.O; Some Ty.S]
  /\ (nextTypes 7 g (preview 7 g r).2).1.1
     = [Some Ty.S; Some Ty.L; Some Ty.O; Some Ty.J; Some Ty.Z; Some Ty.S; Some Ty.Z]
  /\ (nextTypes 7 g r).1.1
     = [Some Ty.S; Some Ty.L; Some Ty.O; Some Ty.J; Some Ty.Z; Some Ty.O; Some Ty.S].
Proof.
  cbv zeta. repeat split; vm_compute; reflexivity.
Qed.

(** ** Executing the best move *)

(** While [rotatePiece(1)] fails and leaves the engine as it is, the
    rotation loop of [executeBestMove] cannot end. *)
Lemma rotateLoop_stuck target e cur :
  currentPiece e = Some cur -> rotation cur <> target ->
  rotatePiece 1 e = Ok (false, e) ->
  forall fuel, rotateLoop fuel target e = OutOfFuel.
Proof.
  intros Hcur Hne Hrot fuel. induction fuel as [|fuel IH]; [reflexivity|].
  cbn [rotateLoop]. rewrite Hcur.
  destruct (Z.eqb_spec (rotation cur) target) as [Heq|_]; [contradiction|].
  cbn [negb]. rewrite Hrot. exact IH.
Qed.

(** C8, at the engine [wellBlocked].  The search of a medium AI returns the
    placement of the I piece upright in column 0 (rotation 1), which
    clears four lines.  No wall-kick offset lets the piece turn where it
    stands, so [rotatePiece(1)] returns [false] and changes nothing, and
    the loop of [executeBestMove] that waits for the rotation index to
    become 1 does not end, whatever the number of turns it is given. *)
Theorem executeBestMove_blocked_rotation_never_ends :
  exists m,
    findBestMove 30 mediumParams wellBlocked = Ok (Some m)
    /\ mrotation m = 1 /\ mx m = -2 /\ my m = 16
    /\ currentPiece wellBlocked
       = Some {| ptype := Ty.I; x := 3; y := 0; rotation := 0 |}
    /\ gameOver wellBlocked = false
    /\ rotatePiece 1 wellBlocked = Ok (false, wellBlocked)
    /\ forall fuel, executeBestMove fuel m wellBlocked = OutOfFuel.
Proof.
  eexists. split; [vm_compute; reflexivity|].
  split; [reflexivity|]. split; [reflexivity|]. split; [reflexivity|].
  split; [reflexivity|]. split; [reflexivity|].
  assert (Hrot : rotatePiece 1 wellBlocked = Ok (false, wellBlocked))
    by (vm_compute; reflexivity).
  split; [exact Hrot|].
  intros fuel. unfold executeBestMove.
  change (currentPiece wellBlocked)
    with (Some {| ptype := Ty.I; x := 3; y := 0; rotation := 0 |}).
  cbn [mrotation].
  rewrite (rotateLoop_stuck 1 wellBlocked
             {| ptype := Ty.I; x := 3; y := 0; rotation := 0 |}
             eq_refl ltac:(cbn; discriminate) Hrot fuel).
  reflexivity.
Qed.

(** ** The move search leaves the store it is given untouched *)

(** The rules below are for one call of the search: [n0] is the number of
    objects in the store when the call starts. *)
Section Framing.

Variable n0 : nat.

Lemma keeps_refl h : keeps n0 h h.
Proof. split; [lia | reflexivity]. Qed.

Lemma keeps_trans h1 h2 h3 :
  keeps n0 h1 h2 -> keeps n0 h2 h3 -> keeps n0 h1 h3.
Proof.
  intros [Hl1 Hk1] [Hl2 Hk2]. split; [lia|].
  intros l Hl. rewrite Hk2, Hk1 by exact Hl. reflexivity.
Qed.

Lemma hoare_bind {A B} P (m : HM A) (k : A -> HM B) Q R :
  hoare n0 P m Q -> (forall a, hoare n0 (Q a) (k a) R) ->
  hoare n0 P (bindH m k) R.
Proof.
  intros Hm Hk h Hlen HP b h' Hrun. unfold bindH in Hrun.
  destruct (m h) as [[a h1]| |] eqn:Hmh; try discriminate.
  destruct (Hm h Hlen HP a h1 Hmh) as [Hkeep HQ].
  destruct (Hk a h1 ltac:(destruct Hkeep; lia) HQ b h' Hrun) as [Hkeep' HR].
  split; [exact (keeps_trans _ _ _ Hkeep Hkeep') | exact HR].
Qed.

Lemma hoare_weaken {A} (P P' : Heap -> Prop) (m : HM A)
  (Q Q' : A -> Heap -> Prop) :
  hoare n0 P' m Q' -> (forall h, P h -> P' h) ->
  (forall a h, Q' a h -> Q a h) -> hoare n0 P m Q.
Proof.
  intros Hm HP HQ h Hlen HPh a h' Hrun.
  destruct (Hm h Hlen (HP h HPh) a h' Hrun) as [Hkeep HQ'].
  split; [exact Hkeep | apply HQ, HQ'].
Qed.

Lemma hoare_reads {A} (P : Heap -> Prop) (m : HM A) :
  reads m -> hoare n0 P m (fun _ h' => P h').
Proof.
  intros Hm h Hlen HP a h' Hrun. destruct (Hm h a h' Hrun) as [-> _].
  split; [apply keeps_refl | exact HP].
Qed.

Lemma reads_ret {A} (a : A) : reads (retH a).
Proof.
  intros h a' h' H. injection H as <- <-. split; [reflexivity|].
  intros h' _. reflexivity.
Qed.

Lemma reads_throw {A} : reads (@throwH A).
Proof. intros h a h' H. discriminate H. Qed.

Lemma reads_liftRes {A} (r : Res A) : reads (liftRes r).
Proof.
  intros h a h' H. unfold liftRes in *.
  destruct r; try discriminate. injection H as <- <-.
  split; [reflexivity|]. intros h' _. reflexivity.
Qed.

Lemma reads_load l : reads (load l).
Proof.
  intros h a h' H. unfold load in *.
  destruct (h !! l) as [o|] eqn:Hl; try discriminate. injection H as <- <-.
  split; [reflexivity|]. intros h' Hagree. rewrite (Hagree l o Hl). reflexivity.
Qed.

Lemma reads_bind {A B} (m : HM A) (k : A -> HM B) :
  reads m -> (forall a, reads (k a)) -> reads (bindH m k).
Proof.
  intros Hm Hk h b h' H. unfold bindH in *.
  destruct (m h) as [[a h1]| |] eqn:Hmh; try discriminate.
  destruct (Hm h a h1 Hmh) as [-> Hm'].
  destruct (Hk a h b h' H) as [-> Hk'].
  split; [reflexivity|]. intros h' Hagree.
  rewrite (Hm' h' Hagree). exact (Hk' h' Hagree).
Qed.

Lemma reads_mapH {A B} (f : A -> HM B) (l : list A) :
  (forall a, reads (f a)) -> reads (mapH f l).
Proof.
  intros Hf. induction l as [|a rest IH]; cbn [mapH].
  - apply reads_ret.
  - apply reads_bind; [apply Hf|]. intros b.
    apply reads_bind; [exact IH|]. intros bs. apply reads_ret.
Qed.

(** A load followed by a case on the kind of object found. *)
Ltac load_then_match :=
  apply reads_bind; [apply reads_load|];
  intros [elems|c|p|g]; first [apply reads_ret | apply reads_throw].

Lemma reads_loadArray l : reads (loadArray l).
Proof.
  load_then_match.
Qed.

Lemma reads_loadPiece l : reads (loadPiece l).
Proof.
  load_then_match.
Qed.

Lemma reads_loadEngine l : reads (loadEngine l).
Proof.
  load_then_match.
Qed.

Lemma reads_readCell v : reads (readCell v).
Proof.
  destruct v as [|l]; [apply reads_ret|].
  load_then_match.
Qed.

Lemma reads_readRow v : reads (readRow v).
Proof.
  destruct v as [|l]; [apply reads_throw|].
  apply reads_bind; [apply reads_loadArray|].
  intros elems. apply reads_mapH, reads_readCell.
Qed.

Lemma reads_readBoard b : reads (readBoard b).
Proof.
  apply reads_bind; [apply reads_loadArray|].
  intros rows. apply reads_mapH, reads_readRow.
Qed.

Lemma reads_isCollidingH gameEngine piece :
  reads (isCollidingH gameEngine piece).
Proof.
  apply reads_bind; [apply reads_loadEngine|]. intros g.
  apply reads_bind; [apply reads_loadPiece|]. intros p.
  apply reads_bind; [apply reads_readBoard|]. intros bd.
  apply reads_liftRes.
Qed.

Lemma reads_filterRowsH rows : reads (filterRowsH rows).
Proof.
  induction rows as [|v rest IH]; cbn [filterRowsH]; [apply reads_ret|].
  apply reads_bind; [apply reads_readRow|]. intros row.
  apply reads_bind; [exact IH|]. intros kept. apply reads_ret.
Qed.

(** Allocation returns an address outside the first [n0]; a store to such
    an address keeps them. *)
Lemma hoare_alloc (P : Heap -> Prop) o :
  hoare n0 P (alloc o)
    (fun l h' => exists h, P h /\ h' = h ++ [o] /\ l = length h
                           /\ (n0 <= l)%nat).
Proof.
  intros h Hlen HP l h' Hrun. unfold alloc in Hrun.
  injection Hrun as <- <-. split.
  - split; [rewrite length_app; lia|].
    intros l Hl. apply lookup_app_l. lia.
  - exists h. repeat split; [exact HP | exact Hlen].
Qed.

Lemma hoare_store (P : Heap -> Prop) l o :
  (n0 <= l)%nat ->
  hoare n0 P (store l o)
    (fun _ h' => exists h, P h /\ h' = <[l := o]> h /\ (l < length h)%nat).
Proof.
  intros Hl h Hlen HP [] h' Hrun. unfold store in Hrun.
  destruct (Nat.ltb_spec l (length h)) as [Hlt|]; try discriminate.
  injection Hrun as <-. split.
  - split; [rewrite length_insert; lia|].
    intros l' Hl'. apply list_lookup_insert_ne. lia.
  - exists h. repeat split; [exact HP | exact Hlt].
Qed.

Lemma framed_reads {A} (m : HM A) : reads m -> framed n0 m.
Proof. intros Hm. exact (hoare_reads (fun _ => True) m Hm). Qed.

Lemma framed_bind {A B} (m : HM A) (k : A -> HM B) :
  framed n0 m -> (forall a, framed n0 (k a)) -> framed n0 (bindH m k).
Proof. intros Hm Hk. exact (hoare_bind _ m k _ _ Hm Hk). Qed.

(** The same when the continuation relies on a fact [phi] about the
    result of the first part. *)
Lemma framed_bind_fact {A B} (m : HM A) (k : A -> HM B) (phi : A -> Prop) :
  hoare n0 (fun _ => True) m (fun a _ => phi a) ->
  (forall a, phi a -> framed n0 (k a)) -> framed n0 (bindH m k).
Proof.
  intros Hm Hk. apply (hoare_bind _ m k (fun a _ => phi a)); [exact Hm|].
  intros a h Hlen Hphi. exact (Hk a Hphi h Hlen I).
Qed.

Lemma framed_alloc_fresh o :
  hoare n0 (fun _ => True) (alloc o) (fun l _ => (n0 <= l)%nat).
Proof.
  eapply hoare_weaken; [apply (hoare_alloc (fun _ => True)) | auto |].
  intros l h (h0 & _ & _ & _ & Hl). exact Hl.
Qed.

Lemma framed_store l o : (n0 <= l)%nat -> framed n0 (store l o).
Proof.
  intros Hl. eapply hoare_weaken; [apply (hoare_store (fun _ => True) l o Hl) | auto | auto].
Qed.

Lemma framed_modifyPiece piece f :
  (n0 <= piece)%nat -> framed n0 (modifyPiece piece f).
Proof.
  intros Hl. apply framed_bind; [apply framed_reads, reads_loadPiece|].
  intros p. apply framed_store, Hl.
Qed.

Lemma framed_cloneH piece :
  hoare n0 (fun _ => True) (cloneH piece) (fun l _ => (n0 <= l)%nat).
Proof.
  apply (hoare_bind _ _ _ (fun _ _ => True)).
  - apply (hoare_reads (fun _ => True)), reads_loadPiece.
  - intros p. apply framed_alloc_fresh.
Qed.

Lemma framed_foldH {A B} (f : B -> A -> HM B) (l : list A) :
  (forall b a, framed n0 (f b a)) -> forall b, framed n0 (foldH f l b).
Proof.
  intros Hf. induction l as [|a rest IH]; intros b; cbn [foldH].
  - apply framed_reads, reads_ret.
  - apply framed_bind; [apply Hf | exact IH].
Qed.

Lemma bindH_Ok {A B} (m : HM A) (k : A -> HM B) h b h' :
  bindH m k h = Ok (b, h') ->
  exists a h1, m h = Ok (a, h1) /\ k a h1 = Ok (b, h').
Proof.
  unfold bindH. destruct (m h) as [[a h1]| |]; try discriminate. eauto.
Qed.

Lemma freshRef_mono top top' v :
  (top <= top')%nat -> freshRef n0 top v -> freshRef n0 top' v.
Proof. destruct v; simpl; [auto | lia]. Qed.

Lemma copyRow_fresh v h v1 h1 :
  (n0 <= length h)%nat -> copyRow v h = Ok (v1, h1) ->
  keeps n0 h h1 /\ freshRef n0 (length h1) v1.
Proof.
  intros Hlen Hrun. destruct v as [|l]; [discriminate Hrun|].
  unfold copyRow in Hrun.
  apply bindH_Ok in Hrun as (elems & h0 & Hload & Hrun).
  destruct (reads_loadArray l h elems h0 Hload) as [-> _].
  apply bindH_Ok in Hrun as (l1 & h2 & Halloc & Hrun).
  injection Hrun as <- <-.
  destruct (hoare_alloc (fun _ => True) (OArray elems) h Hlen I l1 h2 Halloc)
    as [Hkeep _].
  split; [exact Hkeep|].
  unfold alloc in Halloc. injection Halloc as <- <-.
  simpl. rewrite length_app. simpl. lia.
Qed.

Lemma mapH_copyRow_fresh rows : forall h rows1 h1,
  (n0 <= length h)%nat -> mapH copyRow rows h = Ok (rows1, h1) ->
  keeps n0 h h1 /\ Forall (freshRef n0 (length h1)) rows1.
Proof.
  induction rows as [|v rest IH]; intros h rows1 h1 Hlen Hrun; cbn [mapH] in Hrun.
  - injection Hrun as <- <-. split; [apply keeps_refl | constructor].
  - apply bindH_Ok in Hrun as (v1 & h2 & Hcopy & Hrun).
    apply bindH_Ok in Hrun as (vs & h3 & Hrest & Hrun).
    injection Hrun as <- <-.
    destruct (copyRow_fresh v h v1 h2 Hlen Hcopy) as [Hk1 Hf1].
    destruct (IH h2 vs h3 ltac:(destruct Hk1; lia) Hrest) as [Hk2 Hf2].
    split; [exact (keeps_trans _ _ _ Hk1 Hk2)|].
    constructor; [|exact Hf2].
    eapply freshRef_mono; [|exact Hf1]. destruct Hk2; lia.
Qed.

Lemma copyBoard_scratch b :
  hoare n0 (fun _ => True) (copyBoard b) (fun tb h' => scratch n0 tb h').
Proof.
  intros h Hlen _ tb h' Hrun. unfold copyBoard in Hrun.
  apply bindH_Ok in Hrun as (rows & h0 & Hload & Hrun).
  destruct (reads_loadArray b h rows h0 Hload) as [-> _].
  apply bindH_Ok in Hrun as (rows1 & h1 & Hcopy & Hrun).
  destruct (mapH_copyRow_fresh rows h rows1 h1 Hlen Hcopy) as [Hk1 Hfresh].
  unfold alloc in Hrun. injection Hrun as <- <-.
  split.
  - eapply keeps_trans; [exact Hk1|]. split; [rewrite length_app; lia|].
    intros l Hl. apply lookup_app_l. destruct Hk1. lia.
  - exists rows1. split; [|exact Hfresh].
    rewrite lookup_app_r by lia. rewrite Nat.sub_diag. reflexivity.
Qed.

Lemma placeBlockAt_scratch g p tb b :
  hoare n0 (scratch n0 tb) (placeBlockAt g p tb b) (fun _ h' => scratch n0 tb h').
Proof.
  intros h Hlen (rows & Htb & Hfresh) [] h' Hrun. unfold placeBlockAt in Hrun.
  destruct (_ && _).
  2:{ injection Hrun as <-. split; [apply keeps_refl|]. exists rows. auto. }
  apply bindH_Ok in Hrun as (c & h1 & Halloc & Hrun).
  unfold alloc in Halloc. injection Halloc as <- <-.
  assert (Htblt : (tb < length h)%nat) by (eapply lookup_lt_Some, Htb).
  assert (Htb1 : (h ++ [OCell {| color := pieceColor p; type := PieceCell (ptype p) |}]) !! tb
                 = Some (OArray rows)).
  { rewrite lookup_app_l by exact Htblt. exact Htb. }
  set (h1 := h ++ [OCell {| color := pieceColor p; type := PieceCell (ptype p) |}]) in *.
  apply bindH_Ok in Hrun as (rows' & h2 & Hload & Hrun).
  destruct (reads_loadArray tb h1 rows' h2 Hload) as [-> _].
  assert (rows' = rows) as ->.
  { unfold loadArray, bindH, load in Hload. rewrite Htb1 in Hload.
    injection Hload as ->. reflexivity. }
  destruct (js_get rows (by_ b)) as [[|r]|] eqn:Hrow; try discriminate Hrun.
  assert (Hr : (n0 <= r < tb)%nat).
  { apply js_get_In in Hrow. rewrite Forall_forall in Hfresh.
    exact (Hfresh (Ref r) (proj2 (list_elem_of_In _ _) Hrow)). }
  apply bindH_Ok in Hrun as (elems & h2 & Hload2 & Hrun).
  destruct (reads_loadArray r h1 elems h2 Hload2) as [-> _].
  unfold store in Hrun.
  destruct (Nat.ltb_spec r (length h1)) as [Hrlt|]; try discriminate Hrun.
  injection Hrun as <-. split.
  - split.
    + rewrite length_insert. unfold h1. rewrite length_app. lia.
    + intros l Hl. rewrite list_lookup_insert_ne by lia.
      unfold h1. apply lookup_app_l. lia.
  - exists rows. split; [|exact Hfresh].
    rewrite list_lookup_insert_ne by lia. exact Htb1.
Qed.

Lemma placeBlockH_scratch gameEngine p tb b :
  hoare n0 (scratch n0 tb) (placeBlockH gameEngine p tb b)
    (fun _ h' => scratch n0 tb h').
Proof.
  eapply hoare_bind; [apply hoare_reads, reads_loadEngine|].
  intros g. apply placeBlockAt_scratch.
Qed.

Lemma forEachH_placeBlockH_scratch gameEngine p tb blocks :
  hoare n0 (scratch n0 tb) (forEachH (placeBlockH gameEngine p tb) blocks)
    (fun _ h' => scratch n0 tb h').
Proof.
  induction blocks as [|b rest IH]; cbn [forEachH].
  - apply hoare_reads, reads_ret.
  - eapply hoare_bind; [apply placeBlockH_scratch|]. intros ?. exact IH.
Qed.

Lemma framed_unshiftLoop fuel g newBoard :
  (n0 <= newBoard)%nat -> framed n0 (unshiftLoop fuel g newBoard).
Proof.
  intros Hnb. induction fuel as [|fuel IH]; cbn [unshiftLoop].
  - intros h _ _ a h' Hrun. discriminate Hrun.
  - apply framed_bind; [apply framed_reads, reads_loadArray|]. intros rows.
    apply framed_bind; [apply framed_reads, reads_loadEngine|]. intros g0.
    destruct (_ <? _); [|apply framed_reads, reads_ret].
    apply framed_bind.
    { eapply hoare_weaken; [apply framed_alloc_fresh | auto | auto]. }
    intros r. apply framed_bind; [apply framed_store, Hnb|].
    intros ?. exact IH.
Qed.

Lemma framed_removeClearedLinesH fuel g b :
  framed n0 (removeClearedLinesH fuel g b).
Proof.
  apply framed_bind; [apply framed_reads, reads_loadArray|]. intros rows.
  apply framed_bind; [apply framed_reads, reads_filterRowsH|]. intros kept.
  apply (framed_bind_fact _ _ (fun l => (n0 <= l)%nat));
    [apply framed_alloc_fresh|].
  intros newBoard Hnb.
  apply framed_bind; [apply framed_unshiftLoop, Hnb|].
  intros ?. apply framed_reads, reads_ret.
Qed.

Lemma framed_evaluatePositionH fuel a g piece :
  framed n0 (evaluatePositionH fuel a g piece).
Proof.
  unfold evaluatePositionH.
  eapply hoare_bind; [apply hoare_reads, reads_loadEngine|]. intros g0.
  eapply hoare_bind; [apply copyBoard_scratch|]. intros tempBoard.
  eapply hoare_bind; [apply hoare_reads, reads_loadPiece|]. intros p.
  eapply hoare_bind; [apply hoare_reads, reads_liftRes|]. intros blocks.
  eapply hoare_bind; [apply forEachH_placeBlockH_scratch|]. intros ?.
  eapply hoare_weaken with (P' := fun _ => True) (Q' := fun _ _ => True);
    [|auto|auto].
  apply framed_bind; [apply framed_reads, reads_readBoard|]. intros tb.
  apply framed_bind; [apply framed_removeClearedLinesH|]. intros boardAfterClear.
  apply framed_bind; [apply framed_reads, reads_readBoard|]. intros bac.
  apply framed_bind; [apply framed_reads, reads_liftRes|]. intros holes.
  apply framed_bind; [apply framed_reads, reads_liftRes|]. intros bumpiness.
  apply framed_bind; [apply framed_reads, reads_liftRes|]. intros aggregateHeight.
  apply framed_bind; [apply framed_reads, reads_readBoard|]. intros live.
  apply framed_reads, reads_ret.
Qed.

Lemma framed_dropTestPiece fuel g testPiece :
  (n0 <= testPiece)%nat -> framed n0 (dropTestPiece fuel g testPiece).
Proof.
  intros Htp. induction fuel as [|fuel IH]; cbn [dropTestPiece].
  - intros h _ _ a h' Hrun. discriminate Hrun.
  - apply framed_bind; [apply framed_reads, reads_isCollidingH|]. intros c.
    destruct (negb c); [|apply framed_reads, reads_ret].
    apply framed_bind; [apply framed_modifyPiece, Htp|]. intros ?. exact IH.
Qed.

Lemma framed_tryPlacement fuel a g currentPiece0 rot best x0 :
  framed n0 (tryPlacement fuel a g currentPiece0 rot best x0).
Proof.
  unfold tryPlacement.
  apply (framed_bind_fact _ _ (fun l => (n0 <= l)%nat));
    [apply framed_cloneH|].
  intros testPiece Htp.
  do 3 (apply framed_bind; [apply framed_modifyPiece, Htp|]; intros ?).
  apply framed_bind; [apply framed_dropTestPiece, Htp|]. intros ?.
  apply framed_bind; [apply framed_modifyPiece, Htp|]. intros ?.
  apply framed_bind; [apply framed_reads, reads_isCollidingH|]. intros c.
  destruct c; [apply framed_reads, reads_ret|].
  apply framed_bind; [apply framed_evaluatePositionH|]. intros score0.
  destruct (scoreGt _ _); [|apply framed_reads, reads_ret].
  apply framed_bind; [apply framed_reads, reads_loadPiece|]. intros p.
  apply framed_reads, reads_ret.
Qed.

Lemma framed_findBestMoveH fuel a g : framed n0 (findBestMoveH fuel a g).
Proof.
  unfold findBestMoveH.
  apply framed_bind; [apply framed_reads, reads_loadEngine|]. intros g0.
  destruct (currentPieceRef g0) as [|currentPiece0];
    [apply framed_reads, reads_ret|].
  apply framed_bind; [apply framed_reads, reads_loadPiece|]. intros p.
  apply framed_bind; [|intros best; apply framed_reads, reads_ret].
  apply framed_foldH. intros best rot.
  apply framed_foldH. intros best' x0. apply framed_tryPlacement.
Qed.

End Framing.

Lemma framed_agree {A} (m : HM A) h a h' :
  framed (length h) m -> m h = Ok (a, h') -> agree h h'.
Proof.
  intros Hm Hrun l o Hl.
  destruct (Hm h (Nat.le_refl _) I a h' Hrun) as [[_ Hkeep] _].
  rewrite Hkeep by (eapply lookup_lt_Some, Hl). exact Hl.
Qed.

(** C9.  A completed call of [findBestMove()], or of
    [evaluatePosition(piece)], leaves every object that was in the store
    where it was and as it was: the engine object, the array of the live
    board, its rows, the cell objects in them, the current piece.  Read
    again after the call, the engine has the same fields, the board the
    same contents and the current piece the same type, position and
    rotation.  All writes go to the clones and copies made during the
    call. *)
Theorem search_leaves_live_objects (fuel : nat) (a : AIParams)
  (gameEngine : loc) (h : Heap) :
  (forall m h', findBestMoveH fuel a gameEngine h = Ok (m, h') ->
     agree h h'
     /\ forall g, loadEngine gameEngine h = Ok (g, h) ->
          loadEngine gameEngine h' = Ok (g, h')
          /\ (forall bd, readBoard (boardRef g) h = Ok (bd, h) ->
                         readBoard (boardRef g) h' = Ok (bd, h'))
          /\ (forall cur p, currentPieceRef g = Ref cur ->
                            loadPiece cur h = Ok (p, h) ->
                            loadPiece cur h' = Ok (p, h')))
  /\ (forall piece s h',
        evaluatePositionH fuel a gameEngine piece h = Ok (s, h') ->
        agree h h'
        /\ (forall p, loadPiece piece h = Ok (p, h) ->
                      loadPiece piece h' = Ok (p, h'))
        /\ forall g, loadEngine gameEngine h = Ok (g, h) ->
             loadEngine gameEngine h' = Ok (g, h')
             /\ (forall bd, readBoard (boardRef g) h = Ok (bd, h) ->
                            readBoard (boardRef g) h' = Ok (bd, h'))).
Proof.
  split.
  - intros m h' Hrun.
    pose proof (framed_agree _ h m h' (framed_findBestMoveH _ fuel a gameEngine) Hrun)
      as Hagree.
    split; [exact Hagree|]. intros g Hg. split; [|split].
    + exact (proj2 (reads_loadEngine gameEngine h g h Hg) h' Hagree).
    + intros bd Hread.
      exact (proj2 (reads_readBoard (boardRef g) h bd h Hread) h' Hagree).
    + intros cur p ? Hload.
      exact (proj2 (reads_loadPiece cur h p h Hload) h' Hagree).
  - intros piece s h' Hrun.
    pose proof (framed_agree _ h s h'
                  (framed_evaluatePositionH _ fuel a gameEngine piece) Hrun)
      as Hagree.
    split; [exact Hagree|]. split.
    + intros p Hload.
      exact (proj2 (reads_loadPiece piece h p h Hload) h' Hagree).
    + intros g Hg. split.
      * exact (proj2 (reads_loadEngine gameEngine h g h Hg) h' Hagree).
      * intros bd Hread.
        exact (proj2 (reads_readBoard (boardRef g) h bd h Hread) h' Hagree).
Qed.

Lemma search_leaves_live_objects_witness :
  exists m h' g,
    findBestMoveH 10 mediumParams smallStore.1 smallStore.2 = Ok (Some m, h')
    /\ mx m = 1 /\ my m = 3
    /\ (length smallStore.2 < length h')%nat
    /\ agree smallStore.2 h'
    /\ loadEngine smallStore.1 h' = Ok (g, h')
    /\ readBoard (boardRef g) h' = Ok (board smallEngine, h').
Proof.
  assert (Hg : exists g, loadEngine smallStore.1 smallStore.2 = Ok (g, smallStore.2)
                         /\ readBoard (boardRef g) smallStore.2
                            = Ok (board smallEngine, smallStore.2)).
  { eexists. split; vm_compute; reflexivity. }
  destruct Hg as (g & Hg & Hread).
  destruct (search_leaves_live_objects 10 mediumParams smallStore.1 smallStore.2)
    as [Hsearch _].
  eexists. eexists. exists g.
  split; [vm_compute; reflexivity|].
  split; [reflexivity|]. split; [reflexivity|].
  split; [vm_compute; repeat constructor|].
  match goal with
  | |- agree _ ?h' /\ _ =>
    destruct (Hsearch _ h' ltac:(vm_compute; reflexivity)) as (Hagree & Hlive)
  end.
  destruct (Hlive g Hg) as (Hg' & Hboard & _).
  split; [exact Hagree|]. split; [exact Hg'|].
  exact (Hboard _ Hread).
Defined.

(** * Further properties of the pieces, the engine and the players *)

(** ** Pieces: rotation and blocks *)

Lemma shapeLength_rotate d p : shapeLength (rotate d p) = shapeLength p.
Proof. reflexivity. Qed.

Lemma rotate_rotation d p :
  validPiece p -> d = 1 \/ d = -1 ->
  rotation (rotate d p) = (rotation p + d) mod shapeLength p.
Proof.
  intros Hp Hd. unfold rotate. cbn [rotation].
  apply (rotation_target _ _ _ Hp Hd).
Qed.

Lemma rotate_valid d p :
  validPiece p -> d = 1 \/ d = -1 -> validPiece (rotate d p).
Proof.
  intros Hp Hd. unfold validPiece. rewrite shapeLength_rotate, rotate_rotation by assumption.
  apply (rotation_target _ _ _ Hp Hd).
Qed.

Lemma piece_eq (p q : TetrisPiece) :
  ptype p = ptype q -> x p = x q -> y p = y q -> rotation p = rotation q -> p = q.
Proof. destruct p, q. simpl. congruence. Qed.

Lemma rotate_back d p :
  validPiece p -> d = 1 \/ d = -1 -> rotate (- d) (rotate d p) = p.
Proof.
  intros Hp Hd.
  assert (Hd' : - d = 1 \/ - d = -1) by lia.
  apply piece_eq; try reflexivity.
  rewrite (rotate_rotation (- d) _ (rotate_valid d p Hp Hd) Hd').
  rewrite shapeLength_rotate, (rotate_rotation d p Hp Hd).
  rewrite Zplus_mod_idemp_l.
  replace (rotation p + d + - d) with (rotation p) by lia.
  apply Z.mod_small. exact Hp.
Qed.

Lemma rotate_iter k : forall p,
  validPiece p ->
  Nat.iter k (rotate 1) p
  = {| ptype := ptype p; x := x p; y := y p;
       rotation := (rotation p + Z.of_nat k) mod shapeLength p |}
  /\ validPiece (Nat.iter k (rotate 1) p).
Proof.
  induction k as [|k IH]; intros p Hp.
  - split; [|exact Hp]. apply piece_eq; try reflexivity. cbn [Nat.iter rotation].
    rewrite Z.add_0_r. symmetry. apply Z.mod_small. exact Hp.
  - change (Nat.iter (Datatypes.S k) (rotate 1) p)
      with (rotate 1 (Nat.iter k (rotate 1) p)).
    destruct (IH p Hp) as [Heq Hv]. split.
    + apply piece_eq; try (rewrite Heq; reflexivity).
      rewrite rotate_rotation by (auto with zarith).
      rewrite Heq at 1 2. cbn [rotation]. unfold shapeLength, shape. cbn [ptype].
      fold (shape p). fold (shapeLength p).
      rewrite Zplus_mod_idemp_l. f_equal. lia.
    + apply rotate_valid; [exact Hv | auto].
Qed.

(** X1.  [rotate(direction)] of a piece, for [direction] 1 or -1 and a
    rotation index inside the shape table: the new index is again inside
    the table, a turn followed by the opposite turn gives the piece back,
    and so do [shape.length] turns in the same direction. *)
Theorem rotate_round_trip (p : TetrisPiece) :
  validPiece p ->
  validPiece (rotate 1 p) /\ validPiece (rotate (-1) p)
  /\ rotate (-1) (rotate 1 p) = p
  /\ rotate 1 (rotate (-1) p) = p
  /\ Nat.iter (length (shape p)) (rotate 1) p = p.
Proof.
  intros Hp. repeat split.
  - apply (rotate_valid 1 p Hp). auto.
  - apply (rotate_valid 1 p Hp). auto.
  - apply (rotate_valid (-1) p Hp). auto.
  - apply (rotate_valid (-1) p Hp). auto.
  - apply (rotate_back 1 p Hp). auto.
  - apply (rotate_back (-1) p Hp). auto.
  - destruct (rotate_iter (length (shape p)) p Hp) as [-> _].
    apply piece_eq; try reflexivity. cbn [rotation].
    fold (shapeLength p).
    rewrite <- (Z.mul_1_l (shapeLength p)) at 1.
    rewrite Z_mod_plus_full. apply Z.mod_small. exact Hp.
Qed.

Lemma rotate_round_trip_witness :
  validPiece (newTetrisPiece0 Ty.T)
  /\ rotate (-1) (rotate 1 (newTetrisPiece0 Ty.T)) = newTetrisPiece0 Ty.T
  /\ Nat.iter 4 (rotate 1) (newTetrisPiece0 Ty.T) = newTetrisPiece0 Ty.T.
Proof.
  assert (H : validPiece (newTetrisPiece0 Ty.T)) by (vm_compute; split; congruence).
  split; [exact H|].
  destruct (rotate_round_trip (newTetrisPiece0 Ty.T) H) as (_ & _ & H1 & _ & H2).
  split; [exact H1 | exact H2].
Defined.

Lemma map_flat_map_blocks {A B C} (f : B -> C) (g : A -> list B) (l : list A) :
  map f (flat_map g l) = flat_map (fun a => map f (g a)) l.
Proof.
  induction l as [|a l IH]; [reflexivity|].
  cbn [flat_map]. rewrite map_app, IH. reflexivity.
Qed.

Lemma blocksOf_shift s px py dx dy :
  blocksOf s (px + dx) (py + dy) = map (shiftBlock dx dy) (blocksOf s px py).
Proof.
  unfold blocksOf. rewrite map_flat_map_blocks.
  apply flat_map_ext. intros row. rewrite map_flat_map_blocks.
  apply flat_map_ext. intros col.
  destruct (shapeCell s row col); [|reflexivity].
  cbn [map]. unfold shiftBlock. cbn [bx by_]. do 2 f_equal; lia.
Qed.

Lemma blocksOf_inBox s px py : Forall (inBox px py) (blocksOf s px py).
Proof.
  unfold blocksOf. apply List.Forall_forall. intros b Hb.
  apply in_flat_map in Hb. destruct Hb as (row & Hrow & Hb).
  apply in_flat_map in Hb. destruct Hb as (col & Hcol & Hb).
  apply in_seq in Hrow. apply in_seq in Hcol.
  destruct (shapeCell s row col); [|destruct Hb].
  destruct Hb as [<-|[]]. unfold inBox. cbn [bx by_]. lia.
Qed.

Lemma js_get_range {A} (a : list A) (i : Z) v :
  js_get a i = Some v -> 0 <= i < Z.of_nat (length a).
Proof.
  unfold js_get. destruct (i <? 0) eqn:Hi; [discriminate|].
  intros H. apply lookup_lt_Some in H. apply Z.ltb_ge in Hi. lia.
Qed.

Lemma shape_four_blocks t r s :
  js_get (PIECE_SHAPES t) r = Some s -> length (blocksOf s 0 0) = 4%nat.
Proof.
  intros H. pose proof (js_get_range _ _ _ H) as Hr.
  assert (Hlen : (length (PIECE_SHAPES t) <= 4)%nat) by (destruct t; vm_compute; lia).
  assert (Hcases : r = 0 \/ r = 1 \/ r = 2 \/ r = 3) by lia.
  destruct Hcases as [-> | [-> | [-> | ->]]];
    destruct t; vm_compute in H; try discriminate H;
    injection H as <-; reflexivity.
Qed.

(** X2.  [getBlocks()] of a piece whose rotation index is inside its shape
    table: it returns exactly four blocks, all inside the 4x4 box at the
    position of the piece, and the blocks of the piece moved by [(dx, dy)]
    are the same blocks shifted by [(dx, dy)]. *)
Theorem getBlocks_four_in_box (p : TetrisPiece) (dx dy : Z) :
  validPiece p ->
  exists blocks,
    getBlocks p = Ok blocks
    /\ length blocks = 4%nat
    /\ Forall (inBox (x p) (y p)) blocks
    /\ getBlocks (move dx dy p) = Ok (map (shiftBlock dx dy) blocks).
Proof.
  intros Hp. destruct (getBlocks_valid p Hp) as (s & Hs & Hb).
  exists (blocksOf s (x p) (y p)). split; [exact Hb|]. split; [|split].
  - replace (x p) with (0 + x p) by lia. replace (y p) with (0 + y p) by lia.
    rewrite blocksOf_shift, length_map. exact (shape_four_blocks _ _ _ Hs).
  - apply blocksOf_inBox.
  - change (getBlocks (move dx dy p))
      with (match getCurrentShape p with
            | Some s => Ok (blocksOf s (x p + dx) (y p + dy))
            | None => TypeError
            end).
    rewrite Hs, blocksOf_shift. reflexivity.
Qed.

Lemma getBlocks_four_in_box_witness :
  validPiece (newTetrisPiece0 Ty.L)
  /\ exists blocks,
      getBlocks (newTetrisPiece0 Ty.L) = Ok blocks
      /\ length blocks = 4%nat
      /\ Forall (inBox 3 0) blocks
      /\ getBlocks (move 2 5 (newTetrisPiece0 Ty.L))
         = Ok (map (shiftBlock 2 5) blocks).
Proof.
  assert (H : validPiece (newTetrisPiece0 Ty.L)) by (vm_compute; split; congruence).
  split; [exact H|]. exact (getBlocks_four_in_box (newTetrisPiece0 Ty.L) 2 5 H).
Defined.

(** ** Wall kicks: a rotation can be undone *)

Lemma kick_table_cases (from to : Z) :
  (from, to) = (0, 1) \/ (from, to) = (1, 0) \/ (from, to) = (1, 2)
  \/ (from, to) = (2, 1) \/ (from, to) = (2, 3) \/ (from, to) = (3, 2)
  \/ (from, to) = (3, 0) \/ (from, to) = (0, 3)
  \/ (WALL_KICK_JLSTZ from to = None /\ WALL_KICK_JLSTZ to from = None
      /\ WALL_KICK_I from to = None /\ WALL_KICK_I to from = None).
Proof.
  destruct (decide (0 <= from <= 3 /\ 0 <= to <= 3)) as [H|H].
  - assert (Hf : from = 0 \/ from = 1 \/ from = 2 \/ from = 3) by lia.
    assert (Ht : to = 0 \/ to = 1 \/ to = 2 \/ to = 3) by lia.
    destruct Hf as [-> | [-> | [-> | ->]]], Ht as [-> | [-> | [-> | ->]]];
      tauto.
  - do 8 right.
    destruct from as [|[[f|f|]|[f|f|]|]|f], to as [|[[t|t|]|[t|t|]|]|t];
      try (exfalso; apply H; lia); repeat split; reflexivity.
Qed.

Lemma getWallKickData_reverse t from to :
  getWallKickData t to from = map negKick (getWallKickData t from to).
Proof.
  unfold getWallKickData.
  destruct (PieceType_eqb t Ty.O); [reflexivity|].
  destruct (kick_table_cases from to)
    as [H|[H|[H|[H|[H|[H|[H|[H|(H1 & H2 & H3 & H4)]]]]]]]];
    try (injection H as -> ->; destruct (PieceType_eqb t Ty.I); reflexivity).
  destruct (PieceType_eqb t Ty.I); [rewrite H3, H4 | rewrite H1, H2]; reflexivity.
Qed.

(** X3.  A rotation that succeeded can be taken back.  When the current
    piece stands free and [rotatePiece(direction)] returns [true], then
    [rotatePiece(-direction)] on the result returns [true] as well and
    puts the piece back into its former rotation state (the kick offsets
    of the way back are the opposites of those of the way there, so the
    former position is among the placements tried); the board is not
    touched. *)
Theorem rotatePiece_can_be_undone (e : Engine) (direction : Z)
  (cur : TetrisPiece) (e1 : Engine) :
  wfEngine e -> direction = 1 \/ direction = -1 ->
  currentPiece e = Some cur -> isColliding e cur = Ok false ->
  rotatePiece direction e = Ok (true, e1) ->
  exists e2 cur2,
    rotatePiece (- direction) e1 = Ok (true, e2)
    /\ currentPiece e2 = Some cur2
    /\ rotation cur2 = rotation cur /\ ptype cur2 = ptype cur
    /\ board e2 = board e.
Proof.
  intros Hwf Hd Hcur Hfree Hrot.
  pose proof (rotatePiece_wf direction e true e1 Hd Hwf Hrot) as Hwf1.
  unfold rotatePiece in Hrot. rewrite Hcur in Hrot.
  destruct (gameOver e) eqn:Hover; [discriminate Hrot|].
  pose proof (wf_current e Hwf) as Hvalid. rewrite Hcur in Hvalid. simpl in Hvalid.
  destruct (rotation_target (rotation cur) direction (shapeLength cur) Hvalid Hd)
    as [Hrem Hrange].
  rewrite Hrem in Hrot. cbv zeta in Hrot.
  set (n := shapeLength cur) in *.
  set (target := (rotation cur + direction) mod n) in *.
  assert (Hq : validPiece (set_rotation target cur)) by exact Hrange.
  destruct (kickLoop_first_fit e (set_rotation target cur)
              (getWallKickData (ptype cur) (rotation cur) target) Hwf Hq)
    as [(pre & k & post & Hsplit & Hpre & Hk & Hrun) | [Hall Hrun]];
    rewrite Hrun in Hrot; esimpl; [|discriminate Hrot].
  injection Hrot as <-.
  set (cur1 := move k.1 k.2 (set_rotation target cur)) in *.
  assert (Hd' : - direction = 1 \/ - direction = -1) by lia.
  assert (Hv1 : 0 <= rotation cur1 < n) by exact Hrange.
  destruct (rotation_target (rotation cur1) (- direction) n Hv1 Hd')
    as [Hrem' _].
  assert (Hback : (rotation cur1 + - direction) mod n = rotation cur).
  { change (rotation cur1) with target. unfold target.
    rewrite Zplus_mod_idemp_l.
    replace (rotation cur + direction + - direction) with (rotation cur) by lia.
    apply Z.mod_small. exact Hvalid. }
  unfold rotatePiece. esimpl. rewrite Hover.
  change (shapeLength cur1) with n. rewrite Hrem', Hback. cbv zeta.
  change (ptype cur1) with (ptype cur). change (rotation cur1) with target.
  rewrite (getWallKickData_reverse (ptype cur) (rotation cur) target), Hsplit.
  set (e1 := resetLockTimer (set_currentPiece (Some cur1) e)) in *.
  assert (Hq1 : validPiece (set_rotation (rotation cur) cur1)) by exact Hvalid.
  destruct (kickLoop_first_fit e1 (set_rotation (rotation cur) cur1)
              (map negKick (pre ++ k :: post)) Hwf1 Hq1)
    as [(pre' & k' & post' & Hsplit' & Hpre' & Hk' & Hrun') | [Hall' Hrun']];
    rewrite Hrun'; esimpl.
  - eexists _, _. split; [reflexivity|]. esimpl. repeat split; reflexivity.
  - exfalso. rewrite List.Forall_forall in Hall'.
    assert (Hin : In (negKick k) (map negKick (pre ++ k :: post))).
    { apply in_map, in_or_app. right. left. reflexivity. }
    specialize (Hall' _ Hin).
    assert (Heq : move (negKick k).1 (negKick k).2
                    (set_rotation (rotation cur) cur1) = cur).
    { apply piece_eq; cbn [move set_rotation negKick cur1 ptype x y rotation fst snd];
        try reflexivity; lia. }
    rewrite Heq in Hall'.
    change (isColliding e1 cur) with (isColliding e cur) in Hall'.
    congruence.
Qed.

Lemma rotatePiece_can_be_undone_witness :
  exists e1 e2 cur2,
    rotatePiece 1 freshEngine = Ok (true, e1)
    /\ rotatePiece (- 1) e1 = Ok (true, e2)
    /\ currentPiece e2 = Some cur2
    /\ rotation cur2 = 0.
Proof.
  assert (Hcur : currentPiece freshEngine = Some (newTetrisPiece0 Ty.I))
    by (vm_compute; reflexivity).
  assert (Hfree : isColliding freshEngine (newTetrisPiece0 Ty.I) = Ok false)
    by (vm_compute; reflexivity).
  assert (Hrot : exists e1, rotatePiece 1 freshEngine = Ok (true, e1))
    by (eexists; vm_compute; reflexivity).
  destruct Hrot as [e1 Hrot].
  destruct (rotatePiece_can_be_undone freshEngine 1 (newTetrisPiece0 Ty.I) e1
              freshEngine_wf (or_introl eq_refl) Hcur Hfree Hrot)
    as (e2 & cur2 & H2 & Hc2 & Hr2 & _).
  exists e1, e2, cur2. repeat split; assumption.
Defined.

(** ** The 7-bag *)

Lemma swap_Permutation {A} (a : list A) i j : swap a i j ≡ₚ a.
Proof.
  unfold swap, js_get, js_set.
  destruct (i <? 0); [reflexivity|].
  destruct (a !! Z.to_nat i) as [vi|] eqn:Hi; [|reflexivity].
  destruct (j <? 0); [reflexivity|].
  destruct (a !! Z.to_nat j) as [vj|] eqn:Hj; [|reflexivity].
  apply Permutation_insert_swap; assumption.
Qed.

Lemma shuffleFrom_Permutation {A} n : forall (a : list A) r,
  (shuffleFrom n a r).1 ≡ₚ a.
Proof.
  induction n as [|n IH]; intros a r; [reflexivity|].
  cbn [shuffleFrom]. destruct (randomBelow _ r) as [j r1].
  rewrite IH. apply swap_Permutation.
Qed.

Lemma shuffleFrom_used {A} n : forall (a : list A) r,
  used (shuffleFrom n a r).2 = (used r + n)%nat
  /\ samples (shuffleFrom n a r).2 = samples r.
Proof.
  induction n as [|n IH]; intros a r.
  - cbn. split; [lia | reflexivity].
  - cbn [shuffleFrom]. unfold randomBelow, Math_random.
    destruct (IH (swap a (Z.of_nat (Datatypes.S n))
                    (Qfloor (frac (samples r (used r))
                             * inject_Z (Z.of_nat (Datatypes.S n) + 1))))
                 {| samples := samples r; used := Datatypes.S (used r) |})
      as [Hu Hs].
    rewrite Hu, Hs. cbn [used samples]. split; [lia | reflexivity].
Qed.

Lemma refillBag_Permutation g r :
  bag (refillBag g r).1 ≡ₚ pieces
  /\ used (refillBag g r).2 = (used r + 6)%nat
  /\ samples (refillBag g r).2 = samples r.
Proof.
  unfold refillBag, shuffle.
  pose proof (shuffleFrom_Permutation (length pieces - 1) pieces r) as Hp.
  pose proof (shuffleFrom_used (length pieces - 1) pieces r) as [Hu Hs].
  destruct (shuffleFrom (length pieces - 1) pieces r) as [b r1].
  cbn [fst snd bag] in *. repeat split; assumption.
Qed.

(** Drawing a bag empty: the pieces come out from the end of the array. *)
Lemma nextTypes_drain (b : list Ty.t) r :
  nextTypes (length b) {| bag := b |} r = (map Some (rev b), {| bag := [] |}, r).
Proof.
  induction b as [|t b IH] using rev_ind; [reflexivity|].
  rewrite length_app, Nat.add_1_r. cbn [nextTypes].
  unfold getNext, pop. cbn [bag].
  rewrite length_app, Nat.add_1_r. cbn [Nat.eqb bag].
  rewrite last_snoc, removelast_last, IH, rev_unit. reflexivity.
Qed.

Lemma getNext_refills g r :
  bag g = [] -> getNext g r = getNext (refillBag g r).1 (refillBag g r).2.
Proof.
  intros Hg.
  destruct (refillBag_Permutation g r) as (Hp & _).
  unfold getNext at 1. rewrite Hg. cbn [length Nat.eqb].
  unfold getNext.
  destruct (refillBag g r) as [g1 r1]. cbn [fst snd] in *.
  apply Permutation_length in Hp.
  destruct g1 as [[|t b]]; [discriminate Hp|]. reflexivity.
Qed.

(** X4.  The 7-bag.  A refill leaves in the bag the seven piece types in
    some order, at the cost of six samples of [Math.random]; and seven
    calls of [getNext()] that start on an empty bag return every one of
    the seven types exactly once and leave the bag empty again, so that
    the next seven calls do the same. *)
Theorem getNext_seven_bag (g : PieceGenerator) (r : Random) :
  bag g = [] ->
  bag (refillBag g r).1 ≡ₚ pieces
  /\ exists ts r',
      nextTypes 7 g r = (map Some ts, {| bag := [] |}, r')
      /\ ts ≡ₚ pieces
      /\ used r' = (used r + 6)%nat.
Proof.
  intros Hg. destruct (refillBag_Permutation g r) as (Hp & Hu & _).
  split; [exact Hp|].
  exists (rev (bag (refillBag g r).1)), (refillBag g r).2.
  split; [|split; [rewrite <- Permutation_rev; exact Hp | exact Hu]].
  change (nextTypes 7 g r)
    with (let '(p, g1, r1) := getNext g r in
          let '(ts, g2, r2) := nextTypes 6 g1 r1 in
          ((ptype <$> p) :: ts, g2, r2)).
  rewrite (getNext_refills g r Hg).
  destruct (refillBag g r) as [[b] r1]. cbn [fst snd bag] in *.
  pose proof (Permutation_length Hp) as Hlen. change (length pieces) with 7%nat in Hlen.
  rewrite <- (nextTypes_drain b r1), Hlen. reflexivity.
Qed.

Lemma getNext_seven_bag_witness :
  bag (refillBag {| bag := [] |} demoRandom).1 ≡ₚ pieces
  /\ exists ts r',
      nextTypes 7 {| bag := [] |} demoRandom = (map Some ts, {| bag := [] |}, r')
      /\ ts ≡ₚ pieces
      /\ used r' = (used demoRandom + 6)%nat.
Proof. exact (getNext_seven_bag {| bag := [] |} demoRandom eq_refl). Defined.

(** ** Preview *)

Lemma previewLoop_shape n : forall tb acc r,
  exists l, (previewLoop n tb acc r).1 = acc ++ l
            /\ length l = n /\ Forall is_Some l.
Proof.
  induction n as [|n IH]; intros tb acc r.
  - exists []. cbn. rewrite app_nil_r. repeat split. constructor.
  - cbn [previewLoop].
    set (tr := if (length tb =? 0)%nat then shuffle (tb ++ pieces) r else (tb, r)).
    assert (Hne : tr.1 <> []).
    { unfold tr. destruct (Nat.eqb_spec (length tb) 0) as [Hz|Hnz].
      - unfold shuffle.
        pose proof (shuffleFrom_length (length (tb ++ pieces) - 1) (tb ++ pieces) r)
          as Hlen.
        intros Hnil. rewrite Hnil, length_app in Hlen. cbn in Hlen. lia.
      - cbn [fst]. intros ->. apply Hnz. reflexivity. }
    destruct tr as [tb1 r1]. cbn [fst] in Hne. unfold pop.
    destruct (proj2 (last_is_Some tb1) Hne) as [t Ht]. rewrite Ht.
    destruct (IH (removelast tb1) (acc ++ [Some t]) r1) as (l & Hl & Hlen & Hall).
    exists (Some t :: l). rewrite Hl, <- app_assoc. cbn [app length].
    repeat split; [lia|]. constructor; [eexists; reflexivity | exact Hall].
Qed.

(** X5.  [preview(count)] returns exactly [count] entries, none of them
    [undefined], and leaves the bag of the generator as it is.  As long as
    [count] does not exceed the number of pieces left in the bag, the
    entries are the types of the next [count] calls of [getNext()] and no
    sample of [Math.random] is drawn. *)
Theorem preview_count_and_bag (count : nat) (g : PieceGenerator) (r : Random) :
  length (preview count g r).1.1 = count
  /\ Forall is_Some (preview count g r).1.1
  /\ (preview count g r).1.2 = g
  /\ ((count <= length (bag g))%nat ->
      (preview count g r).1.1 = (nextTypes count g r).1.1
      /\ (preview count g r).2 = r
      /\ (nextTypes count g r).2 = r).
Proof.
  split; [|split; [|split]].
  - unfold preview. destruct (previewLoop_shape count (bag g) [] r) as (l & Hl & Hlen & _).
    destruct (previewLoop count (bag g) [] r) as [pv r']. cbn [fst snd] in *.
    subst pv. exact Hlen.
  - unfold preview. destruct (previewLoop_shape count (bag g) [] r) as (l & Hl & _ & Hall).
    destruct (previewLoop count (bag g) [] r) as [pv r']. cbn [fst snd] in *.
    subst pv. exact Hall.
  - unfold preview. destruct (previewLoop count (bag g) [] r). reflexivity.
  - intros Hn. rewrite (preview_agrees_within_bag count g r Hn). cbn [fst snd].
    repeat split. apply (preview_within_bag count g [] r Hn).
Qed.

(** ** Collisions *)

Lemma blockCollides_blocked e b :
  rectangular (width e) (height e) (board e) = true ->
  blockCollides (width e) (height e) (board e) b
  = Ok (if blocked e b then Some true else None).
Proof.
  intros Hrect. unfold blockCollides, blocked.
  destruct ((bx b <? 0) || (bx b >=? width e) || (by_ b <? 0) || (by_ b >=? height e))
    eqn:Hout; [reflexivity|].
  cbn [orb]. unfold cellTaken.
  apply orb_false_iff in Hout as [Hout Hy2].
  apply orb_false_iff in Hout as [Hout Hy1].
  apply orb_false_iff in Hout as [Hx1 Hx2].
  apply Z.ltb_ge in Hx1, Hy1. rewrite Z.geb_leb in Hx2, Hy2.
  apply Z.leb_gt in Hx2, Hy2.
  pose proof (rectangular_length _ _ _ Hrect) as Hlen.
  destruct (js_get_Some (board e) (by_ b)) as [row Hrow]; [lia | lia |].
  rewrite Hrow.
  pose proof (rectangular_rows _ _ _ row Hrect (js_get_In _ _ _ Hrow)) as Hlenr.
  destruct (js_get_Some row (bx b)) as [c Hc]; [lia | lia |].
  rewrite Hc. destruct c; reflexivity.
Qed.

Lemma collidingLoop_blocked e blocks :
  rectangular (width e) (height e) (board e) = true ->
  collidingLoop (width e) (height e) (board e) blocks
  = Ok (existsb (blocked e) blocks).
Proof.
  intros Hrect. induction blocks as [|b rest IH]; [reflexivity|].
  cbn [collidingLoop existsb]. rewrite (blockCollides_blocked e b Hrect).
  cbn [bindRes]. destruct (blocked e b); [reflexivity | exact IH].
Qed.

Lemma isColliding_blocked e p :
  wfEngine e -> validPiece p ->
  exists blocks,
    getBlocks p = Ok blocks /\ length blocks = 4%nat
    /\ Forall (inBox (x p) (y p)) blocks
    /\ isColliding e p = Ok (existsb (blocked e) blocks).
Proof.
  intros Hwf Hp.
  destruct (getBlocks_valid p Hp) as (s & Hs & Hb).
  exists (blocksOf s (x p) (y p)). split; [exact Hb|]. split; [|split].
  - replace (x p) with (0 + x p) by lia. replace (y p) with (0 + y p) by lia.
    rewrite blocksOf_shift, length_map. exact (shape_four_blocks _ _ _ Hs).
  - apply blocksOf_inBox.
  - unfold isColliding, collides. rewrite Hb. cbn [bindRes].
    apply collidingLoop_blocked, (wf_board e Hwf).
Qed.

(** X6.  [isColliding(piece)] on an engine whose board has its [height]
    rows of [width] cells, for a piece whose rotation index is inside its
    shape table: the call raises no error, and it returns [true] exactly
    when one of the four blocks of the piece lies outside the field or on
    a cell that is taken. *)
Theorem isColliding_iff_blocked (e : Engine) (p : TetrisPiece) :
  wfEngine e -> validPiece p ->
  exists blocks,
    getBlocks p = Ok blocks
    /\ isColliding e p = Ok (existsb (blocked e) blocks)
    /\ (isColliding e p = Ok true <-> Exists (fun b => blocked e b = true) blocks)
    /\ (isColliding e p = Ok false <-> Forall (fun b => blocked e b = false) blocks).
Proof.
  intros Hwf Hp.
  destruct (isColliding_blocked e p Hwf Hp) as (blocks & Hb & _ & _ & Hc).
  exists blocks. split; [exact Hb|]. split; [exact Hc|]. rewrite Hc. split.
  - split.
    + intros H. injection H as H. apply existsb_exists in H as (b & Hin & Hbl).
      apply List.Exists_exists. eauto.
    + intros H. apply List.Exists_exists in H as (b & Hin & Hbl).
      f_equal. apply existsb_exists. eauto.
  - split.
    + intros H. injection H as H. apply List.Forall_forall. intros b Hin.
      destruct (blocked e b) eqn:Hbl; [|reflexivity].
      rewrite <- H. symmetry. apply existsb_exists. eauto.
    + intros H. f_equal. rewrite List.Forall_forall in H.
      destruct (existsb (blocked e) blocks) eqn:Hex; [|reflexivity].
      apply existsb_exists in Hex as (b & Hin & Hbl).
      rewrite (H b Hin) in Hbl. discriminate Hbl.
Qed.

Lemma isColliding_iff_blocked_witness :
  exists blocks,
    getBlocks (newTetrisPiece0 Ty.T) = Ok blocks
    /\ isColliding holdReady (newTetrisPiece0 Ty.T)
       = Ok (existsb (blocked holdReady) blocks)
    /\ isColliding holdReady (newTetrisPiece0 Ty.T) = Ok true.
Proof.
  assert (Hwf : wfEngine holdReady) by solve_wfEngine.
  destruct (isColliding_iff_blocked holdReady (newTetrisPiece0 Ty.T) Hwf
              (newTetrisPiece0_valid Ty.T))
    as (blocks & Hb & Hc & _).
  exists blocks. split; [exact Hb|]. split; [exact Hc|].
  vm_compute. reflexivity.
Defined.

(** ** Moving the piece *)

Lemma piece_eta (p : TetrisPiece) :
  {| ptype := ptype p; x := x p; y := y p; rotation := rotation p |} = p.
Proof. destruct p. reflexivity. Qed.

Lemma movePiece_runs e dx dy cur :
  wfEngine e -> currentPiece e = Some cur -> gameOver e = false ->
  exists c,
    isColliding e (move dx dy cur) = Ok c
    /\ movePiece dx dy e
       = Ok (negb c,
             if c then e
             else if dy =? 0
                  then resetLockTimer (set_currentPiece (Some (move dx dy cur)) e)
                  else set_currentPiece (Some (move dx dy cur)) e).
Proof.
  intros Hwf Hcur Hover.
  pose proof (wf_current e Hwf) as Hvalid. rewrite Hcur in Hvalid.
  destruct (isColliding_total e (move dx dy cur) Hwf Hvalid) as [c Hc].
  exists c. split; [exact Hc|].
  unfold movePiece. rewrite Hcur, Hover. cbv zeta. rewrite Hc. cbn [bindRes].
  destruct c; cbn [negb]; [|reflexivity].
  change {| ptype := ptype (move dx dy cur); x := x cur; y := y cur;
            rotation := rotation (move dx dy cur) |}
    with {| ptype := ptype cur; x := x cur; y := y cur; rotation := rotation cur |}.
  rewrite piece_eta, (set_currentPiece_same e cur Hcur). reflexivity.
Qed.

(** X7.  [movePiece(dx, dy)] while a game runs: it returns [true] exactly
    when the piece shifted by [(dx, dy)] does not collide.  Then the piece
    is shifted and nothing else changes, but for the lock timer, which is
    reset when [dy] is 0.  When the shifted piece collides the engine is
    exactly as before the call. *)
Theorem movePiece_moves_or_stays (e : Engine) (dx dy : Z) (cur : TetrisPiece) :
  wfEngine e -> currentPiece e = Some cur -> gameOver e = false ->
  (isColliding e (move dx dy cur) = Ok true
   /\ movePiece dx dy e = Ok (false, e))
  \/ (isColliding e (move dx dy cur) = Ok false
      /\ movePiece dx dy e
         = Ok (true,
               if dy =? 0
               then resetLockTimer (set_currentPiece (Some (move dx dy cur)) e)
               else set_currentPiece (Some (move dx dy cur)) e)).
Proof.
  intros Hwf Hcur Hover.
  destruct (movePiece_runs e dx dy cur Hwf Hcur Hover) as ([] & Hc & Hrun).
  - left. split; assumption.
  - right. split; assumption.
Qed.

Lemma movePiece_moves_or_stays_witness :
  movePiece (-4) 0 freshEngine = Ok (false, freshEngine)
  /\ exists e1, movePiece (-3) 0 freshEngine = Ok (true, e1)
                /\ currentPiece e1 = Some (newTetrisPiece Ty.I 0 0).
Proof.
  assert (Hcur : currentPiece freshEngine = Some (newTetrisPiece0 Ty.I))
    by (vm_compute; reflexivity).
  assert (Hover : gameOver freshEngine = false) by (vm_compute; reflexivity).
  split.
  - destruct (movePiece_moves_or_stays freshEngine (-4) 0 _ freshEngine_wf Hcur Hover)
      as [[_ H] | [H _]]; [exact H|].
    vm_compute in H. discriminate H.
  - destruct (movePiece_moves_or_stays freshEngine (-3) 0 _ freshEngine_wf Hcur Hover)
      as [[H _] | [_ H]]; [vm_compute in H; discriminate H|].
    eexists. split; [exact H|]. reflexivity.
Defined.

(** ** After game over *)

(** X8.  Once [gameOver] is set, the inputs of the player and the clock
    do nothing: [movePiece], [rotatePiece], [softDrop], [hardDrop] and
    [update] return at their guard ([false], 0 or nothing) and leave every
    field of the engine as it is.  The sixth input, [holdPiece()], changes
    nothing either, but does not return: it raises a [TypeError], as it
    does before the game is over. *)
Theorem gameOver_freezes_inputs (e : Engine) :
  gameOver e = true ->
  (forall dx dy, movePiece dx dy e = Ok (false, e))
  /\ (forall direction, rotatePiece direction e = Ok (false, e))
  /\ softDrop e = Ok (false, e)
  /\ (forall fuel, hardDrop fuel e = Ok (0, e))
  /\ (forall deltaTime, update deltaTime e = Ok e)
  /\ holdPiece e = TypeError.
Proof.
  intros Hover.
  unfold softDrop, movePiece, rotatePiece, hardDrop, update, holdPiece,
    getHoldPiece.
  rewrite Hover.
  destruct (currentPiece e), (heldPiece e); repeat split; reflexivity.
Qed.

Lemma gameOver_freezes_inputs_witness :
  gameOver toppedOut = true
  /\ rotatePiece 1 toppedOut = Ok (false, toppedOut)
  /\ hardDrop 30 toppedOut = Ok (0, toppedOut)
  /\ update 16 toppedOut = Ok toppedOut
  /\ holdPiece toppedOut = TypeError.
Proof.
  assert (H : gameOver toppedOut = true) by (vm_compute; reflexivity).
  split; [exact H|].
  destruct (gameOver_freezes_inputs toppedOut H) as (_ & H2 & _ & H4 & H5 & H6).
  split; [apply H2|]. split; [apply H4|]. split; [apply H5 | exact H6].
Defined.

(** ** Hold *)

Lemma spawnNewPiece_resets e e' :
  spawnNewPiece e = Ok e' ->
  canHold e' = true /\ isLocking e' = false /\ lockTimer e' = 0
  /\ heldPiece e' = heldPiece e /\ board e' = board e
  /\ currentPiece e' = nextPiece e.
Proof.
  unfold spawnNewPiece.
  destruct (getNext _ _) as [[p g] r]. esimpl.
  destruct (nextPiece e) as [np|]; [|discriminate].
  destruct (isColliding _ np) as [[]| |]; cbn [bindRes]; try discriminate;
    intros H; injection H as <-; esimpl; repeat split; reflexivity.
Qed.

Lemma lockPiece_spawns e e' cur :
  currentPiece e = Some cur -> lockPiece e = Ok e' ->
  canHold e' = true /\ isLocking e' = false /\ lockTimer e' = 0
  /\ heldPiece e' = heldPiece e /\ currentPiece e' = nextPiece e.
Proof.
  intros Hcur. unfold lockPiece. rewrite Hcur.
  destruct (getBlocks cur) as [blocks| |]; cbn [bindRes]; try discriminate.
  destruct (placeBlocks _ _ _ blocks) as [bd| |]; cbn [bindRes]; try discriminate.
  destruct (clearLines _) as [[k e2]| |] eqn:Hclear; cbn [bindRes]; try discriminate.
  intros Hspawn. apply spawnNewPiece_resets in Hspawn
    as (H1 & H2 & H3 & H4 & _ & H5).
  assert (Hkeep : heldPiece e2 = heldPiece e /\ nextPiece e2 = nextPiece e).
  { unfold clearLines in Hclear.
    destruct (fullRowsLoop _ _ _) as [rows| |]; cbn [bindRes] in Hclear;
      try discriminate Hclear.
    destruct (length rows =? 0)%nat; injection Hclear as _ <-;
      [split; reflexivity|].
    unfold updateLevel.
    repeat match goal with
           | |- context [if ?c then _ else _] => destruct c
           end; esimpl; split; reflexivity. }
  destruct Hkeep as [Hh Hn].
  assert (Hcalc : forall k t e0,
             heldPiece (calculateScore k t e0) = heldPiece e0
             /\ nextPiece (calculateScore k t e0) = nextPiece e0).
  { intros k0 t e0. unfold calculateScore.
    destruct t;
      repeat match goal with
             | |- context [if ?c then _ else _] => destruct c
             end; esimpl; split; reflexivity. }
  rewrite (proj1 (Hcalc _ _ _)) in H4. rewrite (proj2 (Hcalc _ _ _)) in H5.
  repeat split; congruence.
Qed.

(** ** The ghost piece and the hard drop *)

Lemma move_move dx dy dx' dy' p :
  move dx' dy' (move dx dy p) = move (dx + dx') (dy + dy') p.
Proof. apply piece_eq; cbn [move ptype x y rotation]; try reflexivity; lia. Qed.

Lemma move_zero p : move 0 0 p = p.
Proof. apply piece_eq; cbn [move ptype x y rotation]; try reflexivity; lia. Qed.

Lemma move_down p :
  {| ptype := ptype p; x := x p; y := y p + 1; rotation := rotation p |}
  = move 0 1 p.
Proof. apply piece_eq; cbn [move ptype x y rotation]; try reflexivity; lia. Qed.

(** A piece that stands free has its box over the field. *)
Lemma free_piece_rows e p :
  wfEngine e -> validPiece p -> isColliding e p = Ok false ->
  -4 < y p < height e /\ -4 < x p < width e.
Proof.
  intros Hwf Hp Hfree.
  destruct (isColliding_blocked e p Hwf Hp) as (blocks & _ & Hlen & Hbox & Hc).
  rewrite Hc in Hfree. injection Hfree as Hfree.
  destruct blocks as [|b rest]; [discriminate Hlen|].
  apply Forall_cons in Hbox as [[Hbx Hby] _].
  cbn [existsb] in Hfree. apply orb_false_iff in Hfree as [Hb _].
  unfold blocked in Hb.
  apply orb_false_iff in Hb as [Hb _].
  apply orb_false_iff in Hb as [Hb Hy2].
  apply orb_false_iff in Hb as [Hb Hy1].
  apply orb_false_iff in Hb as [Hx1 Hx2].
  apply Z.ltb_ge in Hx1, Hy1. rewrite Z.geb_leb in Hx2, Hy2.
  apply Z.leb_gt in Hx2, Hy2. lia.
Qed.

Lemma move_valid dx dy p : validPiece p -> validPiece (move dx dy p).
Proof. intros H. exact H. Qed.

Lemma ghostLoop_lands e fuel : forall p,
  wfEngine e -> validPiece p -> isColliding e p = Ok false ->
  (Z.to_nat (height e - y p) < fuel)%nat ->
  exists d, landsAfter e p d /\ ghostLoop fuel e p = Ok (move 0 (d + 1) p).
Proof.
  induction fuel as [|fuel IH]; intros p Hwf Hp Hfree Hfuel; [lia|].
  cbn [ghostLoop]. rewrite Hfree. cbn [bindRes negb]. rewrite move_down.
  destruct (free_piece_rows e p Hwf Hp Hfree) as [Hy _].
  destruct (isColliding_total e (move 0 1 p) Hwf Hp) as [[] Hc].
  - exists 0. split.
    + split; [lia|]. split; [|exact Hc].
      intros k Hk. replace k with 0 by lia. rewrite move_zero. exact Hfree.
    + destruct fuel as [|fuel]; [lia|]. cbn [ghostLoop]. rewrite Hc. reflexivity.
  - destruct (IH (move 0 1 p) Hwf Hp Hc) as (d & (Hd & Hfreek & Hstop) & Hrun).
    { cbn [move y]. lia. }
    exists (d + 1). split.
    + split; [lia|]. split.
      * intros k Hk. destruct (decide (k = 0)) as [->|Hk0].
        -- rewrite move_zero. exact Hfree.
        -- specialize (Hfreek (k - 1) ltac:(lia)). rewrite move_move in Hfreek.
           replace (1 + (k - 1)) with k in Hfreek by lia. exact Hfreek.
      * rewrite move_move in Hstop.
        replace (1 + (d + 1)) with (d + 1 + 1) in Hstop by lia. exact Hstop.
    + rewrite Hrun, move_move. do 2 f_equal. lia.
Qed.

(** X10.  [getGhostPiece()] for a current piece that stands free, on an
    engine in order: the loop ends, and the ghost is the current piece
    moved straight down by [d] rows, where every position on the way
    down to [d] is free and the position one row further collides.  The
    current piece itself is not moved.  For a current piece that collides
    where it stands (after game over) the ghost is one row above it. *)
Theorem getGhostPiece_lands (e : Engine) (cur : TetrisPiece) (fuel : nat) :
  wfEngine e -> currentPiece e = Some cur ->
  (Z.to_nat (height e) + 4 <= fuel)%nat ->
  (isColliding e cur = Ok false ->
   exists d,
     getGhostPiece fuel e = Ok (Some (move 0 d cur))
     /\ 0 <= d /\ y cur + d < height e
     /\ (forall k, 0 <= k <= d -> isColliding e (move 0 k cur) = Ok false)
     /\ isColliding e (move 0 (d + 1) cur) = Ok true)
  /\ (isColliding e cur = Ok true ->
      getGhostPiece fuel e = Ok (Some (move 0 (-1) cur))).
Proof.
  intros Hwf Hcur Hfuel.
  pose proof (wf_current e Hwf) as Hvalid. rewrite Hcur in Hvalid.
  cbn [validOption] in Hvalid.
  unfold getGhostPiece. rewrite Hcur. unfold clone. rewrite piece_eta. split.
  - intros Hfree.
    destruct (free_piece_rows e cur Hwf Hvalid Hfree) as [Hy _].
    destruct (ghostLoop_lands e fuel cur Hwf Hvalid Hfree)
      as (d & (Hd & Hfreek & Hstop) & Hrun); [lia|].
    exists d. rewrite Hrun. cbn [bindRes]. split.
    + do 2 f_equal. apply piece_eq; cbn [move ptype x y rotation];
        try reflexivity; lia.
    + split; [exact Hd|]. split; [|split; assumption].
      destruct (free_piece_rows e (move 0 d cur) Hwf Hvalid (Hfreek d ltac:(lia)))
        as [Hy' _].
      cbn [move y] in Hy'. lia.
  - intros Hhit. destruct fuel as [|fuel]; [lia|].
    cbn [ghostLoop]. rewrite Hhit. cbn [bindRes negb].
    do 2 f_equal. apply piece_eq; cbn [move ptype x y rotation];
      try reflexivity; lia.
Qed.

Lemma getGhostPiece_lands_witness :
  exists d,
    getGhostPiece 24 freshEngine = Ok (Some (move 0 d (newTetrisPiece0 Ty.I)))
    /\ 0 <= d /\ y (newTetrisPiece0 Ty.I) + d < height freshEngine
    /\ isColliding freshEngine (move 0 (d + 1) (newTetrisPiece0 Ty.I)) = Ok true.
Proof.
  assert (Hcur : currentPiece freshEngine = Some (newTetrisPiece0 Ty.I))
    by (vm_compute; reflexivity).
  assert (Hfuel : (Z.to_nat (height freshEngine) + 4 <= 24)%nat)
    by (vm_compute; lia).
  assert (Hfree : isColliding freshEngine (newTetrisPiece0 Ty.I) = Ok false)
    by (vm_compute; reflexivity).
  destruct (getGhostPiece_lands freshEngine _ 24 freshEngine_wf Hcur Hfuel)
    as [H _].
  destruct (H Hfree) as (d & H1 & H2 & H3 & _ & H5).
  exists d. repeat split; assumption.
Defined.

Lemma dropLoop_lands fuel : forall e cur d d0,
  wfEngine e -> currentPiece e = Some cur -> gameOver e = false ->
  landsAfter e cur d -> (Z.to_nat d < fuel)%nat ->
  dropLoop fuel d0 e
  = Ok (d0 + d, set_currentPiece (Some (move 0 d cur)) e).
Proof.
  induction fuel as [|fuel IH]; intros e cur d d0 Hwf Hcur Hover Hland Hfuel;
    [lia|].
  destruct Hland as (Hd & Hfreek & Hstop).
  pose proof (wf_current e Hwf) as Hvalid. rewrite Hcur in Hvalid.
  cbn [validOption] in Hvalid.
  cbn [dropLoop].
  destruct (movePiece_runs e 0 1 cur Hwf Hcur Hover) as (c & Hc & Hrun).
  rewrite Hrun. cbn [bindRes].
  destruct (decide (d = 0)) as [->|Hd0].
  - change (0 + 1) with 1 in Hstop. rewrite Hstop in Hc. injection Hc as <-.
    cbn [negb]. rewrite move_zero, (set_currentPiece_same e cur Hcur).
    do 2 f_equal. lia.
  - rewrite (Hfreek 1 ltac:(lia)) in Hc. injection Hc as <-. cbn [negb].
    change (1 =? 0) with false. cbv iota.
    rewrite (IH (set_currentPiece (Some (move 0 1 cur)) e) (move 0 1 cur)
               (d - 1) (d0 + 1)).
    + rewrite move_move. replace (1 + (d - 1)) with d by lia.
      change (0 + 0) with 0.
      replace (d0 + 1 + (d - 1)) with (d0 + d) by lia. reflexivity.
    + apply wfEngine_set_currentPiece; assumption.
    + reflexivity.
    + exact Hover.
    + split; [lia|]. split.
      * intros k Hk. rewrite move_move.
        exact (Hfreek (1 + k) ltac:(lia)).
      * rewrite move_move. replace (1 + (d - 1 + 1)) with (d + 1) by lia.
        exact Hstop.
    + lia.
Qed.

(** X11.  [hardDrop()] puts the piece where the ghost is.  While a game
    runs and the current piece stands free, the loop of [hardDrop] ends
    and the call returns the distance [d] of the ghost; the engine after
    it is the one [lockPiece()] leaves when the current piece is moved
    down by [d] rows, with [2 * d] added to the score. *)
Theorem hardDrop_lands_at_ghost (e : Engine) (cur : TetrisPiece) (fuel : nat) :
  wfEngine e -> currentPiece e = Some cur -> gameOver e = false ->
  isColliding e cur = Ok false ->
  (Z.to_nat (height e) + 4 <= fuel)%nat ->
  exists d e2,
    getGhostPiece fuel e = Ok (Some (move 0 d cur))
    /\ lockPiece (set_currentPiece (Some (move 0 d cur)) e) = Ok e2
    /\ hardDrop fuel e = Ok (d, set_score (score e2 + d * 2) e2).
Proof.
  intros Hwf Hcur Hover Hfree Hfuel.
  pose proof (wf_current e Hwf) as Hvalid. rewrite Hcur in Hvalid.
  cbn [validOption] in Hvalid.
  destruct (free_piece_rows e cur Hwf Hvalid Hfree) as [Hy _].
  destruct (ghostLoop_lands e fuel cur Hwf Hvalid Hfree)
    as (d & Hland & Hghost); [lia|].
  pose proof Hland as (Hd & Hfreek & _).
  destruct (free_piece_rows e (move 0 d cur) Hwf Hvalid (Hfreek d ltac:(lia)))
    as [Hy' _].
  cbn [move y] in Hy'.
  set (e1 := set_currentPiece (Some (move 0 d cur)) e).
  assert (Hwf1 : wfEngine e1) by (apply wfEngine_set_currentPiece; assumption).
  destruct (lockPiece_runs e1 (move 0 d cur) Hwf1 eq_refl)
    as (blocks & bd1 & e2 & _ & _ & _ & Hlock & _).
  exists d, e2. split; [|split; [exact Hlock|]].
  - unfold getGhostPiece. rewrite Hcur. unfold clone. rewrite piece_eta, Hghost.
    cbn [bindRes]. do 2 f_equal.
    apply piece_eq; cbn [move ptype x y rotation]; try reflexivity; lia.
  - unfold hardDrop. rewrite Hcur, Hover.
    rewrite (dropLoop_lands fuel e cur d 0 Hwf Hcur Hover Hland) by lia.
    cbn [bindRes Z.add]. fold e1. rewrite Hlock. reflexivity.
Qed.

Lemma hardDrop_lands_at_ghost_witness :
  exists d e2,
    getGhostPiece 24 freshEngine = Ok (Some (move 0 d (newTetrisPiece0 Ty.I)))
    /\ lockPiece (set_currentPiece (Some (move 0 d (newTetrisPiece0 Ty.I)))
                    freshEngine) = Ok e2
    /\ hardDrop 24 freshEngine = Ok (d, set_score (score e2 + d * 2) e2).
Proof.
  assert (Hcur : currentPiece freshEngine = Some (newTetrisPiece0 Ty.I))
    by (vm_compute; reflexivity).
  assert (Hfuel : (Z.to_nat (height freshEngine) + 4 <= 24)%nat)
    by (vm_compute; lia).
  assert (Hfree : isColliding freshEngine (newTetrisPiece0 Ty.I) = Ok false)
    by (vm_compute; reflexivity).
  exact (hardDrop_lands_at_ghost freshEngine _ 24 freshEngine_wf Hcur eq_refl
           Hfree Hfuel).
Defined.

(** ** What the engine keeps true *)

Lemma advances_refl e : advances e e.
Proof. constructor; first [reflexivity | tauto | lia]. Qed.

Lemma advances_trans e1 e2 e3 : advances e1 e2 -> advances e2 e3 -> advances e1 e3.
Proof.
  intros [] []. constructor; try congruence; try lia. tauto.
Qed.

Lemma sameCounts_refl e : sameCounts e e.
Proof.
  constructor; try reflexivity; try tauto; try lia.
  exists 0. split; [|lia]. rewrite Z.add_0_r. destruct (stats e). reflexivity.
Qed.

Lemma sameCounts_trans e1 e2 e3 :
  sameCounts e1 e2 -> sameCounts e2 e3 -> sameCounts e1 e3.
Proof.
  intros [? ? ? ? ? ? ? ? (n & Hn & ?) ?] [? ? ? ? ? ? ? ? (m & Hm & ?) ?].
  constructor; try congruence; try tauto; try lia.
  exists (n + m). split; [|lia]. rewrite Hm, Hn. cbn [set_totalPieces totalPieces].
  rewrite Z.add_assoc. reflexivity.
Qed.

Lemma sameCounts_tallied e e' : sameCounts e e' -> tallied e -> tallied e'.
Proof.
  intros [? ? Hb ? Hl ? Hc Hi (n & Hs & ?) ?] [H1 H2 H3 H4 H5].
  constructor.
  - rewrite Hb. exact H1.
  - rewrite Hs. cbn. exact H2.
  - lia.
  - rewrite Hi, Hl. exact H4.
  - lia.
Qed.

Lemma sameCounts_advances e e' : sameCounts e e' -> advances e e'.
Proof.
  intros [? ? ? ? ? ? ? ? (n & Hs & ?) ?].
  constructor; try lia; try assumption. rewrite Hs. cbn. lia.
Qed.

(** An engine that differs from [e] in the piece and the timers only. *)
Ltac same_counts :=
  constructor; esimpl; try reflexivity; try tauto; try lia;
  exists 0; split; [|lia]; rewrite Z.add_0_r;
  match goal with |- _ = set_totalPieces _ ?s => destruct s; reflexivity end.

Lemma movePiece_step e dx dy :
  wfEngine e ->
  exists b e', movePiece dx dy e = Ok (b, e') /\ wfEngine e' /\ sameCounts e e'.
Proof.
  intros Hwf.
  destruct (currentPiece e) as [cur|] eqn:Hcur.
  - destruct (gameOver e) eqn:Hover.
    + exists false, e. unfold movePiece. rewrite Hcur, Hover.
      split; [reflexivity|]. split; [exact Hwf | apply sameCounts_refl].
    + destruct (movePiece_runs e dx dy cur Hwf Hcur Hover) as (c & _ & Hrun).
      eexists _, _. split; [exact Hrun|].
      split; [exact (movePiece_wf _ _ _ _ _ Hwf Hrun)|].
      destruct c; [apply sameCounts_refl|].
      destruct (dy =? 0); same_counts.
  - exists false, e. unfold movePiece. rewrite Hcur.
    split; [reflexivity|]. split; [exact Hwf | apply sameCounts_refl].
Qed.

Lemma rotatePiece_step e direction :
  wfEngine e -> direction = 1 \/ direction = -1 ->
  exists b e', rotatePiece direction e = Ok (b, e') /\ wfEngine e' /\ sameCounts e e'.
Proof.
  intros Hwf Hd.
  assert (Hrun : exists b e', rotatePiece direction e = Ok (b, e') /\ sameCounts e e').
  { unfold rotatePiece.
    destruct (currentPiece e) as [cur|] eqn:Hcur;
      [|eexists _, _; split; [reflexivity | apply sameCounts_refl]].
    destruct (gameOver e);
      [eexists _, _; split; [reflexivity | apply sameCounts_refl]|].
    pose proof (wf_current e Hwf) as Hvalid. rewrite Hcur in Hvalid.
    cbn [validOption] in Hvalid.
    destruct (rotation_target (rotation cur) direction (shapeLength cur) Hvalid Hd)
      as [Hrem Hrange].
    rewrite Hrem. cbv zeta.
    set (target := (rotation cur + direction) mod shapeLength cur) in *.
    assert (Hq : validPiece (set_rotation target cur)) by exact Hrange.
    destruct (kickLoop_first_fit e (set_rotation target cur)
                (getWallKickData (ptype cur) (rotation cur) target) Hwf Hq)
      as [(pre & k & post & _ & _ & _ & Hloop) | [_ Hloop]];
      rewrite Hloop; cbn [bindRes];
      eexists _, _; (split; [reflexivity|]); same_counts. }
  destruct Hrun as (b & e' & Hrun & Hsame).
  exists b, e'. split; [exact Hrun|].
  split; [exact (rotatePiece_wf _ _ _ _ Hd Hwf Hrun) | exact Hsame].
Qed.

Lemma spawnNewPiece_counts e e' : spawnNewPiece e = Ok e' -> sameCounts e e'.
Proof.
  unfold spawnNewPiece.
  destruct (getNext _ _) as [[p g] r]. esimpl.
  destruct (nextPiece e) as [np|]; [|discriminate].
  destruct (isColliding _ np) as [[]| |]; cbn [bindRes]; try discriminate;
    intros H; injection H as <-;
    (constructor; esimpl; try reflexivity; try tauto; try lia;
     exists 1; split; [reflexivity | lia]).
Qed.

Lemma spawnNewPiece_step e :
  wfEngine e ->
  exists e', spawnNewPiece e = Ok e' /\ wfEngine e' /\ sameCounts e e'.
Proof.
  intros Hwf. destruct (wf_next e Hwf) as (np & Hnp & Hnpvalid).
  destruct (spawnNewPiece_runs e np Hnp Hnpvalid) as (e' & Hspawn & _).
  { rewrite (rectangular_length _ _ _ (wf_board e Hwf)). lia. }
  exists e'. split; [exact Hspawn|].
  split; [exact (spawnNewPiece_wf e e' Hwf Hspawn)|].
  exact (spawnNewPiece_counts e e' Hspawn).
Qed.

Lemma filter_insert_length {A} (f : A -> bool) (l : list A) : forall i r,
  (length (List.filter f (<[i:=r]> l)) <= Datatypes.S (length (List.filter f l)))%nat.
Proof.
  induction l as [|a l IH]; intros i r; [destruct i; simpl; lia|].
  destruct i as [|i].
  - cbn [insert list_insert List.filter]. destruct (f r), (f a); cbn [length]; lia.
  - change (<[Datatypes.S i:=r]> (a :: l)) with (a :: <[i:=r]> l).
    cbn [List.filter]. specialize (IH i r).
    destruct (f a); cbn [length]; lia.
Qed.

Lemma placeBlock_fullRows e cell bd b bd1 :
  placeBlock e cell bd b = Ok bd1 -> fullRowCount bd1 <= fullRowCount bd + 1.
Proof.
  unfold placeBlock, fullRowCount.
  destruct (_ && _); [|intros H; injection H as <-; lia].
  destruct (js_get bd (by_ b)) as [row|]; [|discriminate].
  intros H. injection H as <-. unfold js_set at 1.
  destruct (by_ b <? 0); [lia|].
  pose proof (filter_insert_length rowFull bd (Z.to_nat (by_ b))
                (js_set row (bx b) (Some cell))).
  lia.
Qed.

Lemma placeBlocks_fullRows e cell blocks : forall bd bd1,
  placeBlocks e cell bd blocks = Ok bd1 ->
  fullRowCount bd1 <= fullRowCount bd + Z.of_nat (length blocks).
Proof.
  induction blocks as [|b rest IH]; intros bd bd1 H.
  - injection H as <-. cbn [length]. lia.
  - cbn [placeBlocks] in H.
    destruct (placeBlock e cell bd b) as [bd0| |] eqn:Hb; try discriminate H.
    cbn [bindRes] in H. apply IH in H. apply placeBlock_fullRows in Hb.
    cbn [length]. lia.
Qed.

Lemma noFull_count (bd : Board) :
  Forall (fun row : Row => rowFull row = false) bd -> fullRowCount bd = 0.
Proof.
  intros H. unfold fullRowCount.
  induction H as [|row bd Hrow _ IH]; [reflexivity|].
  cbn [List.filter]. rewrite Hrow. exact IH.
Qed.

Lemma compact_noFull e (bd : Board) k :
  0 < width e ->
  Forall (fun row : Row => rowFull row = false)
         (replicate k (emptyRow e) ++ List.filter notFull bd).
Proof.
  intros Hw. apply Forall_app. split.
  - apply Forall_replicate. unfold emptyRow.
    destruct (Z.to_nat (width e)) as [|n] eqn:Hn; [lia|]. reflexivity.
  - apply List.Forall_forall. intros row Hin.
    apply filter_In in Hin as [_ Hnf]. unfold notFull in Hnf.
    apply negb_true_iff in Hnf. exact Hnf.
Qed.

Lemma bumpLineStat_fields n s :
  totalLines (bumpLineStat n s) = totalLines s
  /\ totalPieces (bumpLineStat n s) = totalPieces s
  /\ singles (bumpLineStat n s) = singles s + (if n =? 1 then 1 else 0)
  /\ doubles (bumpLineStat n s) = doubles s + (if n =? 2 then 1 else 0)
  /\ triples (bumpLineStat n s) = triples s + (if n =? 3 then 1 else 0)
  /\ tetrises (bumpLineStat n s) = tetrises s + (if n =? 4 then 1 else 0).
Proof.
  unfold bumpLineStat.
  destruct n as [|q|q]; [| |];
    do 3 (try destruct q as [q|q|]);
    cbn [Z.eqb Pos.eqb set_singles set_doubles set_triples set_tetrises
         totalLines totalPieces singles doubles triples tetrises];
    repeat split; lia.
Qed.

Lemma clearLines_counts e k e2 :
  clearLines e = Ok (k, e2) ->
  0 <= k
  /\ gameOver e2 = gameOver e
  /\ ((level e2 = level e /\ dropInterval e2 = dropInterval e)
      \/ (level e < level e2
          /\ dropInterval e2 = Z.max 50 (1000 - (level e2 - 1) * 50)))
  /\ totalPieces (stats e2) = totalPieces (stats e)
  /\ totalLines (stats e2) = totalLines (stats e) + k
  /\ singles (stats e2) = singles (stats e) + (if k =? 1 then 1 else 0)
  /\ doubles (stats e2) = doubles (stats e) + (if k =? 2 then 1 else 0)
  /\ triples (stats e2) = triples (stats e) + (if k =? 3 then 1 else 0)
  /\ tetrises (stats e2) = tetrises (stats e) + (if k =? 4 then 1 else 0).
Proof.
  unfold clearLines.
  destruct (fullRowsLoop _ _ _) as [rows| |]; cbn [bindRes]; try discriminate.
  destruct (Nat.eqb_spec (length rows) 0) as [Hz|Hnz].
  - intros H. injection H as <- <-. esimpl. cbn [Z.eqb].
    repeat split; lia.
  - remember (Z.of_nat (length rows)) as n eqn:Hn.
    assert (Hpos : 0 < n) by lia.
    intros H. injection H as <- <-.
    destruct (bumpLineStat_fields n
                (set_totalLines (totalLines (stats e) + n) (stats e)))
      as (B1 & B2 & B3 & B4 & B5 & B6).
    cbn [set_totalLines totalLines totalPieces singles doubles triples tetrises]
      in B1, B2, B3, B4, B5, B6.
    destruct (isPerfectClear _);
      match goal with
      | |- context [updateLevel ?s] =>
        set (e6 := s);
        pose proof (proj1 (proj2 (proj2 (proj2 (updateLevel_fields e6))))) as Hst;
        assert (Hover : gameOver (updateLevel e6) = gameOver e)
          by (unfold updateLevel; destruct (_ >? _); reflexivity);
        assert (Hlv : (level (updateLevel e6) = level e
                       /\ dropInterval (updateLevel e6) = dropInterval e)
                      \/ (level e < level (updateLevel e6)
                          /\ dropInterval (updateLevel e6)
                             = Z.max 50 (1000 - (level (updateLevel e6) - 1) * 50)))
          by (unfold updateLevel;
              destruct (Z.gtb_spec (lines e6 / 10 + 1) (level e6)) as [Hgt|Hle];
              [ right; esimpl; split; [|reflexivity];
                change (level e6) with (level e) in Hgt; lia
              | left; split; reflexivity ])
      end;
      rewrite Hst; unfold e6; esimpl;
      cbn [set_perfectClears totalLines totalPieces singles doubles triples
           tetrises];
      (split; [lia|]); (split; [exact Hover|]); (split; [exact Hlv|]);
      repeat split; assumption.
Qed.

Lemma getBlocks_length p blocks :
  validPiece p -> getBlocks p = Ok blocks -> length blocks = 4%nat.
Proof.
  intros Hp Hb. destruct (getBlocks_valid p Hp) as (s & Hs & Hb').
  rewrite Hb' in Hb. injection Hb as <-.
  replace (x p) with (0 + x p) by lia. replace (y p) with (0 + y p) by lia.
  rewrite blocksOf_shift, length_map. exact (shape_four_blocks _ _ _ Hs).
Qed.

Lemma calculateScore_counts k t e :
  let e' := calculateScore k t e in
  gameOver e' = gameOver e /\ level e' = level e
  /\ dropInterval e' = dropInterval e
  /\ totalPieces (stats e') = totalPieces (stats e)
  /\ totalLines (stats e') = totalLines (stats e)
  /\ singles (stats e') = singles (stats e)
  /\ doubles (stats e') = doubles (stats e)
  /\ triples (stats e') = triples (stats e)
  /\ tetrises (stats e') = tetrises (stats e).
Proof.
  unfold calculateScore.
  destruct t;
    repeat match goal with
           | |- context [if ?c then _ else _] => destruct c
           end; esimpl;
    cbn [set_tSpins totalLines totalPieces singles doubles triples tetrises];
    repeat split; reflexivity.
Qed.

Lemma specBaseScore_nonneg k t : 0 <= specBaseScore k t.
Proof.
  unfold specBaseScore.
  destruct t;
    repeat match goal with
           | |- context [if ?c then _ else _] => destruct c
           end; lia.
Qed.

Lemma lockPiece_step e cur :
  wfEngine e -> tallied e -> currentPiece e = Some cur ->
  exists e',
    lockPiece e = Ok e' /\ wfEngine e' /\ tallied e' /\ advances e e'
    /\ 0 <= lines e' - lines e <= 4
    /\ lines e' - lines e = totalLines (stats e') - totalLines (stats e).
Proof.
  intros Hwf [T1 T2 T3 T4 T5] Hcur.
  pose proof (wf_current e Hwf) as Hvalid. rewrite Hcur in Hvalid.
  cbn [validOption] in Hvalid.
  destruct (lockPiece_runs e cur Hwf Hcur)
    as (blocks & bd1 & e' & Hblocks & Hplace & Hrect & Hlock & Hfacts).
  cbv zeta in Hfacts.
  destruct Hfacts as (Hboard & Hlines & Hcombo & Hlevel & Hscore & Hw & Hh
                      & _ & _ & Htotal).
  set (k := fullRowCount bd1) in *.
  assert (Hk : 0 <= k <= 4).
  { split; [unfold k, fullRowCount; lia|].
    pose proof (placeBlocks_fullRows _ _ _ _ _ Hplace) as Hle.
    rewrite (noFull_count _ T1), (getBlocks_length cur blocks Hvalid Hblocks) in Hle.
    fold k in Hle. lia. }
  pose proof (lockPiece_wf e e' Hwf Hlock) as Hwf'.
  pose proof Hlock as Hsteps.
  unfold lockPiece in Hsteps. rewrite Hcur, Hblocks in Hsteps.
  cbn [bindRes] in Hsteps. fold (cellOf cur) in Hsteps.
  rewrite Hplace in Hsteps. cbn [bindRes] in Hsteps.
  destruct (clearLines_runs (set_board bd1 e)) as (e2 & Hclear & _).
  { exact (rectangular_length _ _ _ Hrect). }
  cbv zeta in Hclear. change (board (set_board bd1 e)) with bd1 in Hclear.
  fold k in Hclear.
  change (board (set_board bd1 e)) with bd1 in Hsteps.
  rewrite Hclear in Hsteps. cbn [bindRes] in Hsteps.
  destruct (clearLines_counts _ _ _ Hclear)
    as (_ & C1 & C2 & C3 & C4 & C5 & C6 & C7 & C8).
  esimpl.
  destruct (calculateScore_counts k (isTSpin cur bd1) e2)
    as (S1 & S2 & S3 & S4 & S5 & S6 & S7 & S8 & S9).
  apply spawnNewPiece_counts in Hsteps.
  destruct Hsteps as [_ _ _ _ P1 _ _ P2 (n & P3 & P4) P5].
  exists e'. split; [exact Hlock|]. split; [exact Hwf'|].
  assert (Hcases : k = 0 \/ k = 1 \/ k = 2 \/ k = 3 \/ k = 4) by lia.
  split; [|split; [|split; [lia | lia]]].
  - constructor.
    + rewrite Hboard. apply compact_noFull, (wf_width e Hwf).
    + rewrite P3.
      cbn [set_totalPieces totalLines singles doubles triples tetrises].
      rewrite S5, S6, S7, S8, S9, C4, C5, C6, C7, C8.
      destruct Hcases as [-> | [-> | [-> | [-> | ->]]]];
        cbn [Z.eqb Pos.eqb]; lia.
    + rewrite P1, S2. destruct C2 as [[-> _] | [Hlt _]]; lia.
    + rewrite P2, P1, S3, S2.
      destruct C2 as [[-> ->] | [_ ->]]; [exact T4 | reflexivity].
    + rewrite Hcombo. destruct (k =? 0); lia.
  - constructor; try assumption.
    + intros Hover. apply P5. rewrite S1, C1. exact Hover.
    + rewrite Hscore.
      assert (Hlv : 1 <= level e').
      { rewrite P1, S2. destruct C2 as [[-> _] | [Hlt _]]; lia. }
      assert (0 <= (specBaseScore k (isTSpin cur bd1)
                    + (if combo e' >? 1 then 50 * (combo e' - 1) else 0))
                   * (if isPerfectClear e' then 10 else 1) * level e').
      { pose proof (specBaseScore_nonneg k (isTSpin cur bd1)).
        apply Z.mul_nonneg_nonneg; [apply Z.mul_nonneg_nonneg|]; try lia.
        - destruct (Z.gtb_spec (combo e') 1); lia.
        - destruct (isPerfectClear e'); lia. }
      lia.
    + rewrite P1, S2. destruct C2 as [[-> _] | [Hlt _]]; lia.
    + lia.
    + rewrite P2, S3. destruct C2 as [[_ ->] | [Hlt ->]]; [lia|].
      rewrite T4. lia.
    + rewrite P3. cbn [set_totalPieces totalPieces]. lia.
Qed.

Lemma noFull_forallb (bd : Board) :
  forallb notFull bd = true ->
  Forall (fun row : Row => rowFull row = false) bd.
Proof.
  intros H. apply List.Forall_forall. intros row Hin.
  rewrite forallb_forall in H. specialize (H row Hin).
  unfold notFull in H. apply negb_true_iff in H. exact H.
Qed.

(** X12.  A lock clears at most four lines.  On an engine in order
    [lockPiece()] completes; the line counters [lines] and
    [stats.totalLines] grow by the same number between 0 and 4; and after
    it the board again holds no completed row, the line total is still
    the sum of the singles, twice the doubles, three times the triples
    and four times the tetrises, the level is at least 1 and the drop
    interval is [max(50, 1000 - (level - 1) * 50)]. *)
Theorem lockPiece_at_most_four_lines (e : Engine) (cur : TetrisPiece) :
  wfEngine e -> tallied e -> currentPiece e = Some cur ->
  exists e',
    lockPiece e = Ok e'
    /\ 0 <= lines e' - lines e <= 4
    /\ totalLines (stats e') - totalLines (stats e) = lines e' - lines e
    /\ tallied e'.
Proof.
  intros Hwf Ht Hcur.
  destruct (lockPiece_step e cur Hwf Ht Hcur) as (e' & H1 & _ & H3 & _ & H5 & H6).
  exists e'. split; [exact H1|]. split; [exact H5|]. split; [lia | exact H3].
Qed.

Lemma tetrisReady_tallied : tallied tetrisReady.
Proof.
  constructor; try (vm_compute; congruence); try reflexivity.
  apply noFull_forallb. vm_compute. reflexivity.
Qed.

Lemma lockPiece_at_most_four_lines_witness :
  exists e',
    lockPiece tetrisReady = Ok e'
    /\ 0 <= lines e' - lines tetrisReady <= 4
    /\ totalLines (stats e') - totalLines (stats tetrisReady)
       = lines e' - lines tetrisReady
    /\ tallied e'.
Proof.
  exact (lockPiece_at_most_four_lines tetrisReady
           {| ptype := Ty.I; x := -2; y := 16; rotation := 1 |}
           tetrisReady_wf tetrisReady_tallied eq_refl).
Defined.

Lemma lockPiece_total e :
  wfEngine e -> tallied e ->
  exists e', lockPiece e = Ok e' /\ wfEngine e' /\ tallied e' /\ advances e e'.
Proof.
  intros Hwf Ht. destruct (currentPiece e) as [cur|] eqn:Hcur.
  - destruct (lockPiece_step e cur Hwf Ht Hcur) as (e' & H1 & H2 & H3 & H4 & _).
    exists e'. split; [exact H1|]. split; [exact H2|]. split; assumption.
  - exists e. unfold lockPiece. rewrite Hcur.
    split; [reflexivity|]. split; [exact Hwf|]. split; [exact Ht|].
    apply advances_refl.
Qed.

Lemma dropLoop_total fuel : forall e cur d0,
  wfEngine e -> currentPiece e = Some cur -> gameOver e = false ->
  (0 < fuel)%nat -> (-4 <= y cur -> height e - y cur < Z.of_nat fuel) ->
  exists d e',
    dropLoop fuel d0 e = Ok (d, e') /\ wfEngine e' /\ sameCounts e e' /\ d0 <= d.
Proof.
  induction fuel as [|fuel IH]; intros e cur d0 Hwf Hcur Hover Hpos Hfuel; [lia|].
  pose proof (wf_current e Hwf) as Hvalid. rewrite Hcur in Hvalid.
  cbn [validOption] in Hvalid.
  cbn [dropLoop].
  destruct (movePiece_runs e 0 1 cur Hwf Hcur Hover) as (c & Hc & Hrun).
  rewrite Hrun. cbn [bindRes]. destruct c; cbn [negb].
  - exists d0, e. split; [reflexivity|]. split; [exact Hwf|].
    split; [apply sameCounts_refl | lia].
  - change (1 =? 0) with false. cbv iota.
    destruct (free_piece_rows e (move 0 1 cur) Hwf Hvalid Hc) as [Hy _].
    cbn [move y] in Hy.
    set (e1 := set_currentPiece (Some (move 0 1 cur)) e).
    assert (Hwf1 : wfEngine e1) by (apply wfEngine_set_currentPiece; assumption).
    destruct (IH e1 (move 0 1 cur) (d0 + 1) Hwf1 eq_refl Hover)
      as (d & e' & Hloop & Hwf' & Hsame & Hd).
    + lia.
    + cbn [move y]. change (height e1) with (height e). lia.
    + exists d, e'. split; [exact Hloop|]. split; [exact Hwf'|].
      split; [|lia].
      apply (sameCounts_trans e e1); [unfold e1; same_counts | exact Hsame].
Qed.

Lemma hardDrop_step e fuel :
  wfEngine e -> tallied e -> (Z.to_nat (height e) + 5 <= fuel)%nat ->
  exists d e',
    hardDrop fuel e = Ok (d, e') /\ wfEngine e' /\ tallied e' /\ advances e e'
    /\ 0 <= d.
Proof.
  intros Hwf Ht Hfuel. unfold hardDrop.
  destruct (currentPiece e) as [cur|] eqn:Hcur.
  - destruct (gameOver e) eqn:Hover.
    + exists 0, e. split; [reflexivity|]. split; [exact Hwf|].
      split; [exact Ht|]. split; [apply advances_refl | lia].
    + pose proof (wf_height e Hwf) as Hh.
      destruct (dropLoop_total fuel e cur 0 Hwf Hcur Hover)
        as (d & e1 & Hloop & Hwf1 & Hsame & Hd); [lia | lia |].
      rewrite Hloop. cbn [bindRes].
      destruct (lockPiece_total e1 Hwf1 (sameCounts_tallied e e1 Hsame Ht))
        as (e2 & Hlock & Hwf2 & Ht2 & Hadv).
      rewrite Hlock. cbn [bindRes].
      exists d, (set_score (score e2 + d * 2) e2).
      split; [reflexivity|].
      assert (Hs : sameCounts e2 (set_score (score e2 + d * 2) e2))
        by same_counts.
      split; [eapply wfEngine_ext; [..|exact Hwf2]; reflexivity|].
      split; [exact (sameCounts_tallied _ _ Hs Ht2)|].
      split; [|lia].
      apply (advances_trans e e1); [exact (sameCounts_advances _ _ Hsame)|].
      apply (advances_trans e1 e2); [exact Hadv|].
      exact (sameCounts_advances _ _ Hs).
  - exists 0, e. split; [reflexivity|]. split; [exact Hwf|].
    split; [exact Ht|]. split; [apply advances_refl | lia].
Qed.

Lemma update_step e deltaTime :
  wfEngine e -> tallied e ->
  exists e', update deltaTime e = Ok e' /\ wfEngine e' /\ tallied e' /\ advances e e'.
Proof.
  intros Hwf Ht. unfold update.
  destruct (currentPiece e) as [cur|] eqn:Hcur;
    [|exists e; split; [reflexivity|]; split; [exact Hwf|]; split;
      [exact Ht | apply advances_refl]].
  destruct (gameOver e) eqn:Hover;
    [exists e; split; [reflexivity|]; split; [exact Hwf|]; split;
      [exact Ht | apply advances_refl]|].
  set (e1 := set_dropTimer (dropTimer e + deltaTime) e).
  assert (Hwf1 : wfEngine e1)
    by (eapply wfEngine_ext; [..|exact Hwf]; reflexivity).
  assert (Hs1 : sameCounts e e1) by (unfold e1; same_counts).
  assert (Hstep : exists e2,
             (if dropTimer e1 >=? dropInterval e1
              then
                do r <- movePiece 0 1 e1;
                let (moved, e2) := r in
                Ok (set_dropTimer 0
                      (if negb moved && negb (isLocking e2)
                       then set_lockTimer 0 (set_isLocking true e2)
                       else e2))
              else Ok e1) = Ok e2
             /\ wfEngine e2 /\ sameCounts e e2).
  { destruct (dropTimer e1 >=? dropInterval e1).
    - destruct (movePiece_step e1 0 1 Hwf1) as (moved & e2 & Hmove & Hwf2 & Hs2).
      rewrite Hmove. cbn [bindRes].
      eexists. split; [reflexivity|].
      split.
      + destruct (negb moved && negb (isLocking e2));
          (eapply wfEngine_ext; [..|exact Hwf2]; reflexivity).
      + apply (sameCounts_trans e e1 _ Hs1), (sameCounts_trans e1 e2 _ Hs2).
        destruct (negb moved && negb (isLocking e2)); same_counts.
    - exists e1. split; [reflexivity|]. split; assumption. }
  destruct Hstep as (e2 & -> & Hwf2 & Hs2). cbn [bindRes].
  destruct (isLocking e2).
  - set (e3 := set_lockTimer (lockTimer e2 + deltaTime) e2).
    assert (Hwf3 : wfEngine e3)
      by (eapply wfEngine_ext; [..|exact Hwf2]; reflexivity).
    assert (Hs3 : sameCounts e e3)
      by (apply (sameCounts_trans e e2 _ Hs2); unfold e3; same_counts).
    destruct (lockTimer e3 >=? lockDelay e3).
    + destruct (lockPiece_total e3 Hwf3 (sameCounts_tallied _ _ Hs3 Ht))
        as (e4 & Hlock & Hwf4 & Ht4 & Hadv).
      exists e4. split; [exact Hlock|]. split; [exact Hwf4|]. split; [exact Ht4|].
      exact (advances_trans _ _ _ (sameCounts_advances _ _ Hs3) Hadv).
    + exists e3. split; [reflexivity|]. split; [exact Hwf3|].
      split; [exact (sameCounts_tallied _ _ Hs3 Ht)|].
      exact (sameCounts_advances _ _ Hs3).
  - exists e2. split; [reflexivity|]. split; [exact Hwf2|].
    split; [exact (sameCounts_tallied _ _ Hs2 Ht)|].
    exact (sameCounts_advances _ _ Hs2).
Qed.

Lemma pushGarbageLine_iter_form m : forall e,
  exists b r, Nat.iter m pushGarbageLine e = set_random r (set_board b e).
Proof.
  induction m as [|m IH]; intros e.
  - exists (board e), (random e). destruct e. reflexivity.
  - change (Nat.iter (Datatypes.S m) pushGarbageLine e)
      with (pushGarbageLine (Nat.iter m pushGarbageLine e)).
    destruct (IH e) as (b & r & ->). unfold pushGarbageLine.
    destruct (randomBelow _ _) as [hole r']. eexists _, _. reflexivity.
Qed.

Lemma hole_notFull (row : Row) i : js_get row i = Some None -> rowFull row = false.
Proof.
  intros H. apply js_get_In in H. unfold rowFull.
  destruct (forallb _ row) eqn:Hall; [|reflexivity].
  rewrite forallb_forall in Hall. specialize (Hall None H).
  apply bool_decide_eq_true in Hall. congruence.
Qed.

Lemma receiveAttack_runs e n :
  wfEngine e -> n <= height e ->
  exists e',
    receiveAttack n e = Ok e' /\ wfEngine e'
    /\ (n <= 0 -> e' = e)
    /\ (0 < n ->
        sameCounts (set_board (board e') e) e'
        /\ board e'
           = drop (Z.to_nat n) (board e)
             ++ map (garbageRowAt e) (seq 0 (Z.to_nat n))).
Proof.
  intros Hwf Hn.
  assert (Hrun : exists e', receiveAttack n e = Ok e'
                            /\ (n <= 0 -> e' = e)
                            /\ (0 < n ->
                                sameCounts (set_board (board e') e) e'
                                /\ board e'
                                   = drop (Z.to_nat n) (board e)
                                     ++ map (garbageRowAt e) (seq 0 (Z.to_nat n)))).
  { unfold receiveAttack. destruct (Z.leb_spec n 0) as [Hle|Hpos].
    - exists e. split; [reflexivity|]. split; [reflexivity | lia].
    - set (m := Z.to_nat n).
      set (e1 := set_board (Nat.iter m (@tail Row) (board e)) e).
      destruct (pushGarbageLine_iter e1 m)
        as (Hb & _ & _ & Hw2 & Hh2 & Hc2 & _ & Hn2).
      destruct (pushGarbageLine_iter_form m e1) as (b & r & Hform).
      cbv zeta in *. set (e2 := Nat.iter m pushGarbageLine e1) in *.
      assert (Hb2 : board e2 = drop m (board e) ++ map (garbageRowAt e) (seq 0 m)).
      { rewrite Hb. unfold e1. esimpl. rewrite iter_tail. reflexivity. }
      assert (Hwf2 : wfEngine e2).
      { destruct Hwf as [H1 H2 H3 H4 H5]. constructor.
        - rewrite Hw2. exact H1.
        - rewrite Hh2. exact H2.
        - rewrite Hw2, Hh2, Hb2. unfold e1. esimpl.
          apply (rectangular_garbage e n); [constructor; assumption | lia].
        - rewrite Hc2. exact H4.
        - rewrite Hn2. exact H5. }
      assert (Hs2 : sameCounts (set_board (board e2) e) e2).
      { clearbody e2. subst e2. unfold e1. same_counts. }
      destruct (currentPiece e2) as [cur|] eqn:Hcur.
      + pose proof (wf_current e2 Hwf2) as Hvalid. rewrite Hcur in Hvalid.
        destruct (isColliding_total e2 cur Hwf2 Hvalid) as [c Hc].
        rewrite Hc. cbn [bindRes].
        destruct c; eexists; (split; [reflexivity|]); (split; [lia|]);
          intros _; esimpl; (split; [|exact Hb2]).
        * apply (sameCounts_trans _ e2 _ Hs2). same_counts.
        * exact Hs2.
      + exists e2. split; [reflexivity|]. split; [lia|].
        intros _. split; [exact Hs2 | exact Hb2]. }
  destruct Hrun as (e' & Hrun & Hnop & Hpos).
  exists e'. split; [exact Hrun|].
  split; [exact (receiveAttack_wf n e e' Hwf Hn Hrun)|]. split; assumption.
Qed.

Lemma receiveAttack_step e n :
  wfEngine e -> tallied e -> n <= height e ->
  exists e', receiveAttack n e = Ok e' /\ wfEngine e' /\ tallied e' /\ advances e e'.
Proof.
  intros Hwf Ht Hn.
  destruct (receiveAttack_runs e n Hwf Hn) as (e' & Hrun & Hwf' & Hnop & Hpos).
  exists e'. split; [exact Hrun|]. split; [exact Hwf'|].
  destruct (Z.leb_spec n 0) as [Hle|Hgt].
  - rewrite (Hnop Hle). split; [exact Ht | apply advances_refl].
  - destruct (Hpos Hgt) as [Hs Hb].
    assert (Ht0 : tallied (set_board (board e') e)).
    { destruct Ht as [T1 T2 T3 T4 T5]. constructor; esimpl; try assumption.
      rewrite Hb. apply Forall_app. split.
      - apply List.Forall_forall. intros row Hin.
        rewrite List.Forall_forall in T1. apply T1.
        apply list_elem_of_In, (subseteq_drop (Z.to_nat n) (board e)).
        apply list_elem_of_In, Hin.
      - apply List.Forall_forall. intros row Hin.
        apply in_map_iff in Hin as (i & <- & _).
        apply (hole_notFull _ (holeAt e i)).
        apply (garbageRowAt_shape e i (wf_width e Hwf)). }
    split; [exact (sameCounts_tallied _ _ Hs Ht0)|].
    apply (advances_trans e (set_board (board e') e));
      [|exact (sameCounts_advances _ _ Hs)].
    constructor; esimpl; try reflexivity; try tauto; lia.
Qed.

Lemma call_step c e :
  wfEngine e -> tallied e -> attackFits (height e) c -> c <> HoldPiece ->
  exists e', call c e = Ok e' /\ wfEngine e' /\ tallied e' /\ advances e e'.
Proof.
  intros Hwf Ht Hfit Hc. destruct c as [dx dy|cw| | | |dt| |n]; cbn [call].
  - destruct (movePiece_step e dx dy Hwf) as (b & e' & -> & Hwf' & Hs).
    exists e'. split; [reflexivity|]. split; [exact Hwf'|].
    split; [exact (sameCounts_tallied _ _ Hs Ht) | exact (sameCounts_advances _ _ Hs)].
  - destruct (rotatePiece_step e (if cw then 1 else -1) Hwf)
      as (b & e' & -> & Hwf' & Hs); [destruct cw; auto|].
    exists e'. split; [reflexivity|]. split; [exact Hwf'|].
    split; [exact (sameCounts_tallied _ _ Hs Ht) | exact (sameCounts_advances _ _ Hs)].
  - unfold softDrop.
    destruct (movePiece_step e 0 1 Hwf) as (b & e' & -> & Hwf' & Hs).
    exists e'. split; [reflexivity|]. split; [exact Hwf'|].
    split; [exact (sameCounts_tallied _ _ Hs Ht) | exact (sameCounts_advances _ _ Hs)].
  - destruct (hardDrop_step e (dropFuel e) Hwf Ht)
      as (d & e' & -> & Hwf' & Ht' & Hadv & _); [unfold dropFuel; lia|].
    exists e'. split; [reflexivity|]. split; [exact Hwf'|]. split; assumption.
  - contradiction.
  - exact (update_step e dt Hwf Ht).
  - exact (lockPiece_total e Hwf Ht).
  - exact (receiveAttack_step e n Hwf Ht Hfit).
Qed.

Lemma calls_steps cs : forall e,
  wfEngine e -> tallied e -> Forall (attackFits (height e)) cs ->
  ~ In HoldPiece cs ->
  exists e', calls cs e = Ok e' /\ wfEngine e' /\ tallied e' /\ advances e e'.
Proof.
  induction cs as [|c cs IH]; intros e Hwf Ht Hfit Hno.
  - exists e. split; [reflexivity|]. split; [exact Hwf|]. split; [exact Ht|].
    apply advances_refl.
  - apply Forall_cons in Hfit as [Hc Hcs]. cbn [calls].
    destruct (call_step c e Hwf Ht Hc) as (e1 & -> & Hwf1 & Ht1 & Hadv1).
    { intros ->. apply Hno. left. reflexivity. }
    cbn [bindRes].
    destruct (IH e1 Hwf1 Ht1) as (e' & Hrun & Hwf' & Ht' & Hadv').
    { rewrite (adv_height _ _ Hadv1). exact Hcs. }
    { intros Hin. apply Hno. right. exact Hin. }
    exists e'. split; [exact Hrun|]. split; [exact Hwf'|]. split; [exact Ht'|].
    exact (advances_trans _ _ _ Hadv1 Hadv').
Qed.

(** A sequence that completes holds no [holdPiece()]. *)
Lemma calls_Ok_no_hold cs : forall e e',
  calls cs e = Ok e' -> ~ In HoldPiece cs.
Proof.
  induction cs as [|c cs IH]; intros e e' Hrun; [intros []|].
  cbn [calls] in Hrun.
  destruct (call c e) as [e1| |] eqn:Hc; cbn [bindRes] in Hrun;
    try discriminate Hrun.
  intros [->|Hin]; [|exact (IH _ _ Hrun Hin)].
  cbn [call] in Hc. rewrite holdPiece_raises in Hc. discriminate Hc.
Qed.

(** A sequence with a [holdPiece()] stops there. *)
Lemma calls_hold_raises cs : forall e,
  wfEngine e -> tallied e -> Forall (attackFits (height e)) cs ->
  In HoldPiece cs -> calls cs e = TypeError.
Proof.
  induction cs as [|c cs IH]; intros e Hwf Ht Hfit Hin; [destruct Hin|].
  apply Forall_cons in Hfit as [Hc Hcs]. cbn [calls].
  assert (Hd : c = HoldPiece \/ c <> HoldPiece)
    by (destruct c; first [left; reflexivity | right; discriminate]).
  destruct Hd as [->|Hne].
  - cbn [call]. rewrite holdPiece_raises. reflexivity.
  - destruct (call_step c e Hwf Ht Hc Hne) as (e1 & -> & Hwf1 & Ht1 & Hadv1).
    cbn [bindRes]. apply (IH e1 Hwf1 Ht1).
    + rewrite (adv_height _ _ Hadv1). exact Hcs.
    + destruct Hin as [Heq|Hin]; [congruence | exact Hin].
Qed.

(** *** The hold slot under the calls *)

Lemma holdKept_refl e : holdKept e e.
Proof. split; [reflexivity | tauto]. Qed.

Lemma holdKept_trans e1 e2 e3 : holdKept e1 e2 -> holdKept e2 e3 -> holdKept e1 e3.
Proof. intros [H1 H2] [H3 H4]. split; [congruence | tauto]. Qed.

(** An engine that differs from [e] in other fields only. *)
Ltac hold_kept := unfold holdKept; esimpl; split; [reflexivity | tauto].

Lemma movePiece_holdKept dx dy e b e' :
  movePiece dx dy e = Ok (b, e') -> holdKept e e'.
Proof.
  unfold movePiece.
  destruct (currentPiece e) as [cur|];
    [|intros H; injection H as _ <-; apply holdKept_refl].
  destruct (gameOver e); [intros H; injection H as _ <-; apply holdKept_refl|].
  destruct (isColliding _ _) as [[]| |]; cbn [bindRes]; try discriminate;
    intros H; injection H as _ <-; [|destruct (dy =? 0)]; hold_kept.
Qed.

Lemma rotatePiece_holdKept direction e b e' :
  rotatePiece direction e = Ok (b, e') -> holdKept e e'.
Proof.
  unfold rotatePiece.
  destruct (currentPiece e) as [cur|];
    [|intros H; injection H as _ <-; apply holdKept_refl].
  destruct (gameOver e); [intros H; injection H as _ <-; apply holdKept_refl|].
  destruct (kickLoop _ _ _) as [[[] cur1]| |]; cbn [bindRes]; try discriminate;
    intros H; injection H as _ <-; hold_kept.
Qed.

Lemma lockPiece_holdKept e e' : lockPiece e = Ok e' -> holdKept e e'.
Proof.
  intros Hlock. destruct (currentPiece e) as [cur|] eqn:Hcur.
  - destruct (lockPiece_spawns e e' cur Hcur Hlock) as (H1 & _ & _ & H2 & _).
    split; [exact H2 | intros _; exact H1].
  - unfold lockPiece in Hlock. rewrite Hcur in Hlock. injection Hlock as <-.
    apply holdKept_refl.
Qed.

Lemma dropLoop_holdKept fuel : forall d e d' e',
  dropLoop fuel d e = Ok (d', e') -> holdKept e e'.
Proof.
  induction fuel as [|fuel IH]; intros d e d' e' Hrun; [discriminate Hrun|].
  cbn [dropLoop] in Hrun.
  destruct (movePiece 0 1 e) as [[moved e1]| |] eqn:Hm; cbn [bindRes] in Hrun;
    try discriminate Hrun.
  apply movePiece_holdKept in Hm. destruct moved.
  - exact (holdKept_trans _ _ _ Hm (IH _ _ _ _ Hrun)).
  - injection Hrun as _ <-. exact Hm.
Qed.

Lemma hardDrop_holdKept fuel e d e' :
  hardDrop fuel e = Ok (d, e') -> holdKept e e'.
Proof.
  unfold hardDrop.
  destruct (currentPiece e);
    [|intros H; injection H as _ <-; apply holdKept_refl].
  destruct (gameOver e); [intros H; injection H as _ <-; apply holdKept_refl|].
  destruct (dropLoop fuel 0 e) as [[d1 e1]| |] eqn:Hd; cbn [bindRes];
    try discriminate.
  destruct (lockPiece e1) as [e2| |] eqn:Hl; cbn [bindRes]; try discriminate.
  intros H. injection H as _ <-.
  apply dropLoop_holdKept in Hd. apply lockPiece_holdKept in Hl.
  apply (holdKept_trans _ _ _ Hd), (holdKept_trans _ _ _ Hl). hold_kept.
Qed.

Lemma update_holdKept deltaTime e e' :
  update deltaTime e = Ok e' -> holdKept e e'.
Proof.
  unfold update.
  destruct (currentPiece e); [|intros H; injection H as <-; apply holdKept_refl].
  destruct (gameOver e); [intros H; injection H as <-; apply holdKept_refl|].
  cbv zeta. set (e1 := set_dropTimer (dropTimer e + deltaTime) e).
  assert (H1 : holdKept e e1) by (unfold e1; hold_kept).
  assert (Hlast : forall e2 e3,
             holdKept e e2 ->
             (if isLocking e2
              then if lockTimer (set_lockTimer (lockTimer e2 + deltaTime) e2)
                      >=? lockDelay (set_lockTimer (lockTimer e2 + deltaTime) e2)
                   then lockPiece (set_lockTimer (lockTimer e2 + deltaTime) e2)
                   else Ok (set_lockTimer (lockTimer e2 + deltaTime) e2)
              else Ok e2) = Ok e3 ->
             holdKept e e3).
  { intros e2 e3 H2. destruct (isLocking e2);
      [|intros H; injection H as <-; exact H2].
    destruct (_ >=? _); intros H.
    - apply lockPiece_holdKept in H.
      apply (holdKept_trans _ _ _ H2). refine (holdKept_trans _ _ _ _ H).
      hold_kept.
    - injection H as <-. apply (holdKept_trans _ _ _ H2). hold_kept. }
  destruct (dropTimer e1 >=? dropInterval e1).
  - destruct (movePiece 0 1 e1) as [[moved e2]| |] eqn:Hm; cbn [bindRes];
      try discriminate.
    apply movePiece_holdKept in Hm. apply Hlast.
    apply (holdKept_trans _ _ _ H1), (holdKept_trans _ _ _ Hm).
    destruct (negb moved && negb (isLocking e2)); hold_kept.
  - cbn [bindRes]. apply Hlast. exact H1.
Qed.

Lemma receiveAttack_holdKept n e e' :
  receiveAttack n e = Ok e' -> holdKept e e'.
Proof.
  unfold receiveAttack.
  destruct (n <=? 0); [intros H; injection H as <-; apply holdKept_refl|].
  cbv zeta.
  destruct (pushGarbageLine_iter_form (Z.to_nat n)
              (set_board (Nat.iter (Z.to_nat n) (@tail Row) (board e)) e))
    as (b & r & ->).
  esimpl.
  destruct (currentPiece e); [|intros H; injection H as <-; hold_kept].
  destruct (isColliding _ _) as [[]| |]; cbn [bindRes]; try discriminate;
    intros H; injection H as <-; hold_kept.
Qed.

Lemma call_holdKept c e e' : call c e = Ok e' -> holdKept e e'.
Proof.
  destruct c as [dx dy|cw| | | |dt| |n]; cbn [call].
  - destruct (movePiece dx dy e) as [[b e1]| |] eqn:H; cbn [bindRes];
      try discriminate.
    intros H1. injection H1 as <-. exact (movePiece_holdKept _ _ _ _ _ H).
  - destruct (rotatePiece _ e) as [[b e1]| |] eqn:H; cbn [bindRes];
      try discriminate.
    intros H1. injection H1 as <-. exact (rotatePiece_holdKept _ _ _ _ H).
  - unfold softDrop.
    destruct (movePiece 0 1 e) as [[b e1]| |] eqn:H; cbn [bindRes];
      try discriminate.
    intros H1. injection H1 as <-. exact (movePiece_holdKept _ _ _ _ _ H).
  - destruct (hardDrop _ e) as [[d e1]| |] eqn:H; cbn [bindRes];
      try discriminate.
    intros H1. injection H1 as <-. exact (hardDrop_holdKept _ _ _ _ H).
  - rewrite holdPiece_raises. discriminate.
  - apply update_holdKept.
  - apply lockPiece_holdKept.
  - apply receiveAttack_holdKept.
Qed.

Lemma calls_holdKept cs : forall e e', calls cs e = Ok e' -> holdKept e e'.
Proof.
  induction cs as [|c cs IH]; intros e e' Hrun.
  - injection Hrun as <-. apply holdKept_refl.
  - cbn [calls] in Hrun.
    destruct (call c e) as [e1| |] eqn:Hc; cbn [bindRes] in Hrun;
      try discriminate Hrun.
    exact (holdKept_trans _ _ _ (call_holdKept _ _ _ Hc) (IH _ _ Hrun)).
Qed.

Lemma newEngine_hold w h r e :
  newEngine w h r = Ok e -> heldPiece e = None /\ canHold e = true.
Proof.
  unfold newEngine, newPieceGenerator.
  destruct (refillBag _ r) as [g r1]. unfold initializeGame.
  destruct (getNext _ _) as [[p g2] r2]. intros Hspawn.
  apply spawnNewPiece_resets in Hspawn as (H1 & _ & _ & H4 & _).
  split; [rewrite H4; reflexivity | exact H1].
Qed.

Lemma newEngine_tallied w h r e :
  0 < w -> newEngine w h r = Ok e -> tallied e /\ width e = w /\ height e = h.
Proof.
  intros Hw. unfold newEngine, newPieceGenerator.
  destruct (refillBag _ r) as [g r1]. unfold initializeGame.
  destruct (getNext _ _) as [[p g2] r2]. intros Hspawn.
  apply spawnNewPiece_counts in Hspawn.
  match type of Hspawn with sameCounts ?t _ => set (e0 := t) in * end.
  assert (Ht0 : tallied e0).
  { constructor; unfold e0; try (cbn; lia); try reflexivity.
    change (Forall (fun row : Row => rowFull row = false)
              (replicate (Z.to_nat h) (replicate (Z.to_nat w) None))).
    apply Forall_replicate.
    destruct (Z.to_nat w) as [|n] eqn:Hn; [lia | reflexivity]. }
  split; [exact (sameCounts_tallied _ _ Hspawn Ht0)|].
  split; [exact (counts_width _ _ Hspawn) | exact (counts_height _ _ Hspawn)].
Qed.

(** X13.  A game breaks the engine at [holdPiece()] and nowhere else.
    From a new engine of positive width, any sequence of calls of
    [movePiece], [rotatePiece] (by 1 or -1), [softDrop], [hardDrop],
    [update], [lockPiece] and [receiveAttack] (with no more lines than the
    field has rows) completes: no call raises an error, and the loop of
    [hardDrop] ends within [height + 5] turns; after it the board still
    has [height] rows of [width] cells and holds no completed row, the
    piece indices are inside the shape tables, a next piece is waiting,
    and the counters are in order ([tallied]).  A sequence with a call of
    [holdPiece()] among them does not complete: it stops with a
    [TypeError]. *)
Theorem calls_fail_at_hold_only (w h : Z) (r : Random) (cs : list Call) :
  0 < w -> 0 <= h -> Forall (attackFits h) cs ->
  exists e0,
    newEngine w h r = Ok e0
    /\ (~ In HoldPiece cs ->
        exists e', calls cs e0 = Ok e' /\ wfEngine e' /\ tallied e')
    /\ (In HoldPiece cs -> calls cs e0 = TypeError).
Proof.
  intros Hw Hh Hfit.
  destruct (newEngine_wf w h r Hw Hh) as (e0 & Hnew & Hwf0).
  destruct (newEngine_tallied w h r e0 Hw Hnew) as (Ht0 & _ & Hh0).
  rewrite <- Hh0 in Hfit.
  exists e0. split; [exact Hnew|]. split.
  - intros Hno.
    destruct (calls_steps cs e0 Hwf0 Ht0 Hfit Hno) as (e' & Hrun & Hwf' & Ht' & _).
    exists e'. split; [exact Hrun|]. split; assumption.
  - exact (calls_hold_raises cs e0 Hwf0 Ht0 Hfit).
Qed.

Lemma calls_fail_at_hold_only_witness :
  exists e0,
    newEngine 10 20 demoRandom = Ok e0
    /\ (exists e',
          calls [RotatePiece true; MovePiece (-3) 0; HardDrop; ReceiveAttack 4;
                 Update 1000; SoftDrop; LockPiece] e0 = Ok e'
          /\ wfEngine e' /\ tallied e')
    /\ calls [RotatePiece true; MovePiece (-3) 0; HardDrop; HoldPiece;
              Update 1000] e0 = TypeError.
Proof.
  destruct (calls_fail_at_hold_only 10 20 demoRandom
              [RotatePiece true; MovePiece (-3) 0; HardDrop; ReceiveAttack 4;
               Update 1000; SoftDrop; LockPiece])
    as (e0 & Hnew & Hruns & _); [lia | lia | repeat constructor; cbn; lia |].
  destruct (calls_fail_at_hold_only 10 20 demoRandom
              [RotatePiece true; MovePiece (-3) 0; HardDrop; HoldPiece;
               Update 1000])
    as (e1 & Hnew1 & _ & Hraises); [lia | lia | repeat constructor |].
  rewrite Hnew in Hnew1. injection Hnew1 as <-.
  exists e0. split; [exact Hnew|]. split.
  - apply Hruns. intros Hin.
    repeat (destruct Hin as [Hin|Hin]; [discriminate Hin|]). exact Hin.
  - apply Hraises. right; right; right; left. reflexivity.
Defined.

(** X9.  The hold slot is never used.  A sequence of calls that completes
    holds no [holdPiece()], and none of the other methods ([movePiece],
    [rotatePiece], [softDrop], [hardDrop], [update], [lockPiece],
    [receiveAttack]) writes the slot or switches hold off: after it the
    field [holdPiece] of the engine is what it was and [canHold], once
    true, is still true.  On an engine made by the constructor the field
    is therefore [null] and [canHold] is true after any sequence of calls
    that completes. *)
Theorem hold_slot_never_filled (cs : list Call) (e e' : Engine) :
  calls cs e = Ok e' ->
  ~ In HoldPiece cs
  /\ heldPiece e' = heldPiece e
  /\ (canHold e = true -> canHold e' = true)
  /\ (forall w h r, newEngine w h r = Ok e ->
        heldPiece e' = None /\ getHoldPiece e' = NullValue /\ canHold e' = true).
Proof.
  intros Hrun.
  destruct (calls_holdKept cs e e' Hrun) as [Hheld Hcan].
  split; [exact (calls_Ok_no_hold cs e e' Hrun)|].
  split; [exact Hheld|]. split; [exact Hcan|].
  intros w h r Hnew. destruct (newEngine_hold w h r e Hnew) as [H1 H2].
  assert (Hnone : heldPiece e' = None) by congruence.
  split; [exact Hnone|]. split; [|exact (Hcan H2)].
  unfold getHoldPiece. rewrite Hnone. reflexivity.
Qed.

Lemma hold_slot_never_filled_witness :
  exists e',
    calls [HardDrop; MovePiece 1 0; Update 1000; LockPiece; ReceiveAttack 2]
      freshEngine = Ok e'
    /\ heldPiece e' = None /\ canHold e' = true.
Proof.
  assert (Hrun : exists e',
             calls [HardDrop; MovePiece 1 0; Update 1000; LockPiece;
                    ReceiveAttack 2] freshEngine = Ok e')
    by (eexists; vm_compute; reflexivity).
  destruct Hrun as [e' Hrun].
  destruct (hold_slot_never_filled _ freshEngine e' Hrun) as (_ & _ & _ & Hnew).
  destruct (Hnew 10 20 demoRandom) as (H1 & _ & H2); [vm_compute; reflexivity|].
  exists e'. split; [exact Hrun|]. split; assumption.
Defined.

(** X14.  Nothing that counts progress ever goes back.  Over any sequence
    of calls on an engine in order, [gameOver] once set stays set, the
    score, the level, the line count and the number of pieces never
    decrease, the drop interval never grows, and the size of the field
    stays the same. *)
Theorem calls_advance (e e' : Engine) (cs : list Call) :
  wfEngine e -> tallied e -> Forall (attackFits (height e)) cs ->
  calls cs e = Ok e' ->
  (gameOver e = true -> gameOver e' = true)
  /\ score e <= score e' /\ level e <= level e' /\ lines e <= lines e'
  /\ totalPieces (stats e) <= totalPieces (stats e')
  /\ dropInterval e' <= dropInterval e
  /\ width e' = width e /\ height e' = height e.
Proof.
  intros Hwf Ht Hfit Hrun.
  destruct (calls_steps cs e Hwf Ht Hfit (calls_Ok_no_hold cs e e' Hrun))
    as (e1 & Hrun1 & _ & _ & Hadv).
  rewrite Hrun in Hrun1. injection Hrun1 as <-.
  destruct Hadv. repeat split; assumption.
Qed.

Lemma freshEngine_tallied : tallied freshEngine.
Proof.
  constructor; try (vm_compute; congruence); try reflexivity.
  apply noFull_forallb. vm_compute. reflexivity.
Qed.

Lemma calls_advance_witness :
  exists e',
    calls [HardDrop; HardDrop; ReceiveAttack 3; Update 16] freshEngine = Ok e'
    /\ score freshEngine <= score e' /\ level freshEngine <= level e'
    /\ lines freshEngine <= lines e'
    /\ dropInterval e' <= dropInterval freshEngine.
Proof.
  assert (Hfit : Forall (attackFits (height freshEngine))
                   [HardDrop; HardDrop; ReceiveAttack 3; Update 16]).
  { repeat constructor. vm_compute. congruence. }
  assert (Hrun : exists e', calls [HardDrop; HardDrop; ReceiveAttack 3; Update 16]
                              freshEngine = Ok e')
    by (eexists; vm_compute; reflexivity).
  destruct Hrun as [e' Hrun].
  destruct (calls_advance freshEngine e' _ freshEngine_wf freshEngine_tallied
              Hfit Hrun) as (_ & H1 & H2 & H3 & _ & H4 & _).
  exists e'. repeat split; assumption.
Defined.

(** ** Attacks fit the standard field *)

(** X15.  The attack that [getAttackLines] computes, whatever the clear
    and the state of the attacker, is between 0 and 20 lines; so on a
    field in order of at least 20 rows [receiveAttack] of it completes and
    leaves the board with as many rows as before. *)
Theorem getAttackLines_fits_field (a d : Engine) (cleared : Z) (spin : bool) :
  wfEngine d -> 20 <= height d ->
  0 <= getAttackLines cleared spin a <= 20
  /\ exists d',
      receiveAttack (getAttackLines cleared spin a) d = Ok d'
      /\ length (board d') = length (board d) /\ wfEngine d'.
Proof.
  intros Hwf Hh.
  assert (Hb : 0 <= getAttackLines cleared spin a <= 20).
  { unfold getAttackLines.
    assert (Ht : 0 <= (if spin
                       then match cleared with
                            | 0 => 0 | 1 => 2 | 2 => 4 | 3 => 6 | _ => 0 end
                       else match cleared with
                            | 1 => 0 | 2 => 1 | 3 => 2 | 4 => 4 | _ => 0 end) <= 6).
    { destruct spin;
        (destruct cleared as [|q|q]; [lia| |lia];
         do 3 (try destruct q as [q|q|]); lia). }
    destruct (Z.gtb_spec (combo a) 1); destruct (isPerfectClear a); lia. }
  split; [exact Hb|].
  destruct (receiveAttack_runs d (getAttackLines cleared spin a) Hwf)
    as (d' & Hrun & Hwf' & Hnop & Hpos); [lia|].
  exists d'. split; [exact Hrun|]. split; [|exact Hwf'].
  destruct (Z.leb_spec (getAttackLines cleared spin a) 0) as [Hle|Hgt].
  - rewrite (Hnop Hle). reflexivity.
  - destruct (Hpos Hgt) as [_ ->].
    pose proof (rectangular_length _ _ _ (wf_board d Hwf)) as Hlen.
    rewrite length_app, length_drop, length_map, length_seq. lia.
Qed.

Lemma getAttackLines_fits_field_witness :
  0 <= getAttackLines 4 false freshEngine <= 20
  /\ exists d',
      receiveAttack (getAttackLines 4 false freshEngine) freshEngine = Ok d'
      /\ length (board d') = length (board freshEngine) /\ wfEngine d'.
Proof.
  apply (getAttackLines_fits_field freshEngine freshEngine 4 false freshEngine_wf).
  vm_compute. congruence.
Defined.

(** ** Reset *)

Lemma emptyBoard_free e b :
  board e = createEmptyBoard e ->
  0 <= bx b < width e -> 0 <= by_ b < height e -> blocked e b = false.
Proof.
  intros Hb Hx Hy. unfold blocked, cellTaken. rewrite Hb.
  unfold createEmptyBoard, emptyRow, js_get.
  destruct (Z.ltb_spec (bx b) 0); [lia|].
  destruct (Z.ltb_spec (by_ b) 0); [lia|].
  rewrite !Z.geb_leb.
  destruct (Z.leb_spec (width e) (bx b)); [lia|].
  destruct (Z.leb_spec (height e) (by_ b)); [lia|].
  rewrite lookup_replicate_2 by lia. rewrite lookup_replicate_2 by lia.
  reflexivity.
Qed.

Lemma newEngine_fields w h r e :
  7 <= w -> 4 <= h -> newEngine w h r = Ok e ->
  gameOver e = false /\ score e = 0 /\ lines e = 0 /\ level e = 1
  /\ combo e = 0 /\ heldPiece e = None /\ canHold e = true
  /\ board e = createEmptyBoard e.
Proof.
  intros Hw Hh. unfold newEngine, newPieceGenerator.
  destruct (refillBag _ r) as [g r1]. unfold initializeGame.
  destruct (getNext_Some (pieceGenerator
                            (set_board (createEmptyBoard (blankEngine w h g r1))
                               (blankEngine w h g r1)))
              (random (set_board (createEmptyBoard (blankEngine w h g r1))
                         (blankEngine w h g r1))))
    as (t & g2 & r2 & ->).
  match goal with |- spawnNewPiece ?t = _ -> _ => set (e0 := t) end.
  intros Hspawn.
  assert (Hwf0 : wfEngine e0).
  { constructor; unfold e0; cbn [width height board currentPiece nextPiece
      set_random set_pieceGenerator set_nextPiece set_board blankEngine];
      try lia.
    - apply (rectangular_createEmptyBoard (blankEngine w h g r1)).
    - exact I.
    - eexists. split; [reflexivity | apply newTetrisPiece0_valid]. }
  destruct (spawnNewPiece_runs e0 (newTetrisPiece0 t) eq_refl
              (newTetrisPiece0_valid t))
    as (e1 & Hrun & [S1 S2 S3 S4 S5 S6 S7 _] & Hcur & Hover & _).
  { rewrite (rectangular_length _ _ _ (wf_board e0 Hwf0)). lia. }
  rewrite Hspawn in Hrun. injection Hrun as <-.
  destruct (spawnNewPiece_resets e0 e Hspawn) as (R1 & _ & _ & R4 & _).
  assert (Hfree : isColliding e0 (newTetrisPiece0 t) = Ok false).
  { destruct (isColliding_blocked e0 (newTetrisPiece0 t) Hwf0
                (newTetrisPiece0_valid t)) as (blocks & _ & _ & Hbox & ->).
    f_equal. apply not_true_is_false. intros Hex.
    apply existsb_exists in Hex as (b & Hin & Hbl).
    rewrite List.Forall_forall in Hbox. destruct (Hbox b Hin) as [Hx Hy].
    cbn [newTetrisPiece0 newTetrisPiece x y] in Hx, Hy.
    rewrite (emptyBoard_free e0 b) in Hbl; [discriminate Hbl|reflexivity| |];
      unfold e0; cbn; lia. }
  rewrite Hfree in Hover. cbn [yields] in Hover.
  rewrite Hover, S4, S5, S6, S7, R1, R4.
  unfold createEmptyBoard, emptyRow. rewrite S1, S2, S3.
  repeat split; reflexivity.
Qed.

(** X16.  [reset()] brings the engine into the state of a new engine of
    the same size (as far as the random source is the same), whatever
    state it was in: on a field of at least 7 columns and 4 rows the game
    is not over, the board is empty, the score, lines and combo are 0, the
    level is 1, the hold slot is empty and hold is allowed. *)
Theorem reset_is_new_engine (e : Engine) :
  reset e = newEngine (width e) (height e) (random e)
  /\ (7 <= width e -> 4 <= height e ->
      exists e',
        reset e = Ok e' /\ wfEngine e' /\ tallied e'
        /\ width e' = width e /\ height e' = height e
        /\ gameOver e' = false /\ score e' = 0 /\ lines e' = 0 /\ level e' = 1
        /\ combo e' = 0 /\ heldPiece e' = None /\ canHold e' = true
        /\ board e' = createEmptyBoard e').
Proof.
  assert (Heq : reset e = newEngine (width e) (height e) (random e)).
  { unfold reset, newEngine. cbv zeta. esimpl.
    destruct (newPieceGenerator (random e)) as [g r]. reflexivity. }
  split; [exact Heq|]. intros Hw Hh. rewrite Heq.
  destruct (newEngine_wf (width e) (height e) (random e)) as (e' & Hnew & Hwf');
    [lia | lia |].
  destruct (newEngine_tallied (width e) (height e) (random e) e'
              ltac:(lia) Hnew) as (Ht & Hw' & Hh').
  exists e'. split; [exact Hnew|]. split; [exact Hwf'|]. split; [exact Ht|].
  split; [exact Hw'|]. split; [exact Hh'|].
  exact (newEngine_fields _ _ _ e' Hw Hh Hnew).
Qed.

(** ** The measures of the AI player *)

Lemma countClearedLines_count (bd : Board) :
  countClearedLines bd = fullRowCount bd.
Proof.
  unfold countClearedLines, fullRowCount.
  assert (H : forall n, fold_left (fun (n : Z) (row : Row) =>
                                     if rowFull row then n + 1 else n) bd n
                        = n + Z.of_nat (length (List.filter rowFull bd))).
  { induction bd as [|row bd IH]; intros n; cbn [fold_left List.filter].
    - cbn. lia.
    - rewrite IH. destruct (rowFull row); cbn [length]; lia. }
  rewrite H. lia.
Qed.

Lemma rowSome_rowEmpty (row : Row) : rowSome row = negb (rowEmpty row).
Proof.
  unfold rowSome, rowEmpty. induction row as [|c row IH]; [reflexivity|].
  cbn [existsb forallb]. rewrite IH. destruct c; reflexivity.
Qed.

Lemma maxHeightLoop_range rows : forall len y0,
  0 <= y0 -> y0 + Z.of_nat (length rows) = len ->
  0 <= maxHeightLoop rows len y0 <= len - y0
  /\ (maxHeightLoop rows len y0 = 0 <-> forallb rowEmpty rows = true).
Proof.
  induction rows as [|row rows IH]; intros len y0 Hy Hlen.
  - cbn in *. split; [lia|]. split; reflexivity.
  - cbn [maxHeightLoop forallb length] in *. rewrite rowSome_rowEmpty.
    destruct (rowEmpty row); cbn [negb andb].
    + destruct (IH len (y0 + 1)) as [Hr Hz]; [lia | lia |].
      split; [lia | exact Hz].
    + split; [lia|]. split; [lia | discriminate].
Qed.

Lemma occupiedAt_total (bd : Board) y0 x0 :
  (y0 < length bd)%nat -> exists o, occupiedAt bd y0 x0 = Ok o.
Proof.
  intros Hy. unfold occupiedAt.
  destruct (lookup_lt_is_Some_2 bd y0 Hy) as [row ->]. eauto.
Qed.

Lemma holesInColumn_found bd x0 n : forall y0 holes,
  (y0 + n <= length bd)%nat ->
  exists k, holesInColumn bd x0 (seq y0 n) true holes = Ok (holes + k)
            /\ 0 <= k <= Z.of_nat n.
Proof.
  induction n as [|n IH]; intros y0 holes Hlen.
  - exists 0. cbn. split; [f_equal; lia | lia].
  - cbn [seq holesInColumn].
    destruct (occupiedAt_total bd y0 x0) as [o ->]; [lia|]. cbn [bindRes].
    destruct o.
    + destruct (IH (Datatypes.S y0) holes) as (k & -> & Hk); [lia|].
      exists k. split; [reflexivity | lia].
    + destruct (IH (Datatypes.S y0) (holes + 1)) as (k & -> & Hk); [lia|].
      exists (1 + k). split; [f_equal; lia | lia].
Qed.

(** One column: the holes are cells below its first block. *)
Lemma column_measures bd x0 h n : forall y0 holes,
  (y0 + n <= length bd)%nat -> Z.of_nat (y0 + n) = h ->
  exists k c,
    holesInColumn bd x0 (seq y0 n) false holes = Ok (holes + k)
    /\ columnHeight bd x0 (seq y0 n) h = Ok c
    /\ 0 <= k <= c /\ c <= Z.of_nat n.
Proof.
  induction n as [|n IH]; intros y0 holes Hlen Hh.
  - exists 0, 0. cbn. split; [f_equal; lia|]. split; [reflexivity | lia].
  - cbn [seq holesInColumn columnHeight].
    destruct (occupiedAt_total bd y0 x0) as [o ->]; [lia|]. cbn [bindRes].
    destruct o.
    + destruct (holesInColumn_found bd x0 n (Datatypes.S y0) holes)
        as (k & -> & Hk); [lia|].
      exists k, (h - Z.of_nat y0). split; [reflexivity|].
      split; [reflexivity | lia].
    + destruct (IH (Datatypes.S y0) holes) as (k & c & -> & -> & Hk & Hc);
        [lia | lia |].
      exists k, c. split; [reflexivity|]. split; [reflexivity | lia].
Qed.

(** All columns: the sums of the holes and of the column heights. *)
Lemma columns_measures bd h xs : forall holes,
  length bd = Z.to_nat h -> 0 <= h ->
  exists k heights,
    countHolesLoop bd xs (Z.to_nat h) holes = Ok (holes + k)
    /\ heightsLoop bd xs h = Ok heights
    /\ length heights = length xs
    /\ Forall (fun c => 0 <= c <= h) heights
    /\ 0 <= k <= fold_left Z.add heights 0.
Proof.
  intros holes Hlen Hh. revert holes.
  assert (Hsum : forall (l : list Z) a, fold_left Z.add l a = a + fold_left Z.add l 0).
  { induction l as [|b l IH]; intros a; cbn [fold_left]; [lia|].
    rewrite (IH (a + b)), (IH (0 + b)). lia. }
  induction xs as [|x0 xs IH]; intros holes.
  - exists 0, []. cbn. split; [f_equal; lia|]. split; [reflexivity|].
    split; [reflexivity|]. split; [constructor | lia].
  - cbn [countHolesLoop heightsLoop].
    destruct (column_measures bd x0 h (Z.to_nat h) 0%nat holes)
      as (k & c & -> & -> & Hk & Hc); [lia | lia |].
    cbn [bindRes].
    destruct (IH (holes + k)) as (k' & heights & -> & -> & Hl & Hall & Hk').
    cbn [bindRes].
    exists (k + k'), (c :: heights).
    split; [f_equal; lia|]. split; [reflexivity|].
    split; [cbn [length]; lia|].
    split; [constructor; [lia | exact Hall]|].
    cbn [fold_left]. rewrite (Hsum heights (0 + c)). lia.
Qed.

Lemma bumpinessLoop_nonneg heights : forall b,
  0 <= b -> 0 <= bumpinessLoop heights b.
Proof.
  induction heights as [|a [|c rest] IH]; intros b Hb; cbn [bumpinessLoop];
    try lia.
  apply IH. lia.
Qed.

Lemma sum_bounded (l : list Z) h :
  Forall (fun c => 0 <= c <= h) l ->
  0 <= fold_left Z.add l 0 <= Z.of_nat (length l) * h.
Proof.
  assert (Hsum : forall (l : list Z) a, fold_left Z.add l a = a + fold_left Z.add l 0).
  { clear. induction l as [|b l IH]; intros a; cbn [fold_left]; [lia|].
    rewrite (IH (a + b)), (IH (0 + b)). lia. }
  induction 1 as [|c l Hc _ IH]; [cbn; lia|].
  cbn [fold_left length]. rewrite (Hsum l (0 + c)). nia.
Qed.

Lemma occupiedAt_empty w h (bd : Board) y0 x0 :
  rectangular w h bd = true -> forallb rowEmpty bd = true ->
  (y0 < length bd)%nat -> (x0 < Z.to_nat w)%nat ->
  occupiedAt bd y0 x0 = Ok false.
Proof.
  intros Hrect Hempty Hy Hx. unfold occupiedAt.
  destruct (lookup_lt_is_Some_2 bd y0 Hy) as [row Hrow]. rewrite Hrow.
  assert (Hin : In row bd) by (apply list_elem_of_In, list_elem_of_lookup; eauto).
  pose proof (rectangular_rows _ _ _ _ Hrect Hin) as Hlen.
  rewrite forallb_forall in Hempty. specialize (Hempty row Hin).
  destruct (lookup_lt_is_Some_2 row x0 ltac:(lia)) as [c Hc]. rewrite Hc.
  unfold rowEmpty in Hempty. rewrite forallb_forall in Hempty.
  assert (Hinc : In c row) by (apply list_elem_of_In, list_elem_of_lookup; eauto).
  specialize (Hempty c Hinc). apply bool_decide_eq_true in Hempty.
  subst c. reflexivity.
Qed.

Lemma columnHeight_empty w h (bd : Board) x0 hh n : forall y0,
  rectangular w h bd = true -> forallb rowEmpty bd = true ->
  (y0 + n <= length bd)%nat -> (x0 < Z.to_nat w)%nat ->
  columnHeight bd x0 (seq y0 n) hh = Ok 0.
Proof.
  induction n as [|n IH]; intros y0 Hrect Hempty Hlen Hx; [reflexivity|].
  cbn [seq columnHeight].
  rewrite (occupiedAt_empty w h bd y0 x0 Hrect Hempty) by lia.
  cbn [bindRes]. apply IH; try assumption. lia.
Qed.

Lemma heightsLoop_empty w h (bd : Board) xs :
  rectangular w h bd = true -> forallb rowEmpty bd = true ->
  Forall (fun x0 => (x0 < Z.to_nat w)%nat) xs ->
  heightsLoop bd xs h = Ok (replicate (length xs) 0).
Proof.
  intros Hrect Hempty Hxs. induction Hxs as [|x0 xs Hx _ IH]; [reflexivity|].
  cbn [heightsLoop].
  rewrite (columnHeight_empty w h bd x0 h (Z.to_nat h) 0%nat Hrect Hempty);
    [|rewrite (rectangular_length _ _ _ Hrect); lia | exact Hx].
  cbn [bindRes]. rewrite IH. reflexivity.
Qed.

Lemma measures_of_zeros n :
  fold_left Z.add (replicate n 0) 0 = 0 /\ bumpinessLoop (replicate n 0) 0 = 0.
Proof.
  split.
  - induction n as [|n IH]; [reflexivity|]. cbn [replicate fold_left]. exact IH.
  - induction n as [|[|n] IH]; try reflexivity.
    cbn [replicate bumpinessLoop] in *. exact IH.
Qed.

(** X17.  The measures of [evaluatePosition], on a board of [h] rows of
    [w] cells.  [countClearedLines] is the number of completed rows (the
    number [clearLines] of the engine removes); [getMaxHeight] is between
    0 and [h], and 0 exactly when the board is empty; [countHoles],
    [getBumpiness] and [getAggregateHeight] raise no error, the holes are
    no more than the aggregate height, which is at most [w * h], and the
    bumpiness is not negative; on an empty board all of them are 0. *)
Theorem board_measures_in_range (w h : Z) (bd : Board) :
  rectangular w h bd = true -> 0 <= w -> 0 <= h ->
  countClearedLines bd = fullRowCount bd
  /\ 0 <= getMaxHeight bd <= h
  /\ (getMaxHeight bd = 0 <-> isPerfectClearBoard bd = true)
  /\ exists holes bumpiness aggregate,
      countHoles w h bd = Ok holes
      /\ getBumpiness w h bd = Ok bumpiness
      /\ getAggregateHeight w h bd = Ok aggregate
      /\ 0 <= holes <= aggregate /\ aggregate <= w * h /\ 0 <= bumpiness
      /\ (isPerfectClearBoard bd = true ->
          holes = 0 /\ bumpiness = 0 /\ aggregate = 0).
Proof.
  intros Hrect Hw Hh.
  pose proof (rectangular_length _ _ _ Hrect) as Hlen.
  split; [apply countClearedLines_count|].
  destruct (maxHeightLoop_range bd (Z.of_nat (length bd)) 0) as [Hr Hz];
    [lia | lia |].
  split; [unfold getMaxHeight; lia|]. split; [exact Hz|].
  destruct (columns_measures bd h (seq 0 (Z.to_nat w)) 0 Hlen Hh)
    as (k & heights & Hholes & Hheights & Hl & Hall & Hk).
  exists k, (bumpinessLoop heights 0), (fold_left Z.add heights 0).
  unfold countHoles, getBumpiness, getAggregateHeight.
  rewrite Hholes, Hheights. cbn [bindRes].
  split; [f_equal; lia|]. split; [reflexivity|]. split; [reflexivity|].
  split; [exact Hk|].
  pose proof (sum_bounded heights h Hall) as Hsum.
  rewrite Hl, length_seq in Hsum.
  split; [lia|]. split; [apply bumpinessLoop_nonneg; lia|].
  intros Hempty.
  rewrite (heightsLoop_empty w h bd (seq 0 (Z.to_nat w)) Hrect Hempty)
    in Hheights.
  - injection Hheights as <-.
    destruct (measures_of_zeros (length (seq 0 (Z.to_nat w)))) as [Hs Hb].
    rewrite Hs in Hk. rewrite Hs, Hb. lia.
  - apply List.Forall_forall. intros x0 Hin. apply in_seq in Hin. lia.
Qed.

Lemma board_measures_in_range_witness :
  countClearedLines (board tetrisReady) = fullRowCount (board tetrisReady)
  /\ 0 <= getMaxHeight (board tetrisReady) <= 20
  /\ exists holes bumpiness aggregate,
      countHoles 10 20 (board tetrisReady) = Ok holes
      /\ getBumpiness 10 20 (board tetrisReady) = Ok bumpiness
      /\ getAggregateHeight 10 20 (board tetrisReady) = Ok aggregate
      /\ 0 <= holes <= aggregate /\ aggregate <= 10 * 20 /\ 0 <= bumpiness.
Proof.
  destruct (board_measures_in_range 10 20 (board tetrisReady)
              (wf_board tetrisReady tetrisReady_wf) ltac:(lia) ltac:(lia))
    as (H1 & H2 & _ & holes & bumpiness & aggregate & H3 & H4 & H5 & H6 & H7 & H8 & _).
  split; [exact H1|]. split; [exact H2|].
  exists holes, bumpiness, aggregate. repeat split; assumption || lia.
Defined.

(** ** Executing a move whose rotation is the current one *)

(** X18.  [executeBestMove(move)] for a move whose rotation is the one
    the current piece already has: the rotation loop is not entered, the
    piece is shifted by [move.x - x] when that is not 0 (a shift that
    collides is dropped), and the call ends with [hardDrop()]; it raises
    no error and leaves the engine in order. *)
Theorem executeBestMove_same_rotation (e : Engine) (cur : TetrisPiece)
  (m : Move) (fuel : nat) :
  wfEngine e -> tallied e -> currentPiece e = Some cur ->
  mrotation m = rotation cur -> (Z.to_nat (height e) + 5 <= fuel)%nat ->
  exists moved e1 d e2,
    movePiece (mx m - x cur) 0 e = Ok (moved, e1)
    /\ hardDrop fuel (if mx m - x cur =? 0 then e else e1) = Ok (d, e2)
    /\ executeBestMove fuel m e = Ok e2
    /\ wfEngine e2 /\ tallied e2.
Proof.
  intros Hwf Ht Hcur Hrot Hfuel.
  destruct (movePiece_step e (mx m - x cur) 0 Hwf)
    as (moved & e1 & Hmove & Hwf1 & Hs1).
  set (e' := if mx m - x cur =? 0 then e else e1).
  assert (Hwf' : wfEngine e') by (unfold e'; destruct (_ =? _); assumption).
  assert (Ht' : tallied e').
  { unfold e'. destruct (_ =? _); [exact Ht|].
    exact (sameCounts_tallied _ _ Hs1 Ht). }
  assert (Hh : height e' = height e).
  { unfold e'. destruct (_ =? _); [reflexivity | exact (counts_height _ _ Hs1)]. }
  destruct (hardDrop_step e' fuel Hwf' Ht') as (d & e2 & Hdrop & Hwf2 & Ht2 & _);
    [lia|].
  exists moved, e1, d, e2. split; [exact Hmove|]. split; [exact Hdrop|].
  split; [|split; assumption].
  unfold executeBestMove. rewrite Hcur.
  destruct fuel as [|fuel']; [lia|].
  cbn [rotateLoop]. rewrite Hcur, Hrot, Z.eqb_refl. cbn [negb bindRes].
  rewrite Hcur. fold e' in Hdrop. unfold e' in Hdrop.
  destruct (mx m - x cur =? 0); cbn [negb bindRes].
  - rewrite Hdrop. reflexivity.
  - rewrite Hmove. cbn [bindRes snd]. rewrite Hdrop. reflexivity.
Qed.

Lemma executeBestMove_same_rotation_witness :
  exists moved e1 d e2,
    movePiece (0 - 3) 0 freshEngine = Ok (moved, e1)
    /\ hardDrop 25 e1 = Ok (d, e2)
    /\ executeBestMove 25 {| mx := 0; my := 18; mrotation := 0; mscore := 0 |}
         freshEngine = Ok e2
    /\ wfEngine e2 /\ tallied e2.
Proof.
  assert (Hcur : currentPiece freshEngine = Some (newTetrisPiece0 Ty.I))
    by (vm_compute; reflexivity).
  assert (Hfuel : (Z.to_nat (height freshEngine) + 5 <= 25)%nat)
    by (vm_compute; lia).
  exact (executeBestMove_same_rotation freshEngine _
           {| mx := 0; my := 18; mrotation := 0; mscore := 0 |} 25
           freshEngine_wf freshEngine_tallied Hcur eq_refl Hfuel).
Defined.

(** ** Choosing a target *)

Lemma alivePlayersOf_In self players p :
  In p (alivePlayersOf self players) <->
  In p players /\ isAlive p = true /\ playerId p <> self.
Proof.
  unfold alivePlayersOf. rewrite filter_In, andb_true_iff, negb_true_iff, Z.eqb_neq.
  tauto.
Qed.

Lemma pickRandom_picks (l : list Player) r :
  l <> [] ->
  exists p r', pickRandom l r = Ok (Some (playerId p), r') /\ In p l.
Proof.
  intros Hne. unfold pickRandom.
  assert (Hlen : 0 < Z.of_nat (length l)) by (destruct l; [congruence | cbn; lia]).
  pose proof (randomBelow_range (Z.of_nat (length l)) r Hlen) as Hi.
  destruct (randomBelow (Z.of_nat (length l)) r) as [i r']. cbn [fst] in Hi.
  destruct (js_get_Some l i) as [p Hp]; [lia | lia |].
  rewrite Hp. exists p, r'. split; [reflexivity | exact (js_get_In _ _ _ Hp)].
Qed.

Lemma selectTargetRandom_picks self players r :
  alivePlayersOf self players <> [] ->
  exists p r', selectTargetRandom self players r = Ok (Some (playerId p), r')
               /\ In p (alivePlayersOf self players).
Proof.
  intros Hne. unfold selectTargetRandom.
  destruct (alivePlayersOf self players) as [|q l] eqn:Hl; [congruence|].
  cbn [length Nat.eqb]. apply pickRandom_picks. discriminate.
Qed.

Lemma strongestOf_max rest : forall first,
  In (strongestOf first rest) (first :: rest)
  /\ Forall (fun q => koCount q <= koCount (strongestOf first rest)) (first :: rest).
Proof.
  induction rest as [|p rest IH]; intros first.
  - cbn. split; [left; reflexivity|]. repeat constructor. lia.
  - unfold strongestOf. cbn [fold_left].
    destruct (Z.gtb_spec (koCount p) (koCount first)) as [Hgt|Hle].
    + destruct (IH p) as [Hin Hall]. fold (strongestOf p rest). split.
      * destruct Hin as [<-|Hin]; [right; left; reflexivity | right; right; exact Hin].
      * apply Forall_cons in Hall as [Hp Hall].
        constructor; [lia|]. constructor; assumption.
    + destruct (IH first) as [Hin Hall]. fold (strongestOf first rest). split.
      * destruct Hin as [<-|Hin]; [left; reflexivity | right; right; exact Hin].
      * apply Forall_cons in Hall as [Hf Hall].
        constructor; [exact Hf|]. constructor; [lia | exact Hall].
Qed.

(** The possible outcomes of [selectTarget], by case on the strategy. *)
Lemma selectTarget_cases self players strategy r :
  alivePlayersOf self players <> [] ->
  (strategy = "ko"
   /\ selectTarget self players strategy r
      = match alivePlayersOf self players with
        | [p] => Ok (Some (playerId p), r)
        | _ => TypeError
        end)
  \/ (strategy <> "ko"
      /\ exists p r',
          selectTarget self players strategy r = Ok (Some (playerId p), r')
          /\ In p (alivePlayersOf self players)
          /\ (strategy = "badge" ->
              r' = r
              /\ Forall (fun q => koCount q <= koCount p)
                        (alivePlayersOf self players))).
Proof.
  intros Hne. unfold selectTarget.
  destruct (alivePlayersOf self players) as [|first rest] eqn:Hl; [congruence|].
  cbn [length Nat.eqb].
  destruct (String.eqb_spec strategy "random") as [->|H1].
  { right. split; [discriminate|].
    destruct (pickRandom_picks (first :: rest) r ltac:(discriminate))
      as (p & r' & Hrun & Hin).
    exists p, r'. split; [exact Hrun|]. split; [exact Hin | discriminate]. }
  destruct (String.eqb_spec strategy "attacker") as [->|H2].
  { right. split; [discriminate|].
    match goal with
    | |- context [List.filter ?f (first :: rest)] =>
      set (attackers := List.filter f (first :: rest))
    end.
    destruct attackers as [|a l] eqn:Ha.
    - cbn [length Nat.ltb Nat.leb].
      destruct (selectTargetRandom_picks self players r) as (p & r' & Hrun & Hin);
        [rewrite Hl; discriminate|].
      rewrite Hl in Hin. exists p, r'.
      split; [exact Hrun|]. split; [exact Hin | discriminate].
    - cbn [length Nat.ltb Nat.leb].
      destruct (pickRandom_picks (a :: l) r ltac:(discriminate))
        as (p & r' & Hrun & Hin).
      exists p, r'. split; [exact Hrun|]. split; [|discriminate].
      rewrite <- Ha in Hin. unfold attackers in Hin.
      apply filter_In in Hin. tauto. }
  destruct (String.eqb_spec strategy "ko") as [->|H3].
  { left. split; reflexivity. }
  right. split; [exact H3|].
  destruct (String.eqb_spec strategy "badge") as [->|H4].
  { destruct (strongestOf_max rest first) as [Hin Hall].
    exists (strongestOf first rest), r. split; [reflexivity|].
    split; [exact Hin|]. intros _. split; [reflexivity | exact Hall]. }
  destruct (selectTargetRandom_picks self players r) as (p & r' & Hrun & Hin);
    [rewrite Hl; discriminate|].
  rewrite Hl in Hin. exists p, r'.
  split; [exact Hrun|]. split; [exact Hin | congruence].
Qed.

(** X19.  [selectTarget(players, strategy)] of an AI player.  Without a
    living player other than itself it returns [null].  Otherwise, for
    every strategy but ['ko'], it returns the id of a living player other
    than itself, and raises no error; with ['badge'] that player has the
    most KOs among them and no random sample is drawn.  With ['ko'] it
    returns the only other living player when there is exactly one, and
    raises a [TypeError] when there are two or more. *)
Theorem selectTarget_alive_other (self : Z) (players : list Player)
  (strategy : string) (r : Random) :
  let others := alivePlayersOf self players in
  (others = [] -> selectTarget self players strategy r = Ok (None, r))
  /\ (forall t r', selectTarget self players strategy r = Ok (Some t, r') ->
        exists p, In p players /\ playerId p = t /\ isAlive p = true
                  /\ t <> self)
  /\ (others <> [] -> strategy <> "ko" ->
      exists p r', selectTarget self players strategy r = Ok (Some (playerId p), r')
                   /\ In p others
                   /\ (strategy = "badge" ->
                       r' = r /\ Forall (fun q => koCount q <= koCount p) others))
  /\ (strategy = "ko" -> (2 <= length others)%nat ->
      selectTarget self players strategy r = TypeError).
Proof.
  cbv zeta. split; [|split; [|split]].
  - intros Hnil. unfold selectTarget. rewrite Hnil. reflexivity.
  - intros t r' Hrun.
    destruct (alivePlayersOf self players) as [|first rest] eqn:Hl.
    { unfold selectTarget in Hrun. rewrite Hl in Hrun. discriminate Hrun. }
    destruct (selectTarget_cases self players strategy r) as [[-> Hko] | (_ & p & r1 & Hp & Hin & _)];
      [rewrite Hl; discriminate | |].
    + rewrite Hko, Hl in Hrun. destruct rest; [|discriminate Hrun].
      injection Hrun as <- <-. exists first.
      assert (Hin : In first (alivePlayersOf self players))
        by (rewrite Hl; left; reflexivity).
      apply alivePlayersOf_In in Hin. tauto.
    + rewrite Hp in Hrun. injection Hrun as <- <-. exists p.
      apply alivePlayersOf_In in Hin. tauto.
  - intros Hne Hko.
    destruct (selectTarget_cases self players strategy r Hne)
      as [[-> _] | (_ & p & r1 & Hp & Hin & Hb)]; [congruence|].
    exists p, r1. split; [exact Hp|]. split; assumption.
  - intros -> Hlen.
    destruct (selectTarget_cases self players "ko" r) as [[_ Hko] | [Hne _]];
      [destruct (alivePlayersOf self players); [cbn in Hlen; lia | discriminate]
      | | congruence].
    rewrite Hko. destruct (alivePlayersOf self players) as [|a [|b l]];
      cbn in Hlen; try lia. reflexivity.
Qed.

(** ** The move search proposes resting places *)

Lemma agree_refl h : agree h h.
Proof. intros l o H. exact H. Qed.

Lemma agree_trans h1 h2 h3 : agree h1 h2 -> agree h2 h3 -> agree h1 h3.
Proof. intros H12 H23 l o H. apply H23, H12, H. Qed.

Lemma agree_app h o : agree h (h ++ [o]).
Proof. intros l o' H. rewrite lookup_app_l; [exact H|]. exact (lookup_lt_Some _ _ _ H). Qed.

Lemma agree_length h h' : agree h h' -> (length h <= length h')%nat.
Proof.
  intros Hag. destruct (decide (length h = 0)%nat) as [Hz|Hnz]; [lia|].
  destruct (lookup_lt_is_Some_2 h (length h - 1) ltac:(lia)) as [o Ho].
  apply Hag, lookup_lt_Some in Ho. lia.
Qed.

Lemma agree_insert h0 h tp o :
  agree h0 h -> (length h0 <= tp)%nat -> agree h0 (<[tp := o]> h).
Proof.
  intros Hag Htp l o' H. pose proof (lookup_lt_Some _ _ _ H) as Hl.
  rewrite list_lookup_insert_ne by lia. apply Hag, H.
Qed.

Lemma keeps_agree h0 h h' :
  agree h0 h -> keeps (length h0) h h' -> agree h0 h'.
Proof.
  intros Hag [_ Hk] l o H. pose proof (lookup_lt_Some _ _ _ H) as Hl.
  rewrite (Hk l Hl). apply Hag, H.
Qed.

Lemma loadPiece_at h tp p :
  h !! tp = Some (OPiece p) -> loadPiece tp h = Ok (p, h).
Proof. intros H. unfold loadPiece, bindH, load. rewrite H. reflexivity. Qed.

Lemma loadPiece_inv h tp p h' :
  loadPiece tp h = Ok (p, h') -> h !! tp = Some (OPiece p) /\ h' = h.
Proof.
  unfold loadPiece, bindH, load. destruct (h !! tp) as [[]|]; try discriminate.
  intros H. injection H as <- <-. split; reflexivity.
Qed.

Lemma modifyPiece_at h tp p f :
  h !! tp = Some (OPiece p) ->
  modifyPiece tp f h = Ok (tt, <[tp := OPiece (f p)]> h).
Proof.
  intros H. unfold modifyPiece, bindH. rewrite (loadPiece_at h tp p H).
  unfold store. pose proof (lookup_lt_Some _ _ _ H) as Hl.
  destruct (Nat.ltb_spec tp (length h)); [reflexivity | lia].
Qed.

Lemma lookup_insert_piece (h : Heap) tp o o' :
  h !! tp = Some o -> <[tp := o']> h !! tp = Some o'.
Proof. intros H. apply list_lookup_insert_eq, (lookup_lt_Some _ _ _ H). Qed.

Lemma foldH_inv {A B} (f : B -> A -> HM B) (I : B -> Heap -> Prop) (P : A -> Prop)
  (l : list A) :
  (forall b a h b' h', P a -> I b h -> f b a h = Ok (b', h') -> I b' h') ->
  Forall P l ->
  forall b h b' h', I b h -> foldH f l b h = Ok (b', h') -> I b' h'.
Proof.
  intros Hstep Hall. induction Hall as [|a l Ha _ IH]; intros b h b' h' Hi Hrun.
  - injection Hrun as <- <-. exact Hi.
  - cbn [foldH] in Hrun. apply bindH_Ok in Hrun as (b1 & h1 & H1 & H2).
    exact (IH _ _ _ _ (Hstep _ _ _ _ _ Ha Hi H1) H2).
Qed.

Section Search.

Variables (h0 : Heap) (ge : nat) (g : EngineObj) (bd : Board) (cp : nat)
  (cur : TetrisPiece).
Hypothesis Hge : loadEngine ge h0 = Ok (g, h0).
Hypothesis Hbd : readBoard (boardRef g) h0 = Ok (bd, h0).
Hypothesis Hcp : currentPieceRef g = Ref cp.
Hypothesis Hcur : loadPiece cp h0 = Ok (cur, h0).

Lemma loadEngine_stable h : agree h0 h -> loadEngine ge h = Ok (g, h).
Proof. intros Hag. exact (proj2 (reads_loadEngine ge h0 g h0 Hge) h Hag). Qed.

Lemma readBoard_stable h : agree h0 h -> readBoard (boardRef g) h = Ok (bd, h).
Proof. intros Hag. exact (proj2 (reads_readBoard _ h0 bd h0 Hbd) h Hag). Qed.

Lemma loadPiece_stable h : agree h0 h -> loadPiece cp h = Ok (cur, h).
Proof. intros Hag. exact (proj2 (reads_loadPiece cp h0 cur h0 Hcur) h Hag). Qed.

Lemma isCollidingH_at h tp p :
  agree h0 h -> h !! tp = Some (OPiece p) ->
  isCollidingH ge tp h = liftRes (collides (widthOf g) (heightOf g) bd p) h.
Proof.
  intros Hag Htp. unfold isCollidingH, bindH.
  rewrite (loadEngine_stable h Hag), (loadPiece_at h tp p Htp),
    (readBoard_stable h Hag).
  reflexivity.
Qed.

Lemma dropTestPiece_stops fuel tp : forall p h h',
  agree h0 h -> (length h0 <= tp)%nat -> h !! tp = Some (OPiece p) ->
  dropTestPiece fuel ge tp h = Ok (tt, h') ->
  exists d,
    0 <= d /\ agree h0 h' /\ h' !! tp = Some (OPiece (set_y (y p + d) p))
    /\ collides (widthOf g) (heightOf g) bd (set_y (y p + d) p) = Ok true
    /\ forall k, 0 <= k < d ->
         collides (widthOf g) (heightOf g) bd (set_y (y p + k) p) = Ok false.
Proof.
  induction fuel as [|fuel IH]; intros p h h' Hag Hn Htp Hrun; [discriminate Hrun|].
  cbn [dropTestPiece] in Hrun. unfold bindH at 1 in Hrun.
  rewrite (isCollidingH_at h tp p Hag Htp) in Hrun. unfold liftRes in Hrun.
  destruct (collides _ _ bd p) as [[]| |] eqn:Hc; try discriminate Hrun;
    cbn [negb] in Hrun.
  - injection Hrun as <-. exists 0.
    assert (Hp : set_y (y p + 0) p = p)
      by (apply piece_eq; cbn [set_y ptype x y rotation]; try reflexivity; lia).
    rewrite Hp. split; [lia|]. split; [exact Hag|]. split; [exact Htp|].
    split; [exact Hc | intros k Hk; lia].
  - unfold bindH at 1 in Hrun.
    rewrite (modifyPiece_at h tp p _ Htp) in Hrun.
    destruct (IH (set_y (y p + 1) p) _ h' (agree_insert _ _ _ _ Hag Hn) Hn
                (lookup_insert_piece _ _ _ _ Htp) Hrun)
      as (d & Hd & Hag' & Htp' & Hc' & Hfree).
    exists (d + 1).
    assert (Hp : set_y (y (set_y (y p + 1) p) + d) (set_y (y p + 1) p)
                 = set_y (y p + (d + 1)) p)
      by (apply piece_eq; cbn [set_y ptype x y rotation]; try reflexivity; lia).
    rewrite Hp in Htp', Hc'.
    split; [lia|]. split; [exact Hag'|]. split; [exact Htp'|].
    split; [exact Hc'|]. intros k Hk.
    destruct (Z.eq_dec k 0) as [->|Hk0].
    + assert (Hp0 : set_y (y p + 0) p = p)
        by (apply piece_eq; cbn [set_y ptype x y rotation]; try reflexivity; lia).
      rewrite Hp0. exact Hc.
    + assert (Hpk : set_y (y (set_y (y p + 1) p) + (k - 1)) (set_y (y p + 1) p)
                    = set_y (y p + k) p)
        by (apply piece_eq; cbn [set_y ptype x y rotation]; try reflexivity; lia).
      rewrite <- Hpk. apply Hfree. lia.
Qed.

Lemma tryPlacement_resting fuel a rot best x0 h best' h' :
  0 <= rot < shapeLength cur -> -2 <= x0 < widthOf g + 2 ->
  agree h0 h -> restingBest (widthOf g) (heightOf g) bd cur best ->
  tryPlacement fuel a ge cp rot best x0 h = Ok (best', h') ->
  agree h0 h' /\ restingBest (widthOf g) (heightOf g) bd cur best'.
Proof.
  intros Hrot Hx Hag Hbest Hrun.
  split.
  { pose proof (framed_tryPlacement (length h0) fuel a ge cp rot best x0 h
                  (agree_length _ _ Hag) I best' h' Hrun) as [Hk _].
    exact (keeps_agree _ _ _ Hag Hk). }
  unfold tryPlacement in Hrun.
  apply bindH_Ok in Hrun as (tp & h1 & Hclone & Hrun).
  unfold cloneH, bindH in Hclone. rewrite (loadPiece_stable h Hag) in Hclone.
  unfold alloc in Hclone. injection Hclone as <- <-.
  set (tp := length h) in *.
  assert (Hn : (length h0 <= tp)%nat) by exact (agree_length _ _ Hag).
  assert (Htp1 : (h ++ [OPiece (clone cur)]) !! tp = Some (OPiece (clone cur))).
  { unfold tp. rewrite lookup_app_r, Nat.sub_diag by lia. reflexivity. }
  pose proof (agree_trans _ _ _ Hag (agree_app h (OPiece (clone cur)))) as Hag1.
  unfold bindH at 1 in Hrun. rewrite (modifyPiece_at _ tp _ _ Htp1) in Hrun.
  pose proof (lookup_insert_piece _ _ _ (OPiece (set_rotation rot (clone cur))) Htp1)
    as Htp2.
  pose proof (agree_insert _ _ tp (OPiece (set_rotation rot (clone cur))) Hag1 Hn)
    as Hag2.
  unfold bindH at 1 in Hrun. rewrite (modifyPiece_at _ tp _ _ Htp2) in Hrun.
  pose proof (lookup_insert_piece _ _ _
                (OPiece (set_x x0 (set_rotation rot (clone cur)))) Htp2) as Htp3.
  pose proof (agree_insert _ _ tp
                (OPiece (set_x x0 (set_rotation rot (clone cur)))) Hag2 Hn) as Hag3.
  unfold bindH at 1 in Hrun. rewrite (modifyPiece_at _ tp _ _ Htp3) in Hrun.
  set (p0 := set_y 0 (set_x x0 (set_rotation rot (clone cur)))) in *.
  pose proof (lookup_insert_piece _ _ _ (OPiece p0) Htp3) as Htp4.
  pose proof (agree_insert _ _ tp (OPiece p0) Hag3 Hn) as Hag4.
  apply bindH_Ok in Hrun as ([] & h5 & Hdrop & Hrun).
  destruct (dropTestPiece_stops fuel tp p0 _ h5 Hag4 Hn Htp4 Hdrop)
    as (d & Hd & Hag5 & Htp5 & Hhit & _).
  unfold bindH at 1 in Hrun. rewrite (modifyPiece_at _ tp _ _ Htp5) in Hrun.
  set (p1 := set_y (y (set_y (y p0 + d) p0) - 1) (set_y (y p0 + d) p0)) in *.
  pose proof (lookup_insert_piece _ _ _ (OPiece p1) Htp5) as Htp6.
  pose proof (agree_insert _ _ tp (OPiece p1) Hag5 Hn) as Hag6.
  unfold bindH at 1 in Hrun.
  rewrite (isCollidingH_at _ tp p1 Hag6 Htp6) in Hrun. unfold liftRes in Hrun.
  destruct (collides _ _ bd p1) as [[]| |] eqn:Hfree; try discriminate Hrun.
  { injection Hrun as <- _. exact Hbest. }
  apply bindH_Ok in Hrun as (score0 & h7 & Heval & Hrun).
  destruct (scoreGt score0 best.2); [|injection Hrun as <- _; exact Hbest].
  apply bindH_Ok in Hrun as (p & h8 & Hload & Hrun).
  injection Hrun as <- _.
  pose proof (framed_evaluatePositionH _ fuel a ge tp _ (Nat.le_refl _) I
                score0 h7 Heval) as [[_ Hk] _].
  apply loadPiece_inv in Hload as [Hload _].
  rewrite (Hk tp (lookup_lt_Some _ _ _ Htp6)), Htp6 in Hload.
  injection Hload as <-.
  unfold restingBest, restingMove, placedAt.
  cbn [fst mrotation mx my].
  split; [exact Hrot|]. split; [exact Hx|].
  assert (E1 : {| ptype := ptype cur; x := x p1; y := y p1; rotation := rot |} = p1)
    by (apply piece_eq; reflexivity).
  rewrite E1. split; [exact Hfree|].
  assert (E2 : move 0 1 p1 = set_y (y p0 + d) p0).
  { apply piece_eq; cbn [move set_y p1 ptype x y rotation]; try reflexivity; lia. }
  rewrite E2. exact Hhit.
Qed.

Lemma zrange_bounds lo n : Forall (fun i => lo <= i < lo + Z.of_nat n) (zrange lo n).
Proof.
  unfold zrange. apply List.Forall_forall. intros i Hin.
  apply in_map_iff in Hin as (k & <- & Hk). apply in_seq in Hk. lia.
Qed.

Lemma findBestMoveH_resting fuel a m h' :
  findBestMoveH fuel a ge h0 = Ok (Some m, h') ->
  restingMove (widthOf g) (heightOf g) bd cur m.
Proof.
  intros Hrun. unfold findBestMoveH, bindH at 1 in Hrun.
  rewrite Hge, Hcp in Hrun. unfold bindH at 1 in Hrun. rewrite Hcur in Hrun.
  apply bindH_Ok in Hrun as (best & h1 & Hfold & Hret).
  injection Hret as Hm _.
  assert (Hinv : agree h0 h1
                 /\ restingBest (widthOf g) (heightOf g) bd cur best).
  { refine (foldH_inv _
              (fun b h => agree h0 h
                          /\ restingBest (widthOf g) (heightOf g) bd cur b)
              (fun rot => 0 <= rot < shapeLength cur) _ _ _
              (None, None) h0 best h1 _ Hfold).
    - intros b rot h b' h2 Hrot [Hag Hb] Hinner.
      refine (foldH_inv _
                (fun b h => agree h0 h
                            /\ restingBest (widthOf g) (heightOf g) bd cur b)
                (fun x0 => -2 <= x0 < widthOf g + 2) _ _ _ b h b' h2 _ Hinner).
      + intros b0 x0 h3 b1 h4 Hx [Hag3 Hb3] Htry.
        exact (tryPlacement_resting _ _ _ _ _ _ _ _ Hrot Hx Hag3 Hb3 Htry).
      + eapply Forall_impl; [apply zrange_bounds|]. cbv beta. intros x0 Hx. lia.
      + split; assumption.
    - eapply Forall_impl; [apply zrange_bounds|]. cbv beta.
      intros rot Hr. unfold shapeLength. lia.
    - split; [apply agree_refl | exact I]. }
  destruct Hinv as [_ Hb]. unfold restingBest in Hb. rewrite Hm in Hb. exact Hb.
Qed.

End Search.

(** Reading back what [allocEngine] writes. *)
Lemma alloc_lookup (h : Heap) o : (h ++ [o]) !! length h = Some o.
Proof. rewrite lookup_app_r, Nat.sub_diag by lia. reflexivity. Qed.

Lemma allocCell_reads c h v h1 :
  allocCell c h = Ok (v, h1) -> agree h h1 /\ readCell v h1 = Ok (c, h1).
Proof.
  destruct c as [c0|]; cbn [allocCell]; intros H.
  - unfold bindH, alloc, retH in H. injection H as <- <-.
    split; [apply agree_app|].
    cbn [readCell]. unfold bindH, load. rewrite alloc_lookup. reflexivity.
  - injection H as <- <-. split; [apply agree_refl | reflexivity].
Qed.

Lemma mapH_alloc_reads {A} (fa : A -> HM Val) (fr : Val -> HM A) :
  (forall a h v h1, fa a h = Ok (v, h1) -> agree h h1 /\ fr v h1 = Ok (a, h1)) ->
  (forall v, reads (fr v)) ->
  forall l h vs h1,
    mapH fa l h = Ok (vs, h1) -> agree h h1 /\ mapH fr vs h1 = Ok (l, h1).
Proof.
  intros Hfa Hfr. induction l as [|a rest IH]; intros h vs h1 H; cbn [mapH] in H.
  - injection H as <- <-. split; [apply agree_refl | reflexivity].
  - apply bindH_Ok in H as (v & h2 & Hv & H).
    apply bindH_Ok in H as (vs' & h3 & Hvs & H). injection H as <- <-.
    destruct (Hfa _ _ _ _ Hv) as [Hag1 Hr1].
    destruct (IH _ _ _ Hvs) as [Hag2 Hr2].
    split; [exact (agree_trans _ _ _ Hag1 Hag2)|].
    cbn [mapH]. unfold bindH at 1.
    rewrite (proj2 (Hfr v _ _ _ Hr1) _ Hag2).
    unfold bindH. rewrite Hr2. reflexivity.
Qed.

Lemma allocRow_reads r h v h1 :
  allocRow r h = Ok (v, h1) -> agree h h1 /\ readRow v h1 = Ok (r, h1).
Proof.
  unfold allocRow. intros H.
  apply bindH_Ok in H as (vs & h2 & Hvs & H).
  unfold bindH, alloc, retH in H. injection H as <- <-.
  destruct (mapH_alloc_reads allocCell readCell allocCell_reads reads_readCell
              _ _ _ _ Hvs) as [Hag Hread].
  split; [exact (agree_trans _ _ _ Hag (agree_app _ _))|].
  cbn [readRow]. unfold bindH at 1, loadArray, bindH, load.
  rewrite alloc_lookup. unfold retH.
  exact (proj2 (reads_mapH readCell vs reads_readCell _ _ _ Hread) _
           (agree_app _ _)).
Qed.

Lemma allocEngine_reads e h ge h1 :
  allocEngine e h = Ok (ge, h1) ->
  exists b p,
    loadEngine ge h1
    = Ok ({| boardRef := b; currentPieceRef := p;
             widthOf := width e; heightOf := height e |}, h1)
    /\ readBoard b h1 = Ok (board e, h1)
    /\ match currentPiece e with
       | Some cur => exists cp, p = Ref cp /\ loadPiece cp h1 = Ok (cur, h1)
       | None => p = Null
       end.
Proof.
  unfold allocEngine. intros H.
  apply bindH_Ok in H as (rows & h2 & Hrows & H).
  destruct (mapH_alloc_reads allocRow readRow allocRow_reads reads_readRow
              _ _ _ _ Hrows) as [_ Hread].
  unfold bindH at 1, alloc at 1 in H.
  assert (Hb : readBoard (length h2) (h2 ++ [OArray rows])
               = Ok (board e, h2 ++ [OArray rows])).
  { unfold readBoard, bindH at 1, loadArray, bindH, load.
    rewrite alloc_lookup. unfold retH.
    exact (proj2 (reads_mapH readRow rows reads_readRow _ _ _ Hread) _
             (agree_app _ _)). }
  set (h3 := h2 ++ [OArray rows]) in *.
  destruct (currentPiece e) as [cur|].
  - unfold bindH, alloc, retH in H. injection H as <- <-.
    exists (length h2), (Ref (length h3)).
    split; [unfold loadEngine, bindH, load; rewrite alloc_lookup; reflexivity|].
    split.
    + apply (proj2 (reads_readBoard _ _ _ _ Hb)).
      exact (agree_trans _ _ _ (agree_app _ _) (agree_app _ _)).
    + exists (length h3). split; [reflexivity|].
      apply loadPiece_at. rewrite lookup_app_l by (rewrite length_app; simpl; lia).
      apply alloc_lookup.
  - unfold bindH, alloc, retH in H. injection H as <- <-.
    exists (length h2), Null.
    split; [unfold loadEngine, bindH, load; rewrite alloc_lookup; reflexivity|].
    split; [|reflexivity].
    apply (proj2 (reads_readBoard _ _ _ _ Hb)). apply agree_app.
Qed.

(** X20.  A move that [findBestMove] returns is a place where the current
    piece can lie and from which it cannot fall: the rotation is a state
    of the piece's shape table, the column is one of those the search
    visits ([-2 <= x < width + 2]), the piece at [(x, y)] in that
    rotation does not collide with the walls or the board of the engine,
    and one row further down it does. *)
Theorem findBestMove_resting_place fuel a e m :
  findBestMove fuel a e = Ok (Some m) ->
  exists cur,
    currentPiece e = Some cur
    /\ 0 <= mrotation m < shapeLength cur
    /\ -2 <= mx m < width e + 2
    /\ isColliding e (placedAt cur m) = Ok false
    /\ isColliding e (move 0 1 (placedAt cur m)) = Ok true.
Proof.
  unfold findBestMove. intros H.
  destruct (bindH _ _ _) as [[m' h']| |] eqn:Hrun; try discriminate H.
  injection H as ->.
  apply bindH_Ok in Hrun as (ge & h0 & Halloc & Hsearch).
  destruct (allocEngine_reads _ _ _ _ Halloc) as (b & p & Hge & Hbd & Hp).
  destruct (currentPiece e) as [cur|].
  - destruct Hp as (cp & -> & Hcur). exists cur. split; [reflexivity|].
    exact (findBestMoveH_resting h0 ge _ (board e) cp cur Hge Hbd eq_refl Hcur
             fuel a m h' Hsearch).
  - subst p. unfold findBestMoveH, bindH at 1 in Hsearch. rewrite Hge in Hsearch.
    discriminate Hsearch.
Qed.

Lemma findBestMove_resting_place_witness :
  exists m,
    findBestMove 30 mediumParams wellBlocked = Ok (Some m)
    /\ exists cur,
         currentPiece wellBlocked = Some cur
         /\ 0 <= mrotation m < shapeLength cur
         /\ -2 <= mx m < width wellBlocked + 2
         /\ isColliding wellBlocked (placedAt cur m) = Ok false
         /\ isColliding wellBlocked (move 0 1 (placedAt cur m)) = Ok true.
Proof.
  assert (H : { m | findBestMove 30 mediumParams wellBlocked = Ok (Some m) })
    by (eexists; vm_compute; reflexivity).
  destruct H as [m H]. exists m. split; [exact H|].
  exact (findBestMove_resting_place 30 mediumParams wellBlocked m H).
Defined.

(** ** The move search returns *)

Lemma bindH_run {A B} (m : HM A) (k : A -> HM B) h a h1 :
  m h = Ok (a, h1) -> bindH m k h = k a h1.
Proof. intros H. unfold bindH. rewrite H. reflexivity. Qed.

Lemma liftRes_run {A} (r : Res A) a (h : Heap) :
  r = Ok a -> liftRes r h = Ok (a, h).
Proof. intros ->. reflexivity. Qed.

Ltac runH H := rewrite (bindH_run _ _ _ _ _ H); cbv beta zeta.

Lemma loadArray_at (h : Heap) l elems :
  h !! l = Some (OArray elems) -> loadArray l h = Ok (elems, h).
Proof. intros H. unfold loadArray, bindH, load. rewrite H. reflexivity. Qed.

Lemma loadArray_inv (h : Heap) l elems h' :
  loadArray l h = Ok (elems, h') -> h !! l = Some (OArray elems) /\ h' = h.
Proof.
  unfold loadArray, bindH, load. destruct (h !! l) as [[]|]; try discriminate.
  intros H. injection H as <- <-. split; reflexivity.
Qed.

Lemma keeps_app n0 (h : Heap) o : (n0 <= length h)%nat -> keeps n0 h (h ++ [o]).
Proof.
  intros Hn. split; [rewrite length_app; lia|].
  intros l Hl. apply lookup_app_l. lia.
Qed.

Lemma keeps_insert n0 (h : Heap) l o :
  (n0 <= l)%nat -> keeps n0 h (<[l := o]> h).
Proof.
  intros Hn. split; [rewrite length_insert; lia|].
  intros l' Hl. apply list_lookup_insert_ne. lia.
Qed.

Lemma keeps_length n0 h h' : keeps n0 h h' -> (length h <= length h')%nat.
Proof. intros [H _]. exact H. Qed.

(** *** What stays a cell, a row and a board *)

Lemma cellRef_agree h h' v : agree h h' -> cellRef h v -> cellRef h' v.
Proof.
  intros Hag. destruct v as [|c]; [exact id|].
  intros [cell Hc]. exists cell. apply Hag, Hc.
Qed.

Lemma rowRef_agree n0 b w h h' v :
  agree h h' -> rowRef n0 b w h v -> rowRef n0 b w h' v.
Proof.
  intros Hag. destruct v as [|r]; [exact id|].
  intros (Hn & Hb & elems & Hr & Hlen & Hcells).
  split; [exact Hn|]. split; [exact Hb|]. exists elems.
  split; [apply Hag, Hr|]. split; [exact Hlen|].
  eapply Forall_impl; [exact Hcells|]. intros u. apply cellRef_agree, Hag.
Qed.

Lemma boardAt_agree n0 w n h h' b :
  agree h h' -> boardAt n0 w n h b -> boardAt n0 w n h' b.
Proof.
  intros Hag (Hn & rows & Hb & Hlen & Hrows).
  split; [exact Hn|]. exists rows. split; [apply Hag, Hb|].
  split; [exact Hlen|].
  eapply Forall_impl; [exact Hrows|]. intros v. apply rowRef_agree, Hag.
Qed.

Lemma rowRef_other n0 b b' w (h : Heap) v :
  (length h <= b')%nat -> rowRef n0 b w h v -> rowRef n0 b' w h v.
Proof.
  intros Hb'. destruct v as [|r]; [exact id|].
  intros (Hn & _ & elems & Hr & Hrest).
  pose proof (lookup_lt_Some _ _ _ Hr).
  split; [exact Hn|]. split; [lia|]. exists elems. split; assumption.
Qed.

(** Writing an array over an array leaves every cell a cell. *)
Lemma cellRef_insert (h : Heap) l old new v :
  h !! l = Some (OArray old) ->
  cellRef h v -> cellRef (<[l := OArray new]> h) v.
Proof.
  intros Hl. destruct v as [|c]; [exact id|].
  intros [cell Hc]. exists cell.
  rewrite list_lookup_insert_ne by congruence. exact Hc.
Qed.

(** Writing [w] cells over the row at [r]. *)
Lemma rowRef_insert_row n0 b w (h : Heap) r old new v :
  h !! r = Some (OArray old) -> length new = w ->
  Forall (cellRef h) new ->
  rowRef n0 b w h v -> rowRef n0 b w (<[r := OArray new]> h) v.
Proof.
  intros Hr Hlen Hnew. destruct v as [|r1]; [exact id|].
  intros (Hn & Hb & elems & Hr1 & Hlen1 & Hcells).
  split; [exact Hn|]. split; [exact Hb|].
  destruct (decide (r1 = r)) as [->|Hne].
  - exists new. split; [apply list_lookup_insert_eq, (lookup_lt_Some _ _ _ Hr)|].
    split; [exact Hlen|].
    eapply Forall_impl; [exact Hnew|]. intros u. exact (cellRef_insert _ _ _ _ _ Hr).
  - exists elems. split; [rewrite list_lookup_insert_ne by congruence; exact Hr1|].
    split; [exact Hlen1|].
    eapply Forall_impl; [exact Hcells|]. intros u. exact (cellRef_insert _ _ _ _ _ Hr).
Qed.

(** Writing other rows into the board array at [b]. *)
Lemma rowRef_insert_board n0 b w (h : Heap) old new v :
  h !! b = Some (OArray old) ->
  rowRef n0 b w h v -> rowRef n0 b w (<[b := OArray new]> h) v.
Proof.
  intros Hbl. destruct v as [|r1]; [exact id|].
  intros (Hn & Hb & elems & Hr1 & Hlen1 & Hcells).
  split; [exact Hn|]. split; [exact Hb|].
  exists elems. split; [rewrite list_lookup_insert_ne by congruence; exact Hr1|].
  split; [exact Hlen1|].
  eapply Forall_impl; [exact Hcells|]. intros u. exact (cellRef_insert _ _ _ _ _ Hbl).
Qed.

(** *** Reading a board that stands in the store *)

Lemma readCells_runs h elems :
  Forall (cellRef h) elems ->
  exists row, mapH readCell elems h = Ok (row, h) /\ length row = length elems.
Proof.
  induction 1 as [|v elems Hv _ (row & Hrow & Hlen)].
  - exists []. split; reflexivity.
  - assert (Hc : exists c, readCell v h = Ok (c, h)).
    { destruct v as [|c]; [exists None; reflexivity|].
      destruct Hv as [cell Hc]. exists (Some cell).
      cbn [readCell]. unfold bindH, load. rewrite Hc. reflexivity. }
    destruct Hc as [c Hc]. exists (c :: row). cbn [mapH]. runH Hc. runH Hrow.
    split; [reflexivity | cbn [length]; lia].
Qed.

Lemma readRow_runs n0 b w h v :
  rowRef n0 b w h v -> exists row, readRow v h = Ok (row, h) /\ length row = w.
Proof.
  destruct v as [|r]; [intros []|].
  intros (_ & _ & elems & Hr & Hlen & Hcells).
  destruct (readCells_runs h elems Hcells) as (row & Hrow & Hl).
  exists row. cbn [readRow]. runH (loadArray_at _ _ _ Hr).
  split; [exact Hrow | lia].
Qed.

Lemma readRows_runs n0 b w h rows :
  Forall (rowRef n0 b w h) rows ->
  exists bd, mapH readRow rows h = Ok (bd, h) /\ length bd = length rows
             /\ Forall (fun row : Row => length row = w) bd.
Proof.
  induction 1 as [|v rows Hv _ (bd & Hbd & Hlen & Hall)].
  - exists []. split; [reflexivity|]. split; [reflexivity | constructor].
  - destruct (readRow_runs _ _ _ _ _ Hv) as (row & Hrow & Hl).
    exists (row :: bd). cbn [mapH]. runH Hrow. runH Hbd.
    split; [reflexivity|]. split; [cbn [length]; lia|].
    constructor; assumption.
Qed.

Lemma rectangular_of_lengths (w n : Z) (bd : Board) :
  length bd = Z.to_nat n ->
  Forall (fun row : Row => length row = Z.to_nat w) bd ->
  rectangular w n bd = true.
Proof.
  intros Hlen Hall. unfold rectangular. apply andb_true_iff. split.
  - apply Nat.eqb_eq, Hlen.
  - apply forallb_forall. intros row Hin. apply Nat.eqb_eq.
    rewrite List.Forall_forall in Hall. exact (Hall row Hin).
Qed.

Lemma readBoard_runs n0 (w n : Z) h b :
  boardAt n0 (Z.to_nat w) (Z.to_nat n) h b ->
  exists bd, readBoard b h = Ok (bd, h) /\ rectangular w n bd = true.
Proof.
  intros (_ & rows & Hb & Hlen & Hrows).
  destruct (readRows_runs _ _ _ _ _ Hrows) as (bd & Hbd & Hl & Hall).
  exists bd. unfold readBoard. runH (loadArray_at _ _ _ Hb).
  split; [exact Hbd|]. apply rectangular_of_lengths; [lia | exact Hall].
Qed.

(** *** Copying the live board *)

Lemma readCells_inv elems : forall h row h',
  mapH readCell elems h = Ok (row, h') ->
  Forall (cellRef h) elems /\ length elems = length row.
Proof.
  induction elems as [|v elems IH]; intros h row h' H; cbn [mapH] in H.
  - injection H as <- <-. split; [constructor | reflexivity].
  - apply bindH_Ok in H as (c & h1 & Hc & H).
    apply bindH_Ok in H as (row1 & h2 & Hrow & H). injection H as <- <-.
    destruct (reads_readCell v h c h1 Hc) as [-> _].
    destruct (IH _ _ _ Hrow) as [Hall Hlen].
    split; [|cbn [length]; lia]. constructor; [|exact Hall].
    destruct v as [|l]; [exact I|]. cbn [readCell] in Hc.
    unfold bindH, load in Hc.
    destruct (h !! l) as [[| cell | |]|] eqn:Hl; try discriminate Hc.
    exists cell. exact Hl.
Qed.

Lemma copyRows_runs n0 w rows : forall h bd h',
  (n0 <= length h)%nat ->
  mapH readRow rows h = Ok (bd, h') ->
  Forall (fun row : Row => length row = w) bd ->
  exists rows1 h1,
    mapH copyRow rows h = Ok (rows1, h1)
    /\ keeps n0 h h1 /\ agree h h1 /\ length rows1 = length bd
    /\ forall b, (length h1 <= b)%nat -> Forall (rowRef n0 b w h1) rows1.
Proof.
  induction rows as [|v rows IH]; intros h bd h' Hn H Hall; cbn [mapH] in H.
  - injection H as <- <-. exists [], h. split; [reflexivity|].
    split; [apply keeps_refl|]. split; [apply agree_refl|].
    split; [reflexivity|]. intros b _. constructor.
  - apply bindH_Ok in H as (row & h1 & Hrow & H).
    apply bindH_Ok in H as (bd1 & h2 & Hbd & H). injection H as <- <-.
    destruct (reads_readRow v h row h1 Hrow) as [-> _].
    apply Forall_cons in Hall as [Hlen Hall].
    destruct v as [|r]; [discriminate Hrow|]. cbn [readRow] in Hrow.
    apply bindH_Ok in Hrow as (elems & h1 & Hr & Hcells).
    apply loadArray_inv in Hr as [Hr ->].
    destruct (readCells_inv _ _ _ _ Hcells) as [Hgood Hel].
    set (h1 := h ++ [OArray elems]).
    assert (Hag1 : agree h h1) by apply agree_app.
    assert (Hbd1 : mapH readRow rows h1 = Ok (bd1, h1)).
    { exact (proj2 (reads_mapH readRow rows reads_readRow _ _ _ Hbd) _ Hag1). }
    destruct (IH h1 bd1 h1 ltac:(unfold h1; rewrite length_app; lia) Hbd1 Hall)
      as (rows1 & h3 & Hcopy & Hk & Hag & Hl & Hrows).
    assert (Hcr : copyRow (Ref r) h = Ok (Ref (length h), h1)).
    { cbn [copyRow]. runH (loadArray_at _ _ _ Hr). reflexivity. }
    exists (Ref (length h) :: rows1), h3. cbn [mapH]. runH Hcr. runH Hcopy.
    split; [reflexivity|].
    split; [exact (keeps_trans _ _ _ _ (keeps_app n0 h _ Hn) Hk)|].
    split; [exact (agree_trans _ _ _ Hag1 Hag)|].
    split; [cbn [length]; lia|].
    intros b Hb. constructor; [|exact (Hrows b Hb)].
    pose proof (agree_length _ _ Hag) as Hlen3.
    unfold h1 in Hlen3. rewrite length_app in Hlen3. cbn [length] in Hlen3.
    split; [exact Hn|]. split; [lia|]. exists elems.
    split; [apply Hag; unfold h1; apply alloc_lookup|].
    split; [lia|].
    eapply Forall_impl; [exact Hgood|]. intros u.
    apply cellRef_agree, (agree_trans _ _ _ Hag1 Hag).
Qed.

Lemma copyBoard_runs n0 (w n : Z) h b bd :
  (n0 <= length h)%nat ->
  readBoard b h = Ok (bd, h) -> rectangular w n bd = true ->
  exists tb h1,
    copyBoard b h = Ok (tb, h1) /\ keeps n0 h h1 /\ agree h h1
    /\ boardAt n0 (Z.to_nat w) (Z.to_nat n) h1 tb.
Proof.
  intros Hn Hread Hrect. unfold readBoard in Hread.
  apply bindH_Ok in Hread as (rows & h1 & Hb & Hrows).
  apply loadArray_inv in Hb as [Hb ->].
  assert (Hall : Forall (fun row : Row => length row = Z.to_nat w) bd).
  { apply List.Forall_forall. intros row Hin.
    exact (rectangular_rows _ _ _ _ Hrect Hin). }
  destruct (copyRows_runs n0 _ rows h bd h Hn Hrows Hall)
    as (rows1 & h1 & Hcopy & Hk & Hag & Hl & Hfresh).
  exists (length h1), (h1 ++ [OArray rows1]).
  unfold copyBoard. runH (loadArray_at _ _ _ Hb). runH Hcopy.
  split; [reflexivity|].
  pose proof (keeps_length _ _ _ Hk) as Hlen1.
  split; [exact (keeps_trans _ _ _ _ Hk (keeps_app n0 h1 _ ltac:(lia)))|].
  split; [exact (agree_trans _ _ _ Hag (agree_app _ _))|].
  split; [lia|]. exists rows1. split; [apply alloc_lookup|].
  split; [rewrite Hl; exact (rectangular_length _ _ _ Hrect)|].
  eapply Forall_impl; [exact (Hfresh (length h1) (Nat.le_refl _))|].
  intros v. apply rowRef_agree, agree_app.
Qed.

(** *** Placing a block on the copy *)

Lemma placeBlockAt_runs n0 g p h tb blk :
  boardAt n0 (Z.to_nat (widthOf g)) (Z.to_nat (heightOf g)) h tb ->
  exists h',
    placeBlockAt g p tb blk h = Ok (tt, h') /\ keeps n0 h h'
    /\ boardAt n0 (Z.to_nat (widthOf g)) (Z.to_nat (heightOf g)) h' tb.
Proof.
  intros Hboard. unfold placeBlockAt.
  destruct (_ && _) eqn:Hin.
  2:{ exists h. split; [reflexivity|]. split; [apply keeps_refl | exact Hboard]. }
  apply andb_true_iff in Hin as [Hin Hx2]. apply andb_true_iff in Hin as [Hin Hx1].
  apply andb_true_iff in Hin as [Hy1 Hy2].
  rewrite Z.geb_leb in Hy1, Hx1. apply Z.leb_le in Hy1, Hx1.
  apply Z.ltb_lt in Hy2, Hx2.
  set (cell := OCell {| color := pieceColor p; type := PieceCell (ptype p) |}).
  set (h1 := h ++ [cell]).
  assert (Hag1 : agree h h1) by apply agree_app.
  destruct (boardAt_agree _ _ _ _ _ _ Hag1 Hboard)
    as (Hn & rows & Htb & Hlen & Hrows).
  assert (Halloc : alloc cell h = Ok (length h, h1)) by reflexivity.
  runH Halloc. runH (loadArray_at _ _ _ Htb).
  destruct (js_get_Some rows (by_ blk) Hy1 ltac:(lia)) as [v Hv].
  rewrite Hv.
  pose proof (proj1 (List.Forall_forall _ _) Hrows v (js_get_In _ _ _ Hv)) as Hrow.
  destruct v as [|r]; [destruct Hrow|].
  destruct Hrow as (Hnr & Hne & elems & Hr & Hel & Hcells).
  runH (loadArray_at _ _ _ Hr).
  pose proof (lookup_lt_Some _ _ _ Hr) as Hrlt.
  unfold store. destruct (Nat.ltb_spec r (length h1)) as [_|]; [|lia].
  eexists. split; [reflexivity|].
  assert (Hn' : (n0 <= length h)%nat).
  { destruct Hboard as (_ & rows0 & Htb0 & _).
    pose proof (lookup_lt_Some _ _ _ Htb0). lia. }
  split; [exact (keeps_trans _ _ _ _ (keeps_app n0 h _ Hn') (keeps_insert _ _ _ _ Hnr))|].
  split; [exact Hn|]. exists rows.
  split; [rewrite list_lookup_insert_ne by congruence; exact Htb|].
  split; [exact Hlen|].
  eapply Forall_impl; [exact Hrows|]. intros u.
  apply (rowRef_insert_row _ _ _ _ _ elems).
  - exact Hr.
  - rewrite js_set_length. exact Hel.
  - unfold js_set. destruct (bx blk <? 0); [exact Hcells|].
    apply Forall_insert; [exact Hcells|].
    exists {| color := pieceColor p; type := PieceCell (ptype p) |}.
    unfold h1. apply alloc_lookup.
Qed.

Lemma filterRowsH_runs n0 b w h rows :
  Forall (rowRef n0 b w h) rows ->
  exists kept,
    filterRowsH rows h = Ok (kept, h) /\ Forall (rowRef n0 b w h) kept
    /\ (length kept <= length rows)%nat.
Proof.
  induction 1 as [|v rows Hv _ (kept & Hkept & Hall & Hlen)].
  - exists []. split; [reflexivity|]. split; [constructor | reflexivity].
  - destruct (readRow_runs _ _ _ _ _ Hv) as (row & Hrow & _).
    exists (if negb (rowFull row) then v :: kept else kept).
    cbn [filterRowsH]. runH Hrow. runH Hkept.
    split; [reflexivity|].
    destruct (negb (rowFull row)); cbn [length];
      (split; [first [constructor; assumption | exact Hall] | lia]).
Qed.

Lemma measures_run (w n : Z) (bd : Board) :
  rectangular w n bd = true -> 0 <= n ->
  exists holes bumpiness aggregate,
    countHoles w n bd = Ok holes /\ getBumpiness w n bd = Ok bumpiness
    /\ getAggregateHeight w n bd = Ok aggregate.
Proof.
  intros Hrect Hn.
  destruct (columns_measures bd n (seq 0 (Z.to_nat w)) 0
              (rectangular_length _ _ _ Hrect) Hn)
    as (k & heights & Hholes & Hheights & _).
  exists (0 + k), (bumpinessLoop heights 0), (fold_left Z.add heights 0).
  unfold countHoles, getBumpiness, getAggregateHeight.
  rewrite Hholes, Hheights. repeat split.
Qed.

Lemma foldH_runs {A B} (f : B -> A -> HM B) (I : Heap -> Prop) (P : A -> Prop)
  (l : list A) :
  (forall b a h, P a -> I h -> exists b' h', f b a h = Ok (b', h') /\ I h') ->
  Forall P l ->
  forall b h, I h -> exists b' h', foldH f l b h = Ok (b', h') /\ I h'.
Proof.
  intros Hstep Hall. induction Hall as [|a l Ha _ IH]; intros b h Hi.
  - exists b, h. split; [reflexivity | exact Hi].
  - destruct (Hstep b a h Ha Hi) as (b1 & h1 & H1 & Hi1).
    destruct (IH b1 h1 Hi1) as (b2 & h2 & H2 & Hi2).
    exists b2, h2. cbn [foldH]. runH H1. split; assumption.
Qed.

Lemma mapH_runs {A B} (f : A -> HM B) (l : list A) :
  (forall a h, exists b h', f a h = Ok (b, h')) ->
  forall h, exists bs h', mapH f l h = Ok (bs, h').
Proof.
  intros Hf. induction l as [|a l IH]; intros h.
  - exists [], h. reflexivity.
  - destruct (Hf a h) as (b & h1 & Hb). destruct (IH h1) as (bs & h2 & Hbs).
    exists (b :: bs), h2. cbn [mapH]. runH Hb. runH Hbs. reflexivity.
Qed.

Lemma allocEngine_runs e h : exists ge h1, allocEngine e h = Ok (ge, h1).
Proof.
  assert (Hcell : forall c h, exists v h', allocCell c h = Ok (v, h')).
  { intros [c|] h1; eexists _, _; reflexivity. }
  assert (Hrow : forall r h, exists v h', allocRow r h = Ok (v, h')).
  { intros r h1. destruct (mapH_runs allocCell r Hcell h1) as (vs & h2 & Hvs).
    eexists _, _. unfold allocRow. runH Hvs. reflexivity. }
  destruct (mapH_runs allocRow (board e) Hrow h) as (rows & h1 & Hrows).
  unfold allocEngine. runH Hrows.
  destruct (currentPiece e); eexists _, _; reflexivity.
Qed.

Section Returns.

Variables (h0 : Heap) (ge : nat) (e : Engine) (g : EngineObj) (cp : nat)
  (cur : TetrisPiece).
Hypothesis Hwf : wfEngine e.
Hypothesis Hge : loadEngine ge h0 = Ok (g, h0).
Hypothesis Hgw : widthOf g = width e.
Hypothesis Hgh : heightOf g = height e.
Hypothesis Hbd : readBoard (boardRef g) h0 = Ok (board e, h0).
Hypothesis Hcur : loadPiece cp h0 = Ok (cur, h0).

Lemma forEach_placeBlock_runs p tb blocks : forall h,
  agree h0 h ->
  boardAt (length h0) (Z.to_nat (widthOf g)) (Z.to_nat (heightOf g)) h tb ->
  exists h',
    forEachH (placeBlockH ge p tb) blocks h = Ok (tt, h')
    /\ agree h0 h'
    /\ boardAt (length h0) (Z.to_nat (widthOf g)) (Z.to_nat (heightOf g)) h' tb.
Proof.
  induction blocks as [|blk blocks IH]; intros h Hag Hboard.
  - exists h. split; [reflexivity|]. split; assumption.
  - destruct (placeBlockAt_runs _ g p h tb blk Hboard) as (h1 & Hplace & Hk & Hb1).
    pose proof (keeps_agree _ _ _ Hag Hk) as Hag1.
    destruct (IH h1 Hag1 Hb1) as (h2 & Hrest & Hag2 & Hb2).
    exists h2. cbn [forEachH].
    assert (Hstep : placeBlockH ge p tb blk h = Ok (tt, h1)).
    { unfold placeBlockH. runH (loadEngine_stable _ _ _ Hge h Hag). exact Hplace. }
    runH Hstep. split; [exact Hrest|]. split; assumption.
Qed.

Lemma unshiftLoop_runs nb fuel : forall h k,
  agree h0 h ->
  boardAt (length h0) (Z.to_nat (widthOf g)) k h nb ->
  (k <= Z.to_nat (heightOf g))%nat ->
  (Z.to_nat (heightOf g) - k + 1 <= fuel)%nat ->
  exists h',
    unshiftLoop fuel ge nb h = Ok (tt, h') /\ agree h0 h'
    /\ boardAt (length h0) (Z.to_nat (widthOf g)) (Z.to_nat (heightOf g)) h' nb.
Proof.
  pose proof (wf_height e Hwf) as Hh. rewrite <- Hgh in Hh.
  induction fuel as [|fuel IH]; intros h k Hag Hboard Hk Hfuel; [lia|].
  destruct Hboard as (Hn & rows & Hnb & Hlen & Hrows).
  cbn [unshiftLoop]. runH (loadArray_at _ _ _ Hnb).
  runH (loadEngine_stable _ _ _ Hge h Hag).
  destruct (Z.ltb_spec (Z.of_nat (length rows)) (heightOf g)) as [Hlt|Hge'].
  - set (row := OArray (replicate (Z.to_nat (widthOf g)) Null)).
    set (h1 := h ++ [row]).
    assert (Halloc : alloc row h = Ok (length h, h1)) by reflexivity.
    runH Halloc.
    pose proof (lookup_lt_Some _ _ _ Hnb) as Hnblt.
    assert (Hnb1 : h1 !! nb = Some (OArray rows)) by (apply agree_app, Hnb).
    assert (Hstore : store nb (OArray (Ref (length h) :: rows)) h1
                     = Ok (tt, <[nb := OArray (Ref (length h) :: rows)]> h1)).
    { unfold store. destruct (Nat.ltb_spec nb (length h1)) as [_|Hbad];
        [reflexivity|]. unfold h1 in Hbad. rewrite length_app in Hbad. lia. }
    runH Hstore.
    apply (IH _ (Datatypes.S k)); [| |lia|lia].
    + apply agree_insert; [|exact Hn].
      exact (agree_trans _ _ _ Hag (agree_app _ _)).
    + split; [exact Hn|]. exists (Ref (length h) :: rows).
      split; [apply list_lookup_insert_eq, (lookup_lt_Some _ _ _ Hnb1)|].
      split; [cbn [length]; lia|].
      constructor.
      * split; [lia|]. split; [lia|].
        exists (replicate (Z.to_nat (widthOf g)) Null).
        split; [rewrite list_lookup_insert_ne by lia; unfold h1; apply alloc_lookup|].
        split; [apply length_replicate|].
        apply Forall_replicate. exact I.
      * eapply Forall_impl; [exact Hrows|]. intros v Hv.
        apply (rowRef_insert_board _ _ _ _ rows); [exact Hnb1|].
        exact (rowRef_agree _ _ _ _ _ _ (agree_app _ _) Hv).
  - exists h. split; [reflexivity|]. split; [exact Hag|].
    split; [exact Hn|]. exists rows. split; [exact Hnb|].
    split; [lia | exact Hrows].
Qed.

Lemma removeClearedLinesH_runs fuel tb h :
  agree h0 h ->
  boardAt (length h0) (Z.to_nat (widthOf g)) (Z.to_nat (heightOf g)) h tb ->
  (Z.to_nat (heightOf g) + 1 <= fuel)%nat ->
  exists nb h',
    removeClearedLinesH fuel ge tb h = Ok (nb, h') /\ agree h0 h'
    /\ boardAt (length h0) (Z.to_nat (widthOf g)) (Z.to_nat (heightOf g)) h' nb.
Proof.
  intros Hag (Hn & rows & Htb & Hlen & Hrows) Hfuel.
  destruct (filterRowsH_runs _ _ _ _ _ Hrows) as (kept & Hkept & Hall & Hle).
  pose proof (lookup_lt_Some _ _ _ Htb) as Htblt.
  set (h1 := h ++ [OArray kept]).
  assert (Halloc : alloc (OArray kept) h = Ok (length h, h1)) by reflexivity.
  assert (Hboard : boardAt (length h0) (Z.to_nat (widthOf g)) (length kept) h1
                     (length h)).
  { split; [lia|]. exists kept. split; [apply alloc_lookup|].
    split; [reflexivity|].
    eapply Forall_impl; [exact Hall|]. intros v Hv.
    apply (rowRef_agree _ _ _ h); [apply agree_app|].
    exact (rowRef_other _ tb _ _ _ _ (Nat.le_refl _) Hv). }
  destruct (unshiftLoop_runs (length h) fuel h1 (length kept)
              (agree_trans _ _ _ Hag (agree_app _ _)) Hboard ltac:(lia) ltac:(lia))
    as (h2 & Hloop & Hag2 & Hb2).
  exists (length h), h2. unfold removeClearedLinesH.
  runH (loadArray_at _ _ _ Htb). runH Hkept. runH Halloc. runH Hloop.
  split; [reflexivity|]. split; assumption.
Qed.

Lemma evaluatePositionH_runs fuel a tp p h :
  agree h0 h -> h !! tp = Some (OPiece p) -> validPiece p ->
  (Z.to_nat (heightOf g) + 1 <= fuel)%nat ->
  exists score0 h', evaluatePositionH fuel a ge tp h = Ok (score0, h').
Proof.
  intros Hag Htp Hp Hfuel.
  pose proof (wf_height e Hwf) as Hh. rewrite <- Hgh in Hh.
  assert (Hrect : rectangular (widthOf g) (heightOf g) (board e) = true)
    by (rewrite Hgw, Hgh; exact (wf_board e Hwf)).
  destruct (copyBoard_runs (length h0) _ _ h (boardRef g) (board e)
              (agree_length _ _ Hag) (readBoard_stable _ _ _ Hbd h Hag) Hrect)
    as (tb & h1 & Hcopy & Hk1 & Hag01 & Hb1).
  pose proof (keeps_agree _ _ _ Hag Hk1) as Hag1.
  destruct (getBlocks_valid p Hp) as (s & _ & Hblocks).
  destruct (forEach_placeBlock_runs p tb (blocksOf s (x p) (y p)) h1 Hag1 Hb1)
    as (h2 & Hplace & Hag2 & Hb2).
  destruct (readBoard_runs _ _ _ _ _ Hb2) as (tbd & Htbd & _).
  destruct (removeClearedLinesH_runs fuel tb h2 Hag2 Hb2 Hfuel)
    as (nb & h3 & Hremove & Hag3 & Hb3).
  destruct (readBoard_runs _ _ _ _ _ Hb3) as (bac & Hbac & Hrect3).
  destruct (measures_run _ _ _ Hrect3 Hh) as (holes & bump & agg & Hho & Hbu & Hagg).
  unfold evaluatePositionH.
  runH (loadEngine_stable _ _ _ Hge h Hag). runH Hcopy.
  runH (loadPiece_at _ _ _ (Hag01 _ _ Htp)).
  runH (liftRes_run _ _ h1 Hblocks). runH Hplace. runH Htbd. runH Hremove.
  runH Hbac. runH (liftRes_run _ _ h3 Hho). runH (liftRes_run _ _ h3 Hbu).
  runH (liftRes_run _ _ h3 Hagg).
  runH (readBoard_stable _ _ _ Hbd h3 Hag3).
  eexists _, _. reflexivity.
Qed.

Lemma dropTestPiece_runs tp fuel : forall p h,
  agree h0 h -> (length h0 <= tp)%nat -> h !! tp = Some (OPiece p) ->
  validPiece p ->
  (Z.to_nat (height e - y p) + 1 <= fuel)%nat ->
  exists h', dropTestPiece fuel ge tp h = Ok (tt, h').
Proof.
  induction fuel as [|fuel IH]; intros p h Hag Hn Htp Hp Hfuel; [lia|].
  cbn [dropTestPiece].
  destruct (isColliding_total e p Hwf Hp) as [c Hc].
  assert (Hstep : isCollidingH ge tp h = Ok (c, h)).
  { rewrite (isCollidingH_at _ _ _ _ Hge Hbd h tp p Hag Htp), Hgw, Hgh.
    exact (liftRes_run _ _ h Hc). }
  runH Hstep. destruct c; cbn [negb]; [exists h; reflexivity|].
  destruct (free_piece_rows e p Hwf Hp Hc) as [[_ Hy] _].
  runH (modifyPiece_at _ _ _ (fun p => set_y (y p + 1) p) Htp).
  apply (IH (set_y (y p + 1) p)).
  - exact (agree_insert _ _ _ _ Hag Hn).
  - exact Hn.
  - exact (lookup_insert_piece _ _ _ _ Htp).
  - exact Hp.
  - cbn [set_y y]. lia.
Qed.

Lemma tryPlacement_runs fuel a rot best x0 h :
  0 <= rot < shapeLength cur -> agree h0 h ->
  (Z.to_nat (heightOf g) + 1 <= fuel)%nat ->
  exists best' h',
    tryPlacement fuel a ge cp rot best x0 h = Ok (best', h') /\ agree h0 h'.
Proof.
  intros Hrot Hag Hfuel.
  assert (Hgoal : exists best' h',
             tryPlacement fuel a ge cp rot best x0 h = Ok (best', h')).
  2:{ destruct Hgoal as (best' & h' & Hrun). exists best', h'.
      split; [exact Hrun|].
      pose proof (framed_tryPlacement (length h0) fuel a ge cp rot best x0 h
                    (agree_length _ _ Hag) I best' h' Hrun) as [Hk _].
      exact (keeps_agree _ _ _ Hag Hk). }
  set (tp := length h).
  assert (Hn : (length h0 <= tp)%nat) by exact (agree_length _ _ Hag).
  assert (Hclone : cloneH cp h = Ok (tp, h ++ [OPiece (clone cur)])).
  { unfold cloneH. runH (loadPiece_stable _ _ _ Hcur h Hag). reflexivity. }
  pose proof (alloc_lookup h (OPiece (clone cur))) as Htp1. fold tp in Htp1.
  pose proof (agree_trans _ _ _ Hag (agree_app h (OPiece (clone cur)))) as Hag1.
  pose proof (lookup_insert_piece _ _ _ (OPiece (set_rotation rot (clone cur))) Htp1)
    as Htp2.
  pose proof (agree_insert _ _ tp (OPiece (set_rotation rot (clone cur))) Hag1 Hn)
    as Hag2.
  pose proof (lookup_insert_piece _ _ _
                (OPiece (set_x x0 (set_rotation rot (clone cur)))) Htp2) as Htp3.
  pose proof (agree_insert _ _ tp
                (OPiece (set_x x0 (set_rotation rot (clone cur)))) Hag2 Hn) as Hag3.
  set (p0 := set_y 0 (set_x x0 (set_rotation rot (clone cur)))).
  pose proof (lookup_insert_piece _ _ _ (OPiece p0) Htp3) as Htp4.
  pose proof (agree_insert _ _ tp (OPiece p0) Hag3 Hn) as Hag4.
  assert (Hp0 : validPiece p0) by exact Hrot.
  destruct (dropTestPiece_runs tp fuel p0 _ Hag4 Hn Htp4 Hp0) as (h5 & Hdrop).
  { cbn [p0 set_y y]. rewrite <- Hgh. lia. }
  destruct (dropTestPiece_stops _ _ _ _ Hge Hbd fuel tp p0 _ h5 Hag4 Hn Htp4 Hdrop)
    as (d & _ & Hag5 & Htp5 & _).
  set (p1 := set_y (y (set_y (y p0 + d) p0) - 1) (set_y (y p0 + d) p0)).
  pose proof (lookup_insert_piece _ _ _ (OPiece p1) Htp5) as Htp6.
  pose proof (agree_insert _ _ tp (OPiece p1) Hag5 Hn) as Hag6.
  assert (Hp1 : validPiece p1) by exact Hrot.
  destruct (isColliding_total e p1 Hwf Hp1) as [c Hc].
  assert (Hcoll : isCollidingH ge tp (<[tp := OPiece p1]> h5) = Ok (c, <[tp := OPiece p1]> h5)).
  { rewrite (isCollidingH_at _ _ _ _ Hge Hbd _ tp p1 Hag6 Htp6), Hgw, Hgh.
    exact (liftRes_run _ _ _ Hc). }
  unfold tryPlacement. runH Hclone.
  runH (modifyPiece_at _ _ _ (set_rotation rot) Htp1).
  runH (modifyPiece_at _ _ _ (set_x x0) Htp2).
  runH (modifyPiece_at _ _ _ (set_y 0) Htp3).
  runH Hdrop.
  runH (modifyPiece_at _ _ _ (fun p => set_y (y p - 1) p) Htp5).
  runH Hcoll.
  destruct c; [eexists _, _; reflexivity|].
  destruct (evaluatePositionH_runs fuel a tp p1 _ Hag6 Htp6 Hp1 Hfuel)
    as (score0 & h7 & Heval).
  runH Heval.
  destruct (scoreGt score0 best.2); [|eexists _, _; reflexivity].
  pose proof (framed_evaluatePositionH _ fuel a ge tp _ (Nat.le_refl _) I
                score0 h7 Heval) as [[_ Hk] _].
  assert (Htp7 : h7 !! tp = Some (OPiece p1)).
  { rewrite (Hk tp (lookup_lt_Some _ _ _ Htp6)). exact Htp6. }
  runH (loadPiece_at _ _ _ Htp7). eexists _, _. reflexivity.
Qed.

Lemma findBestMoveH_runs fuel a :
  currentPieceRef g = Ref cp ->
  (Z.to_nat (heightOf g) + 1 <= fuel)%nat ->
  exists m h', findBestMoveH fuel a ge h0 = Ok (m, h').
Proof.
  intros Hcp Hfuel. unfold findBestMoveH. runH Hge. rewrite Hcp. runH Hcur.
  destruct (foldH_runs
              (fun best rot =>
                 foldH (tryPlacement fuel a ge cp rot)
                   (zrange (-2) (Z.to_nat (widthOf g + 4))) best)
              (agree h0) (fun rot => 0 <= rot < shapeLength cur)
              (zrange 0 (length (shape cur))))
    with (b := (@None Move, @None float)) (h := h0)
    as (best & h1 & Hfold & _).
  - intros b rot h Hrot Hag.
    apply (foldH_runs _ (agree h0) (fun _ => True)); [| |exact Hag].
    + intros b0 x0 h2 _ Hag2.
      exact (tryPlacement_runs fuel a rot b0 x0 h2 Hrot Hag2 Hfuel).
    + apply List.Forall_forall. intros; exact I.
  - eapply Forall_impl; [apply zrange_bounds|]. cbv beta.
    intros rot Hr. unfold shapeLength. lia.
  - apply agree_refl.
  - runH Hfold. eexists _, _. reflexivity.
Qed.

End Returns.

(** X21.  [findBestMove()] returns: on an engine in order, where the
    search loops get more turns than the field has rows, it ends and
    raises no error, whatever the board holds and wherever the current
    piece stands; without a current piece the result is [null]. *)
Theorem findBestMove_returns (fuel : nat) (a : AIParams) (e : Engine) :
  wfEngine e -> (Z.to_nat (height e) + 1 <= fuel)%nat ->
  exists m, findBestMove fuel a e = Ok m
            /\ (currentPiece e = None -> m = None).
Proof.
  intros Hwf Hfuel. unfold findBestMove.
  destruct (allocEngine_runs e []) as (ge & h0 & Halloc).
  destruct (allocEngine_reads _ _ _ _ Halloc) as (b & p & Hge & Hbd & Hp).
  runH Halloc.
  destruct (currentPiece e) as [cur|].
  - destruct Hp as (cp & -> & Hcur).
    destruct (findBestMoveH_runs h0 ge e _ cp cur Hwf Hge eq_refl eq_refl Hbd
                Hcur fuel a eq_refl Hfuel) as (m & h' & Hrun).
    rewrite Hrun. exists m. split; [reflexivity | discriminate].
  - subst p. unfold findBestMoveH. runH Hge. cbn [currentPieceRef].
    exists None. split; reflexivity.
Qed.

Lemma findBestMove_returns_witness :
  exists m, findBestMove 30 mediumParams freshEngine = Ok m
            /\ (currentPiece freshEngine = None -> m = None).
Proof.
  apply (findBestMove_returns 30 mediumParams freshEngine freshEngine_wf).
  vm_compute. lia.
Defined.

(** ** The move search gives up only on a sealed field *)


Lemma zrange_In lo n i : lo <= i < lo + Z.of_nat n -> In i (zrange lo n).
Proof.
  intros Hi. unfold zrange. apply in_map_iff. exists (Z.to_nat (i - lo)).
  split; [lia|]. apply in_seq. lia.
Qed.

Section Finds.

Variables (h0 : Heap) (ge : nat) (g : EngineObj) (bd : Board) (cp : nat)
  (cur : TetrisPiece).
Hypothesis Hge : loadEngine ge h0 = Ok (g, h0).
Hypothesis Hbd : readBoard (boardRef g) h0 = Ok (bd, h0).
Hypothesis Hcp : currentPieceRef g = Ref cp.
Hypothesis Hcur : loadPiece cp h0 = Ok (cur, h0).



End Finds.



(** ** The spectator view *)

Lemma findIndexFrom_none current l k :
  Forall (fun p => isSpectated current p = false) l ->
  findIndexFrom current l k = -1.
Proof.
  intros H. revert k. induction H as [|p l Hp _ IH]; intros k; [reflexivity|].
  cbn [findIndexFrom]. rewrite Hp. apply IH.
Qed.

Lemma findIndexFrom_found l : forall k i p,
  l !! i = Some p -> NoDup (map sid l) ->
  findIndexFrom (Some (sid p)) l k = k + Z.of_nat i.
Proof.
  induction l as [|q l IH]; intros k i p Hi Hnd; [discriminate Hi|].
  cbn [findIndexFrom isSpectated]. cbn [map] in Hnd.
  apply NoDup_cons in Hnd as [Hq Hnd].
  destruct i as [|i]; cbn in Hi.
  - injection Hi as ->. rewrite Z.eqb_refl. lia.
  - destruct (Z.eqb_spec (sid q) (sid p)) as [Heq|_].
    + exfalso. apply Hq. rewrite Heq.
      apply list_elem_of_In, in_map, list_elem_of_In.
      exact (list_elem_of_lookup_2 _ _ _ Hi).
    + rewrite (IH (k + 1) i p Hi Hnd). lia.
Qed.

Lemma addToHistory_fields id s :
  let s' := addToHistory id s in
  isSpectating s' = isSpectating s
  /\ spectatingPlayerId s' = spectatingPlayerId s
  /\ allPlayers s' = allPlayers s
  /\ maxHistoryLength s' = maxHistoryLength s.
Proof. cbv zeta. repeat split. Qed.

Lemma spectate_fields p s :
  let s' := spectate p s in
  isSpectating s' = isSpectating s
  /\ spectatingPlayerId s' = Some (sid p)
  /\ allPlayers s' = allPlayers s.
Proof. cbv zeta. repeat split. Qed.

Lemma switchToNextPlayer_at s ps i p :
  isSpectating s = true -> allPlayers s = Some ps ->
  NoDup (aliveIds ps) -> alivePlayers ps !! i = Some p ->
  spectatingPlayerId s = Some (sid p) ->
  exists q,
    alivePlayers ps
      !! (if (i + 1 =? length (alivePlayers ps))%nat then 0%nat
          else Datatypes.S i) = Some q
    /\ switchToNextPlayer s = Ok (spectate q s).
Proof.
  intros Hsp Hps Hnd Hi Hcur. unfold aliveIds in Hnd.
  pose proof (lookup_lt_Some _ _ _ Hi) as Hlt.
  set (j := if (i + 1 =? length (alivePlayers ps))%nat then 0%nat
            else Datatypes.S i).
  assert (Hj : (j < length (alivePlayers ps))%nat).
  { unfold j. destruct (Nat.eqb_spec (i + 1) (length (alivePlayers ps))); lia. }
  destruct (lookup_lt_is_Some_2 _ _ Hj) as [q Hq].
  exists q. split; [exact Hq|].
  unfold switchToNextPlayer. rewrite Hps, Hsp. cbn [negb].
  destruct (Nat.eqb_spec (length (alivePlayers ps)) 0) as [Hz|_]; [lia|].
  rewrite Hcur, (findIndexFrom_found _ 0 i p Hi Hnd).
  assert (Hidx : Z.rem (0 + Z.of_nat i + 1) (Z.of_nat (length (alivePlayers ps)))
                 = Z.of_nat j).
  { rewrite Z.rem_mod_nonneg by lia. unfold j.
    destruct (Nat.eqb_spec (i + 1) (length (alivePlayers ps))) as [Heq|Hne].
    - rewrite <- Heq. replace (0 + Z.of_nat i + 1) with (Z.of_nat (i + 1)) by lia.
      apply Z_mod_same_full.
    - rewrite Z.mod_small by lia. lia. }
  rewrite Hidx. unfold js_get.
  destruct (Z.ltb_spec (Z.of_nat j) 0) as [?|_]; [lia|].
  rewrite Nat2Z.id, Hq. reflexivity.
Qed.

Lemma switchToPreviousPlayer_at s ps i p :
  isSpectating s = true -> allPlayers s = Some ps ->
  NoDup (aliveIds ps) -> alivePlayers ps !! i = Some p ->
  spectatingPlayerId s = Some (sid p) ->
  exists q,
    alivePlayers ps
      !! (if (i =? 0)%nat then (length (alivePlayers ps) - 1)%nat
          else (i - 1)%nat) = Some q
    /\ switchToPreviousPlayer s = Ok (spectate q s).
Proof.
  intros Hsp Hps Hnd Hi Hcur. unfold aliveIds in Hnd.
  pose proof (lookup_lt_Some _ _ _ Hi) as Hlt.
  set (j := if (i =? 0)%nat then (length (alivePlayers ps) - 1)%nat
            else (i - 1)%nat).
  assert (Hj : (j < length (alivePlayers ps))%nat).
  { unfold j. destruct (Nat.eqb_spec i 0); lia. }
  destruct (lookup_lt_is_Some_2 _ _ Hj) as [q Hq].
  exists q. split; [exact Hq|].
  unfold switchToPreviousPlayer. rewrite Hps, Hsp. cbn [negb].
  destruct (Nat.eqb_spec (length (alivePlayers ps)) 0) as [Hz|_]; [lia|].
  rewrite Hcur, (findIndexFrom_found _ 0 i p Hi Hnd).
  assert (Hidx : (if 0 + Z.of_nat i =? 0
                  then Z.of_nat (length (alivePlayers ps)) - 1
                  else 0 + Z.of_nat i - 1) = Z.of_nat j).
  { unfold j.
    destruct (Nat.eqb_spec i 0), (Z.eqb_spec (0 + Z.of_nat i) 0); lia. }
  rewrite Hidx. unfold js_get.
  destruct (Z.ltb_spec (Z.of_nat j) 0) as [?|_]; [lia|].
  rewrite Nat2Z.id, Hq. reflexivity.
Qed.

Lemma aliveIds_lookup ps id :
  In id (aliveIds ps) -> exists i p, alivePlayers ps !! i = Some p /\ sid p = id.
Proof.
  unfold aliveIds. intros Hin. apply in_map_iff in Hin as (p & Hp & Hin).
  apply list_elem_of_In, list_elem_of_lookup in Hin as [i Hi].
  exists i, p. split; assumption.
Qed.

(** X23.  Switching to the next player and back.  While the view is on a
    player who is still in the game, and the ids of the players in the
    game are distinct, [switchToNextPlayer()] moves the view to a player
    in the game and [switchToPreviousPlayer()] then brings it back; the
    same holds in the other order.  Neither call raises an error. *)
Theorem switch_there_and_back (s : SpectatorSystem) (ps : list Spectated)
  (id : Z) :
  isSpectating s = true -> allPlayers s = Some ps ->
  NoDup (aliveIds ps) -> spectatingPlayerId s = Some id ->
  In id (aliveIds ps) ->
  (exists s1 s2 id1,
      switchToNextPlayer s = Ok s1 /\ spectatingPlayerId s1 = Some id1
      /\ In id1 (aliveIds ps)
      /\ switchToPreviousPlayer s1 = Ok s2 /\ spectatingPlayerId s2 = Some id)
  /\ (exists s1 s2 id1,
         switchToPreviousPlayer s = Ok s1 /\ spectatingPlayerId s1 = Some id1
         /\ In id1 (aliveIds ps)
         /\ switchToNextPlayer s1 = Ok s2 /\ spectatingPlayerId s2 = Some id).
Proof.
  intros Hsp Hps Hnd Hcur Hin.
  destruct (aliveIds_lookup ps id Hin) as (i & p & Hi & <-).
  pose proof (lookup_lt_Some _ _ _ Hi) as Hlt.
  assert (Hmem : forall j q, alivePlayers ps !! j = Some q -> In (sid q) (aliveIds ps)).
  { intros j q Hq. unfold aliveIds. apply in_map, list_elem_of_In.
    exact (list_elem_of_lookup_2 _ _ _ Hq). }
  split.
  - destruct (switchToNextPlayer_at s ps i p Hsp Hps Hnd Hi Hcur) as (q & Hq & Hnext).
    destruct (switchToPreviousPlayer_at (spectate q s) ps _ q Hsp Hps Hnd Hq eq_refl)
      as (p' & Hp' & Hprev).
    exists (spectate q s), (spectate p' (spectate q s)), (sid q).
    split; [exact Hnext|]. split; [reflexivity|]. split; [exact (Hmem _ _ Hq)|].
    split; [exact Hprev|].
    cbn [spectate addToHistory spectatingPlayerId]. f_equal. f_equal.
    destruct (Nat.eqb_spec (i + 1) (length (alivePlayers ps))) as [Heq|Hne].
    + cbn [Nat.eqb] in Hp'.
      replace (length (alivePlayers ps) - 1)%nat with i in Hp' by lia. congruence.
    + cbn [Nat.eqb] in Hp'. replace (Datatypes.S i - 1)%nat with i in Hp' by lia.
      congruence.
  - destruct (switchToPreviousPlayer_at s ps i p Hsp Hps Hnd Hi Hcur)
      as (q & Hq & Hprev).
    destruct (switchToNextPlayer_at (spectate q s) ps _ q Hsp Hps Hnd Hq eq_refl)
      as (p' & Hp' & Hnext).
    exists (spectate q s), (spectate p' (spectate q s)), (sid q).
    split; [exact Hprev|]. split; [reflexivity|]. split; [exact (Hmem _ _ Hq)|].
    split; [exact Hnext|].
    cbn [spectate addToHistory spectatingPlayerId]. f_equal. f_equal.
    destruct (Nat.eqb_spec i 0) as [->|Hne].
    + replace (length (alivePlayers ps) - 1 + 1)%nat
        with (length (alivePlayers ps)) in Hp' by lia.
      rewrite Nat.eqb_refl in Hp'. congruence.
    + destruct (Nat.eqb_spec (i - 1 + 1) (length (alivePlayers ps))); [lia|].
      replace (Datatypes.S (i - 1)) with i in Hp' by lia. congruence.
Qed.

Lemma switch_there_and_back_witness :
  (exists s1 s2 id1,
      switchToNextPlayer (viewOf 4) = Ok s1 /\ spectatingPlayerId s1 = Some id1
      /\ In id1 (aliveIds fivePlayers)
      /\ switchToPreviousPlayer s1 = Ok s2 /\ spectatingPlayerId s2 = Some 4)
  /\ (exists s1 s2 id1,
         switchToPreviousPlayer (viewOf 4) = Ok s1
         /\ spectatingPlayerId s1 = Some id1
         /\ In id1 (aliveIds fivePlayers)
         /\ switchToNextPlayer s1 = Ok s2 /\ spectatingPlayerId s2 = Some 4).
Proof.
  apply (switch_there_and_back (viewOf 4) fivePlayers 4).
  - reflexivity.
  - reflexivity.
  - apply (bool_decide_unpack _). vm_compute. exact I.
  - reflexivity.
  - vm_compute. tauto.
Defined.

(** X24.  A view left on a player who is no longer in the game (or on no
    player), while other players are: [switchToNextPlayer()] moves it to
    the first player in the game, and [switchToPreviousPlayer()] raises a
    [TypeError], since [findIndex] gives -1 and the array has no element
    at index -2. *)
Theorem switch_from_a_player_out_of_the_game (s : SpectatorSystem)
  (ps : list Spectated) (first : Spectated) (rest : list Spectated) :
  isSpectating s = true -> allPlayers s = Some ps ->
  alivePlayers ps = first :: rest ->
  (forall id, spectatingPlayerId s = Some id -> ~ In id (aliveIds ps)) ->
  switchToNextPlayer s = Ok (spectate first s)
  /\ switchToPreviousPlayer s = TypeError.
Proof.
  intros Hsp Hps Halive Hout.
  assert (Hidx : findIndexFrom (spectatingPlayerId s) (alivePlayers ps) 0 = -1).
  { apply findIndexFrom_none, List.Forall_forall. intros p Hp.
    unfold isSpectated. destruct (spectatingPlayerId s) as [id|]; [|reflexivity].
    apply Z.eqb_neq. intros Heq. apply (Hout id eq_refl).
    unfold aliveIds. rewrite <- Heq. apply in_map, Hp. }
  unfold switchToNextPlayer, switchToPreviousPlayer.
  rewrite Hps, Hsp. cbn [negb]. rewrite Hidx, Halive.
  cbn [length Nat.eqb]. split.
  - change (-1 + 1) with 0. rewrite Z.rem_0_l by lia. reflexivity.
  - reflexivity.
Qed.

Lemma switch_from_a_player_out_of_the_game_witness :
  switchToNextPlayer (viewOf 3)
  = Ok (spectate {| sid := 0; sGameOver := false |} (viewOf 3))
  /\ switchToPreviousPlayer (viewOf 3) = TypeError.
Proof.
  apply (switch_from_a_player_out_of_the_game (viewOf 3) fivePlayers
           {| sid := 0; sGameOver := false |}
           [ {| sid := 2; sGameOver := false |};
             {| sid := 4; sGameOver := false |} ]).
  - reflexivity.
  - reflexivity.
  - reflexivity.
  - intros id Hid. injection Hid as <-. vm_compute.
    intros H; decompose [or] H; congruence.
Defined.

Lemma addToHistory_history id s :
  0 < maxHistoryLength s -> NoDup (spectatingHistory s) ->
  let h' := spectatingHistory (addToHistory id s) in
  head h' = Some id /\ NoDup h'
  /\ Z.of_nat (length h') <= maxHistoryLength s
  /\ forall j, In j h' -> j = id \/ In j (spectatingHistory s).
Proof.
  intros Hmax Hnd. cbv zeta. cbn [addToHistory spectatingHistory].
  set (filtered := List.filter (fun j => negb (j =? id)) (spectatingHistory s)).
  assert (Hnd1 : NoDup (id :: filtered)).
  { apply NoDup_cons. split.
    - intros Hin. apply list_elem_of_In, filter_In in Hin as [_ Hne].
      rewrite Z.eqb_refl in Hne. discriminate Hne.
    - apply NoDup_ListNoDup, List.NoDup_filter, NoDup_ListNoDup, Hnd. }
  assert (Hsub : forall j, In j (id :: filtered) -> j = id \/ In j (spectatingHistory s)).
  { intros j [<-|Hin]; [left; reflexivity|].
    right. apply filter_In in Hin as [Hin _]. exact Hin. }
  destruct (Z.gtb_spec (Z.of_nat (length (id :: filtered))) (maxHistoryLength s))
    as [Hgt|Hle].
  - unfold slice0. destruct (Z.ltb_spec (maxHistoryLength s) 0) as [?|_]; [lia|].
    destruct (Z.to_nat (maxHistoryLength s)) as [|k] eqn:Hk; [lia|].
    cbn [take head]. split; [reflexivity|]. split; [|split].
    + change (id :: take k filtered) with (take (Datatypes.S k) (id :: filtered)).
      eapply sublist_NoDup; [exact Hnd1 | apply sublist_take].
    + cbn [length]. rewrite length_take. lia.
    + intros j Hin. apply Hsub.
      change (id :: take k filtered) with (take (Datatypes.S k) (id :: filtered)) in Hin.
      apply list_elem_of_In. apply list_elem_of_In in Hin.
      exact (subseteq_take _ _ _ Hin).
  - split; [reflexivity|]. split; [exact Hnd1|]. split; [exact Hle | exact Hsub].
Qed.

Lemma addToHistory_inOrder id s :
  0 < maxHistoryLength s -> NoDup (spectatingHistory s) ->
  spectatingPlayerId s = Some id ->
  viewInOrder (addToHistory id s).
Proof.
  intros Hmax Hnd Hid.
  destruct (addToHistory_history id s Hmax Hnd) as (Hhead & Hnd' & Hlen & _).
  constructor; [exact Hmax | exact Hnd' | exact Hlen |].
  intros _. exists id. split; [exact Hid | exact Hhead].
Qed.

Lemma setDisplay_fields v s s' :
  setDisplay v s = Ok s' ->
  isSpectating s' = isSpectating s
  /\ spectatingPlayerId s' = spectatingPlayerId s
  /\ spectatingHistory s' = spectatingHistory s
  /\ maxHistoryLength s' = maxHistoryLength s
  /\ allPlayers s' = allPlayers s.
Proof.
  unfold setDisplay.
  destruct (spectatorCanvas s), (spectatorInfo s), (spectatorControls s);
    try discriminate.
  intros H. injection H as <-. repeat split.
Qed.

Lemma stopSpectating_inOrder s s' :
  viewInOrder s -> stopSpectating s = Ok s' ->
  viewInOrder s' /\ isSpectating s' = false /\ spectatingPlayerId s' = None.
Proof.
  intros [Hmax Hnd Hlen _] Hstop. unfold stopSpectating in Hstop.
  destruct (setDisplay_fields _ _ _ Hstop) as (Hsp & Hid & Hh & Hm & _).
  cbn in Hsp, Hid, Hh, Hm.
  split; [|split; assumption].
  constructor; rewrite ?Hh, ?Hm; try assumption.
  rewrite Hsp. discriminate.
Qed.

Lemma spectate_inOrder p s : viewInOrder s -> viewInOrder (spectate p s).
Proof.
  intros [Hmax Hnd Hlen _]. unfold spectate.
  apply addToHistory_inOrder; [exact Hmax | exact Hnd | reflexivity].
Qed.

(** X25.  The methods that change what the view is set on keep it in
    order.  After [initialize], [startSpectating], [stopSpectating],
    [switchToNextPlayer] and [switchToPreviousPlayer], whenever the call
    completes, the history lists each player once in at most
    [maxHistoryLength] entries and a spectating view is set on the player
    at the head of the history.  [startSpectating] returns [true] only
    for a player of the list who is in the game, and the view is then set
    on that player; [stopSpectating] leaves the view on no player. *)
Theorem view_stays_in_order (s : SpectatorSystem) :
  viewInOrder s ->
  viewInOrder (initialize s)
  /\ (forall id ps b s',
        startSpectating id ps s = Ok (b, s') ->
        viewInOrder s'
        /\ (b = true ->
            isSpectating s' = true /\ spectatingPlayerId s' = Some id
            /\ allPlayers s' = Some ps /\ In id (aliveIds ps))
        /\ (b = false -> s' = s))
  /\ (forall s', stopSpectating s = Ok s' ->
        viewInOrder s' /\ isSpectating s' = false
        /\ spectatingPlayerId s' = None)
  /\ (forall s', switchToNextPlayer s = Ok s' -> viewInOrder s')
  /\ (forall s', switchToPreviousPlayer s = Ok s' -> viewInOrder s').
Proof.
  intros Hok. pose proof Hok as [Hmax Hnd Hlen Hhead].
  split; [constructor; assumption|].
  split; [|split; [|split]].
  - intros id ps b s' Hstart. unfold startSpectating in Hstart.
    destruct (List.find _ ps) as [player|] eqn:Hfind.
    2:{ injection Hstart as <- <-. split; [exact Hok|].
        split; [discriminate | reflexivity]. }
    destruct (sGameOver player) eqn:Hover.
    { injection Hstart as <- <-. split; [exact Hok|].
      split; [discriminate | reflexivity]. }
    destruct (setDisplay _ _) as [s2| |] eqn:Hdisp; try discriminate Hstart.
    cbn [bindRes] in Hstart. injection Hstart as <- <-.
    destruct (setDisplay_fields _ _ _ Hdisp) as (Hsp & Hid & Hh & Hm & Hps).
    cbn in Hsp, Hid, Hh, Hm, Hps.
    split; [|split; [|discriminate]].
    + apply addToHistory_inOrder; rewrite ?Hm, ?Hh; assumption.
    + intros _. split; [exact Hsp|]. split; [exact Hid|]. split; [exact Hps|].
      apply find_some in Hfind as [Hin Heq]. apply Z.eqb_eq in Heq. subst id.
      unfold aliveIds, alivePlayers. apply in_map, filter_In.
      split; [exact Hin | rewrite Hover; reflexivity].
  - intros s'. exact (stopSpectating_inOrder s s' Hok).
  - intros s' Hnext. unfold switchToNextPlayer in Hnext.
    destruct (allPlayers s) as [ps|]; [|injection Hnext as <-; exact Hok].
    destruct (negb (isSpectating s)); [injection Hnext as <-; exact Hok|].
    destruct (length (alivePlayers ps) =? 0)%nat.
    { exact (proj1 (stopSpectating_inOrder s s' Hok Hnext)). }
    destruct (js_get _ _) as [q|]; [|discriminate Hnext].
    injection Hnext as <-. exact (spectate_inOrder q s Hok).
  - intros s' Hprev. unfold switchToPreviousPlayer in Hprev.
    destruct (allPlayers s) as [ps|]; [|injection Hprev as <-; exact Hok].
    destruct (negb (isSpectating s)); [injection Hprev as <-; exact Hok|].
    destruct (length (alivePlayers ps) =? 0)%nat.
    { exact (proj1 (stopSpectating_inOrder s s' Hok Hprev)). }
    destruct (js_get _ _) as [q|]; [|discriminate Hprev].
    injection Hprev as <-. exact (spectate_inOrder q s Hok).
Qed.

Lemma view_stays_in_order_witness :
  viewInOrder (viewOf 4)
  /\ (forall s', switchToNextPlayer (viewOf 4) = Ok s' -> viewInOrder s')
  /\ (forall s', switchToPreviousPlayer (viewOf 4) = Ok s' -> viewInOrder s').
Proof.
  assert (H : viewInOrder (viewOf 4)).
  { constructor.
    - reflexivity.
    - apply (bool_decide_unpack _). vm_compute. exact I.
    - vm_compute. congruence.
    - intros _. exists 4. split; reflexivity. }
  split; [exact H|].
  exact (proj2 (proj2 (proj2 (view_stays_in_order (viewOf 4) H)))).
Defined.

(** X26.  [calculatePlayerHealth] never sees an empty row: a cell of an
    engine board is [null] or a cell object and so never [=== 0].  For
    every engine whose board has a first row with at least one cell, and
    so for every engine in order with at least one row, the health is 0,
    however empty or full the board is. *)
Theorem calculatePlayerHealth_is_zero (e : Engine) :
  wfEngine e -> 0 < height e ->
  exists q, calculatePlayerHealth (Some e) = Some q /\ (q == 0)%Q.
Proof.
  intros Hwf Hh. pose proof (wf_board e Hwf) as Hrect.
  pose proof (rectangular_length _ _ _ Hrect) as Hlen.
  unfold calculatePlayerHealth.
  destruct (board e) as [|row rest] eqn:Hbd; [cbn [length] in Hlen; lia|].
  assert (Hrow : length row = Z.to_nat (width e)).
  { apply (rectangular_rows _ _ _ _ Hrect). left. reflexivity. }
  pose proof (wf_width e Hwf) as Hw.
  destruct row as [|c row]; [cbn [length] in Hrow; lia|].
  cbn [emptyRowsLoop forallb]. 
  assert (Hc : cellIsZero c = false) by (destruct c; reflexivity).
  rewrite Hc. cbn [andb].
  destruct (Z.eqb_spec (Z.of_nat (length ((c :: row) :: rest))) 0) as [Hz|_];
    [cbn [length] in Hz; lia|].
  eexists. split; [reflexivity|]. reflexivity.
Qed.

Lemma calculatePlayerHealth_is_zero_witness :
  exists q, calculatePlayerHealth (Some freshEngine) = Some q /\ (q == 0)%Q.
Proof.
  apply (calculatePlayerHealth_is_zero freshEngine freshEngine_wf).
  vm_compute. reflexivity.
Defined.

(** ** Badges *)

Section BadgeLevels.

Variable divide : Q -> Q -> Q.

Lemma checkLevels_highest p t (met : Z -> bool) :
  (forall i, 1 <= i <= 4 -> Badges.meetsBadgeCondition divide p t i = Ok (met i)) ->
  (forall i j, 1 <= i <= j -> j <= 4 -> met j = true -> met i = true) ->
  exists l,
    Badges.checkBadgeLevel divide p t = Ok l /\ 0 <= l <= 4
    /\ forall i, 1 <= i <= 4 -> met i = (i <=? l).
Proof.
  intros Hmeets Hanti. unfold Badges.checkBadgeLevel. cbn [Badges.checkLevels].
  rewrite !Hmeets by lia. cbn [bindRes].
  assert (Hcases : forall i, 1 <= i <= 4 -> i = 1 \/ i = 2 \/ i = 3 \/ i = 4) by lia.
  assert (Hlevel : forall l, 0 <= l <= 4 ->
             (forall i, l < i <= 4 -> met i = false) ->
             (1 <= l -> met l = true) ->
             forall i, 1 <= i <= 4 -> met i = (i <=? l)).
  { intros l Hl Habove Hat i Hi. destruct (Z.leb_spec i l) as [Hle|Hgt].
    - exact (Hanti i l ltac:(lia) ltac:(lia) (Hat ltac:(lia))).
    - apply Habove. lia. }
  assert (Hfalse : forall l, 0 <= l <= 4 ->
             (forall k, k = 1 \/ k = 2 \/ k = 3 \/ k = 4 -> l < k -> met k = false) ->
             forall i, l < i <= 4 -> met i = false).
  { intros l Hl Hk i Hi. apply Hk; [apply Hcases|]; lia. }
  destruct (met 4) eqn:H4.
  { exists 4. split; [reflexivity|]. split; [lia|].
    apply Hlevel; [lia | intros; lia | intros _; exact H4]. }
  destruct (met 3) eqn:H3.
  { exists 3. split; [reflexivity|]. split; [lia|].
    apply Hlevel; [lia | | intros _; exact H3].
    apply Hfalse; [lia|]. intros k [->|[->|[->| ->]]] Hlt; try lia; assumption. }
  destruct (met 2) eqn:H2.
  { exists 2. split; [reflexivity|]. split; [lia|].
    apply Hlevel; [lia | | intros _; exact H2].
    apply Hfalse; [lia|]. intros k [->|[->|[->| ->]]] Hlt; try lia; assumption. }
  destruct (met 1) eqn:H1.
  { exists 1. split; [reflexivity|]. split; [lia|].
    apply Hlevel; [lia | | intros _; exact H1].
    apply Hfalse; [lia|]. intros k [->|[->|[->| ->]]] Hlt; try lia; assumption. }
  exists 0. split; [reflexivity|]. split; [lia|].
  apply Hlevel; [lia | | lia].
  apply Hfalse; [lia|]. intros k [->|[->|[->| ->]]] Hlt; try lia; assumption.
Qed.

Lemma condition_cases (i : Z) : 1 <= i <= 4 -> i = 1 \/ i = 2 \/ i = 3 \/ i = 4.
Proof. lia. Qed.

Lemma counter_levels (cond : Z -> option Z) (v : Z) :
  (cond 1 = Some 1 /\ cond 2 = Some 3 /\ cond 3 = Some 6 /\ cond 4 = Some 10)
  \/ (cond 1 = Some 10 /\ cond 2 = Some 25 /\ cond 3 = Some 50 /\ cond 4 = Some 100)
  \/ (cond 1 = Some 4 /\ cond 2 = Some 6 /\ cond 3 = Some 8 /\ cond 4 = Some 10) ->
  exists met : Z -> bool,
    (forall i, 1 <= i <= 4 ->
       match cond i with Some c => Ok (v >=? c) | None => TypeError end
       = Ok (met i))
    /\ (forall i c, 1 <= i <= 4 -> cond i = Some c -> met i = (v >=? c))
    /\ forall i j, 1 <= i <= j -> j <= 4 -> met j = true -> met i = true.
Proof.
  intros Hcond.
  exists (fun i => match cond i with Some c => v >=? c | None => false end).
  split; [|split].
  - intros i Hi.
    destruct (condition_cases i Hi) as [-> | [-> | [-> | ->]]];
      destruct Hcond as [(H1 & H2 & H3 & H4)|[(H1 & H2 & H3 & H4)|(H1 & H2 & H3 & H4)]];
      rewrite ?H1, ?H2, ?H3, ?H4; reflexivity.
  - intros i c Hi Hc. rewrite Hc. reflexivity.
  - intros i j Hij Hj Hmet.
    destruct (condition_cases i ltac:(lia)) as [-> | [-> | [-> | ->]]];
      destruct (condition_cases j ltac:(lia)) as [-> | [-> | [-> | ->]]]; try lia;
      destruct Hcond as [(H1 & H2 & H3 & H4)|[(H1 & H2 & H3 & H4)|(H1 & H2 & H3 & H4)]];
      rewrite ?H1, ?H2, ?H3, ?H4 in *;
      rewrite Z.geb_leb in *; apply Z.leb_le; apply Z.leb_le in Hmet; lia.
Qed.

(** X27.  [checkBadgeLevel] finds the highest level whose condition
    holds.  For a player with [stats] and each of the four badge types
    it returns a level between 0 and 4 and raises no error, and
    [meetsBadgeCondition] holds at a level from 1 to 4 exactly when that
    level is not above the one returned: the conditions of the lower
    levels hold with it. *)
Theorem checkBadgeLevel_highest_met (p : Badges.BadgePlayer)
  (s : Badges.PlayerStats) (t : Badges.BadgeType) :
  Badges.stats p = Some s ->
  exists l,
    Badges.checkBadgeLevel divide p t = Ok l /\ 0 <= l <= 4
    /\ forall i, 1 <= i <= 4 ->
         Badges.meetsBadgeCondition divide p t i = Ok (i <=? l).
Proof.
  intros Hs.
  assert (Hgen : exists met : Z -> bool,
             (forall i, 1 <= i <= 4 ->
                Badges.meetsBadgeCondition divide p t i = Ok (met i))
             /\ forall i j, 1 <= i <= j -> j <= 4 -> met j = true -> met i = true).
  { destruct t; unfold Badges.meetsBadgeCondition; rewrite Hs.
    - destruct (counter_levels Badges.koCountCondition (Badges.koCount s))
        as (met & Hm & _ & Ha); [left; repeat split|].
      exists met. split; assumption.
    - exists (fun i => match Badges.ppsCondition i with
                       | Some c => Qle_bool c (Badges.piecesPerSecond divide s)
                       | None => false
                       end).
      split.
      + intros i Hi. destruct (condition_cases i Hi) as [-> | [-> | [-> | ->]]];
          reflexivity.
      + intros i j Hij Hj Hmet.
        destruct (condition_cases i ltac:(lia)) as [-> | [-> | [-> | ->]]];
          destruct (condition_cases j ltac:(lia)) as [-> | [-> | [-> | ->]]]; try lia;
          try exact Hmet;
          cbn [Badges.ppsCondition] in *; apply Qle_bool_iff;
          apply Qle_bool_iff in Hmet;
          (eapply Qle_trans; [|exact Hmet]); discriminate.
    - destruct (counter_levels Badges.blockedAttacksCondition
                  (Badges.blockedAttacks s))
        as (met & Hm & _ & Ha); [right; left; repeat split|].
      exists met. split; assumption.
    - destruct (counter_levels Badges.maxComboCondition (Badges.maxCombo s))
        as (met & Hm & _ & Ha); [right; right; repeat split|].
      exists met. split; assumption. }
  destruct Hgen as (met & Hmeets & Hanti).
  destruct (checkLevels_highest p t met Hmeets Hanti) as (l & Hl & Hrange & Hiff).
  exists l. split; [exact Hl|]. split; [exact Hrange|].
  intros i Hi. rewrite (Hmeets i Hi), (Hiff i Hi). reflexivity.
Qed.

Lemma checkBadgeLevel_levels p s t :
  Badges.stats p = Some s ->
  exists l, Badges.checkBadgeLevel divide p t = Ok l /\ 0 <= l <= 4.
Proof.
  intros Hs.
  assert (Hm : forall i, 1 <= i <= 4 ->
             exists b, Badges.meetsBadgeCondition divide p t i = Ok b).
  { intros i Hi. unfold Badges.meetsBadgeCondition. rewrite Hs.
    destruct (condition_cases i Hi) as [-> | [-> | [-> | ->]]];
      destruct t; eexists; reflexivity. }
  unfold Badges.checkBadgeLevel. cbn [Badges.checkLevels].
  destruct (Hm 4 ltac:(lia)) as [b4 ->]. cbn [bindRes].
  destruct b4; [exists 4; split; [reflexivity | lia]|].
  destruct (Hm 3 ltac:(lia)) as [b3 ->]. cbn [bindRes].
  destruct b3; [exists 3; split; [reflexivity | lia]|].
  destruct (Hm 2 ltac:(lia)) as [b2 ->]. cbn [bindRes].
  destruct b2; [exists 2; split; [reflexivity | lia]|].
  destruct (Hm 1 ltac:(lia)) as [b1 ->]. cbn [bindRes].
  destruct b1; [exists 1; split; [reflexivity | lia]|].
  exists 0. split; [reflexivity | lia].
Qed.

Lemma BadgeType_eqb_spec a b : reflect (a = b) (Badges.BadgeType_eqb a b).
Proof. destruct a, b; constructor; congruence. Qed.

Lemma currentLevelOf_setBadge t t' l m :
  Badges.currentLevelOf t (Badges.setBadge t' l m)
  = if Badges.BadgeType_eqb t' t then l else Badges.currentLevelOf t m.
Proof.
  unfold Badges.currentLevelOf.
  induction m as [|[k v] m IH]; cbn [Badges.setBadge Badges.getBadge].
  - destruct (Badges.BadgeType_eqb t' t); reflexivity.
  - destruct (BadgeType_eqb_spec k t') as [->|Hkt'];
      cbn [Badges.getBadge].
    + destruct (Badges.BadgeType_eqb t' t); reflexivity.
    + destruct (BadgeType_eqb_spec k t) as [->|Hkt]; [|exact IH].
      destruct (BadgeType_eqb_spec t' t) as [->|_]; [congruence | reflexivity].
Qed.

Lemma checkBadgeLevel_stats p p' t :
  Badges.stats p = Badges.stats p' ->
  Badges.checkBadgeLevel divide p t = Badges.checkBadgeLevel divide p' t.
Proof.
  intros Hs. unfold Badges.checkBadgeLevel, Badges.checkLevels,
    Badges.meetsBadgeCondition. rewrite Hs. reflexivity.
Qed.

Lemma checkBadgeLevel_earned p s t :
  Badges.stats p = Some s ->
  Badges.checkBadgeLevel divide p t = Ok (earnedLevel divide p t)
  /\ 0 <= earnedLevel divide p t <= 4.
Proof.
  intros Hs.
  destruct (checkBadgeLevel_levels p s t Hs) as (l & Hl & Hr).
  unfold earnedLevel. rewrite Hl. split; [reflexivity | exact Hr].
Qed.

Lemma updateBadges_spec p s :
  Badges.stats p = Some s ->
  forall types m news, NoDup types ->
  exists m',
    Badges.updateBadges divide p types (m, news)
    = Ok (m', news ++ map (fun t => reported t (earnedLevel divide p t))
                        (List.filter
                           (fun t => earnedLevel divide p t
                                     >? Badges.currentLevelOf t m) types))
    /\ forall t,
         Badges.currentLevelOf t m'
         = if existsb (Badges.BadgeType_eqb t) types
           then Z.max (Badges.currentLevelOf t m) (earnedLevel divide p t)
           else Badges.currentLevelOf t m.
Proof.
  intros Hs. induction types as [|t0 types IH]; intros m news Hnd.
  - exists m. cbn [Badges.updateBadges List.filter map existsb].
    rewrite app_nil_r. split; [reflexivity|]. intros t. reflexivity.
  - apply NoDup_cons in Hnd as [Hnot Hnd].
    cbn [Badges.updateBadges]. unfold Badges.updateBadge at 1.
    rewrite (proj1 (checkBadgeLevel_earned p s t0 Hs)). cbn [bindRes fst snd].
    set (l0 := earnedLevel divide p t0).
    set (m1 := if l0 >? Badges.currentLevelOf t0 m
               then Badges.setBadge t0 l0 m else m).
    set (news1 := if l0 >? Badges.currentLevelOf t0 m
                  then news ++ [reported t0 l0] else news).
    assert (Hstep : (if l0 >? Badges.currentLevelOf t0 m
                     then Ok (Badges.setBadge t0 l0 m,
                              news ++ [ {| Badges.nbType := t0;
                                           Badges.nbLevel := l0;
                                           Badges.nbColor := Badges.badgeColors l0 |} ])
                     else Ok (m, news))
                    = Ok (m1, news1)).
    { unfold m1, news1. destruct (l0 >? _); reflexivity. }
    rewrite Hstep. cbn [bindRes].
    assert (Hm1 : forall t, Badges.currentLevelOf t m1
                            = if Badges.BadgeType_eqb t0 t
                              then Z.max (Badges.currentLevelOf t0 m) l0
                              else Badges.currentLevelOf t m).
    { intros t. unfold m1.
      destruct (Z.gtb_spec l0 (Badges.currentLevelOf t0 m)) as [Hgt|Hle].
      - rewrite currentLevelOf_setBadge.
        destruct (Badges.BadgeType_eqb t0 t); [lia | reflexivity].
      - destruct (BadgeType_eqb_spec t0 t) as [<-|_]; [lia | reflexivity]. }
    destruct (IH m1 news1 Hnd) as (m' & Hrun & Hlevels).
    exists m'. split.
    + rewrite Hrun. f_equal. f_equal.
      assert (Hfilter : List.filter
                          (fun t => earnedLevel divide p t
                                    >? Badges.currentLevelOf t m1) types
                        = List.filter
                            (fun t => earnedLevel divide p t
                                      >? Badges.currentLevelOf t m) types).
      { apply filter_ext_in. intros t Hin. rewrite Hm1.
        destruct (BadgeType_eqb_spec t0 t) as [<-|_]; [|reflexivity].
        exfalso. apply Hnot, list_elem_of_In, Hin. }
      rewrite Hfilter. cbn [List.filter]. fold l0. unfold news1.
      destruct (l0 >? Badges.currentLevelOf t0 m); cbn [map];
        [rewrite <- app_assoc|]; reflexivity.
    + intros t. rewrite Hlevels, Hm1. cbn [existsb].
      destruct (BadgeType_eqb_spec t t0) as [->|Hne].
      * destruct (BadgeType_eqb_spec t0 t0) as [_|]; [|congruence].
        cbn [orb].
        assert (Hnotb : existsb (Badges.BadgeType_eqb t0) types = false).
        { destruct (existsb _ types) eqn:Hex; [|reflexivity].
          apply existsb_exists in Hex as (t1 & Hin & Heq).
          destruct (BadgeType_eqb_spec t0 t1) as [<-|]; [|discriminate].
          exfalso. apply Hnot, list_elem_of_In, Hin. }
        rewrite Hnotb. reflexivity.
      * destruct (BadgeType_eqb_spec t0 t) as [->|_]; [congruence|].
        cbn [orb]. reflexivity.
Qed.

Lemma updateBadges_settled p s :
  Badges.stats p = Some s ->
  forall types m news,
    (forall t, In t types -> earnedLevel divide p t <= Badges.currentLevelOf t m) ->
    Badges.updateBadges divide p types (m, news) = Ok (m, news).
Proof.
  intros Hs. induction types as [|t0 types IH]; intros m news Hall;
    [reflexivity|].
  cbn [Badges.updateBadges]. unfold Badges.updateBadge at 1.
  rewrite (proj1 (checkBadgeLevel_earned p s t0 Hs)). cbn [bindRes fst snd].
  destruct (Z.gtb_spec (earnedLevel divide p t0) (Badges.currentLevelOf t0 m))
    as [Hgt|_].
  - specialize (Hall t0 (or_introl eq_refl)). lia.
  - cbn [bindRes]. apply IH. intros t Hin. apply Hall. right. exact Hin.
Qed.

Lemma badgeTypes_all t : existsb (Badges.BadgeType_eqb t) Badges.badgeTypes = true.
Proof. destruct t; reflexivity. Qed.

(** X28.  [updatePlayerBadges] only upgrades.  For every player object
    it completes; a player without [badges] or [stats] gets the empty
    ones.  Afterwards the level of each badge type is the larger of the
    level the player had and the level [checkBadgeLevel] finds, so no
    badge is lowered or lost; the badges it returns are those of the
    types whose level rose, in the order attacker, speed, defense, combo,
    with the new level and its color.  A second call on the result
    returns no badge and changes nothing. *)
Theorem updatePlayerBadges_only_upgrades (p : Badges.BadgePlayer) :
  let before :=
    match Badges.badges p with Some m => m | None => [] end in
  exists news m' s,
    Badges.updatePlayerBadges divide p
    = Ok (news, {| Badges.badges := Some m'; Badges.stats := Some s |})
    /\ s = match Badges.stats p with Some s0 => s0 | None => Badges.zeroStats end
    /\ (forall t,
          exists l,
            Badges.checkBadgeLevel divide
              {| Badges.badges := Some m'; Badges.stats := Some s |} t = Ok l
            /\ 0 <= l <= 4
            /\ Badges.currentLevelOf t m'
               = Z.max (Badges.currentLevelOf t before) l)
    /\ news
       = map (fun t =>
                reported t
                  (earnedLevel divide
                     {| Badges.badges := Some m'; Badges.stats := Some s |} t))
           (List.filter
              (fun t =>
                 earnedLevel divide
                   {| Badges.badges := Some m'; Badges.stats := Some s |} t
                 >? Badges.currentLevelOf t before)
              Badges.badgeTypes)
    /\ Badges.updatePlayerBadges divide
         {| Badges.badges := Some m'; Badges.stats := Some s |}
       = Ok ([], {| Badges.badges := Some m'; Badges.stats := Some s |}).
Proof.
  cbv zeta.
  set (m0 := match Badges.badges p with Some m => m | None => [] end).
  set (s0 := match Badges.stats p with
             | Some s0 => s0 | None => Badges.zeroStats end).
  set (p1 := {| Badges.badges := Some m0; Badges.stats := Some s0 |}).
  assert (Hnd : NoDup Badges.badgeTypes).
  { unfold Badges.badgeTypes.
    repeat (apply NoDup_cons; split;
            [intros H; apply list_elem_of_In in H; cbn in H;
             intuition discriminate|]).
    apply NoDup_nil_2. }
  destruct (updateBadges_spec p1 s0 eq_refl Badges.badgeTypes m0 [] Hnd)
    as (m' & Hrun & Hlevels).
  set (p2 := {| Badges.badges := Some m'; Badges.stats := Some s0 |}).
  assert (Hearned : forall t, earnedLevel divide p2 t = earnedLevel divide p1 t).
  { intros t. unfold earnedLevel.
    rewrite (checkBadgeLevel_stats p2 p1 t eq_refl). reflexivity. }
  exists (map (fun t => reported t (earnedLevel divide p1 t))
            (List.filter
               (fun t => earnedLevel divide p1 t >? Badges.currentLevelOf t m0)
               Badges.badgeTypes)), m', s0.
  split; [|split; [reflexivity|split; [|split]]].
  - unfold Badges.updatePlayerBadges. fold m0 s0 p1. rewrite Hrun.
    reflexivity.
  - intros t. exists (earnedLevel divide p2 t).
    destruct (checkBadgeLevel_earned p2 s0 t eq_refl) as [Hcheck Hrange].
    split; [exact Hcheck|]. split; [exact Hrange|].
    rewrite Hlevels, badgeTypes_all, Hearned. reflexivity.
  - symmetry.
    erewrite filter_ext by (intros t; rewrite Hearned; reflexivity).
    erewrite map_ext by (intros t; rewrite Hearned; reflexivity).
    reflexivity.
  - unfold Badges.updatePlayerBadges. cbn [Badges.badges Badges.stats].
    fold p2.
    rewrite (updateBadges_settled p2 s0 eq_refl Badges.badgeTypes m' []).
    + reflexivity.
    + intros t _. rewrite Hlevels, badgeTypes_all, Hearned. lia.
Qed.

End BadgeLevels.

Lemma checkBadgeLevel_highest_met_witness :
  exists l,
    Badges.checkBadgeLevel Qdiv veteran Badges.SPEED = Ok l /\ 0 <= l <= 4
    /\ forall i, 1 <= i <= 4 ->
         Badges.meetsBadgeCondition Qdiv veteran Badges.SPEED i = Ok (i <=? l).
Proof.
  eapply (checkBadgeLevel_highest_met Qdiv veteran _ Badges.SPEED).
  reflexivity.
Defined.

(** ** What the move search reads in the store *)

Lemma cellReads_agree h h' v c : agree h h' -> cellReads h v c -> cellReads h' v c.
Proof.
  intros Hag. destruct v as [|l], c as [cell|]; try exact id.
  intros H. apply Hag, H.
Qed.

Lemma rowReads_agree n0 b h h' v row :
  agree h h' -> rowReads n0 b h v row -> rowReads n0 b h' v row.
Proof.
  intros Hag. destruct v as [|r]; [exact id|].
  intros (Hn & Hb & elems & Hr & Hcells).
  split; [exact Hn|]. split; [exact Hb|]. exists elems.
  split; [apply Hag, Hr|].
  eapply Forall2_impl; [exact Hcells|]. intros u c. apply cellReads_agree, Hag.
Qed.

Lemma boardReads_agree n0 h h' b bd :
  agree h h' -> boardReads n0 h b bd -> boardReads n0 h' b bd.
Proof.
  intros Hag (Hn & rows & Hb & Hnd & Hrows).
  split; [exact Hn|]. exists rows. split; [apply Hag, Hb|].
  split; [exact Hnd|].
  eapply Forall2_impl; [exact Hrows|]. intros v row. apply rowReads_agree, Hag.
Qed.

Lemma rowReads_other n0 b b' (h : Heap) v row :
  (length h <= b')%nat -> rowReads n0 b h v row -> rowReads n0 b' h v row.
Proof.
  intros Hb'. destruct v as [|r]; [exact id|].
  intros (Hn & _ & elems & Hr & Hrest).
  pose proof (lookup_lt_Some _ _ _ Hr).
  split; [exact Hn|]. split; [lia|]. exists elems. split; assumption.
Qed.

Lemma cellReads_insert (h : Heap) l old new v c :
  h !! l = Some (OArray old) ->
  cellReads h v c -> cellReads (<[l := OArray new]> h) v c.
Proof.
  intros Hl. destruct v as [|k], c as [cell|]; try exact id.
  intros Hk. cbn [cellReads] in *.
  rewrite list_lookup_insert_ne by congruence. exact Hk.
Qed.

Lemma readCells_reads h elems row :
  Forall2 (cellReads h) elems row -> mapH readCell elems h = Ok (row, h).
Proof.
  induction 1 as [|v c elems row Hv _ IH]; [reflexivity|].
  assert (Hc : readCell v h = Ok (c, h)).
  { destruct v as [|l], c as [cell|]; cbn [cellReads] in Hv;
      try contradiction; [reflexivity|].
    cbn [readCell]. unfold bindH, load. rewrite Hv. reflexivity. }
  cbn [mapH]. runH Hc. runH IH. reflexivity.
Qed.

Lemma readRow_reads n0 b h v row :
  rowReads n0 b h v row -> readRow v h = Ok (row, h).
Proof.
  destruct v as [|r]; [intros []|].
  intros (_ & _ & elems & Hr & Hcells).
  cbn [readRow]. runH (loadArray_at _ _ _ Hr). exact (readCells_reads _ _ _ Hcells).
Qed.

Lemma readRows_reads n0 b h rows bd :
  Forall2 (rowReads n0 b h) rows bd -> mapH readRow rows h = Ok (bd, h).
Proof.
  induction 1 as [|v row rows bd Hv _ IH]; [reflexivity|].
  cbn [mapH]. runH (readRow_reads _ _ _ _ _ Hv). runH IH. reflexivity.
Qed.

Lemma readBoard_reads n0 h b bd :
  boardReads n0 h b bd -> readBoard b h = Ok (bd, h).
Proof.
  intros (_ & rows & Hb & _ & Hrows). unfold readBoard.
  runH (loadArray_at _ _ _ Hb). exact (readRows_reads _ _ _ _ _ Hrows).
Qed.

Lemma readCells_cells elems : forall h row h',
  mapH readCell elems h = Ok (row, h') -> Forall2 (cellReads h) elems row.
Proof.
  induction elems as [|v elems IH]; intros h row h' H; cbn [mapH] in H.
  - injection H as <- <-. constructor.
  - apply bindH_Ok in H as (c & h1 & Hc & H).
    apply bindH_Ok in H as (row1 & h2 & Hrow & H). injection H as <- <-.
    destruct (reads_readCell v h c h1 Hc) as [-> _].
    constructor; [|exact (IH _ _ _ Hrow)].
    destruct v as [|l]; cbn [readCell] in Hc.
    + injection Hc as <-. exact I.
    + unfold bindH, load in Hc.
      destruct (h !! l) as [[| cell | |]|] eqn:Hl; try discriminate Hc.
      injection Hc as <-. exact Hl.
Qed.

(** *** The copy reads as the board of the engine *)

Lemma copyRows_reads n0 rows : forall h bd h',
  (n0 <= length h)%nat ->
  mapH readRow rows h = Ok (bd, h') ->
  exists rows1 h1,
    mapH copyRow rows h = Ok (rows1, h1)
    /\ keeps n0 h h1 /\ agree h h1
    /\ Forall (fun v => exists r, v = Ref r /\ (length h <= r < length h1)%nat)
         rows1
    /\ NoDup rows1
    /\ forall b, (length h1 <= b)%nat -> Forall2 (rowReads n0 b h1) rows1 bd.
Proof.
  induction rows as [|v rows IH]; intros h bd h' Hn H; cbn [mapH] in H.
  - injection H as <- <-. exists [], h. split; [reflexivity|].
    split; [apply keeps_refl|]. split; [apply agree_refl|].
    split; [constructor|]. split; [apply NoDup_nil_2|]. intros b _. constructor.
  - apply bindH_Ok in H as (row & h1 & Hrow & H).
    apply bindH_Ok in H as (bd1 & h2 & Hbd & H). injection H as <- <-.
    destruct (reads_readRow v h row h1 Hrow) as [-> _].
    destruct v as [|r]; [discriminate Hrow|]. cbn [readRow] in Hrow.
    apply bindH_Ok in Hrow as (elems & h1 & Hr & Hcells).
    apply loadArray_inv in Hr as [Hr ->].
    pose proof (readCells_cells _ _ _ _ Hcells) as Hgood.
    set (h1 := h ++ [OArray elems]).
    assert (Hag1 : agree h h1) by apply agree_app.
    assert (Hbd1 : mapH readRow rows h1 = Ok (bd1, h1)).
    { exact (proj2 (reads_mapH readRow rows reads_readRow _ _ _ Hbd) _ Hag1). }
    assert (Hlen1 : length h1 = Datatypes.S (length h)).
    { unfold h1. rewrite length_app. cbn [length]. lia. }
    destruct (IH h1 bd1 h1 ltac:(lia) Hbd1)
      as (rows1 & h3 & Hcopy & Hk & Hag & Hrefs & Hnd & Hrows).
    assert (Hcr : copyRow (Ref r) h = Ok (Ref (length h), h1)).
    { cbn [copyRow]. runH (loadArray_at _ _ _ Hr). reflexivity. }
    pose proof (agree_length _ _ Hag) as Hlen3.
    exists (Ref (length h) :: rows1), h3. cbn [mapH]. runH Hcr. runH Hcopy.
    split; [reflexivity|].
    split; [exact (keeps_trans _ _ _ _ (keeps_app n0 h _ Hn) Hk)|].
    split; [exact (agree_trans _ _ _ Hag1 Hag)|].
    split; [|split].
    + constructor; [exists (length h); split; [reflexivity | lia]|].
      eapply Forall_impl; [exact Hrefs|]. intros v (r1 & -> & Hr1).
      exists r1. split; [reflexivity | lia].
    + apply NoDup_cons. split; [|exact Hnd].
      intros Hin. rewrite Forall_forall in Hrefs.
      destruct (Hrefs _ Hin) as (r1 & Heq & Hr1). injection Heq as <-. lia.
    + intros b Hb. constructor; [|exact (Hrows b Hb)].
      split; [exact Hn|]. split; [lia|]. exists elems.
      split; [apply Hag; unfold h1; apply alloc_lookup|].
      eapply Forall2_impl; [exact Hgood|]. intros u c.
      apply cellReads_agree, (agree_trans _ _ _ Hag1 Hag).
Qed.

Lemma copyBoard_reads n0 h b bd :
  (n0 <= length h)%nat -> readBoard b h = Ok (bd, h) ->
  exists tb h1,
    copyBoard b h = Ok (tb, h1) /\ keeps n0 h h1 /\ agree h h1
    /\ boardReads n0 h1 tb bd.
Proof.
  intros Hn Hread. unfold readBoard in Hread.
  apply bindH_Ok in Hread as (rows & h1 & Hb & Hrows).
  apply loadArray_inv in Hb as [Hb ->].
  destruct (copyRows_reads n0 rows h bd h Hn Hrows)
    as (rows1 & h1 & Hcopy & Hk & Hag & _ & Hnd & Hfresh).
  exists (length h1), (h1 ++ [OArray rows1]).
  unfold copyBoard. runH (loadArray_at _ _ _ Hb). runH Hcopy.
  split; [reflexivity|].
  pose proof (keeps_length _ _ _ Hk) as Hlen1.
  split; [exact (keeps_trans _ _ _ _ Hk (keeps_app n0 h1 _ ltac:(lia)))|].
  split; [exact (agree_trans _ _ _ Hag (agree_app _ _))|].
  split; [lia|]. exists rows1. split; [apply alloc_lookup|].
  split; [exact Hnd|].
  eapply Forall2_impl; [exact (Hfresh (length h1) (Nat.le_refl _))|].
  intros v row. apply rowReads_agree, agree_app.
Qed.

(** *** Placing the piece on the copy *)

Lemma placeBlockAt_reads n0 e g p h tb bd blk :
  widthOf g = width e -> heightOf g = height e ->
  boardReads n0 h tb bd -> rectangular (width e) (height e) bd = true ->
  exists h' bd',
    placeBlockAt g p tb blk h = Ok (tt, h') /\ keeps n0 h h'
    /\ placeBlock e (cellOf p) bd blk = Ok bd'
    /\ boardReads n0 h' tb bd'
    /\ rectangular (width e) (height e) bd' = true.
Proof.
  intros Hgw Hgh Hboard Hrect. unfold placeBlockAt, placeBlock.
  rewrite Hgw, Hgh.
  destruct (_ && _) eqn:Hin.
  2:{ exists h, bd. split; [reflexivity|]. split; [apply keeps_refl|].
      split; [reflexivity|]. split; assumption. }
  apply andb_true_iff in Hin as [Hin Hx2]. apply andb_true_iff in Hin as [Hin Hx1].
  apply andb_true_iff in Hin as [Hy1 Hy2].
  rewrite Z.geb_leb in Hy1, Hx1. apply Z.leb_le in Hy1, Hx1.
  apply Z.ltb_lt in Hy2, Hx2.
  fold (cellOf p).
  set (h1 := h ++ [OCell (cellOf p)]).
  assert (Hag1 : agree h h1) by apply agree_app.
  assert (Hn' : (n0 <= length h)%nat).
  { destruct Hboard as (Hn & rows0 & Htb0 & _).
    pose proof (lookup_lt_Some _ _ _ Htb0). lia. }
  destruct (boardReads_agree _ _ _ _ _ Hag1 Hboard)
    as (Hn & rows & Htb & Hnd & Hrows).
  pose proof (Forall2_length _ _ _ Hrows) as Hlen.
  pose proof (rectangular_length _ _ _ Hrect) as Hlenbd.
  set (iy := Z.to_nat (by_ blk)). set (ix := Z.to_nat (bx blk)).
  destruct (lookup_lt_is_Some_2 rows iy ltac:(unfold iy; lia)) as [v Hv].
  destruct (lookup_lt_is_Some_2 bd iy ltac:(unfold iy; lia)) as [row Hrow].
  assert (Hgetv : js_get rows (by_ blk) = Some v).
  { unfold js_get. destruct (Z.ltb_spec (by_ blk) 0); [lia | exact Hv]. }
  assert (Hgetr : js_get bd (by_ blk) = Some row).
  { unfold js_get. destruct (Z.ltb_spec (by_ blk) 0); [lia | exact Hrow]. }
  pose proof (Forall2_lookup_lr _ _ _ _ _ _ Hrows Hv Hrow) as Hreads.
  destruct v as [|r]; [destruct Hreads|].
  destruct Hreads as (Hnr & Hne & elems & Hr & Hcells).
  assert (Halloc : alloc (OCell (cellOf p)) h = Ok (length h, h1)) by reflexivity.
  runH Halloc. runH (loadArray_at _ _ _ Htb). rewrite Hgetv, Hgetr.
  runH (loadArray_at _ _ _ Hr).
  pose proof (lookup_lt_Some _ _ _ Hr) as Hrlt.
  unfold store. destruct (Nat.ltb_spec r (length h1)) as [_|]; [|lia].
  set (elems' := js_set elems (bx blk) (Ref (length h))).
  set (row' := js_set row (bx blk) (Some (cellOf p))).
  set (h2 := <[r := OArray elems']> h1).
  exists h2, (js_set bd (by_ blk) row').
  split; [reflexivity|].
  split; [exact (keeps_trans _ _ _ _ (keeps_app n0 h _ Hn') (keeps_insert _ _ _ _ Hnr))|].
  split; [reflexivity|].
  assert (Hrowlen : length row = Z.to_nat (width e)).
  { apply (rectangular_rows _ _ _ _ Hrect), list_elem_of_In.
    exact (list_elem_of_lookup_2 _ _ _ Hrow). }
  split.
  2:{ apply rectangular_js_set; [exact Hrect|]. unfold row'.
      rewrite js_set_length. exact Hrowlen. }
  assert (Hcell : forall u c, cellReads h1 u c -> cellReads h2 u c).
  { intros u c. exact (cellReads_insert _ _ _ _ _ _ Hr). }
  split; [exact Hn|]. exists rows.
  split; [unfold h2; rewrite list_lookup_insert_ne by congruence; exact Htb|].
  split; [exact Hnd|].
  unfold js_set at 1. destruct (Z.ltb_spec (by_ blk) 0) as [?|_]; [lia|].
  fold iy.
  apply Forall2_same_length_lookup_2; [rewrite length_insert; exact Hlen|].
  intros i v1 row1 Hv1 Hrow1.
  destruct (decide (i = iy)) as [->|Hi].
  - rewrite Hv in Hv1. injection Hv1 as <-.
    rewrite list_lookup_insert_eq in Hrow1 by (unfold iy; lia).
    injection Hrow1 as <-.
    split; [exact Hnr|]. split; [exact Hne|]. exists elems'.
    split; [unfold h2; apply list_lookup_insert_eq; exact Hrlt|].
    unfold elems', row', js_set.
    destruct (Z.ltb_spec (bx blk) 0) as [?|_]; [lia|].
    apply Forall2_insert.
    + eapply Forall2_impl; [exact Hcells | exact Hcell].
    + cbn [cellReads]. unfold h2.
      rewrite list_lookup_insert_ne.
      * unfold h1. apply alloc_lookup.
      * intros ->. unfold h1 in Hr. rewrite alloc_lookup in Hr. discriminate Hr.
  - rewrite list_lookup_insert_ne in Hrow1 by congruence.
    pose proof (Forall2_lookup_lr _ _ _ _ _ _ Hrows Hv1 Hrow1) as Hold.
    destruct v1 as [|r1]; [destruct Hold|].
    destruct Hold as (Hn1 & Hne1 & elems1 & Hr1 & Hcells1).
    assert (Hrr : r1 <> r).
    { intros ->. apply Hi. exact (NoDup_lookup _ _ _ _ Hnd Hv1 Hv). }
    split; [exact Hn1|]. split; [exact Hne1|]. exists elems1.
    split; [unfold h2; rewrite list_lookup_insert_ne by congruence; exact Hr1|].
    eapply Forall2_impl; [exact Hcells1 | exact Hcell].
Qed.

Lemma filterRows_reads n0 b h rows bd :
  Forall2 (rowReads n0 b h) rows bd ->
  exists kept,
    filterRowsH rows h = Ok (kept, h)
    /\ Forall2 (rowReads n0 b h) kept (List.filter notFull bd)
    /\ (forall v, v ∈ kept -> v ∈ rows)
    /\ (NoDup rows -> NoDup kept).
Proof.
  induction 1 as [|v row rows bd Hv _ (kept & Hkept & Hreads & Hsub & Hnd)].
  - exists []. split; [reflexivity|]. split; [constructor|].
    split; [intros v Hv; exact Hv | intros _; apply NoDup_nil_2].
  - exists (if negb (rowFull row) then v :: kept else kept).
    cbn [filterRowsH]. runH (readRow_reads _ _ _ _ _ Hv). runH Hkept.
    split; [reflexivity|]. cbn [List.filter]. unfold notFull at 1.
    destruct (negb (rowFull row)).
    + split; [constructor; assumption|]. split.
      * intros u Hu. apply elem_of_cons in Hu as [->|Hu];
          [left | right; apply Hsub, Hu].
      * intros Hnd1. apply NoDup_cons in Hnd1 as [Hnot Hnd1].
        apply NoDup_cons. split; [|exact (Hnd Hnd1)].
        intros Hin. apply Hnot, Hsub, Hin.
    + split; [exact Hreads|]. split.
      * intros u Hu. right. apply Hsub, Hu.
      * intros Hnd1. apply NoDup_cons in Hnd1 as [_ Hnd1]. exact (Hnd Hnd1).
Qed.

Lemma replicate_end {A} (j : nat) (x : A) (l : list A) :
  replicate j x ++ x :: l = replicate (Datatypes.S j) x ++ l.
Proof.
  induction j as [|j IH]; [reflexivity|].
  cbn [replicate app] in *. rewrite IH. reflexivity.
Qed.

Section Scores.

Variables (h0 : Heap) (ge : nat) (e : Engine) (g : EngineObj).
Hypothesis Hwf : wfEngine e.
Hypothesis Hge : loadEngine ge h0 = Ok (g, h0).
Hypothesis Hgw : widthOf g = width e.
Hypothesis Hgh : heightOf g = height e.
Hypothesis Hbd : readBoard (boardRef g) h0 = Ok (board e, h0).

Lemma forEach_placeBlock_reads p tb blocks : forall h bd,
  agree h0 h -> boardReads (length h0) h tb bd ->
  rectangular (width e) (height e) bd = true ->
  exists h' bd',
    forEachH (placeBlockH ge p tb) blocks h = Ok (tt, h')
    /\ agree h0 h'
    /\ placeBlocks e (cellOf p) bd blocks = Ok bd'
    /\ boardReads (length h0) h' tb bd'
    /\ rectangular (width e) (height e) bd' = true.
Proof.
  induction blocks as [|blk blocks IH]; intros h bd Hag Hboard Hrect.
  - exists h, bd. split; [reflexivity|]. split; [exact Hag|].
    split; [reflexivity|]. split; assumption.
  - destruct (placeBlockAt_reads _ e g p h tb bd blk Hgw Hgh Hboard Hrect)
      as (h1 & bd1 & Hplace & Hk & Hpure & Hb1 & Hrect1).
    pose proof (keeps_agree _ _ _ Hag Hk) as Hag1.
    destruct (IH h1 bd1 Hag1 Hb1 Hrect1) as (h2 & bd2 & Hrest & Hag2 & Hpure2 & Hb2).
    exists h2, bd2. cbn [forEachH placeBlocks].
    assert (Hstep : placeBlockH ge p tb blk h = Ok (tt, h1)).
    { unfold placeBlockH. runH (loadEngine_stable _ _ _ Hge h Hag). exact Hplace. }
    runH Hstep. rewrite Hpure. cbn [bindRes].
    split; [exact Hrest|]. split; [exact Hag2|]. split; assumption.
Qed.

Lemma unshiftLoop_reads nb fuel : forall h bdk,
  agree h0 h -> boardReads (length h0) h nb bdk ->
  (length bdk <= Z.to_nat (height e))%nat ->
  (Z.to_nat (height e) - length bdk + 1 <= fuel)%nat ->
  exists h',
    unshiftLoop fuel ge nb h = Ok (tt, h') /\ agree h0 h'
    /\ boardReads (length h0) h' nb
         (replicate (Z.to_nat (height e) - length bdk) (emptyRow e) ++ bdk).
Proof.
  pose proof (wf_height e Hwf) as Hh.
  induction fuel as [|fuel IH]; intros h bdk Hag Hboard Hk Hfuel; [lia|].
  pose proof Hboard as (Hn & rows & Hnb & Hnd & Hrows).
  pose proof (Forall2_length _ _ _ Hrows) as Hlen.
  cbn [unshiftLoop]. runH (loadArray_at _ _ _ Hnb).
  runH (loadEngine_stable _ _ _ Hge h Hag). rewrite Hgh, Hgw.
  destruct (Z.ltb_spec (Z.of_nat (length rows)) (height e)) as [Hlt|Hge'].
  - set (row := OArray (replicate (Z.to_nat (width e)) Null)).
    set (h1 := h ++ [row]).
    assert (Halloc : alloc row h = Ok (length h, h1)) by reflexivity.
    runH Halloc.
    pose proof (lookup_lt_Some _ _ _ Hnb) as Hnblt.
    assert (Hnb1 : h1 !! nb = Some (OArray rows)) by (apply agree_app, Hnb).
    set (h2 := <[nb := OArray (Ref (length h) :: rows)]> h1).
    assert (Hstore : store nb (OArray (Ref (length h) :: rows)) h1 = Ok (tt, h2)).
    { unfold store. destruct (Nat.ltb_spec nb (length h1)) as [_|Hbad];
        [reflexivity|]. unfold h1 in Hbad. rewrite length_app in Hbad. lia. }
    runH Hstore.
    assert (Hcell : forall u c, cellReads h u c -> cellReads h2 u c).
    { intros u c Hu. apply (cellReads_insert _ _ rows); [exact Hnb1|].
      exact (cellReads_agree _ _ _ _ (agree_app _ _) Hu). }
    assert (Hboard2 : boardReads (length h0) h2 nb (emptyRow e :: bdk)).
    { split; [exact Hn|]. exists (Ref (length h) :: rows).
      split; [apply list_lookup_insert_eq, (lookup_lt_Some _ _ _ Hnb1)|].
      split.
      - apply NoDup_cons. split; [|exact Hnd].
        intros Hin. apply list_elem_of_lookup in Hin as [i Hi].
        destruct (Forall2_lookup_l _ _ _ _ _ Hrows Hi) as (row1 & _ & Hr1).
        destruct Hr1 as (_ & _ & elems & Hl & _).
        pose proof (lookup_lt_Some _ _ _ Hl). lia.
      - constructor.
        + split; [lia|]. split; [lia|].
          exists (replicate (Z.to_nat (width e)) Null).
          split; [unfold h2; rewrite list_lookup_insert_ne by lia;
                  unfold h1; apply alloc_lookup|].
          unfold emptyRow. apply Forall2_replicate. exact I.
        + eapply Forall2_impl; [exact Hrows|]. intros v row1 Hv.
          destruct v as [|r1]; [destruct Hv|].
          destruct Hv as (Hn1 & Hne1 & elems & Hr1 & Hcells).
          split; [exact Hn1|]. split; [exact Hne1|]. exists elems.
          split; [unfold h2; rewrite list_lookup_insert_ne by congruence;
                  apply agree_app, Hr1|].
          eapply Forall2_impl; [exact Hcells | exact Hcell]. }
    destruct (IH h2 (emptyRow e :: bdk)) as (h3 & Hloop & Hag3 & Hb3).
    + apply agree_insert; [|exact Hn].
      exact (agree_trans _ _ _ Hag (agree_app _ _)).
    + exact Hboard2.
    + cbn [length]. lia.
    + cbn [length]. lia.
    + exists h3. split; [exact Hloop|]. split; [exact Hag3|].
      cbn [length] in Hb3. rewrite replicate_end in Hb3.
      replace (Datatypes.S (Z.to_nat (height e) - Datatypes.S (length bdk)))
        with (Z.to_nat (height e) - length bdk)%nat in Hb3 by lia.
      exact Hb3.
  - exists h. split; [reflexivity|]. split; [exact Hag|].
    replace (Z.to_nat (height e) - length bdk)%nat with 0%nat by lia.
    exact Hboard.
Qed.

Lemma removeClearedLinesH_reads fuel tb h bd :
  agree h0 h -> boardReads (length h0) h tb bd ->
  length bd = Z.to_nat (height e) ->
  (Z.to_nat (height e) + 1 <= fuel)%nat ->
  exists nb h',
    removeClearedLinesH fuel ge tb h = Ok (nb, h') /\ agree h0 h'
    /\ boardReads (length h0) h' nb (compacted e bd).
Proof.
  intros Hag (Hn & rows & Htb & Hnd & Hrows) Hlen Hfuel.
  destruct (filterRows_reads _ _ _ _ _ Hrows) as (kept & Hkept & Hreads & _ & Hndk).
  pose proof (lookup_lt_Some _ _ _ Htb) as Htblt.
  pose proof (length_filter_split bd) as Hsplit.
  set (h1 := h ++ [OArray kept]).
  assert (Halloc : alloc (OArray kept) h = Ok (length h, h1)) by reflexivity.
  assert (Hboard : boardReads (length h0) h1 (length h) (List.filter notFull bd)).
  { split; [lia|]. exists kept. split; [apply alloc_lookup|].
    split; [exact (Hndk Hnd)|].
    eapply Forall2_impl; [exact Hreads|]. intros v row Hv.
    apply (rowReads_agree _ _ h); [apply agree_app|].
    exact (rowReads_other _ tb _ _ _ _ (Nat.le_refl _) Hv). }
  destruct (unshiftLoop_reads (length h) fuel h1 (List.filter notFull bd)
              (agree_trans _ _ _ Hag (agree_app _ _)) Hboard ltac:(lia) ltac:(lia))
    as (h2 & Hloop & Hag2 & Hb2).
  exists (length h), h2. unfold removeClearedLinesH.
  runH (loadArray_at _ _ _ Htb). runH Hkept. runH Halloc. runH Hloop.
  split; [reflexivity|]. split; [exact Hag2 | exact Hb2].
Qed.

Lemma compacted_rectangular bd :
  rectangular (width e) (height e) bd = true ->
  rectangular (width e) (height e) (compacted e bd) = true.
Proof.
  intros Hrect. unfold compacted, emptyRow.
  pose proof (length_filter_split bd) as Hsplit.
  pose proof (rectangular_length _ _ _ Hrect) as Hlen.
  replace (Z.to_nat (height e) - length (List.filter notFull bd))%nat
    with (length (List.filter rowFull bd)) by lia.
  exact (rectangular_compact _ _ _ Hrect).
Qed.

Lemma evaluatePositionH_score fuel a tp p h :
  agree h0 h -> h !! tp = Some (OPiece p) -> validPiece p ->
  (Z.to_nat (height e) + 1 <= fuel)%nat ->
  exists score0 h',
    evaluatePositionH fuel a ge tp h = Ok (score0, h')
    /\ positionScore a e p = Ok score0.
Proof.
  intros Hag Htp Hp Hfuel.
  pose proof (wf_height e Hwf) as Hh.
  pose proof (wf_board e Hwf) as Hrect.
  destruct (copyBoard_reads (length h0) h (boardRef g) (board e)
              (agree_length _ _ Hag) (readBoard_stable _ _ _ Hbd h Hag))
    as (tb & h1 & Hcopy & Hk1 & Hag01 & Hb1).
  pose proof (keeps_agree _ _ _ Hag Hk1) as Hag1.
  destruct (getBlocks_valid p Hp) as (s & _ & Hblocks).
  destruct (forEach_placeBlock_reads p tb (blocksOf s (x p) (y p)) h1 (board e)
              Hag1 Hb1 Hrect)
    as (h2 & bd1 & Hplace & Hag2 & Hpure & Hb2 & Hrect2).
  destruct (removeClearedLinesH_reads fuel tb h2 bd1 Hag2 Hb2
              (rectangular_length _ _ _ Hrect2) Hfuel)
    as (nb & h3 & Hremove & Hag3 & Hb3).
  pose proof (compacted_rectangular bd1 Hrect2) as Hrect3.
  destruct (measures_run _ _ _ Hrect3 Hh) as (holes & bump & agg & Hho & Hbu & Hagg).
  unfold evaluatePositionH.
  runH (loadEngine_stable _ _ _ Hge h Hag). runH Hcopy.
  runH (loadPiece_at _ _ _ (Hag01 _ _ Htp)).
  runH (liftRes_run _ _ h1 Hblocks). runH Hplace.
  runH (readBoard_reads _ _ _ _ Hb2). runH Hremove.
  runH (readBoard_reads _ _ _ _ Hb3). rewrite Hgw, Hgh.
  runH (liftRes_run _ _ h3 Hho). runH (liftRes_run _ _ h3 Hbu).
  runH (liftRes_run _ _ h3 Hagg).
  runH (readBoard_stable _ _ _ Hbd h3 Hag3).
  eexists _, _. split; [reflexivity|].
  unfold positionScore. rewrite Hblocks. cbn [bindRes]. rewrite Hpure.
  cbn [bindRes]. unfold scoreOf. rewrite Hho, Hbu, Hagg. cbn [bindRes].
  rewrite countClearedLines_count. reflexivity.
Qed.

End Scores.

Lemma placeBlocks_dims e e' cell blocks : forall bd,
  width e' = width e -> height e' = height e ->
  placeBlocks e' cell bd blocks = placeBlocks e cell bd blocks.
Proof.
  induction blocks as [|b blocks IH]; intros bd Hw Hh; [reflexivity|].
  cbn [placeBlocks]. unfold placeBlock. rewrite Hw, Hh.
  destruct (_ && _); [|cbn [bindRes]; exact (IH bd Hw Hh)].
  destruct (js_get bd (by_ b)); cbn [bindRes]; [|reflexivity].
  exact (IH _ Hw Hh).
Qed.

(** The score of [evaluatePosition] is the score of the position. *)
Lemma evaluatePosition_positionScore fuel a e p :
  wfEngine e -> validPiece p -> (Z.to_nat (height e) + 1 <= fuel)%nat ->
  exists score0,
    evaluatePosition fuel a e p = Ok score0 /\ positionScore a e p = Ok score0.
Proof.
  intros Hwf Hp Hfuel. unfold evaluatePosition.
  destruct (allocEngine_runs e []) as (ge & h0 & Halloc).
  destruct (allocEngine_reads _ _ _ _ Halloc) as (b & cp & Hge & Hbd & _).
  runH Halloc.
  assert (Hpiece : alloc (OPiece p) h0 = Ok (length h0, h0 ++ [OPiece p]))
    by reflexivity.
  runH Hpiece.
  destruct (evaluatePositionH_score h0 ge e _ Hwf Hge eq_refl eq_refl Hbd
              fuel a (length h0) p (h0 ++ [OPiece p])
              (agree_app _ _) (alloc_lookup _ _) Hp Hfuel)
    as (score0 & h' & Hrun & Hscore).
  rewrite Hrun. exists score0. split; [reflexivity | exact Hscore].
Qed.

(** X29.  [evaluatePosition(piece)] scores what [lockPiece()] would
    leave.  On an engine in order, for a piece in a rotation state of its
    shape table, it returns a score and raises no error; the board it
    measures (height, holes, bumpiness, aggregate height, perfect clear)
    is the board of the engine after [lockPiece()] with the piece at that
    place, and the number of lines it squares is the number of lines that
    lock clears.  The T-spin bonus is taken on the board before the
    lock. *)
Theorem evaluatePosition_scores_the_lock (fuel : nat) (a : AIParams)
  (e : Engine) (p : TetrisPiece) :
  wfEngine e -> validPiece p -> (Z.to_nat (height e) + 1 <= fuel)%nat ->
  exists e' score0,
    lockPiece (set_currentPiece (Some p) e) = Ok e'
    /\ scoreOf a (width e) (height e) (lines e' - lines e) (board e')
         (board e) p = Ok score0
    /\ evaluatePosition fuel a e p = Ok score0.
Proof.
  intros Hwf Hp Hfuel.
  destruct (evaluatePosition_positionScore fuel a e p Hwf Hp Hfuel)
    as (score0 & Hrun & Hscore).
  assert (Hwf' : wfEngine (set_currentPiece (Some p) e)).
  { destruct Hwf as [Hw Hh Hb Hc Hn]. constructor; assumption. }
  destruct (lockPiece_runs _ p Hwf' eq_refl)
    as (blocks & bd1 & e' & Hblocks & Hplace & Hrect & Hlock & Hk).
  cbv zeta in Hk. destruct Hk as (Hboard & Hlines & _).
  exists e', score0. split; [exact Hlock|]. split; [|exact Hrun].
  unfold positionScore in Hscore. rewrite Hblocks in Hscore.
  cbn [bindRes] in Hscore.
  rewrite (placeBlocks_dims e (set_currentPiece (Some p) e) _ _ _ eq_refl eq_refl)
    in Hplace.
  change (board (set_currentPiece (Some p) e)) with (board e) in Hplace.
  rewrite Hplace in Hscore. cbn [bindRes] in Hscore.
  assert (Hb : board e' = compacted e bd1).
  { rewrite Hboard. unfold compacted, fullRowCount.
    pose proof (length_filter_split bd1) as Hsplit.
    pose proof (rectangular_length _ _ _ Hrect) as Hlen.
    change (height (set_currentPiece (Some p) e)) with (height e) in Hlen.
    rewrite Nat2Z.id.
    replace (Z.to_nat (height e) - length (List.filter notFull bd1))%nat
      with (length (List.filter rowFull bd1)) by lia.
    reflexivity. }
  assert (Hl : lines e' - lines e = fullRowCount bd1).
  { rewrite Hlines. change (lines (set_currentPiece (Some p) e)) with (lines e).
    lia. }
  rewrite Hb, Hl. exact Hscore.
Qed.

Lemma evaluatePosition_scores_the_lock_witness :
  exists e' score0,
    lockPiece
      (set_currentPiece
         (Some {| ptype := Ty.I; x := -2; y := 16; rotation := 1 |}) tetrisReady)
    = Ok e'
    /\ scoreOf mediumParams (width tetrisReady) (height tetrisReady)
         (lines e' - lines tetrisReady) (board e') (board tetrisReady)
         {| ptype := Ty.I; x := -2; y := 16; rotation := 1 |} = Ok score0
    /\ evaluatePosition 30 mediumParams tetrisReady
         {| ptype := Ty.I; x := -2; y := 16; rotation := 1 |} = Ok score0
    /\ score0 = 14.700000000000001%float.
Proof.
  destruct (evaluatePosition_scores_the_lock 30 mediumParams tetrisReady
              {| ptype := Ty.I; x := -2; y := 16; rotation := 1 |})
    as (e' & score0 & Hlock & Hsum & Hrun).
  - exact tetrisReady_wf.
  - vm_compute. split; congruence.
  - vm_compute. lia.
  - exists e', score0. split; [exact Hlock|]. split; [exact Hsum|].
    split; [exact Hrun|].
    assert (Hval : evaluatePosition 30 mediumParams tetrisReady
                     {| ptype := Ty.I; x := -2; y := 16; rotation := 1 |}
                   = Ok 14.700000000000001%float)
      by (vm_compute; reflexivity).
    rewrite Hrun in Hval. injection Hval as ->. reflexivity.
Defined.

(** ** The move search keeps the best score *)

Lemma foldH_bound {A B} (f : B -> A -> HM B) (I : B -> Heap -> Prop)
  (R : B -> B -> Prop) (Q : A -> B -> Prop) (P : A -> Prop) :
  (forall b, R b b) ->
  (forall b1 b2 b3, R b1 b2 -> R b2 b3 -> R b1 b3) ->
  (forall a b b', Q a b -> R b b' -> Q a b') ->
  (forall b a h b' h', P a -> I b h -> f b a h = Ok (b', h') ->
     I b' h' /\ R b b' /\ Q a b') ->
  forall l, Forall P l ->
  forall b h b' h', I b h -> foldH f l b h = Ok (b', h') ->
    I b' h' /\ R b b' /\ Forall (fun a => Q a b') l.
Proof.
  intros Hrefl Htrans Hmono Hstep l Hall.
  induction Hall as [|a l Ha _ IH]; intros b h b' h' Hi Hrun.
  - injection Hrun as <- <-. split; [exact Hi|]. split; [apply Hrefl | constructor].
  - cbn [foldH] in Hrun. apply bindH_Ok in Hrun as (b1 & h1 & H1 & H2).
    destruct (Hstep _ _ _ _ _ Ha Hi H1) as (Hi1 & Hr1 & Hq1).
    destruct (IH _ _ _ _ Hi1 H2) as (Hi2 & Hr2 & Hq2).
    split; [exact Hi2|]. split; [exact (Htrans _ _ _ Hr1 Hr2)|].
    constructor; [exact (Hmono _ _ _ Hq1 Hr2) | exact Hq2].
Qed.

(** *** The order of the scores *)

(** [<] on binary64 numbers is irreflexive and transitive (with [NaN]
    below and above nothing). *)
Lemma SFltb_irrefl x : SFltb x x = false.
Proof.
  unfold SFltb, SFcompare.
  change PosDef.Pos.compare_cont with Pos.compare_cont.
  change (Pos.compare_cont Eq) with Pos.compare.
  destruct x as [s|s| |s m e]; try destruct s; try reflexivity;
    rewrite Z.compare_refl, Pos.compare_refl; reflexivity.
Qed.

Lemma finite_lt_trans (e1 e2 e3 : Z) (m1 m2 m3 : positive) :
  match e1 ?= e2 with Eq => Pos.compare m1 m2 | Lt => Lt | Gt => Gt end = Lt ->
  match e2 ?= e3 with Eq => Pos.compare m2 m3 | Lt => Lt | Gt => Gt end = Lt ->
  match e1 ?= e3 with Eq => Pos.compare m1 m3 | Lt => Lt | Gt => Gt end = Lt.
Proof.
  destruct (Z.compare_spec e1 e2), (Z.compare_spec e2 e3), (Z.compare_spec e1 e3);
    try discriminate; try lia; try reflexivity.
  rewrite !Pos.compare_lt_iff. lia.
Qed.

Lemma finite_gt_trans (e1 e2 e3 : Z) (m1 m2 m3 : positive) :
  match e1 ?= e2 with
  | Eq => CompOpp (Pos.compare m1 m2) | Lt => Gt | Gt => Lt
  end = Lt ->
  match e2 ?= e3 with
  | Eq => CompOpp (Pos.compare m2 m3) | Lt => Gt | Gt => Lt
  end = Lt ->
  match e1 ?= e3 with
  | Eq => CompOpp (Pos.compare m1 m3) | Lt => Gt | Gt => Lt
  end = Lt.
Proof.
  destruct (Z.compare_spec e1 e2), (Z.compare_spec e2 e3), (Z.compare_spec e1 e3);
    try discriminate; try lia; try reflexivity.
  destruct (Pos.compare_spec m1 m2), (Pos.compare_spec m2 m3),
    (Pos.compare_spec m1 m3);
    cbn; try discriminate; try lia; try reflexivity.
Qed.

Lemma SFltb_trans x y z :
  SFltb x y = true -> SFltb y z = true -> SFltb x z = true.
Proof.
  assert (Hlt : forall c,
             match c with Lt => true | _ => false end = true -> c = Lt)
    by (intros []; congruence).
  unfold SFltb, SFcompare.
  change PosDef.Pos.compare_cont with Pos.compare_cont.
  change (Pos.compare_cont Eq) with Pos.compare.
  destruct x as [sx|sx| |sx mx ex], y as [sy|sy| |sy my ey],
    z as [sz|sz| |sz mz ez];
    try destruct sx; try destruct sy; try destruct sz;
    try discriminate; try reflexivity;
    intros H1 H2; apply Hlt in H1, H2.
  - rewrite (finite_gt_trans ex ey ez mx my mz H1 H2). reflexivity.
  - rewrite (finite_lt_trans ex ey ez mx my mz H1 H2). reflexivity.
Qed.

Lemma ltb_irrefl (x : float) : PrimFloat.ltb x x = false.
Proof. rewrite FloatAxioms.ltb_spec. apply SFltb_irrefl. Qed.

Lemma ltb_trans (x y z : float) :
  PrimFloat.ltb x y = true -> PrimFloat.ltb y z = true ->
  PrimFloat.ltb x z = true.
Proof. rewrite !FloatAxioms.ltb_spec. apply SFltb_trans. Qed.

(** The first comparison of a search, [score > -Infinity], is true of
    every finite score, as [scoreGt] has it. *)
Lemma scoreGt_first (score : float) :
  PrimFloat.is_finite score = true ->
  scoreGt score None = PrimFloat.ltb neg_infinity score.
Proof.
  unfold PrimFloat.is_finite, PrimFloat.is_nan, PrimFloat.is_infinity, scoreGt.
  rewrite !FloatAxioms.eqb_spec, FloatAxioms.abs_spec, FloatAxioms.ltb_spec.
  change (Prim2SF neg_infinity) with (S754_infinity true).
  change (Prim2SF infinity) with (S754_infinity false).
  destruct (Prim2SF score) as [s|s| |s m e]; try destruct s; try reflexivity;
    cbn; discriminate.
Qed.

(** The weights are the binary64 numbers nearest to the decimals of the
    source: [-0.7] is [-0x1.6666666666666p-1] and [-0.2] is
    [-0x1.999999999999ap-3]. *)
Example mediumParams_weights :
  Prim2SF (heightWeight mediumParams)
  = S754_finite true 0x16666666666666 (-53)
  /\ Prim2SF (holesWeight mediumParams) = S754_finite true 0x10000000000000 (-53)
  /\ Prim2SF (bumpinessWeight mediumParams)
     = S754_finite true 0x1999999999999a (-55).
Proof. vm_compute. repeat split; reflexivity. Qed.

Section Best.

Variables (h0 : Heap) (ge : nat) (e : Engine) (g : EngineObj) (cp : nat)
  (cur : TetrisPiece) (a : AIParams) (fuel : nat).
Hypothesis Hwf : wfEngine e.
Hypothesis Hge : loadEngine ge h0 = Ok (g, h0).
Hypothesis Hgw : widthOf g = width e.
Hypothesis Hgh : heightOf g = height e.
Hypothesis Hbd : readBoard (boardRef g) h0 = Ok (board e, h0).
Hypothesis Hcur : loadPiece cp h0 = Ok (cur, h0).
Hypothesis Hfuel : (Z.to_nat (height e) + 1 <= fuel)%nat.

(** One turn of the inner loop: where the candidate lands, and what
    becomes of the best move. *)
Lemma tryPlacement_walk rot best x0 h best' h' :
  agree h0 h -> 0 <= rot < shapeLength cur ->
  tryPlacement fuel a ge cp rot best x0 h = Ok (best', h') ->
  agree h0 h'
  /\ exists d,
      0 <= d
      /\ (forall k, 0 <= k < d -> isColliding e (candidate cur rot x0 k) = Ok false)
      /\ isColliding e (candidate cur rot x0 d) = Ok true
      /\ ((isColliding e (candidate cur rot x0 (d - 1)) = Ok true /\ best' = best)
          \/ (isColliding e (candidate cur rot x0 (d - 1)) = Ok false
              /\ exists score0,
                  positionScore a e (candidate cur rot x0 (d - 1)) = Ok score0
                  /\ best'
                     = if scoreGt score0 best.2
                       then (Some {| mx := x0; my := d - 1; mrotation := rot;
                                     mscore := score0 |}, Some score0)
                       else best)).
Proof.
  intros Hag Hrot Hrun.
  split.
  { pose proof (framed_tryPlacement (length h0) fuel a ge cp rot best x0 h
                  (agree_length _ _ Hag) I best' h' Hrun) as [Hk _].
    exact (keeps_agree _ _ _ Hag Hk). }
  unfold tryPlacement in Hrun.
  apply bindH_Ok in Hrun as (tp & h1 & Hclone & Hrun).
  unfold cloneH in Hclone.
  rewrite (bindH_run _ _ _ _ _ (loadPiece_stable _ _ _ Hcur h Hag)) in Hclone.
  unfold alloc in Hclone. injection Hclone as <- <-.
  set (tp := length h) in *.
  assert (Hn : (length h0 <= tp)%nat) by exact (agree_length _ _ Hag).
  pose proof (alloc_lookup h (OPiece (clone cur))) as Htp1. fold tp in Htp1.
  pose proof (agree_trans _ _ _ Hag (agree_app h (OPiece (clone cur)))) as Hag1.
  rewrite (bindH_run _ _ _ _ _ (modifyPiece_at _ tp _ (set_rotation rot) Htp1))
    in Hrun.
  pose proof (lookup_insert_piece _ _ _ (OPiece (set_rotation rot (clone cur))) Htp1)
    as Htp2.
  pose proof (agree_insert _ _ tp (OPiece (set_rotation rot (clone cur))) Hag1 Hn)
    as Hag2.
  rewrite (bindH_run _ _ _ _ _ (modifyPiece_at _ tp _ (set_x x0) Htp2)) in Hrun.
  pose proof (lookup_insert_piece _ _ _
                (OPiece (set_x x0 (set_rotation rot (clone cur)))) Htp2) as Htp3.
  pose proof (agree_insert _ _ tp
                (OPiece (set_x x0 (set_rotation rot (clone cur)))) Hag2 Hn) as Hag3.
  rewrite (bindH_run _ _ _ _ _ (modifyPiece_at _ tp _ (set_y 0) Htp3)) in Hrun.
  change (set_y 0 (set_x x0 (set_rotation rot (clone cur))))
    with (candidate cur rot x0 0) in Hrun.
  pose proof (lookup_insert_piece _ _ _ (OPiece (candidate cur rot x0 0)) Htp3)
    as Htp4.
  pose proof (agree_insert _ _ tp (OPiece (candidate cur rot x0 0)) Hag3 Hn)
    as Hag4.
  apply bindH_Ok in Hrun as ([] & h5 & Hdrop & Hrun).
  destruct (dropTestPiece_stops _ _ _ _ Hge Hbd fuel tp _ _ h5 Hag4 Hn Htp4 Hdrop)
    as (d & Hd & Hag5 & Htp5 & Hhit & Hfree).
  assert (Hpd : forall k, set_y (y (candidate cur rot x0 0) + k) (candidate cur rot x0 0)
                          = candidate cur rot x0 k).
  { intros k. apply piece_eq; cbn [set_y candidate ptype x y rotation];
      try reflexivity; lia. }
  rewrite Hpd in Htp5, Hhit. rewrite Hgw, Hgh in Hhit.
  rewrite (bindH_run _ _ _ _ _
             (modifyPiece_at _ tp _ (fun p => set_y (y p - 1) p) Htp5)) in Hrun.
  change (set_y (y (candidate cur rot x0 d) - 1) (candidate cur rot x0 d))
    with (candidate cur rot x0 (d - 1)) in Hrun.
  pose proof (lookup_insert_piece _ _ _ (OPiece (candidate cur rot x0 (d - 1))) Htp5)
    as Htp6.
  pose proof (agree_insert _ _ tp (OPiece (candidate cur rot x0 (d - 1))) Hag5 Hn)
    as Hag6.
  unfold bindH at 1 in Hrun.
  rewrite (isCollidingH_at _ _ _ _ Hge Hbd _ tp _ Hag6 Htp6), Hgw, Hgh in Hrun.
  unfold liftRes in Hrun.
  exists d. split; [exact Hd|]. split.
  { intros k Hk. specialize (Hfree k Hk). rewrite Hpd, Hgw, Hgh in Hfree.
    exact Hfree. }
  split; [exact Hhit|].
  change (collides (width e) (height e) (board e) (candidate cur rot x0 (d - 1)))
    with (isColliding e (candidate cur rot x0 (d - 1))) in Hrun.
  destruct (isColliding e (candidate cur rot x0 (d - 1))) as [[]| |] eqn:Hland;
    try discriminate Hrun.
  - injection Hrun as <- _. left. split; reflexivity.
  - right. split; [reflexivity|].
    apply bindH_Ok in Hrun as (score0 & h7 & Heval & Hrun).
    assert (Hvalid : validPiece (candidate cur rot x0 (d - 1))) by exact Hrot.
    destruct (evaluatePositionH_score h0 ge e g Hwf Hge Hgw Hgh Hbd fuel a tp
                (candidate cur rot x0 (d - 1)) _ Hag6 Htp6 Hvalid Hfuel)
      as (score1 & h7' & Heval1 & Hscore).
    rewrite Heval in Heval1. injection Heval1 as <- <-.
    exists score0. split; [exact Hscore|].
    destruct (scoreGt score0 best.2); [|injection Hrun as <- _; reflexivity].
    apply bindH_Ok in Hrun as (p & h8 & Hload & Hrun).
    pose proof (framed_evaluatePositionH _ fuel a ge tp _ (Nat.le_refl _) I
                  score0 h7 Heval) as [[_ Hk] _].
    apply loadPiece_inv in Hload as [Hload _].
    rewrite (Hk tp (lookup_lt_Some _ _ _ Htp6)), Htp6 in Hload.
    injection Hload as <-. injection Hrun as <- _. reflexivity.
Qed.

Lemma tryPlacement_keeps_best rot best x0 h best' h' :
  0 <= rot < shapeLength cur ->
  agree h0 h /\ bestScored a e cur best ->
  tryPlacement fuel a ge cp rot best x0 h = Ok (best', h') ->
  (agree h0 h' /\ bestScored a e cur best')
  /\ notBelow best best' /\ outscored a e cur rot x0 best'.
Proof.
  intros Hrot [Hag Hbest] Hrun.
  destruct (tryPlacement_walk rot best x0 h best' h' Hag Hrot Hrun)
    as (Hag' & d & Hd & Hfree & Hhit & Hcases).
  assert (Hunique : forall yy, searchLanding e cur rot x0 yy -> yy = d - 1).
  { intros yy (Hyy & Hfree' & _ & Hhit').
    destruct (Z.lt_trichotomy (yy + 1) d) as [Hlt|[Heq|Hgt]]; [|lia|].
    - rewrite (Hfree (yy + 1) ltac:(lia)) in Hhit'. discriminate Hhit'.
    - rewrite (Hfree' d ltac:(lia)) in Hhit. discriminate Hhit. }
  assert (Hrefl : notBelow best best).
  { intros b Hb. exists b. split; [exact Hb | left; reflexivity]. }
  destruct Hcases as [[Hland ->]|(Hland & score0 & Hscore & ->)].
  - split; [split; assumption|]. split; [exact Hrefl|].
    intros yy Hyy. pose proof (Hunique yy Hyy) as ->.
    destruct Hyy as (_ & _ & Hfree' & _). rewrite Hland in Hfree'.
    discriminate Hfree'.
  - assert (Hlanding : searchLanding e cur rot x0 (d - 1)).
    { split; [lia|]. split; [intros k Hk; apply Hfree; lia|].
      split; [exact Hland|]. replace (d - 1 + 1) with d by lia. exact Hhit. }
    destruct best as [bm [b|]]; cbn [snd scoreGt].
    + destruct (PrimFloat.ltb b score0) eqn:Hlt.
      * split; [split; [exact Hag'|]|split].
        -- cbn [bestScored mscore mrotation mx my].
           split; [reflexivity|]. split; [exact Hrot|].
           split; [exact Hlanding | exact Hscore].
        -- intros b0 Hb0. cbn [snd] in Hb0. injection Hb0 as <-.
           exists score0. split; [reflexivity|]. right. exact Hlt.
        -- intros yy Hyy. rewrite (Hunique yy Hyy).
           exists score0, score0. split; [exact Hscore|].
           split; [reflexivity | apply ltb_irrefl].
      * split; [split; assumption|]. split; [exact Hrefl|].
        intros yy Hyy. rewrite (Hunique yy Hyy).
        exists score0, b. split; [exact Hscore|]. split; [reflexivity|].
        exact Hlt.
    + split; [split; [exact Hag'|]|split].
      * cbn [bestScored mscore mrotation mx my].
        split; [reflexivity|]. split; [exact Hrot|].
        split; [exact Hlanding | exact Hscore].
      * intros b0 Hb0. discriminate Hb0.
      * intros yy Hyy. rewrite (Hunique yy Hyy).
        exists score0, score0. split; [exact Hscore|].
        split; [reflexivity | apply ltb_irrefl].
Qed.

Lemma notBelow_trans b1 b2 b3 : notBelow b1 b2 -> notBelow b2 b3 -> notBelow b1 b3.
Proof.
  intros H12 H23 b Hb. destruct (H12 b Hb) as (b' & Hb' & Hle).
  destruct (H23 b' Hb') as (b'' & Hb'' & Hle').
  exists b''. split; [exact Hb''|].
  destruct Hle as [->|Hlt]; [exact Hle'|].
  destruct Hle' as [->|Hlt']; right; [exact Hlt|].
  exact (ltb_trans _ _ _ Hlt Hlt').
Qed.

Lemma outscored_mono rot x0 b b' :
  outscored a e cur rot x0 b -> notBelow b b' -> outscored a e cur rot x0 b'.
Proof.
  intros Hout Hnb yy Hyy. destruct (Hout yy Hyy) as (s & b0 & Hs & Hb0 & Hle).
  destruct (Hnb b0 Hb0) as (b1 & Hb1 & Hle1).
  exists s, b1. split; [exact Hs|]. split; [exact Hb1|].
  destruct Hle1 as [->|Hlt]; [exact Hle|].
  destruct (PrimFloat.ltb b1 s) eqn:Hlt1; [|reflexivity].
  rewrite (ltb_trans _ _ _ Hlt Hlt1) in Hle. discriminate Hle.
Qed.

Lemma findBestMoveH_best m h' :
  currentPieceRef g = Ref cp ->
  findBestMoveH fuel a ge h0 = Ok (Some m, h') ->
  bestScored a e cur (Some m, Some (mscore m))
  /\ forall rot x0, 0 <= rot < shapeLength cur -> -2 <= x0 < width e + 2 ->
       outscored a e cur rot x0 (Some m, Some (mscore m)).
Proof.
  intros Hcp Hrun. unfold findBestMoveH in Hrun.
  rewrite (bindH_run _ _ _ _ _ Hge), Hcp, (bindH_run _ _ _ _ _ Hcur) in Hrun.
  apply bindH_Ok in Hrun as (best & h1 & Hfold & Hret).
  injection Hret as Hm _.
  set (xs := zrange (-2) (Z.to_nat (widthOf g + 4))) in *.
  set (Inv := fun (b : option Move * option float) (h : Heap) =>
              agree h0 h /\ bestScored a e cur b).
  assert (Hinner : forall b rot h b' h2,
             0 <= rot < shapeLength cur -> Inv b h ->
             foldH (tryPlacement fuel a ge cp rot) xs b h = Ok (b', h2) ->
             Inv b' h2 /\ notBelow b b'
             /\ Forall (fun x0 => outscored a e cur rot x0 b') xs).
  { intros b rot h b' h2 Hrot Hi Hrun.
    refine (foldH_bound _ Inv notBelow (outscored a e cur rot) (fun _ => True)
              _ notBelow_trans (outscored_mono rot) _ xs _ b h b' h2 Hi Hrun).
    - intros b0 b1 Hb1. exists b1. split; [exact Hb1 | left; reflexivity].
    - intros b0 x0 h3 b1 h4 _ Hi3 Htry.
      exact (tryPlacement_keeps_best rot b0 x0 h3 b1 h4 Hrot Hi3 Htry).
    - apply List.Forall_forall. intros; exact I. }
  assert (Hrefl : forall b0, notBelow b0 b0).
  { intros b0 b1 Hb1. exists b1. split; [exact Hb1 | left; reflexivity]. }
  assert (Hmono : forall rot b b',
             Forall (fun x0 => outscored a e cur rot x0 b) xs -> notBelow b b' ->
             Forall (fun x0 => outscored a e cur rot x0 b') xs).
  { intros rot b b' Hall Hnb. eapply Forall_impl; [exact Hall|].
    intros x0 Hout. exact (outscored_mono rot x0 b b' Hout Hnb). }
  assert (Hrots : Forall (fun rot => 0 <= rot < shapeLength cur)
                    (zrange 0 (length (shape cur)))).
  { eapply Forall_impl; [apply zrange_bounds|]. cbv beta.
    intros rot Hr. unfold shapeLength. lia. }
  destruct (foldH_bound _ Inv notBelow
              (fun rot b => Forall (fun x0 => outscored a e cur rot x0 b) xs)
              (fun rot => 0 <= rot < shapeLength cur)
              Hrefl notBelow_trans Hmono
              (fun b rot h b' h2 Hrot Hi Hrun => Hinner b rot h b' h2 Hrot Hi Hrun)
              (zrange 0 (length (shape cur))) Hrots
              (None, None) h0 best h1 (conj (agree_refl h0) I) Hfold)
    as ([_ Hbest] & _ & Hall).
  destruct best as [bm bs]. cbn [fst] in Hm. subst bm.
  destruct bs as [b|]; [|destruct Hbest].
  pose proof Hbest as (-> & _). split; [exact Hbest|].
  intros rot x0 Hrot Hx.
  assert (Hr : In rot (zrange 0 (length (shape cur))))
    by (apply zrange_In; unfold shapeLength in Hrot; lia).
  assert (Hx0 : In x0 xs) by (apply zrange_In; lia).
  rewrite List.Forall_forall in Hall. specialize (Hall rot Hr).
  rewrite List.Forall_forall in Hall. exact (Hall x0 Hx0).
Qed.

End Best.

(** X30.  [findBestMove()] returns the best candidate.  The move it
    returns is a place where the search drops the piece, its [score] is
    the number [evaluatePosition] gives there, and no rotation state and
    column the search visits comes to rest at a place that
    [evaluatePosition] scores higher: [move.score < s] is false for the
    score [s] of every candidate, in the arithmetic and the comparison of
    binary64 numbers that the code uses. *)
Theorem findBestMove_picks_the_best (fuel : nat) (a : AIParams) (e : Engine)
  (cur : TetrisPiece) (m : Move) :
  wfEngine e -> currentPiece e = Some cur ->
  (Z.to_nat (height e) + 1 <= fuel)%nat ->
  findBestMove fuel a e = Ok (Some m) ->
  searchLanding e cur (mrotation m) (mx m) (my m)
  /\ evaluatePosition fuel a e (placedAt cur m) = Ok (mscore m)
  /\ forall rot x0 yy,
       0 <= rot < shapeLength cur -> -2 <= x0 < width e + 2 ->
       searchLanding e cur rot x0 yy ->
       exists s, evaluatePosition fuel a e (candidate cur rot x0 yy) = Ok s
                 /\ PrimFloat.ltb (mscore m) s = false.
Proof.
  intros Hwf Hcur Hfuel Hrun. unfold findBestMove in Hrun.
  destruct (bindH _ _ _) as [[m' h']| |] eqn:Hsearch; try discriminate Hrun.
  injection Hrun as ->.
  apply bindH_Ok in Hsearch as (ge & h0 & Halloc & Hsearch).
  destruct (allocEngine_reads _ _ _ _ Halloc) as (b & p & Hge & Hbd & Hp).
  rewrite Hcur in Hp. destruct Hp as (cp & -> & Hpiece).
  destruct (findBestMoveH_best h0 ge e _ cp cur a fuel Hwf Hge eq_refl eq_refl
              Hbd Hpiece Hfuel m h' eq_refl Hsearch)
    as ((_ & Hrot & Hland & Hscore) & Hall).
  assert (Hsame : forall p s, validPiece p -> positionScore a e p = Ok s ->
                              evaluatePosition fuel a e p = Ok s).
  { intros p s Hp Hs.
    destruct (evaluatePosition_positionScore fuel a e p Hwf Hp Hfuel)
      as (s' & Hrun' & Hs').
    rewrite Hs in Hs'. injection Hs' as <-. exact Hrun'. }
  split; [exact Hland|]. split; [exact (Hsame (placedAt cur m) _ Hrot Hscore)|].
  intros rot x0 yy Hr Hx Hyy.
  destruct (Hall rot x0 Hr Hx yy Hyy) as (s & b0 & Hs & Hb0 & Hle).
  cbn [snd] in Hb0. injection Hb0 as <-.
  exists s. split; [exact (Hsame (candidate cur rot x0 yy) _ Hr Hs) | exact Hle].
Qed.

(** On [unevenRows] the J piece in rotation 1 has heights, holes,
    bumpiness and aggregate height (4, 9, 10, 33) in column -1 and
    (5, 8, 10, 32) in column 6: the sums of the code are
    -15.900000000000002 and -15.9, and the search, which meets the first
    place first, returns the second. *)
Lemma findBestMove_picks_the_best_witness :
  exists m,
    findBestMove 30 mediumParams unevenRows = Ok (Some m)
    /\ m = {| mx := 6; my := 14; mrotation := 1; mscore := -15.9 |}
    /\ evaluatePosition 30 mediumParams unevenRows
         (candidate (newTetrisPiece0 Ty.J) 1 (-1) 15)
       = Ok (-15.900000000000002)%float
    /\ evaluatePosition 30 mediumParams unevenRows
         (placedAt (newTetrisPiece0 Ty.J) m)
       = Ok (mscore m)
    /\ forall rot x0 yy,
         0 <= rot < 4 -> -2 <= x0 < 12 ->
         searchLanding unevenRows (newTetrisPiece0 Ty.J) rot x0 yy ->
         exists s,
           evaluatePosition 30 mediumParams unevenRows
             (candidate (newTetrisPiece0 Ty.J) rot x0 yy) = Ok s
           /\ PrimFloat.ltb (mscore m) s = false.
Proof.
  assert (H : { m | findBestMove 30 mediumParams unevenRows = Ok (Some m) })
    by (eexists; vm_compute; reflexivity).
  destruct H as [m H]. exists m. split; [exact H|].
  split; [vm_compute in H; injection H as <-; reflexivity|].
  split; [vm_compute; reflexivity|].
  assert (Hwf : wfEngine unevenRows) by solve_wfEngine.
  exact (proj2 (findBestMove_picks_the_best 30 mediumParams unevenRows
                  (newTetrisPiece0 Ty.J) m
                  Hwf eq_refl ltac:(vm_compute; lia) H)).
Defined.
